(** * Serime: a shallow embedding of the encoder/decoder pair

    The development follows the TypeScript sources
    ([Serializer], [Deserializer], [SerializedBlockInfo], [Type],
    [Bitflag], the two flag enums and the token table).  JavaScript
    strings are sequences of UTF-16 code units; the object graph is an
    explicit heap of objects addressed by position; the private fields
    of the two classes are records threaded through a small
    state-and-exception monad. *)

From Stdlib Require Import ZArith NArith List String Ascii Lia Bool DecimalN.
From stdpp Require Import base option list gmap.
Import ListNotations.

Local Open Scope Z_scope.

(* ------------------------------------------------------------------ *)
(** ** JavaScript strings *)

Module JSString.

(** A string is its sequence of UTF-16 code units. *)
Definition jsstring := list N.

(** Literals are written as Rocq strings and read through [str]. *)
Definition str (s : string) : jsstring :=
  map N_of_ascii (list_ascii_of_string s).

Definition unit_eqb (a b : N) : bool := N.eqb a b.

Fixpoint string_eqb (a b : jsstring) : bool :=
  match a, b with
  | [], [] => true
  | x :: a', y :: b' => unit_eqb x y && string_eqb a' b'
  | _, _ => false
  end.

(** [String.prototype.startsWith]. *)
Fixpoint startsWith (s prefix : jsstring) {struct prefix} : bool :=
  match prefix, s with
  | [], _ => true
  | p :: prefix', c :: s' => unit_eqb p c && startsWith s' prefix'
  | _ :: _, [] => false
  end.

(** [String.prototype.indexOf]: first position of [pat], or [-1]. *)
Fixpoint indexOf_from (pat s : jsstring) (i : Z) : Z :=
  if startsWith s pat then i
  else match s with
       | [] => -1
       | _ :: s' => indexOf_from pat s' (i + 1)
       end.

Definition indexOf (s pat : jsstring) : Z := indexOf_from pat s 0.

(** [String.prototype.lastIndexOf]: last position of [pat], or [-1]. *)
Fixpoint lastIndexOf_from (pat s : jsstring) (i last : Z) : Z :=
  let last' := if startsWith s pat then i else last in
  match s with
  | [] => last'
  | _ :: s' => lastIndexOf_from pat s' (i + 1) last'
  end.

Definition lastIndexOf (s pat : jsstring) : Z := lastIndexOf_from pat s 0 (-1).

Definition includes (s pat : jsstring) : bool := negb (indexOf s pat =? -1).

(** Relative index of [String.prototype.slice]: negative counts
    from the end, and the result is clamped to [0 .. length]. *)
Definition clamp_index (len i : Z) : Z :=
  if i <? 0 then Z.max (len + i) 0 else Z.min i len.

Definition slice (s : jsstring) (from to : Z) : jsstring :=
  let len := Z.of_nat (length s) in
  let a := clamp_index len from in
  let b := clamp_index len to in
  firstn (Z.to_nat (b - a)) (skipn (Z.to_nat a) s).

(** [s.slice(from)]. *)
Definition slice_from (s : jsstring) (from : Z) : jsstring :=
  slice s from (Z.of_nat (length s)).

(** [String.prototype.split] on a one-unit separator. *)
Fixpoint split_go (sep : N) (s cur : jsstring) : list jsstring :=
  match s with
  | [] => [rev cur]
  | c :: s' => if unit_eqb c sep then rev cur :: split_go sep s' []
               else split_go sep s' (c :: cur)
  end.

Definition split (s : jsstring) (sep : N) : list jsstring := split_go sep s [].

Fixpoint join (sep : jsstring) (parts : list jsstring) : jsstring :=
  match parts with
  | [] => []
  | [p] => p
  | p :: rest => p ++ sep ++ join sep rest
  end.

(** *** Decimal numerals *)

Definition is_digit (c : N) : bool := (N.leb 48 c && N.leb c 57)%N.

Fixpoint uint_units (u : Decimal.uint) : jsstring :=
  match u with
  | Decimal.Nil => []
  | Decimal.D0 u => 48%N :: uint_units u
  | Decimal.D1 u => 49%N :: uint_units u
  | Decimal.D2 u => 50%N :: uint_units u
  | Decimal.D3 u => 51%N :: uint_units u
  | Decimal.D4 u => 52%N :: uint_units u
  | Decimal.D5 u => 53%N :: uint_units u
  | Decimal.D6 u => 54%N :: uint_units u
  | Decimal.D7 u => 55%N :: uint_units u
  | Decimal.D8 u => 56%N :: uint_units u
  | Decimal.D9 u => 57%N :: uint_units u
  end.

(** The text a non-negative integer takes when concatenated to a
    string (['@' + id], ['%' + flags.int], [charCodeAt(0)] inside a
    concatenation).  Exact below 1e21, where JavaScript switches to
    exponent notation; counters and char codes stay far below. *)
Definition decimal (n : N) : jsstring := uint_units (N.to_uint n).

Fixpoint units_uint (s : jsstring) : Decimal.uint :=
  match s with
  | [] => Decimal.Nil
  | c :: s' =>
      let u := units_uint s' in
      match (c - 48)%N with
      | 0%N => Decimal.D0 u | 1%N => Decimal.D1 u | 2%N => Decimal.D2 u
      | 3%N => Decimal.D3 u | 4%N => Decimal.D4 u | 5%N => Decimal.D5 u
      | 6%N => Decimal.D6 u | 7%N => Decimal.D7 u | 8%N => Decimal.D8 u
      | _ => Decimal.D9 u
      end
  end.

(** [Number(digits)] (also unary [+digits]) on a string matched by
    [\d+]: the integer it denotes.  Exact up to 2^53, beyond which
    the host rounds to the nearest double. *)
Definition numberOfDigits (s : jsstring) : N := N.of_uint (units_uint s).

(** Longest prefix of decimal digits, and what follows it. *)
Fixpoint span_digits (s : jsstring) : jsstring * jsstring :=
  match s with
  | c :: s' => if is_digit c
               then let '(ds, rest) := span_digits s' in (c :: ds, rest)
               else ([], s)
  | [] => ([], [])
  end.

End JSString.
Export JSString.

Arguments str _%_string.

(* ------------------------------------------------------------------ *)
(** ** The subset of regular expressions the sources use *)

Module RegExp.

(** One successful match: the matched text and its capture groups. *)
Record rmatch := { matched : jsstring; groups : list jsstring }.

(** A pattern is given by its anchored matcher: what it matches, if
    anything, at the head of the remaining input.  None of the
    patterns below looks behind the current position. *)
Definition pattern := jsstring -> option rmatch.

(** [s.replace(p, f)] for a global [p].  [skip] counts the units of
    the last match still to be stepped over. *)
Fixpoint replace_go (p : pattern) (f : rmatch -> jsstring)
         (skip : nat) (s : jsstring) : jsstring :=
  match s with
  | [] => []
  | c :: s' =>
      match skip with
      | S k => replace_go p f k s'
      | O =>
          match p s with
          | Some m =>
              match length (matched m) with
              | O => f m ++ c :: replace_go p f 0 s'
              | S k => f m ++ replace_go p f k s'
              end
          | None => c :: replace_go p f 0 s'
          end
      end
  end.

Definition replaceAll (p : pattern) (f : rmatch -> jsstring) (s : jsstring) : jsstring :=
  replace_go p f 0 s.

(** [s.replace(p, f)] for a pattern without the [g] flag, and
    [s.replace(text, f)] for a literal: the first match only. *)
Fixpoint replaceFirst (p : pattern) (f : rmatch -> jsstring) (s : jsstring) : jsstring :=
  match p s with
  | Some m => f m ++ skipn (length (matched m)) s
  | None => match s with
            | [] => []
            | c :: s' => c :: replaceFirst p f s'
            end
  end.

(** [s.match(p)] for a global [p]: the matched texts, left to right
    ([[]] stands for [null]). *)
Fixpoint matchAll_go (p : pattern) (skip : nat) (s : jsstring) : list jsstring :=
  match s with
  | [] => []
  | _ :: s' =>
      match skip with
      | S k => matchAll_go p k s'
      | O =>
          match p s with
          | Some m => matched m :: matchAll_go p (pred (length (matched m))) s'
          | None => matchAll_go p 0 s'
          end
      end
  end.

Definition matchAll (p : pattern) (s : jsstring) : list jsstring := matchAll_go p 0 s.

(** [s.match(p)] without [g]: the first match. *)
Fixpoint search (p : pattern) (s : jsstring) : option rmatch :=
  match p s with
  | Some m => Some m
  | None => match s with
            | [] => None
            | _ :: s' => search p s'
            end
  end.

(** A literal text. *)
Definition literal (text : jsstring) : pattern :=
  fun s => if startsWith s text then Some {| matched := text; groups := [] |} else None.

(** [<open>(\d+)<close>] where [open] is a literal and [close] an
    optional literal unit; group 1 is the digits.  [\d+] is greedy
    and whatever follows the digits is not a digit, so taking the
    longest run loses no match. *)
Definition digits_between (open : jsstring) (close : option N) : pattern :=
  fun s =>
    if startsWith s open then
      let '(ds, rest) := span_digits (skipn (length open) s) in
      match ds with
      | [] => None
      | _ :: _ =>
          match close with
          | None => Some {| matched := open ++ ds; groups := [ds] |}
          | Some c =>
              match rest with
              | c' :: _ => if unit_eqb c c'
                           then Some {| matched := open ++ ds ++ [c]; groups := [ds] |}
                           else None
              | [] => None
              end
          end
      end
    else None.

(** [<text>(\D)]: a literal followed by one unit that is not a
    digit; group 1 is that unit. *)
Definition literal_then_nondigit (text : jsstring) : pattern :=
  fun s =>
    if startsWith s text then
      match skipn (length text) s with
      | c :: _ => if is_digit c then None
                  else Some {| matched := text ++ [c]; groups := [[c]] |}
      | [] => None
      end
    else None.

(** One unit out of a class. *)
Definition one_of (class : list N) : pattern :=
  fun s => match s with
           | c :: _ => if existsb (unit_eqb c) class
                       then Some {| matched := [c]; groups := [] |} else None
           | [] => None
           end.

Definition group1 (m : rmatch) : jsstring := nth 0 (groups m) [].

End RegExp.

(* ------------------------------------------------------------------ *)
(** ** Tokens, shorthand types, constants *)

Module SerializationFormatToken.
Definition TYPE_SEPERATOR := str "|".
Definition TYPE_CUSTOM_CLASS_SPECIFIER := str "$".
Definition REFERENCE_POINTER := str "#".
Definition REFERENCE_DECLARARION_S := str "@".
Definition REFERENCE_DECLARATION_E := str "=".
Definition PROPERTY_ACCESSABILITY := str "%".
Definition KEY_VALUE_SEPERATOR := str ":".
Definition KEY_INDEX_S := str "[".
Definition KEY_INDEX_E := str "]".
Definition ENTRIED_VALUE_S := str "{".
Definition ENTRIED_VALUE_E := str "}".
Definition ENTRY_SEPERATOR := str ",".
Definition ESCAPE_S := str "&".
Definition ESCAPE_E := str ";".
Definition DEPENDENCIES_S := str "![".
Definition DEPENDENDIES_E := str "]!".
Definition FUNCTION_NAME_SEPERATOR := str "~".
End SerializationFormatToken.
Module Tok := SerializationFormatToken.

Module ShorthandType.
Definition NULL := str "0".
Definition STRING := str "1".
Definition NUMBER := str "2".
Definition OBJECT := str "3".
Definition ARRAY := str "4".
Definition MAP := str "5".
Definition SET := str "6".
Definition SYMBOL := str "7".
Definition BOOLEAN := str "8".
Definition FUNCTION := str "9".
Definition UNDEFINED := str "10".
Definition BIGINT := str "11".
Definition DATE := str "12".
End ShorthandType.

Definition EMPTY : jsstring := [].
Definition INDEX_NOT_FOUND : Z := -1.
Definition INDEX_START : Z := 0.

(** The head unit of a one-unit token. *)
Definition unit_of (token : jsstring) : N := hd 0%N token.

(* ------------------------------------------------------------------ *)
(** ** Outcomes of a call *)

(** What a call can throw.  The payload is the fixed part of the
    message at the throw site. *)
Inductive error :=
| SerializerError (message : string)
| DeserializerError (message : string)
| SerdeError (message : string)
| HostError (message : string).   (* [Error], [TypeError], ... raised by the host or by [Bitflag] *)

(** A call returns, throws, exhausts the recursion budget of the
    embedding, or leaves the part of the host this embedding models. *)
Inductive outcome (A : Type) :=
| Ok (a : A)
| Throw (e : error)
| OutOfFuel
| Unmodelled (what : string).
Arguments Ok {A} a.
Arguments Throw {A} e.
Arguments OutOfFuel {A}.
Arguments Unmodelled {A} what.

Definition outcome_bind {A B} (m : outcome A) (k : A -> outcome B) : outcome B :=
  match m with
  | Ok a => k a
  | Throw e => Throw e
  | OutOfFuel => OutOfFuel
  | Unmodelled w => Unmodelled w
  end.

(** Code that reads and writes the private fields of an instance:
    the fields are threaded through, and survive a throw. *)
Definition M (S A : Type) : Type := S -> outcome A * S.

Definition ret {S A} (a : A) : M S A := fun s => (Ok a, s).

Definition bind {S A B} (m : M S A) (k : A -> M S B) : M S B :=
  fun s => match m s with
           | (Ok a, s') => k a s'
           | (Throw e, s') => (Throw e, s')
           | (OutOfFuel, s') => (OutOfFuel, s')
           | (Unmodelled w, s') => (Unmodelled w, s')
           end.

Definition lift {S A} (o : outcome A) : M S A := fun s => (o, s).
Definition throw {S A} (e : error) : M S A := lift (Throw e).
Definition get {S} : M S S := fun s => (Ok s, s).
Definition put {S} (s : S) : M S unit := fun _ => (Ok tt, s).
Definition modify {S} (f : S -> S) : M S unit := fun s => (Ok tt, f s).

Declare Scope serime_scope.
Delimit Scope serime_scope with serime.
Notation "'let!' x := m 'in' k" := (outcome_bind m (fun x => k))
  (at level 10, x pattern, m at level 200, k at level 200) : serime_scope.
Notation "'let*' x := m 'in' k" := (bind m (fun x => k))
  (at level 10, x pattern, m at level 200, k at level 200) : serime_scope.
Local Open Scope serime_scope.

(** [forEach] over a list, in order, stopping at the first throw. *)
Fixpoint forEach {S A} (f : A -> M S unit) (l : list A) : M S unit :=
  match l with
  | [] => ret tt
  | a :: l' => let* _ := f a in forEach f l'
  end.

(* ------------------------------------------------------------------ *)
(** ** Values and the object heap *)

(** A number is NaN, an infinity, a zero, or a finite non-zero double
    given by its sign and the bit pattern of its magnitude. *)
Inductive jsnumber :=
| NaN
| Infinity (negative : bool)
| Zero (negative : bool)
| Finite (negative : bool) (bits : positive).

(** A symbol is one of the well-known ones, by its position in
    [Serializer.WELL_KNOWN_SYMBOLS], or any other symbol. *)
Inductive jssymbol :=
| WellKnown (index : N)
| OtherSymbol (id : N).

Inductive jsvalue :=
| VUndefined
| VNull
| VBoolean (b : bool)
| VNumber (n : jsnumber)
| VString (s : jsstring)
| VBigInt (i : Z)
| VSymbol (s : jssymbol)
| VObject (address : nat).

(** The constructors of [Serializer.SHORTHAND_CONSTRUCTOR_LIST]. *)
Inductive native :=
| FunctionC | BooleanC | ObjectC | SymbolC | StringC | NumberC
| BigIntC | ArrayC | DateC | SetC | MapC.

(** Any other constructor: its identity, its [name], and the native
    prototype its own prototype chain goes through. *)
Record class := { class_id : N; class_name : jsstring; class_extends : native }.

Inductive constructor :=
| Shorthand (n : native)
| Class (c : class).

(** Internal slots. *)
Inductive slots :=
| Ordinary
| ArrayExotic
| MapData (entries : list (jsvalue * jsvalue))
| SetData (elements : list jsvalue)
| DateValue (text : jsstring)          (* what [Date.prototype.toString] prints *)
| Callable (name source : jsstring).   (* [name], and what [Function.prototype.toString] prints *)

(** An own data property with a string key. *)
Record property := {
  key : jsstring;
  val : jsvalue;
  configurable : bool;
  enumerable : bool;
  writable : bool
}.

(** An object: the constructor of its prototype ([None] for a null
    prototype), its internal slots, its own string-keyed data
    properties in the order the host enumerates them, and whether it
    is extensible.  The [length] of an array is not stored: it is not
    enumerable and [Object.entries] never shows it.  Prototypes carry
    their standard [constructor] and no accessors. *)
Record jsobject := {
  proto : option constructor;
  internal : slots;
  properties : list property;
  extensible : bool
}.

Definition heap := list jsobject.

#[global] Instance number_eq_dec : EqDecision jsnumber.
Proof. solve_decision. Defined.
#[global] Instance symbol_eq_dec : EqDecision jssymbol.
Proof. solve_decision. Defined.
#[global] Instance value_eq_dec : EqDecision jsvalue.
Proof. solve_decision. Defined.
#[global] Instance native_eq_dec : EqDecision native.
Proof. solve_decision. Defined.
#[global] Instance class_eq_dec : EqDecision class.
Proof. solve_decision. Defined.
#[global] Instance constructor_eq_dec : EqDecision constructor.
Proof. solve_decision. Defined.

(** [SameValueZero], the key equality of [Map] and [Set]. *)
Definition sameValueZero (a b : jsvalue) : bool :=
  match a, b with
  | VNumber (Zero _), VNumber (Zero _) => true
  | _, _ => bool_decide (a = b)
  end.

(** [value === 0]. *)
Definition is_zero (v : jsvalue) : bool :=
  match v with
  | VNumber (Zero _) => true
  | _ => false
  end.

(** [Math.abs]. *)
Definition abs (n : jsnumber) : jsnumber :=
  match n with
  | NaN => NaN
  | Infinity _ => Infinity false
  | Zero _ => Zero false
  | Finite _ b => Finite false b
  end.

(** [-1 * n]. *)
Definition negate (n : jsnumber) : jsnumber :=
  match n with
  | NaN => NaN
  | Infinity s => Infinity (negb s)
  | Zero s => Zero (negb s)
  | Finite s b => Finite (negb s) b
  end.

(** [n > 0]. *)
Definition is_positive (n : jsnumber) : bool :=
  match n with
  | Infinity false | Finite false _ => true
  | _ => false
  end.

(** The host functions the two classes call and whose results are
    not fixed by the sources. *)
Record Host := {
  (** [Number.prototype.toString] in radix 10 *)
  Number_toString : jsnumber -> jsstring;
  (** [Number(text)] *)
  Number_ofString : jsstring -> jsnumber;
  (** [Date.prototype.toString] applied to [new Date(text)] *)
  Date_reparse : jsstring -> jsstring
}.

(** [instanceof] against a native constructor. *)
Definition instanceOf (o : jsobject) (n : native) : bool :=
  match proto o with
  | Some (Shorthand n') => bool_decide (n' = n)
  | Some (Class c) => bool_decide (class_extends c = n)
  | None => false
  end.

(** [o instanceof Object]. *)
Definition instanceOfObject (o : jsobject) : bool :=
  match proto o with Some _ => true | None => false end.

Definition constructor_name (c : constructor) : jsstring :=
  match c with
  | Shorthand FunctionC => str "Function"
  | Shorthand BooleanC => str "Boolean"
  | Shorthand ObjectC => str "Object"
  | Shorthand SymbolC => str "Symbol"
  | Shorthand StringC => str "String"
  | Shorthand NumberC => str "Number"
  | Shorthand BigIntC => str "BigInt"
  | Shorthand ArrayC => str "Array"
  | Shorthand DateC => str "Date"
  | Shorthand SetC => str "Set"
  | Shorthand MapC => str "Map"
  | Class c => class_name c
  end.

(** *** Host operations on objects *)

Fixpoint find_property (k : jsstring) (ps : list property) : option property :=
  match ps with
  | [] => None
  | p :: ps' => if string_eqb (key p) k then Some p else find_property k ps'
  end.

Fixpoint update_property (k : jsstring) (f : property -> property) (ps : list property) : list property :=
  match ps with
  | [] => []
  | p :: ps' => if string_eqb (key p) k then f p :: ps' else p :: update_property k f ps'
  end.

(** [Object.isSealed] and [Object.isFrozen]. *)
Definition isSealed (o : jsobject) : bool :=
  negb (extensible o) && forallb (fun p => negb (configurable p)) (properties o).

Definition isFrozen (o : jsobject) : bool :=
  negb (extensible o)
  && forallb (fun p => negb (configurable p) && negb (writable p)) (properties o).

(** [o[k] = v] in strict code, for a string key: the own property is
    overwritten when writable, created (configurable, enumerable,
    writable) when absent and the object is extensible. *)
Definition assign (o : jsobject) (k : jsstring) (v : jsvalue) : outcome jsobject :=
  match find_property k (properties o) with
  | Some p =>
      if writable p then
        Ok {| proto := proto o; internal := internal o;
              properties := update_property k
                 (fun p => {| key := key p; val := v; configurable := configurable p;
                              enumerable := enumerable p; writable := writable p |})
                 (properties o);
              extensible := extensible o |}
      else Throw (HostError "TypeError: Cannot assign to read only property")
  | None =>
      if extensible o then
        Ok {| proto := proto o; internal := internal o;
              properties := properties o ++
                 [{| key := k; val := v; configurable := true;
                     enumerable := true; writable := true |}];
              extensible := extensible o |}
      else Throw (HostError "TypeError: Cannot add property, object is not extensible")
  end.

(** [Object.defineProperty(o, k, {configurable, enumerable, writable})]
    on an existing own data property: a non-configurable property
    accepts no change but making it read-only. *)
Definition defineFlags (o : jsobject) (k : jsstring) (c e w : bool) : outcome jsobject :=
  match find_property k (properties o) with
  | Some p =>
      if negb (configurable p)
         && (c || negb (Bool.eqb e (enumerable p)) || (negb (writable p) && w))
      then Throw (HostError "TypeError: Cannot redefine property")
      else
        Ok {| proto := proto o; internal := internal o;
              properties := update_property k
                 (fun p => {| key := key p; val := val p; configurable := c;
                              enumerable := e; writable := w |})
                 (properties o);
              extensible := extensible o |}
  | None => Unmodelled "defineProperty on a property that was not assigned"
  end.

(** [map.set(k, v)] and [set.add(v)] on the internal lists. *)
Fixpoint map_set (k v : jsvalue) (es : list (jsvalue * jsvalue)) : list (jsvalue * jsvalue) :=
  match es with
  | [] => [(k, v)]
  | (k', v') :: es' => if sameValueZero k' k then (k', v) :: es' else (k', v') :: map_set k v es'
  end.

Definition set_add (v : jsvalue) (es : list jsvalue) : list jsvalue :=
  if existsb (fun v' => sameValueZero v' v) es then es else es ++ [v].

(** Keys [-0] are stored as [+0]. *)
Definition normalize_key (v : jsvalue) : jsvalue :=
  match v with
  | VNumber (Zero _) => VNumber (Zero false)
  | _ => v
  end.

(* ------------------------------------------------------------------ *)
(** ** Bitflag and the two flag enums *)

Module Bitflag.

Definition MAX_32INT : Z := 1 * 2 ^ 31.
Definition MIN_32INT : Z := -1 * 2 ^ 31.

(** [~~n] on an integer: reduction to the signed 32-bit range. *)
Definition toInt32 (n : Z) : Z := (n + 2 ^ 31) mod 2 ^ 32 - 2 ^ 31.

Definition to32bit (n : Z) : outcome Z :=
  if (n >? MAX_32INT) || (n <? MIN_32INT)
  then Throw (HostError "Loss of whole number precision will occur when concerting to 32-bit integer!")
  else
    let int32 := toInt32 n in
    if negb (int32 =? n)
    then Throw (HostError "Loss of precision occured when converting to 32-bit integer!")
    else Ok int32.

(** A numeric enum: its members, name and value, in declaration order. *)
Definition enum := list (string * Z).

(** The number of ['1'] in [flag.toString(2)]. *)
Fixpoint ones (p : positive) : nat :=
  match p with
  | xH => 1
  | xO p' => ones p'
  | xI p' => S (ones p')
  end.

Fixpoint check_flags (flags : list Z) : outcome bool :=
  match flags with
  | [] => Ok true
  | flag :: rest =>
      if flag <? 0 then Throw (HostError "Enum value cannot be negative!")
      else if flag =? 0 then Throw (HostError "Cannot use `0` as an enum value!")
      else if negb (Nat.eqb (ones (Z.to_pos flag)) 1)
      then Throw (HostError "A non power of two value was present in an enum!")
      else check_flags rest
  end.

Fixpoint mapM {A B} (f : A -> outcome B) (l : list A) : outcome (list B) :=
  match l with
  | [] => Ok []
  | a :: l' => let! b := f a in let! bs := mapM f l' in Ok (b :: bs)
  end.

(** [validateEnum]: the keys of the compiled enum object are the
    member names and the distinct member values; the numeric keys are
    visited here in declaration order. *)
Definition validateEnum (o : enum) : outcome bool :=
  let values := remove_dups (map snd o) in
  let keys := (length o + length values)%nat in
  if negb (Nat.eqb (keys mod 2) 0)
  then Throw (HostError "Enum keys length not even, duplicate value present!")
  else let! flags := mapM to32bit values in check_flags flags.

(** [new Bitflag(lookup, name, initial)] with a numeric [initial];
    the instance is its [#state]. *)
Definition create (lookup : enum) (initial : Z) : outcome Z :=
  let! _ := validateEnum lookup in to32bit initial.

Definition int (state : Z) : Z := state.

Definition merge (flags : list Z) : Z :=
  fold_left (fun v f => Z.lor v f) flags 0.

Definition has (state : Z) (flags : list Z) : bool :=
  forallb (fun mask => Z.land (int state) mask =? mask) flags.

Definition enable (state : Z) (flags : list Z) : Z := toInt32 (Z.lor state (merge flags)).
Definition disable (state : Z) (flags : list Z) : Z := toInt32 (Z.land state (Z.lnot (merge flags))).
Definition toggle (state : Z) (flags : list Z) : Z := toInt32 (Z.lxor state (merge flags)).

End Bitflag.

Module ObjectAccessabilityFlag.
Definition IS_FROZEN : Z := Z.shiftl 1 0.
Definition IS_SEALED : Z := Z.shiftl 2 0.
Definition NON_EXTENSIBLE : Z := Z.shiftl 2 1.
Definition HAS_METADATA : Z := Z.shiftl 2 2.
Definition members : Bitflag.enum :=
  [("IS_FROZEN"%string, IS_FROZEN); ("IS_SEALED"%string, IS_SEALED);
   ("NON_EXTENSIBLE"%string, NON_EXTENSIBLE); ("HAS_METADATA"%string, HAS_METADATA)].
End ObjectAccessabilityFlag.

Module PropertyDescriptorFlag.
Definition HAS_ACCESSOR : Z := Z.shiftl 1 0.
Definition HAS_METADATA : Z := Z.shiftl 2 0.
Definition IS_CONFIGURABLE : Z := Z.shiftl 2 1.
Definition IS_ENUMERABLE : Z := Z.shiftl 2 2.
Definition IS_WRITABLE : Z := Z.shiftl 2 3.
Definition members : Bitflag.enum :=
  [("HAS_ACCESSOR"%string, HAS_ACCESSOR); ("HAS_METADATA"%string, HAS_METADATA);
   ("IS_CONFIGURABLE"%string, IS_CONFIGURABLE); ("IS_ENUMERABLE"%string, IS_ENUMERABLE);
   ("IS_WRITABLE"%string, IS_WRITABLE)].
End PropertyDescriptorFlag.

(* ------------------------------------------------------------------ *)
(** ** Parts of the repository that are not among the sources *)

Module SerializedBoolean.
(** Modelled from the spec: the enum [SerializedBoolean]
    (shared/serialized-boolean), whose members the encoder emits as
    [8|T] and [8|F]. *)
Definition TRUE := str "T".
(** Modelled from the spec: the second member of [SerializedBoolean]. *)
Definition FALSE := str "F".
End SerializedBoolean.

(** The fields of the shared configuration that the two classes read. *)
Record configuration := { DebugMode : bool; Functions : bool; Metadata : bool }.

(** Modelled from the spec: [DEFAULT_SHARED_CONFIGURATION]
    (shared/config); function support is off by default, metadata is
    reserved and off, debug output is off. *)
Definition DEFAULT_SHARED_CONFIGURATION : configuration :=
  {| DebugMode := false; Functions := false; Metadata := false |}.

(* ------------------------------------------------------------------ *)
(** ** Type: the serialized type tag *)

Module EnscribedType.

Definition ENTRIED : list jsstring :=
  [ShorthandType.OBJECT; ShorthandType.ARRAY; ShorthandType.MAP; ShorthandType.SET].

Definition SINGLETONS : list jsstring :=
  [ShorthandType.UNDEFINED; ShorthandType.NULL].

Definition isSingleton (inner : jsstring) : bool := existsb (string_eqb inner) SINGLETONS.
Definition isEntried (inner : jsstring) : bool := existsb (string_eqb inner) ENTRIED.
Definition isCustom (inner : jsstring) : bool :=
  startsWith inner Tok.TYPE_CUSTOM_CLASS_SPECIFIER.

(** [Number(text)] where the embedding fixes it: a run of decimal
    digits, or the empty string (which is [0]). *)
Definition Number_of_text (text : jsstring) : outcome N :=
  if forallb is_digit text then Ok (numberOfDigits text)
  else Unmodelled "Number() of a string that is not a run of decimal digits".

Definition getCustomTypeReference (inner : jsstring) : outcome N :=
  if negb (isCustom inner)
  then Throw (HostError "Cannot extract custom type reference from a non-custom type!")
  else Number_of_text (slice_from inner 1).

End EnscribedType.

(* ------------------------------------------------------------------ *)
(** ** SerializedBlockInfo *)

Module SerializedBlockInfo.

Inductive action := get_ | set_.

Definition ReferenceDetails : Type := action * N.

Definition removeKeyBrackets (serialized : jsstring) : jsstring :=
  let s := indexOf serialized Tok.KEY_INDEX_S in
  let e := lastIndexOf serialized Tok.KEY_INDEX_E in
  if negb (s =? INDEX_START) then serialized
  else slice serialized (s + Z.of_nat (length Tok.KEY_INDEX_S)) e.

Definition removeReferenceDeclaration (serialized : jsstring) : jsstring :=
  let sat := indexOf serialized Tok.REFERENCE_DECLARARION_S in
  let eat := indexOf serialized Tok.REFERENCE_DECLARATION_E in
  if negb (sat =? INDEX_START) then serialized
  else if eat =? INDEX_NOT_FOUND then serialized
  else slice_from serialized (eat + Z.of_nat (length Tok.REFERENCE_DECLARATION_E)).

Definition isKeyIndex (serialized : jsstring) : bool :=
  startsWith serialized Tok.KEY_INDEX_S.

Definition is_line_terminator (c : N) : bool :=
  (N.eqb c 10 || N.eqb c 13 || N.eqb c 8232 || N.eqb c 8233)%N.

(** First match of [(^|[@#])(?<id>\d+)] with the [m] flag, as its
    group [id]: at each position the digits may start right there
    when the position opens a line, or after one ['@'] or ['#']. *)
Fixpoint reference_digits (line_start : bool) (s : jsstring) : option jsstring :=
  match s with
  | [] => None
  | c :: s' =>
      match (if line_start then fst (span_digits s) else []) with
      | d :: ds => Some (d :: ds)
      | [] =>
          match (if unit_eqb c (unit_of Tok.REFERENCE_DECLARARION_S)
                    || unit_eqb c (unit_of Tok.REFERENCE_POINTER)
                 then fst (span_digits s') else []) with
          | d :: ds => Some (d :: ds)
          | [] => reference_digits (is_line_terminator c) s'
          end
      end
  end.

Definition extractReference (serialized : jsstring) : outcome (option ReferenceDetails) :=
  let serialized := removeKeyBrackets serialized in
  let refget := indexOf serialized Tok.REFERENCE_POINTER in
  let refset := indexOf serialized Tok.REFERENCE_DECLARARION_S in
  if negb (refget =? INDEX_START) && negb (refset =? INDEX_START) then Ok None
  else
    match reference_digits true serialized with
    | None => Throw (DeserializerError "Could not extract digits of reference ID!")
    | Some digits =>
        let numeric := numberOfDigits digits in
        let action := if refget =? 0 then get_ else set_ in
        Ok (Some (action, numeric))
    end.

Definition extractDescriptorInfo (serialized : jsstring) : outcome (option Z) :=
  if negb (isKeyIndex serialized) then Ok None
  else
    match RegExp.search (RegExp.digits_between Tok.PROPERTY_ACCESSABILITY None) serialized with
    | None => Throw (DeserializerError "Property accessability was omitted and cannot be inferred!")
    | Some m =>
        let numeric := numberOfDigits (RegExp.group1 m) in
        let! flags := Bitflag.create PropertyDescriptorFlag.members (Z.of_N numeric) in
        Ok (Some flags)
    end.

Definition extractType (serialized : jsstring) : jsstring :=
  let serialized := removeKeyBrackets serialized in
  let serialized := removeReferenceDeclaration serialized in
  let typeMarkerIndex := indexOf serialized Tok.TYPE_SEPERATOR in
  let terminator := if typeMarkerIndex =? INDEX_NOT_FOUND
                    then Z.of_nat (length serialized) else typeMarkerIndex in
  slice serialized 0 terminator.

Definition extractSerializedValue (serialized : jsstring) : option jsstring :=
  let serialized := removeKeyBrackets serialized in
  let serialized := removeReferenceDeclaration serialized in
  let typeMarkerIndex := indexOf serialized Tok.TYPE_SEPERATOR in
  if typeMarkerIndex =? INDEX_NOT_FOUND then None
  else Some (slice_from serialized (typeMarkerIndex + Z.of_nat (length Tok.TYPE_SEPERATOR))).

Record t := {
  reference : option ReferenceDetails;
  descriptor : option Z;
  accessability : option Z;
  type : jsstring;
  isKeyIndex_ : bool;
  serializedValue : option jsstring
}.

(** The constructor: [accessability] is always [null]. *)
Definition new (serialized : jsstring) : outcome t :=
  let! reference := extractReference serialized in
  let! descriptor := extractDescriptorInfo serialized in
  Ok {| reference := reference;
        descriptor := descriptor;
        accessability := None;
        type := extractType serialized;
        isKeyIndex_ := isKeyIndex serialized;
        serializedValue := extractSerializedValue serialized |}.

End SerializedBlockInfo.

(* ------------------------------------------------------------------ *)
(** ** Serializer *)

Module Serializer.

Definition RESERVED_CHARACTERS : list N :=
  map unit_of [str "&"; str ";"; str "!"; str "@"; str "#"; str "%"; str "["; str "]";
               str "{"; str "}"; str "|"; str ","; str "="; str "$"; str ":"; str "~"].

(** The alternation of the escaped reserved characters, flags [gm]. *)
Definition RESERVED_REGEX : RegExp.pattern := RegExp.one_of RESERVED_CHARACTERS.

(** The private fields. *)
Record state := {
  config : configuration;
  ticks : N;
  reference_ids : N;
  reference_value_map : list (jsvalue * N);
  reference_usage : N;
  custom_constructors : list constructor
}.

(** [new Serializer(config)]. *)
Definition new (config : configuration) : state :=
  {| config := config; ticks := 0; reference_ids := 0; reference_value_map := [];
     reference_usage := 0; custom_constructors := [] |}.

Definition charCodeAt0 (s : jsstring) : N := hd 0%N s.

Definition escape (string : jsstring) : jsstring :=
  RegExp.replaceAll RESERVED_REGEX
    (fun m => Tok.ESCAPE_S ++ decimal (charCodeAt0 (RegExp.matched m)) ++ Tok.ESCAPE_E)
    string.

Definition serializeBoolean (boolean : bool) : jsstring :=
  if boolean then SerializedBoolean.TRUE else SerializedBoolean.FALSE.

Definition serializeString (string : jsstring) : jsstring := escape string.

Definition serializeBigint (bigint : Z) : jsstring :=
  if bigint <? 0 then str "-" ++ decimal (Z.abs_N bigint) else decimal (Z.abs_N bigint).

Definition serializeSymbol (symbol : jssymbol) : outcome jsstring :=
  match symbol with
  | WellKnown index => Ok (decimal index)
  | OtherSymbol _ => Throw (SerializerError "Cannot serialize a non-well-known symbol!")
  end.

(** [map.has(value)] / [map.get(value)] on the value-to-id table. *)
Fixpoint map_get (value : jsvalue) (m : list (jsvalue * N)) : option N :=
  match m with
  | [] => None
  | (k, id) :: m' => if sameValueZero k value then Some id else map_get value m'
  end.

(** The clean-up pass over the finished text. *)
Definition clean_step (acc : jsstring * N) (match_ : jsstring) : jsstring * N :=
  let '(serialized, references) := acc in
  let id := slice match_
              (indexOf match_ Tok.REFERENCE_DECLARARION_S
               + Z.of_nat (length Tok.REFERENCE_DECLARARION_S))
              (Z.of_nat (length Tok.REFERENCE_DECLARATION_E) * -1) in
  let rr := RegExp.literal_then_nondigit (Tok.REFERENCE_POINTER ++ id) in
  let ir := RegExp.literal (Tok.REFERENCE_DECLARARION_S ++ id ++ Tok.REFERENCE_DECLARATION_E) in
  match RegExp.matchAll rr serialized with
  | [] => (RegExp.replaceFirst ir (fun _ => EMPTY) serialized, references)
  | _ :: _ =>
      (RegExp.replaceAll rr
         (fun m => Tok.REFERENCE_POINTER ++ decimal references ++ RegExp.group1 m)
         (RegExp.replaceFirst (RegExp.literal match_)
            (fun _ => Tok.REFERENCE_DECLARARION_S ++ decimal references
                      ++ Tok.REFERENCE_DECLARATION_E)
            serialized),
       (references + 1)%N)
  end.

Definition clean (serialized : jsstring) : jsstring :=
  let regex := RegExp.digits_between Tok.REFERENCE_DECLARARION_S
                 (Some (unit_of Tok.REFERENCE_DECLARATION_E)) in
  fst (fold_left clean_step (RegExp.matchAll regex serialized) (serialized, 0%N)).

Definition shorthand_of (n : native) : jsstring :=
  match n with
  | FunctionC => ShorthandType.FUNCTION
  | BooleanC => ShorthandType.BOOLEAN
  | ObjectC => ShorthandType.OBJECT
  | SymbolC => ShorthandType.SYMBOL
  | StringC => ShorthandType.STRING
  | NumberC => ShorthandType.NUMBER
  | BigIntC => ShorthandType.BIGINT
  | ArrayC => ShorthandType.ARRAY
  | DateC => ShorthandType.DATE
  | SetC => ShorthandType.SET
  | MapC => ShorthandType.MAP
  end.

(** [Array.prototype.indexOf] on the list of custom constructors. *)
Fixpoint index_of (c : constructor) (l : list constructor) (i : N) : option N :=
  match l with
  | [] => None
  | c' :: l' => if bool_decide (c' = c) then Some i else index_of c l' (i + 1)%N
  end.

Definition shorthandConstructor (value : constructor) : M state jsstring :=
  match value with
  | Shorthand n => ret (shorthand_of n)
  | Class _ =>
      let* st := get in
      match index_of value (custom_constructors st) 0%N with
      | Some custom => ret (Tok.TYPE_CUSTOM_CLASS_SPECIFIER ++ decimal custom)
      | None =>
          let* _ := put {| config := config st; ticks := ticks st;
                           reference_ids := reference_ids st;
                           reference_value_map := reference_value_map st;
                           reference_usage := reference_usage st;
                           custom_constructors := custom_constructors st ++ [value] |} in
          ret (Tok.TYPE_CUSTOM_CLASS_SPECIFIER
               ++ decimal (N.of_nat (length (custom_constructors st))))
      end
  end.

(** The memoizer: a pointer for a value already in the table, a
    declaration with a fresh id otherwise. *)
Definition mark (value : jsvalue) (serialize : M state jsstring) : M state jsstring :=
  let* st := get in
  match map_get value (reference_value_map st) with
  | Some id =>
      let* _ := put {| config := config st; ticks := ticks st;
                       reference_ids := reference_ids st;
                       reference_value_map := reference_value_map st;
                       reference_usage := (reference_usage st + 1)%N;
                       custom_constructors := custom_constructors st |} in
      ret (Tok.REFERENCE_POINTER ++ decimal id)
  | None =>
      let id := reference_ids st in
      let* _ := put {| config := config st; ticks := ticks st;
                       reference_ids := (reference_ids st + 1)%N;
                       reference_value_map :=
                         if negb (is_zero value)
                         then reference_value_map st ++ [(value, id)]
                         else reference_value_map st;
                       reference_usage := reference_usage st;
                       custom_constructors := custom_constructors st |} in
      let* body := serialize in
      ret (Tok.REFERENCE_DECLARARION_S ++ decimal id ++ Tok.REFERENCE_DECLARATION_E ++ body)
  end.

Definition tick : M state unit :=
  modify (fun st => {| config := config st; ticks := (ticks st + 1)%N;
                       reference_ids := reference_ids st;
                       reference_value_map := reference_value_map st;
                       reference_usage := reference_usage st;
                       custom_constructors := custom_constructors st |}).

(** [wipe(config)]. *)
Definition wipe (config : configuration) : M state unit := put (new config).

Section WithHost.

Context (host : Host) (h : heap).

Definition serializeNumber (number : jsnumber) : jsstring :=
  match number with
  | NaN => str "NaN"
  | _ =>
      let sign := if is_positive number || bool_decide (number = Zero false)
                  then EMPTY else str "-" in
      sign ++ Number_toString host (abs number)
  end.

Definition is_callable (o : jsobject) : bool :=
  match internal o with Callable _ _ => true | _ => false end.

Definition serializeDate (date : jsobject) : outcome jsstring :=
  if is_callable date || negb (bool_decide (proto date = Some (Shorthand DateC)))
  then Throw (SerializerError "Attempted to serialize a non-date as a date!")
  else match internal date with
       | DateValue encoded => Ok (escape encoded)
       | _ => Throw (HostError "TypeError: this is not a Date object.")
       end.

Definition serializeFunction (func : jsobject) : M state jsstring :=
  let* st := get in
  if negb (Functions (config st))
  then throw (SerializerError "Function serialization is disabled in the config!")
  else match internal func with
       | Callable name source =>
           if negb (bool_decide (proto func = Some (Shorthand FunctionC)))
           then throw (SerializerError "Attempted to serialize a non-function as a function!")
           else ret (name ++ Tok.FUNCTION_NAME_SEPERATOR ++ escape source)
       | _ => throw (SerializerError "Attempted to serialize a non-function as a function!")
       end.

Definition propertyDescriptorFlag (object : jsobject) (property : jsvalue) : outcome Z :=
  if instanceOf object MapC || instanceOf object SetC
  then Bitflag.create PropertyDescriptorFlag.members 0
  else
    match property with
    | VString name =>
        match find_property name (properties object) with
        | None => Throw (SerializerError "Property does not exist on object!")
        | Some descriptor =>
            let! f0 := Bitflag.create PropertyDescriptorFlag.members 0 in
            let f1 := if configurable descriptor
                      then Bitflag.enable f0 [PropertyDescriptorFlag.IS_CONFIGURABLE] else f0 in
            let f2 := if enumerable descriptor
                      then Bitflag.enable f1 [PropertyDescriptorFlag.IS_ENUMERABLE] else f1 in
            let f3 := if writable descriptor
                      then Bitflag.enable f2 [PropertyDescriptorFlag.IS_WRITABLE] else f2 in
            Ok f3
        end
    | _ => Unmodelled "a property key that is not a string"
    end.

Definition entry_of (p : property) : jsvalue * jsvalue := (VString (key p), val p).

(** [entries]: [Object.entries] for arrays and sets, the map's own
    iterator for maps, [Object.getOwnPropertyNames] otherwise. *)
Definition entries (object : jsobject) : outcome (list (jsvalue * jsvalue)) :=
  if negb (instanceOfObject object)
  then Throw (SerializerError "Cannot get the entries of a non-object!")
  else if instanceOf object ArrayC
  then Ok (map entry_of (filter (fun p => enumerable p = true) (properties object)))
  else if instanceOf object MapC
  then match internal object with
       | MapData es => Ok es
       | _ => Throw (HostError "TypeError: Method Map.prototype.entries called on incompatible receiver")
       end
  else if instanceOf object SetC
  then Ok (map entry_of (filter (fun p => enumerable p = true) (properties object)))
  else Ok (map entry_of (properties object)).

Section Recursive.

(** The recursive call [this.#serialize]. *)
Context (serialize_ : jsvalue -> M state jsstring).

Definition serializeObjectKeyIndex (obj : jsobject) (key : jsvalue) : M state jsstring :=
  let* sk := serialize_ key in
  let k := Tok.KEY_INDEX_S ++ sk ++ Tok.KEY_INDEX_E in
  let* flags := lift (propertyDescriptorFlag obj key) in
  let a := Tok.PROPERTY_ACCESSABILITY ++ decimal (Z.to_N (Bitflag.int flags)) in
  ret (k ++ a).

(** The [reduce] over the entries; [index] is the position of the
    head of [es]. *)
Fixpoint reduce_entries (object : jsobject) (es : list (jsvalue * jsvalue))
         (index : Z) (output : jsstring) : M state jsstring :=
  match es with
  | [] => ret output
  | (key, val) :: es' =>
      let* sk := serializeObjectKeyIndex object key in
      let* sv := serialize_ val in
      let seperator := if negb (index =? INDEX_START) then Tok.ENTRY_SEPERATOR else EMPTY in
      reduce_entries object es' (index + 1)
        (output ++ seperator ++ sk ++ Tok.KEY_VALUE_SEPERATOR ++ sv)
  end.

Definition serializeObject (object : jsobject) : M state jsstring :=
  let* es := lift (entries object) in
  let* serialized := reduce_entries object es 0 EMPTY in
  ret (Tok.ENTRIED_VALUE_S ++ serialized ++ Tok.ENTRIED_VALUE_E).

(** [getPrototype(value).constructor]: the constructor of the
    prototype of [value]. *)
Definition prototypeConstructor (value : jsvalue) : outcome constructor :=
  match value with
  | VUndefined | VNull =>
      Throw (HostError "TypeError: Cannot read properties of null (reading 'constructor')")
  | VBoolean _ => Ok (Shorthand BooleanC)
  | VNumber _ => Ok (Shorthand NumberC)
  | VString _ => Ok (Shorthand StringC)
  | VBigInt _ => Ok (Shorthand BigIntC)
  | VSymbol _ => Ok (Shorthand SymbolC)
  | VObject a =>
      match h !! a with
      | None => Unmodelled "an address outside the heap"
      | Some o =>
          match proto o with
          | Some c => Ok c
          | None => Throw (HostError "TypeError: Cannot read properties of null (reading 'constructor')")
          end
      end
  end.

(** The callback [#serialize] hands to [mark]. *)
Definition serialize_body (value : jsvalue) : M state jsstring :=
  let* _ := tick in
  match value with
  | VNull => ret ShorthandType.NULL
  | VUndefined => ret ShorthandType.UNDEFINED
  | _ =>
      let* ctor := lift (prototypeConstructor value) in
      let* tag := shorthandConstructor ctor in
      let output := tag ++ Tok.TYPE_SEPERATOR in
      match value with
      | VObject a =>
          match h !! a with
          | None => lift (Unmodelled "an address outside the heap")
          | Some o =>
              if instanceOf o DateC
              then let* s := lift (serializeDate o) in ret (output ++ s)
              else if is_callable o
              then let* s := serializeFunction o in ret (output ++ s)
              else let* s := serializeObject o in ret (output ++ s)
          end
      | VBoolean b => ret (output ++ serializeBoolean b)
      | VBigInt i => ret (output ++ serializeBigint i)
      | VNumber n => ret (output ++ serializeNumber n)
      | VString s => ret (output ++ serializeString s)
      | VSymbol s => let* t := lift (serializeSymbol s) in ret (output ++ t)
      | VNull | VUndefined => ret output
      end
  end.

End Recursive.

(** [#serialize]; [fuel] bounds the depth of the recursion. *)
Fixpoint serialize_ (fuel : nat) (value : jsvalue) : M state jsstring :=
  match fuel with
  | O => lift OutOfFuel
  | S fuel' => mark value (serialize_body (serialize_ fuel') value)
  end.

(** [serialize(value)] with an explicit recursion budget. *)
Definition serialize_with (fuel : nat) (value : jsvalue) : M state jsstring :=
  let* st := get in
  let* _ := wipe (config st) in
  let* st := get in
  if Metadata (config st)
  then throw (SerializerError "Serialization of metadata is currently unsupported!")
  else
    let* serialized := serialize_ fuel value in
    let* st := get in
    let dependencies :=
      match custom_constructors st with
      | [] => EMPTY
      | _ :: _ => Tok.DEPENDENCIES_S
                  ++ join (str ",") (map constructor_name (custom_constructors st))
                  ++ Tok.DEPENDENDIES_E
      end in
    ret (dependencies ++ clean serialized).

(** [serialize(value)].  A call chain of [#serialize] passes through
    distinct objects of the heap, each marked before its entries are
    visited, and ends at a primitive or a pointer. *)
Definition serialize (value : jsvalue) : M state jsstring :=
  serialize_with (S (length h)) value.

End WithHost.

End Serializer.

(* ------------------------------------------------------------------ *)
(** ** Deserializer *)

Module Deserializer.

Import SerializedBlockInfo.

(** The private fields. *)
Record state := {
  dependencies : gmap N constructor;
  references : gmap N jsvalue;
  ticks : N;
  config : configuration
}.

(** An instance together with the objects it has allocated. *)
Record machine := { this : state; memory : heap }.

(** [new Deserializer(config)]. *)
Definition new (config : configuration) : state :=
  {| dependencies := ∅; references := ∅; ticks := 0; config := config |}.

Definition fresh (config : configuration) : machine :=
  {| this := new config; memory := [] |}.

Definition tick : M machine unit :=
  modify (fun m => {| this := {| dependencies := dependencies (this m);
                                 references := references (this m);
                                 ticks := (ticks (this m) + 1)%N;
                                 config := config (this m) |};
                      memory := memory m |}).

(** Allocation of a new object; its address is returned. *)
Definition alloc (o : jsobject) : M machine jsvalue :=
  fun m => (Ok (VObject (length (memory m))),
            {| this := this m; memory := memory m ++ [o] |}).

(** In-place update of the object at an address. *)
Definition update (a : nat) (f : jsobject -> outcome jsobject) : M machine unit :=
  fun m => match memory m !! a with
           | None => (Unmodelled "an address outside the heap", m)
           | Some o =>
               match f o with
               | Ok o' => (Ok tt, {| this := this m; memory := <[a := o']> (memory m) |})
               | Throw e => (Throw e, m)
               | OutOfFuel => (OutOfFuel, m)
               | Unmodelled w => (Unmodelled w, m)
               end
           end.

(** [getReference] with a numeric argument. *)
Definition getReference (reference : N) : M machine jsvalue :=
  let* m := get in
  match references (this m) !! reference with
  | None => throw (DeserializerError
              "Invalid reference! The value behind the reference was has not been initialized.")
  | Some v => ret v
  end.

(** [setReference] with a numeric argument. *)
Definition setReference (reference : N) (value : jsvalue) : M machine unit :=
  modify (fun m => {| this := {| dependencies := dependencies (this m);
                                 references := <[reference := value]> (references (this m));
                                 ticks := ticks (this m);
                                 config := config (this m) |};
                      memory := memory m |}).

(** [String.fromCharCode]: the code is taken modulo 2^16. *)
Definition fromCharCode (code : N) : jsstring := [(code mod 65536)%N].

Definition unescape (string : jsstring) : jsstring :=
  RegExp.replaceAll
    (RegExp.digits_between Tok.ESCAPE_S (Some (unit_of Tok.ESCAPE_E)))
    (fun m => fromCharCode (numberOfDigits (RegExp.group1 m)))
    string.

Definition deserializeString (string : jsstring) : jsstring := unescape string.

Definition deserializeBoolean (serialized : jsstring) : outcome bool :=
  if negb (string_eqb serialized SerializedBoolean.TRUE)
     && negb (string_eqb serialized SerializedBoolean.FALSE)
  then Throw (DeserializerError "Invalid serialized boolean value!")
  else Ok (string_eqb serialized SerializedBoolean.TRUE).

(** [BigInt(text)] where the embedding fixes it: an optional ['-']
    and a non-empty run of decimal digits. *)
Definition deserializeBigInt (serialized : jsstring) : outcome Z :=
  let negative := startsWith serialized (str "-") in
  let digits := if negative then slice_from serialized 1 else serialized in
  match digits with
  | [] => Unmodelled "BigInt() of a string that is not a decimal integer"
  | _ :: _ =>
      if forallb is_digit digits
      then Ok (if negative then - Z.of_N (numberOfDigits digits) else Z.of_N (numberOfDigits digits))
      else Unmodelled "BigInt() of a string that is not a decimal integer"
  end.

(** [extractEntries]: the scanner state. *)
Record scanner := {
  buffer_1 : jsstring;
  buffer_2 : list jsstring;
  depth : Z;
  output : list (list jsstring)
}.

Definition flush1 (sc : scanner) : scanner :=
  if (0 <? length (buffer_1 sc))%nat
  then {| buffer_1 := []; buffer_2 := buffer_2 sc ++ [buffer_1 sc];
          depth := depth sc; output := output sc |}
  else sc.

Definition flush2 (sc : scanner) : outcome scanner :=
  if Nat.eqb (length (buffer_2 sc)) 0 then Ok sc
  else if negb (Nat.eqb (length (buffer_2 sc)) 2)
  then Throw (DeserializerError "Attempted to add a non-key-value pair entry!")
  else Ok {| buffer_1 := buffer_1 sc; buffer_2 := [];
             depth := depth sc; output := output sc ++ [buffer_2 sc] |}.

Definition push (character : N) (sc : scanner) : scanner :=
  {| buffer_1 := buffer_1 sc ++ [character]; buffer_2 := buffer_2 sc;
     depth := depth sc; output := output sc |}.

(** The body of the loop over the characters of the interior. *)
Definition scan_character (sc : scanner) (character : N) : outcome scanner :=
  if unit_eqb character (unit_of Tok.ENTRIED_VALUE_S)
     || unit_eqb character (unit_of Tok.ENTRIED_VALUE_E)
  then
    Ok (push character
          {| buffer_1 := buffer_1 sc; buffer_2 := buffer_2 sc;
             depth := depth sc
                      + (if unit_eqb character (unit_of Tok.ENTRIED_VALUE_S) then 1 else -1);
             output := output sc |})
  else if unit_eqb character (unit_of Tok.KEY_VALUE_SEPERATOR)
  then if depth sc =? 0 then Ok (flush1 sc) else Ok (push character sc)
  else if unit_eqb character (unit_of Tok.ENTRY_SEPERATOR)
  then if depth sc =? 0 then flush2 (flush1 sc) else Ok (push character sc)
  else Ok (push character sc).

Fixpoint scan (sc : scanner) (interior : jsstring) : outcome scanner :=
  match interior with
  | [] => Ok sc
  | character :: rest => let! sc' := scan_character sc character in scan sc' rest
  end.

Definition extractEntries (serialized : jsstring) : outcome (list (list jsstring)) :=
  let str_ := indexOf serialized Tok.ENTRIED_VALUE_S + 1 in
  let end_ := lastIndexOf serialized Tok.ENTRIED_VALUE_E in
  if (str_ =? INDEX_NOT_FOUND) || (end_ =? INDEX_NOT_FOUND)
  then Throw (DeserializerError "Serialized entries lacks surrounding curly brackets!")
  else
    let interior := slice serialized str_ end_ in
    let! sc := scan {| buffer_1 := []; buffer_2 := []; depth := 0; output := [] |} interior in
    let! sc := flush2 (flush1 sc) in
    if existsb (fun entry => negb (Nat.eqb (length entry) 2)) (output sc)
    then Throw (DeserializerError "Entries are not in a valid key-value pair format!")
    else Ok (output sc).

Definition empty_object (c : constructor) (i : slots) : jsobject :=
  {| proto := Some c; internal := i; properties := []; extensible := true |}.

Definition emptyEntriesHolder (type : jsstring) : M machine jsvalue :=
  if negb (EnscribedType.isEntried type)
  then throw (DeserializerError "Cannot return holder for non-entried type!")
  else if string_eqb type ShorthandType.OBJECT then alloc (empty_object (Shorthand ObjectC) Ordinary)
  else if string_eqb type ShorthandType.ARRAY then alloc (empty_object (Shorthand ArrayC) ArrayExotic)
  else if string_eqb type ShorthandType.SET then alloc (empty_object (Shorthand SetC) (SetData []))
  else if string_eqb type ShorthandType.MAP then alloc (empty_object (Shorthand MapC) (MapData []))
  else throw (DeserializerError "Entried type does not have a default holder defined!").

(** [into[k] = v]: the embedding fixes it for a string key on an
    object, the [length] of an array apart. *)
Definition assign_property (into k v : jsvalue) : M machine unit :=
  match into, k with
  | VObject a, VString name =>
      update a (fun o =>
        match internal o with
        | ArrayExotic =>
            if string_eqb name (str "length")
            then Unmodelled "assignment to the length of an array"
            else assign o name v
        | _ => assign o name v
        end)
  | VObject _, _ => lift (Unmodelled "a property key that is not a string")
  | _, _ => lift (Unmodelled "assignment to a property of a primitive")
  end.

Definition applyPropertyDescriptorFlags (object property : jsvalue) (flags : Z) : M machine unit :=
  match object, property with
  | VObject a, VString name =>
      update a (fun o =>
        defineFlags o name
          (Bitflag.has flags [PropertyDescriptorFlag.IS_CONFIGURABLE])
          (Bitflag.has flags [PropertyDescriptorFlag.IS_ENUMERABLE])
          (Bitflag.has flags [PropertyDescriptorFlag.IS_WRITABLE]))
  | VObject _, _ => lift (Unmodelled "a property key that is not a string")
  | _, _ => lift (Unmodelled "defineProperty on a primitive")
  end.

(** [output.set(k, v)] and [output.add(v)]. *)
Definition Map_set (into k v : jsvalue) : M machine unit :=
  match into with
  | VObject a =>
      update a (fun o =>
        match internal o with
        | MapData es =>
            Ok {| proto := proto o; internal := MapData (map_set (normalize_key k) v es);
                  properties := properties o; extensible := extensible o |}
        | _ => Throw (HostError "TypeError: Method Map.prototype.set called on incompatible receiver")
        end)
  | _ => lift (Unmodelled "Map.prototype.set on a primitive")
  end.

Definition Set_add (into v : jsvalue) : M machine unit :=
  match into with
  | VObject a =>
      update a (fun o =>
        match internal o with
        | SetData es =>
            Ok {| proto := proto o; internal := SetData (set_add (normalize_key v) es);
                  properties := properties o; extensible := extensible o |}
        | _ => Throw (HostError "TypeError: Method Set.prototype.add called on incompatible receiver")
        end)
  | _ => lift (Unmodelled "Set.prototype.add on a primitive")
  end.

Section WithHost.

Context (host : Host).

Definition deserializeNumber (serializedNumber : jsstring) : jsnumber :=
  if string_eqb serializedNumber (str "NaN") then NaN
  else if string_eqb (slice serializedNumber 0 1) (str "-")
  then negate (Number_ofString host (slice_from serializedNumber 1))
  else Number_ofString host serializedNumber.

(** [eval] of the unescaped source is left to the host. *)
Definition deserializeFunction (serializedFunction : jsstring) (name : option jsvalue)
  : M machine jsvalue :=
  let* m := get in
  if negb (Functions (config (this m)))
  then throw (DeserializerError "Function deserialization is disabled in the config!")
  else lift (Unmodelled "eval of a function source").

Definition deserializeDate (serialized : jsstring) : M machine jsvalue :=
  let representation := unescape serialized in
  alloc (empty_object (Shorthand DateC) (DateValue (Date_reparse host representation))).

Section Recursive.

(** The recursive call [this.#deserialize]. *)
Context (deserialize_ : jsstring -> option jsvalue -> M machine jsvalue).

Definition deserializeEntry (type : jsstring) (into : jsvalue) (entry : list jsstring)
  : M machine unit :=
  let key := nth 0 entry [] in
  let val := nth 1 entry [] in
  let* info := lift (SerializedBlockInfo.new key) in
  match descriptor info with
  | None => throw (DeserializerError "Property descriptor details cannot be inferred!")
  | Some descriptor =>
      let* k := deserialize_ key None in
      let* v := deserialize_ val (Some k) in
      let* _ := if EnscribedType.isCustom type then assign_property into k v else ret tt in
      let* _ := if string_eqb type ShorthandType.MAP then Map_set into k v else ret tt in
      let* _ := if string_eqb type ShorthandType.SET then Set_add into v else ret tt in
      if string_eqb type ShorthandType.ARRAY || string_eqb type ShorthandType.OBJECT
      then let* _ := assign_property into k v in
           applyPropertyDescriptorFlags into k descriptor
      else ret tt
  end.

Definition deserializeEntried (serialized type : jsstring) (into : jsvalue) : M machine jsvalue :=
  let* es := lift (extractEntries serialized) in
  let* _ := forEach (deserializeEntry type into) es in
  ret into.

(** The body of [#deserialize]. *)
Definition deserialize_body (serialized : jsstring) (name : option jsvalue) : M machine jsvalue :=
  let* _ := tick in
  let* info := lift (SerializedBlockInfo.new serialized) in
  let type := SerializedBlockInfo.type info in
  if EnscribedType.isSingleton type
  then
    if string_eqb type ShorthandType.UNDEFINED then ret VUndefined
    else if string_eqb type ShorthandType.NULL then ret VNull
    else throw (DeserializerError "No default value present for singleton type!")
  else
    let is_get := match reference info with Some (get_, _) => true | _ => false end in
    let* value :=
      if negb is_get && (EnscribedType.isEntried type || EnscribedType.isCustom type)
      then
        if EnscribedType.isCustom type
        then
          let* identifier := lift (EnscribedType.getCustomTypeReference type) in
          let* m := get in
          match dependencies (this m) !! identifier with
          | None => throw (DeserializerError "Dependency does not exist!")
          | Some inheritied => alloc (empty_object inheritied Ordinary)
          end
        else emptyEntriesHolder type
      else ret VUndefined in
    match reference info with
    | Some (get_, identifier) => getReference identifier
    | _ =>
        let* _ := match reference info with
                  | Some (_, identifier) => setReference identifier value
                  | None => ret tt
                  end in
        match serializedValue info with
        | None => throw (DeserializerError
                    "Expected value to be present! Singleton types should have already been handled.")
        | Some inner =>
            let* value :=
              if EnscribedType.isCustom type || EnscribedType.isEntried type
              then deserializeEntried inner type value
              else if string_eqb type ShorthandType.FUNCTION then deserializeFunction inner name
              else if string_eqb type ShorthandType.BOOLEAN
              then let* b := lift (deserializeBoolean inner) in ret (VBoolean b)
              else if string_eqb type ShorthandType.NUMBER then ret (VNumber (deserializeNumber inner))
              else if string_eqb type ShorthandType.STRING then ret (VString (deserializeString inner))
              else if string_eqb type ShorthandType.BIGINT
              then let* i := lift (deserializeBigInt inner) in ret (VBigInt i)
              else if string_eqb type ShorthandType.DATE then deserializeDate inner
              else throw (DeserializerError "Unable to deserialize unknown type!") in
            let* _ := match reference info with
                      | Some (_, identifier) => setReference identifier value
                      | None => ret tt
                      end in
            ret value
        end
    end.

End Recursive.

(** [#deserialize]; [fuel] bounds the depth of the recursion. *)
Fixpoint deserialize_ (fuel : nat) (serialized : jsstring) (name : option jsvalue)
  : M machine jsvalue :=
  match fuel with
  | O => lift OutOfFuel
  | S fuel' => deserialize_body (deserialize_ fuel') serialized name
  end.

End WithHost.

(** [Array.prototype.lastIndexOf] on the list of required names. *)
Fixpoint list_lastIndexOf (x : jsstring) (l : list jsstring) (i last : Z) : Z :=
  match l with
  | [] => last
  | y :: l' => list_lastIndexOf x l' (i + 1) (if string_eqb y x then i else last)
  end.

Definition setDependency (index : N) (ctor : constructor) : M machine unit :=
  modify (fun m => {| this := {| dependencies := <[index := ctor]> (dependencies (this m));
                                 references := references (this m);
                                 ticks := ticks (this m);
                                 config := config (this m) |};
                      memory := memory m |}).

Fixpoint requireAll (requirements rest : list jsstring) (index : Z)
         (providedDependencies : list constructor) : M machine unit :=
  match rest with
  | [] => ret tt
  | dependency :: rest' =>
      if negb (list_lastIndexOf dependency requirements 0 (-1) =? index)
      then throw (DeserializerError "Injected constructor dependency is listed multiple times!")
      else
        match List.find (fun ctor => string_eqb (constructor_name ctor) dependency)
                providedDependencies with
        | None => throw (DeserializerError "Constructor dependency class not provided!")
        | Some ctor =>
            let* _ := setDependency (Z.to_N index) ctor in
            requireAll requirements rest' (index + 1) providedDependencies
        end
  end.

Definition setupDependencies (serialized : jsstring) (providedDependencies : list constructor)
  : M machine jsstring :=
  let s := indexOf serialized Tok.DEPENDENCIES_S in
  let e := indexOf serialized Tok.DEPENDENDIES_E in
  if (s =? INDEX_NOT_FOUND) && (e =? INDEX_NOT_FOUND) then ret serialized
  else if s =? INDEX_NOT_FOUND then throw (DeserializerError "Dependency list was not closed!")
  else if e =? INDEX_NOT_FOUND
  then throw (DeserializerError "Dependency list was closed but never opened!")
  else
    let requirements :=
      map unescape (split (slice serialized (s + Z.of_nat (length Tok.DEPENDENCIES_S)) e)
                          (unit_of (str ","))) in
    let* _ := requireAll requirements requirements 0 providedDependencies in
    ret (slice_from serialized (e + Z.of_nat (length Tok.DEPENDENDIES_E))).

(** [deserialize(serialized, dependencies)] with an explicit
    recursion budget. *)
Definition deserialize_with (host : Host) (fuel : nat) (serialized : jsstring)
           (dependencies : list constructor) : M machine jsvalue :=
  let* serialized := setupDependencies serialized dependencies in
  deserialize_ host fuel serialized None.

(** [deserialize(serialized, dependencies)].  Every nested block is
    a proper part of the block around it. *)
Definition deserialize (host : Host) (serialized : jsstring)
           (dependencies : list constructor) : M machine jsvalue :=
  deserialize_with host (S (length serialized)) serialized dependencies.

End Deserializer.

(* ------------------------------------------------------------------ *)
(** ** Notions used to state the properties *)

(** Text in which a reserved character only occurs inside an escape
    sequence [&<decimal char code>;] of a reserved character. *)
Inductive EscapedText : jsstring -> Prop :=
| escaped_empty : EscapedText []
| escaped_plain (c : N) (s : jsstring) :
    ~ In c Serializer.RESERVED_CHARACTERS -> EscapedText s -> EscapedText (c :: s)
| escaped_sequence (c : N) (s : jsstring) :
    In c Serializer.RESERVED_CHARACTERS -> EscapedText s ->
    EscapedText (str "&" ++ decimal c ++ str ";" ++ s).

(** Numbers that are doubles: the bit pattern of a finite magnitude
    lies below that of infinity. *)
Definition is_double (n : jsnumber) : Prop :=
  match n with
  | Finite _ bits => (Z.pos bits < 0x7FF0000000000000)%Z
  | _ => True
  end.

(** What the language guarantees of [Number.prototype.toString] and
    [Number] on a number that is neither NaN nor negative: the text
    reads back as the same number, does not start with a minus sign,
    and is not the text of NaN. *)
Record NumberContract (host : Host) : Prop := {
  reads_back : forall n, is_double n -> n <> NaN -> abs n = n ->
                         Number_ofString host (Number_toString host n) = n;
  unsigned_text : forall n, is_double n -> n <> NaN -> abs n = n ->
                            hd_error (Number_toString host n) <> Some (unit_of (str "-"));
  not_NaN_text : forall n, is_double n -> n <> NaN -> abs n = n ->
                           Number_toString host n <> str "NaN"
}.

(** A host on which a finite magnitude prints as the decimal numeral
    of its bit pattern.  It meets [NumberContract] and serves to
    exercise the statements that depend on a host. *)
Definition bitpattern_host : Host :=
  {| Number_toString := fun n =>
       match n with
       | NaN => str "NaN"
       | Infinity s => (if s then str "-" else []) ++ str "Infinity"
       | Zero s => (if s then str "-" else []) ++ str "0"
       | Finite s bits => (if s then str "-" else []) ++ decimal (N.pos bits)
       end;
     Number_ofString := fun text =>
       if string_eqb text (str "Infinity") then Infinity false
       else match text with
            | [] => Zero false
            | _ :: _ =>
                if forallb is_digit text
                then match numberOfDigits text with
                     | N0 => Zero false
                     | N.pos bits => Finite false bits
                     end
                else NaN
            end;
     Date_reparse := fun text => text |}.

(** A fragment of an entries block, read from brace depth [depth]:
    every [:] and [,] in it lies at a depth other than zero, and it
    ends back at depth zero. *)
Fixpoint closed_from (depth : Z) (fragment : jsstring) : bool :=
  match fragment with
  | [] => depth =? 0
  | c :: rest =>
      if unit_eqb c (unit_of Tok.ENTRIED_VALUE_S) then closed_from (depth + 1) rest
      else if unit_eqb c (unit_of Tok.ENTRIED_VALUE_E) then closed_from (depth - 1) rest
      else if unit_eqb c (unit_of Tok.KEY_VALUE_SEPERATOR)
              || unit_eqb c (unit_of Tok.ENTRY_SEPERATOR)
      then negb (depth =? 0) && closed_from depth rest
      else closed_from depth rest
  end.

(** A key or value fragment: not empty, and closed from depth zero. *)
Definition fragment (f : jsstring) : Prop := f <> [] /\ closed_from 0 f = true.

(** The text of an entries block whose entries are the given groups
    of fragments: the fragments of a group are joined by [:], the
    groups by [,], and the whole is put between braces. *)
Definition entries_text (groups : list (list jsstring)) : jsstring :=
  Tok.ENTRIED_VALUE_S
  ++ join Tok.ENTRY_SEPERATOR (map (join Tok.KEY_VALUE_SEPERATOR) groups)
  ++ Tok.ENTRIED_VALUE_E.

(** A group of one or more fragments. *)
Definition group (g : list jsstring) : Prop := g <> [] /\ Forall fragment g.

(** A group that is a key part and a value part. *)
Definition two_parts (g : list jsstring) : bool := Nat.eqb (length g) 2.

(** The reference declarations [@<id>=] and the reference pointers
    [#<id>] that occur in a text, left to right. *)
Definition declarations (text : jsstring) : list jsstring :=
  RegExp.matchAll (RegExp.digits_between Tok.REFERENCE_DECLARARION_S
                     (Some (unit_of Tok.REFERENCE_DECLARATION_E))) text.

Definition pointers (text : jsstring) : list jsstring :=
  RegExp.matchAll (RegExp.digits_between Tok.REFERENCE_POINTER None) text.

(** An own property as plain assignment creates it. *)
Definition plain_property (name : string) (v : jsvalue) : property :=
  {| key := str name; val := v; configurable := true; enumerable := true; writable := true |}.

(** [x = {}; x.self = x]: one object, at address 0, whose property
    [self] holds its own address. *)
Definition self_heap : heap :=
  [{| proto := Some (Shorthand ObjectC); internal := Ordinary;
      properties := [plain_property "self" (VObject 0)]; extensible := true |}].

(** [Object.freeze({})]: an empty object that is not extensible. *)
Definition frozen_heap : heap :=
  [{| proto := Some (Shorthand ObjectC); internal := Ordinary;
      properties := []; extensible := false |}].

(** [new Set([1n, "x"])]. *)
Definition set_heap : heap :=
  [{| proto := Some (Shorthand SetC); internal := SetData [VBigInt 1; VString (str "x")];
      properties := []; extensible := true |}].

(** The function [({["@0=#0x"]: function(){}})["@0=#0x"]]: its [name]
    is the computed key. *)
Definition named_function_heap : heap :=
  [{| proto := Some (Shorthand FunctionC);
      internal := Callable (str "@0=#0x") (str "function(){}");
      properties := []; extensible := true |}].

Definition functions_enabled : configuration :=
  {| DebugMode := false; Functions := true; Metadata := false |}.

(** The own property of the object at an address. *)
Definition own_property (m : heap) (address : nat) (name : string) : option jsvalue :=
  match m !! address with
  | Some o => option_map val (find_property (str name) (properties o))
  | None => None
  end.

(** The state of a serializer after one more tick. *)
Definition ticked (st : Serializer.state) : Serializer.state :=
  {| Serializer.config := Serializer.config st; Serializer.ticks := (Serializer.ticks st + 1)%N;
     Serializer.reference_ids := Serializer.reference_ids st;
     Serializer.reference_value_map := Serializer.reference_value_map st;
     Serializer.reference_usage := Serializer.reference_usage st;
     Serializer.custom_constructors := Serializer.custom_constructors st |}.

(** A text in which the unit [c] does not occur. *)
Definition free_of (c : N) (text : jsstring) : Prop := ~ In c text.

(** Every object of the heap is extensible. *)
Definition all_extensible (m : Deserializer.machine) : Prop :=
  Forall (fun o => extensible o = true) (Deserializer.memory m).

(** A computation that keeps every object extensible, whether it
    returns or throws. *)
Definition keeps_extensible {A} (c : M Deserializer.machine A) : Prop :=
  forall m, all_extensible m -> all_extensible (snd (c m)).

(** The error of [getReference] on an id without a binding. *)
Definition reference_missing : error :=
  DeserializerError
    "Invalid reference! The value behind the reference was has not been initialized.".

(** A block that is a pointer [#<id>] (possibly between key
    brackets) whose id has no binding in the reference table. *)
Definition unbound_pointer (m : Deserializer.machine) (block : jsstring) : Prop :=
  exists info id,
    SerializedBlockInfo.new block = Ok info
    /\ SerializedBlockInfo.reference info = Some (SerializedBlockInfo.get_, id)
    /\ Deserializer.references (Deserializer.this m) !! id = None.

(** The holder [#deserialize] allocates for an entried or custom type. *)
Definition holder_for (type : jsstring) : M Deserializer.machine jsvalue :=
  if EnscribedType.isCustom type
  then
    let* identifier := lift (EnscribedType.getCustomTypeReference type) in
    let* m := get in
    match Deserializer.dependencies (Deserializer.this m) !! identifier with
    | None => throw (DeserializerError "Dependency does not exist!")
    | Some inheritied => Deserializer.alloc (Deserializer.empty_object inheritied Ordinary)
    end
  else Deserializer.emptyEntriesHolder type.

(** Where [#deserialize], called on [block] in state [m], starts to
    decode entries: the state at that point (the holder allocated
    and, for a declaration, already bound to its id), the payload,
    the type and the holder.  [None] when the call does not get
    there. *)
Definition entered (m : Deserializer.machine) (block : jsstring)
  : option (Deserializer.machine * jsstring * jsstring * jsvalue) :=
  match SerializedBlockInfo.new block with
  | Ok info =>
      let type := SerializedBlockInfo.type info in
      if EnscribedType.isSingleton type then None
      else
        match SerializedBlockInfo.reference info with
        | Some (SerializedBlockInfo.get_, _) => None
        | reference =>
            if EnscribedType.isEntried type || EnscribedType.isCustom type
            then
              match holder_for type (snd (Deserializer.tick m)) with
              | (Ok holder, m1) =>
                  let m2 := match reference with
                            | Some (_, identifier) =>
                                snd (Deserializer.setReference identifier holder m1)
                            | None => m1
                            end in
                  match SerializedBlockInfo.serializedValue info with
                  | Some inner => Some (m2, inner, type, holder)
                  | None => None
                  end
              | _ => None
              end
            else None
        end
  | _ => None
  end.

(** [Decodes host fuel m block fuel' m' block']: the call of
    [#deserialize] on [block] in state [m] gets, in depth-first order,
    to the call on [block'] in state [m']: either it is that call, or
    [block] is an entried block and the call gets there through the
    key or the value of one of its entries, the entries before it
    having been decoded and installed. *)
Inductive Decodes (host : Host)
  : nat -> Deserializer.machine -> jsstring -> nat -> Deserializer.machine -> jsstring -> Prop :=
| decodes_here (fuel : nat) (m : Deserializer.machine) (block : jsstring) :
    Decodes host fuel m block fuel m block
| decodes_key (fuel : nat) (m m1 m2 : Deserializer.machine) (block inner type : jsstring)
              (holder : jsvalue) (before after : list (list jsstring)) (entry : list jsstring)
              (info : SerializedBlockInfo.t) (flags : Z)
              (fuel' : nat) (m' : Deserializer.machine) (block' : jsstring) :
    entered m block = Some (m1, inner, type, holder) ->
    Deserializer.extractEntries inner = Ok (before ++ entry :: after) ->
    forEach (Deserializer.deserializeEntry (Deserializer.deserialize_ host fuel) type holder)
            before m1 = (Ok tt, m2) ->
    SerializedBlockInfo.new (nth 0 entry []) = Ok info ->
    SerializedBlockInfo.descriptor info = Some flags ->
    Decodes host fuel m2 (nth 0 entry []) fuel' m' block' ->
    Decodes host (S fuel) m block fuel' m' block'
| decodes_value (fuel : nat) (m m1 m2 m3 : Deserializer.machine) (block inner type : jsstring)
                (holder k : jsvalue) (before after : list (list jsstring)) (entry : list jsstring)
                (info : SerializedBlockInfo.t) (flags : Z)
                (fuel' : nat) (m' : Deserializer.machine) (block' : jsstring) :
    entered m block = Some (m1, inner, type, holder) ->
    Deserializer.extractEntries inner = Ok (before ++ entry :: after) ->
    forEach (Deserializer.deserializeEntry (Deserializer.deserialize_ host fuel) type holder)
            before m1 = (Ok tt, m2) ->
    SerializedBlockInfo.new (nth 0 entry []) = Ok info ->
    SerializedBlockInfo.descriptor info = Some flags ->
    Deserializer.deserialize_ host fuel (nth 0 entry []) None m2 = (Ok k, m3) ->
    Decodes host fuel m3 (nth 1 entry []) fuel' m' block' ->
    Decodes host (S fuel) m block fuel' m' block'.

(** Every fragment the scanner holds has at most [n] units. *)
Definition fragments_within (n : nat) (sc : Deserializer.scanner) : Prop :=
  (length (Deserializer.buffer_1 sc) <= n)%nat
  /\ Forall (fun f => (length f <= n)%nat) (Deserializer.buffer_2 sc)
  /\ Forall (Forall (fun f => (length f <= n)%nat)) (Deserializer.output sc).

(** *** The reference structure of a serialized text *)

(** A serialized text seen as declarations [@<id>=], pointers
    [#<id>] and the characters in between. *)
Inductive token :=
| Declaration (id : nat)
| Pointer (id : nat)
| Plain (c : N).

Definition declaration_text (id : nat) : jsstring :=
  Tok.REFERENCE_DECLARARION_S ++ decimal (N.of_nat id) ++ Tok.REFERENCE_DECLARATION_E.

Definition pointer_text (id : nat) : jsstring :=
  Tok.REFERENCE_POINTER ++ decimal (N.of_nat id).

Definition token_text (t : token) : jsstring :=
  match t with
  | Declaration id => declaration_text id
  | Pointer id => pointer_text id
  | Plain c => [c]
  end.

Definition tokens_text (ts : list token) : jsstring := flat_map token_text ts.

Definition declared (ts : list token) : list nat :=
  flat_map (fun t => match t with Declaration id => [id] | _ => [] end) ts.

Definition pointed (ts : list token) : list nat :=
  flat_map (fun t => match t with Pointer id => [id] | _ => [] end) ts.

(** Some pointer of the text has the given id. *)
Definition referenced (ts : list token) (id : nat) : bool :=
  existsb (Nat.eqb id) (pointed ts).

(** A plain character is neither ['@'] nor ['#']. *)
Definition plain_token (t : token) : Prop :=
  match t with
  | Plain c => c <> unit_of Tok.REFERENCE_DECLARARION_S /\ c <> unit_of Tok.REFERENCE_POINTER
  | _ => True
  end.

(** Every pointer is followed by a character that is not a digit. *)
Fixpoint pointers_end (ts : list token) : Prop :=
  match ts with
  | [] => True
  | Pointer _ :: rest =>
      match rest with
      | Plain c :: _ => is_digit c = false
      | _ => False
      end /\ pointers_end rest
  | _ :: rest => pointers_end rest
  end.

(** The texts the clean-up pass is meant for: the declarations are
    numbered [0 .. n-1] in order, every pointer has the id of one of
    them and is followed by a character that is not a digit, and no
    plain character is ['@'] or ['#']. *)
Record well_formed (n : nat) (ts : list token) : Prop := {
  declared_in_order : declared ts = seq 0 n;
  pointed_declared : Forall (fun id => (id < n)%nat) (pointed ts);
  plain_characters : Forall plain_token ts;
  pointers_delimited : pointers_end ts
}.

(** The number of referenced declarations below [id]: the new id of
    the declaration [id] when it is kept. *)
Definition rank (ts : list token) (id : nat) : nat :=
  length (List.filter (referenced ts) (seq 0 id)).

(** The text once the declarations below [done] are dealt with: an
    unreferenced one is dropped, a referenced one and its pointers
    take its rank as id. *)
Definition renumber_token (ts : list token) (done : nat) (t : token) : list token :=
  match t with
  | Declaration id =>
      if (id <? done)%nat
      then if referenced ts id then [Declaration (rank ts id)] else []
      else [t]
  | Pointer id => if (id <? done)%nat then [Pointer (rank ts id)] else [t]
  | Plain _ => [t]
  end.

Definition renumber_below (ts : list token) (done : nat) : list token :=
  flat_map (renumber_token ts done) ts.

(** The compacted text: every declaration dealt with. *)
Definition renumber (ts : list token) : list token :=
  renumber_below ts (length (declared ts)).

(** The first declaration of [id] replaced by the tokens [by_]. *)
Fixpoint replace_declaration (id : nat) (by_ : list token) (ts : list token) : list token :=
  match ts with
  | [] => []
  | Declaration id' :: rest =>
      if Nat.eqb id' id then by_ ++ rest
      else Declaration id' :: replace_declaration id by_ rest
  | t :: rest => t :: replace_declaration id by_ rest
  end.

(** A pointer to [id] turned into a pointer to [id']. *)
Definition rename_pointer (id id' : nat) (t : token) : token :=
  match t with
  | Pointer i => if Nat.eqb i id then Pointer id' else t
  | _ => t
  end.

(** A declaration of [id] replaced by [by_], the other tokens
    renumbered below [done]. *)
Definition settle_token (ts : list token) (id : nat) (by_ : list token) (t : token)
  : list token :=
  match t with
  | Declaration i => if Nat.eqb i id then by_ else renumber_token ts id t
  | _ => renumber_token ts id t
  end.

(** Text without ['@'] and ['#']. *)
Definition plain_text (s : jsstring) : Prop :=
  free_of (unit_of Tok.REFERENCE_DECLARARION_S) s /\ free_of (unit_of Tok.REFERENCE_POINTER) s.

(** The pointers are delimited once the text goes on with a
    character that is not a digit. *)
Definition open_ended (ts : list token) : Prop :=
  forall c rest, is_digit c = false -> pointers_end (Plain c :: rest) ->
  pointers_end (ts ++ Plain c :: rest).

(** A stretch of the text of the recursive pass, written while the
    id counter goes from [from] to [to]: it declares the ids
    [from .. to - 1] in this order and points to ids below [to]. *)
Record emits (from to : nat) (ts : list token) : Prop := {
  emits_grows : (from <= to)%nat;
  emits_plain : Forall plain_token ts;
  emits_declared : declared ts = seq from (to - from);
  emits_pointed : Forall (fun id => (id < to)%nat) (pointed ts);
  emits_open : open_ended ts
}.

(** The id counter of an encoder. *)
Definition ids (st : Serializer.state) : nat := N.to_nat (Serializer.reference_ids st).

(** The encoder refuses functions, and the ids of its table are
    below the counter. *)
Record steady (st : Serializer.state) : Prop := {
  steady_functions : Functions (Serializer.config st) = false;
  steady_table : Forall (fun entry => (snd entry < Serializer.reference_ids st)%N)
                   (Serializer.reference_value_map st)
}.

(** A call that returns a stretch of text. *)
Definition writes (st : Serializer.state) (text : jsstring) (st' : Serializer.state) : Prop :=
  steady st' /\ exists ts, text = tokens_text ts /\ emits (ids st) (ids st') ts.

(** A call of [#serialize] returns a pointer, or a declaration whose
    pointers are delimited. *)
Definition marks (st : Serializer.state) (text : jsstring) (st' : Serializer.state) : Prop :=
  steady st' /\
  exists ts, text = tokens_text ts /\ emits (ids st) (ids st') ts /\
             ((exists id, ts = [Pointer id]) \/ pointers_end ts).

(** What the host writes for a number has neither ['@'] nor ['#']. *)
Definition plain_numbers (host : Host) : Prop :=
  forall number, plain_text (Number_toString host number).

(* ------------------------------------------------------------------ *)
(** ** Notions used by the further properties *)

(** The signed 32-bit integers. *)
Definition int32 (n : Z) : Prop := - 2 ^ 31 <= n < 2 ^ 31.

(** A flag with one bit set, as [validateEnum] accepts it. *)
Definition single_bit (flag : Z) : Prop := exists k, 0 <= k <= 30 /\ flag = 2 ^ k.

(** A mask that is a signed 32-bit integer and not negative. *)
Definition mask32 (flag : Z) : Prop := 0 <= flag < 2 ^ 31.

(** What the host writes for a number has no reserved character. *)
Definition unreserved_numbers (host : Host) : Prop :=
  forall number c, In c (Number_toString host number) ->
                   ~ In c Serializer.RESERVED_CHARACTERS.

(** The values without payload, and the booleans. *)
Definition is_small (value : jsvalue) : Prop :=
  match value with
  | VNull | VUndefined | VBoolean _ => True
  | _ => False
  end.

(** The text of such a value. *)
Definition small_text (value : jsvalue) : jsstring :=
  match value with
  | VNull => ShorthandType.NULL
  | VUndefined => ShorthandType.UNDEFINED
  | VBoolean boolean =>
      ShorthandType.BOOLEAN ++ Tok.TYPE_SEPERATOR ++ Serializer.serializeBoolean boolean
  | _ => EMPTY
  end.

(** An outcome other than the exhaustion of the recursion budget. *)
Definition settled {A} (o : outcome A) : Prop := o <> OutOfFuel.

(** An outcome other than the request to evaluate the source of a
    function. *)
Definition unevaluated {A} (o : outcome A) : Prop :=
  o <> Unmodelled "eval of a function source".

(** The outcomes of what the code computes outside its recursion. *)
Definition direct {A} (o : outcome A) : Prop := settled o /\ unevaluated o.

(** A computation that never exhausts the recursion budget. *)
Definition within_budget {S A} (c : M S A) : Prop := forall s, settled (fst (c s)).

(** Function support is off. *)
Definition functions_off (m : Deserializer.machine) : Prop :=
  Functions (Deserializer.config (Deserializer.this m)) = false.

(** A computation of a decoder without function support that never
    asks for the source of a function to be evaluated, and leaves
    function support off. *)
Definition never_evaluates {A} (c : M Deserializer.machine A) : Prop :=
  forall m, functions_off m -> unevaluated (fst (c m)) /\ functions_off (snd (c m)).

(** The object at an address has an id in the table of an encoder. *)
Definition marked (table : list (jsvalue * N)) (address : nat) : bool :=
  match Serializer.map_get (VObject address) table with
  | Some _ => true
  | None => false
  end.

(** The number of objects of the heap without an id so far. *)
Definition unmarked (h : heap) (st : Serializer.state) : nat :=
  length (List.filter (fun address => negb (marked (Serializer.reference_value_map st) address))
            (seq 0 (length h))).

(** A computation of an encoder that stays within the recursion
    budget and marks no fewer objects, when at most [k] objects are
    unmarked. *)
Definition safe {A} (h : heap) (k : nat) (c : M Serializer.state A) : Prop :=
  forall st, (unmarked h st <= k)%nat ->
             settled (fst (c st)) /\ (unmarked h (snd (c st)) <= k)%nat.

(** A computation of an encoder that only adds entries to the table
    of ids, none of them for [0] or [-0]. *)
Definition records {A} (c : M Serializer.state A) : Prop :=
  forall st, exists extra,
    Serializer.reference_value_map (snd (c st)) = Serializer.reference_value_map st ++ extra
    /\ Forall (fun entry => is_zero (fst entry) = false) extra.

(** The state of an encoder after one more use of a reference. *)
Definition used (st : Serializer.state) : Serializer.state :=
  {| Serializer.config := Serializer.config st; Serializer.ticks := Serializer.ticks st;
     Serializer.reference_ids := Serializer.reference_ids st;
     Serializer.reference_value_map := Serializer.reference_value_map st;
     Serializer.reference_usage := (Serializer.reference_usage st + 1)%N;
     Serializer.custom_constructors := Serializer.custom_constructors st |}.

(** An encoder after the recursive pass on the string ["a"], and
    then on the string ["b"]. *)
Definition after_a : Serializer.state :=
  snd (Serializer.serialize_ bitpattern_host [] 1 (VString (str "a"))
         (Serializer.new DEFAULT_SHARED_CONFIGURATION)).

Definition after_a_b : Serializer.state :=
  snd (Serializer.serialize_ bitpattern_host [] 1 (VString (str "b")) after_a).

(** The tokens of [@0=2|{[1|a]@1=2|{[1|b]#1}}]. *)
Definition nested_tokens : list token :=
  [Declaration 0] ++ map Plain (str "2|{[1|a]") ++ [Declaration 1]
  ++ map Plain (str "2|{[1|b]") ++ [Pointer 1] ++ map Plain (str "}}").

(** The dependency list [serialize] puts before the text. *)
Definition dependency_header (names : list jsstring) : jsstring :=
  Tok.DEPENDENCIES_S ++ join (str ",") names ++ Tok.DEPENDENDIES_E.

(** A class name that can stand in the dependency list as it is: no
    [','], no [']'] and no ['&']. *)
Definition listable (name : jsstring) : Prop :=
  free_of 44 name /\ free_of 93 name /\ free_of 38 name.

(** The first provided constructor of a name. *)
Definition provided_for (provided : list constructor) (name : jsstring) : option constructor :=
  List.find (fun ctor => string_eqb (constructor_name ctor) name) provided.

(** The two states differ in the dependency table only. *)
Definition same_but_dependencies (m m' : Deserializer.machine) : Prop :=
  Deserializer.memory m' = Deserializer.memory m
  /\ Deserializer.references (Deserializer.this m') = Deserializer.references (Deserializer.this m)
  /\ Deserializer.ticks (Deserializer.this m') = Deserializer.ticks (Deserializer.this m)
  /\ Deserializer.config (Deserializer.this m') = Deserializer.config (Deserializer.this m).

(** Two classes [class A {}] and [class B {}]. *)
Definition class_A : class := {| class_id := 1; class_name := str "A"; class_extends := ObjectC |}.
Definition class_B : class := {| class_id := 2; class_name := str "B"; class_extends := ObjectC |}.

(** A heap with one date, which prints as [Thu Jan 01 1970]. *)
Definition epoch_heap : heap :=
  [Deserializer.empty_object (Shorthand DateC) (DateValue (str "Thu Jan 01 1970"))].

(** The text of a string: its type, the separator and the escaped
    string. *)
Definition string_text (s : jsstring) : jsstring :=
  ShorthandType.STRING ++ Tok.TYPE_SEPERATOR ++ Serializer.escape s.

(** The attributes of a property as a number. *)
Definition flags_of (p : property) : Z :=
  (if configurable p then PropertyDescriptorFlag.IS_CONFIGURABLE else 0)
  + (if enumerable p then PropertyDescriptorFlag.IS_ENUMERABLE else 0)
  + (if writable p then PropertyDescriptorFlag.IS_WRITABLE else 0).

Definition is_string (v : jsvalue) : bool :=
  match v with VString _ => true | _ => false end.

Definition text_of (v : jsvalue) : jsstring :=
  match v with VString s => s | _ => [] end.

(** The key part and the value part of the entry of a property whose
    value is a string. *)
Definition key_text (p : property) : jsstring :=
  Tok.KEY_INDEX_S ++ string_text (key p) ++ Tok.KEY_INDEX_E
  ++ Tok.PROPERTY_ACCESSABILITY ++ decimal (Z.to_N (flags_of p)).

Definition entry_parts (p : property) : list jsstring :=
  [key_text p; string_text (text_of (val p))].

(** The text of a value of the type [tag] whose entries hold
    strings, none of them written twice. *)
Definition entried_text (tag : jsstring) (ps : list property) : jsstring :=
  tag ++ Tok.TYPE_SEPERATOR ++ entries_text (map entry_parts ps).

Definition flat_text (ps : list property) : jsstring :=
  entried_text ShorthandType.OBJECT ps.

(** An extensible plain object with the given properties. *)
Definition flat_object (ps : list property) : jsobject :=
  {| proto := Some (Shorthand ObjectC); internal := Ordinary; properties := ps;
     extensible := true |}.

(** The values the encoder meets in the entries of an object, in
    order: each key, then its value. *)
Definition written (ps : list property) : list jsvalue :=
  flat_map (fun p => [VString (key p); val p]) ps.

(** The tokens of the recursive pass on such an object. *)
Definition string_tokens (id : nat) (s : jsstring) : list token :=
  Declaration id :: map Plain (string_text s).

Definition key_tokens (id : nat) (p : property) : list token :=
  map Plain Tok.KEY_INDEX_S ++ string_tokens id (key p)
  ++ map Plain (Tok.KEY_INDEX_E ++ Tok.PROPERTY_ACCESSABILITY ++ decimal (Z.to_N (flags_of p))).

Definition entry_tokens (id : nat) (p : property) : list token :=
  key_tokens id p ++ map Plain Tok.KEY_VALUE_SEPERATOR
  ++ string_tokens (S id) (text_of (val p)).

Fixpoint entries_tokens (first : bool) (id : nat) (ps : list property) : list token :=
  match ps with
  | [] => []
  | p :: rest =>
      map Plain (if first then EMPTY else Tok.ENTRY_SEPERATOR)
      ++ entry_tokens id p ++ entries_tokens false (S (S id)) rest
  end.

Definition object_tokens (tag : jsstring) (ps : list property) : list token :=
  Declaration 0
  :: map Plain (tag ++ Tok.TYPE_SEPERATOR ++ Tok.ENTRIED_VALUE_S)
  ++ entries_tokens true 1 ps ++ map Plain Tok.ENTRIED_VALUE_E.

(** The tokens that are not declarations. *)
Definition undeclared (ts : list token) : list token :=
  List.filter (fun t => match t with Declaration _ => false | _ => true end) ts.

(** None of the values is in the table of the encoder. *)
Definition unseen (st : Serializer.state) (vs : list jsvalue) : Prop :=
  Forall (fun v => Serializer.map_get v (Serializer.reference_value_map st) = None) vs.

(** The encoder after it has met new values, none of them a zero:
    each takes the next id. *)
Definition record_value (st : Serializer.state) (v : jsvalue) : Serializer.state :=
  {| Serializer.config := Serializer.config st;
     Serializer.ticks := (Serializer.ticks st + 1)%N;
     Serializer.reference_ids := (Serializer.reference_ids st + 1)%N;
     Serializer.reference_value_map :=
       Serializer.reference_value_map st ++ [(v, Serializer.reference_ids st)];
     Serializer.reference_usage := Serializer.reference_usage st;
     Serializer.custom_constructors := Serializer.custom_constructors st |}.

Definition recorded (st : Serializer.state) (vs : list jsvalue) : Serializer.state :=
  fold_left record_value vs st.

(** The value of the entry is a string, and the encoder computes
    the flags of the entry for its key. *)
Definition own_string (o : jsobject) (p : property) : Prop :=
  is_string (val p) = true
  /\ Serializer.propertyDescriptorFlag o (VString (key p)) = Ok (flags_of p).

(** The encoder that has marked the object at [a] as its first
    value. *)
Definition inside (config : configuration) (a : nat) : Serializer.state :=
  {| Serializer.config := config; Serializer.ticks := 0; Serializer.reference_ids := 1;
     Serializer.reference_value_map := [(VObject a, 0%N)];
     Serializer.reference_usage := 0; Serializer.custom_constructors := [] |}.

(** The reserved characters that the escaped text of a string never
    holds. *)
Definition structural (c : N) : Prop :=
  In c Serializer.RESERVED_CHARACTERS /\ c <> 38%N /\ c <> 59%N.

(** The key is not the name of the accessor that every plain object
    inherits; an assignment to that name does not create a property,
    which the embedding of assignment does not cover. *)
Definition ordinary_key (p : property) : Prop := key p <> str "__proto__".

(** [{ a: "x" }] with a second property [b] that holds ["y"] and is
    neither configurable nor writable. *)
Definition two_strings : list property :=
  [plain_property "a" (VString (str "x"));
   {| key := str "b"; val := VString (str "y"); configurable := false;
      enumerable := true; writable := false |}].

(** An entry of a [Map] from strings to strings, as the key and the
    value of a property without attributes: the encoder writes the
    flags [0] for the keys of a [Map]. *)
Definition map_entry (entry : jsstring * jsstring) : property :=
  {| key := fst entry; val := VString (snd entry); configurable := false;
     enumerable := false; writable := false |}.

(** A [Map] from strings to strings, without own properties. *)
Definition string_pair (entry : jsstring * jsstring) : jsvalue * jsvalue :=
  (VString (fst entry), VString (snd entry)).

Definition string_map (entries : list (jsstring * jsstring)) : jsobject :=
  {| proto := Some (Shorthand MapC); internal := MapData (map string_pair entries);
     properties := []; extensible := true |}.

Definition map_text (entries : list (jsstring * jsstring)) : jsstring :=
  entried_text ShorthandType.MAP (map map_entry entries).

(** [new Map([["a", "x"], ["b", "y"]])]. *)
Definition two_entries : list (jsstring * jsstring) :=
  [(str "a", str "x"); (str "b", str "y")].

(* ------------------------------------------------------------------ *)
(** * Properties *)

(** ** The reserved-character codec *)

Lemma reserved_dec (c : N) :
  {In c Serializer.RESERVED_CHARACTERS} + {~ In c Serializer.RESERVED_CHARACTERS}.
Proof. apply in_dec, N.eq_dec. Qed.

Lemma existsb_reserved (c : N) :
  existsb (unit_eqb c) Serializer.RESERVED_CHARACTERS = true <->
  In c Serializer.RESERVED_CHARACTERS.
Proof.
  rewrite existsb_exists. split.
  - intros (x & Hx & Heq). apply N.eqb_eq in Heq. now subst.
  - intros H. exists c. split; [assumption | apply N.eqb_refl].
Qed.

(** [escape] works unit by unit. *)
Lemma escape_cons (c : N) (s : jsstring) :
  Serializer.escape (c :: s) =
  (if reserved_dec c then str "&" ++ decimal c ++ str ";" else [c]) ++ Serializer.escape s.
Proof.
  unfold Serializer.escape, RegExp.replaceAll. cbn [RegExp.replace_go].
  unfold Serializer.RESERVED_REGEX at 1, RegExp.one_of.
  destruct (reserved_dec c) as [Hin | Hout].
  - apply existsb_reserved in Hin. rewrite Hin. reflexivity.
  - destruct (existsb _ _) eqn:E; [apply existsb_reserved in E; contradiction | reflexivity].
Qed.

(** One escape sequence decodes to the character it stands for. *)
Lemma unescape_sequence (c : N) (t : jsstring) :
  In c Serializer.RESERVED_CHARACTERS ->
  Deserializer.unescape (str "&" ++ decimal c ++ str ";" ++ t) = c :: Deserializer.unescape t.
Proof.
  intros Hin. cbv [Serializer.RESERVED_CHARACTERS map unit_of hd str list_ascii_of_string
                   N_of_ascii N_of_digits] in Hin. simpl in Hin.
  repeat (destruct Hin as [<- | Hin]; [reflexivity |]).
  destruct Hin.
Qed.

Lemma unescape_plain (c : N) (t : jsstring) :
  ~ In c Serializer.RESERVED_CHARACTERS ->
  Deserializer.unescape (c :: t) = c :: Deserializer.unescape t.
Proof.
  intros Hout. unfold Deserializer.unescape, RegExp.replaceAll. cbn [RegExp.replace_go].
  unfold RegExp.digits_between at 1.
  replace (startsWith (c :: t) Tok.ESCAPE_S) with false; [reflexivity |].
  symmetry. change Tok.ESCAPE_S with [38%N]. cbn [startsWith].
  rewrite andb_true_r. apply N.eqb_neq. intros <-.
  apply Hout. cbv. tauto.
Qed.

(** C3. Escape law: for every string [s] (any sequence of UTF-16 code
    units), [unescape (escape s) = s], and in [escape s] a reserved
    character occurs only inside an escape sequence
    [&<decimal char code>;]. *)
Theorem escape_law (s : jsstring) :
  Deserializer.unescape (Serializer.escape s) = s /\ EscapedText (Serializer.escape s).
Proof.
  induction s as [| c s [IHround IHtext]].
  - split; [reflexivity | constructor].
  - rewrite escape_cons. destruct (reserved_dec c) as [Hin | Hout].
    + split.
      * rewrite <- !app_assoc, unescape_sequence by assumption. now rewrite IHround.
      * rewrite <- !app_assoc. now apply escaped_sequence.
    + split.
      * cbn [app]. rewrite unescape_plain by assumption. now rewrite IHround.
      * cbn [app]. now apply escaped_plain.
Qed.

(** ** Strings and numerals *)

Lemma string_eqb_eq (a b : jsstring) : string_eqb a b = true <-> a = b.
Proof.
  revert b. induction a as [| x a IH]; intros [| y b]; cbn; try (split; congruence).
  rewrite andb_true_iff, IH. unfold unit_eqb. rewrite N.eqb_eq.
  split; [intros [-> ->]; reflexivity | intros [= -> ->]; split; reflexivity].
Qed.

Lemma string_eqb_refl (a : jsstring) : string_eqb a a = true.
Proof. now apply string_eqb_eq. Qed.

Lemma string_eqb_neq (a b : jsstring) : a <> b -> string_eqb a b = false.
Proof.
  intros H. destruct (string_eqb a b) eqn:E; [| reflexivity].
  apply string_eqb_eq in E. contradiction.
Qed.

Lemma slice_inside (s : jsstring) (a b : Z) :
  0 <= a <= b -> b <= Z.of_nat (length s) ->
  slice s a b = firstn (Z.to_nat (b - a)) (skipn (Z.to_nat a) s).
Proof.
  intros Hab Hb. unfold slice, clamp_index.
  destruct (Z.ltb_spec a 0); [lia |]. destruct (Z.ltb_spec b 0); [lia |].
  rewrite !Z.min_l by lia. reflexivity.
Qed.

Lemma slice_from_inside (s : jsstring) (a : Z) :
  0 <= a <= Z.of_nat (length s) -> slice_from s a = skipn (Z.to_nat a) s.
Proof.
  intros Ha. unfold slice_from. rewrite slice_inside by lia.
  apply firstn_all2. rewrite length_skipn. lia.
Qed.

Lemma slice_from_tail (c : N) (t : jsstring) : slice_from (c :: t) 1 = t.
Proof. rewrite slice_from_inside by (cbn [length]; lia). reflexivity. Qed.

Lemma slice_head (c : N) (t : jsstring) : slice (c :: t) 0 1 = [c].
Proof. rewrite slice_inside by (cbn [length]; lia). reflexivity. Qed.

Lemma units_uint_units (u : Decimal.uint) : units_uint (uint_units u) = u.
Proof. induction u; cbn [uint_units units_uint]; rewrite ?IHu; reflexivity. Qed.

Lemma uint_units_digits (u : Decimal.uint) : forallb is_digit (uint_units u) = true.
Proof. induction u; cbn [uint_units forallb]; rewrite ?IHu; reflexivity. Qed.

Lemma numberOfDigits_decimal (n : N) : numberOfDigits (decimal n) = n.
Proof.
  unfold numberOfDigits, decimal. rewrite units_uint_units.
  apply DecimalN.Unsigned.of_to.
Qed.

Lemma decimal_digits (n : N) : forallb is_digit (decimal n) = true.
Proof. apply uint_units_digits. Qed.

Lemma decimal_inj (a b : N) : decimal a = decimal b -> a = b.
Proof. intros H. rewrite <- (numberOfDigits_decimal a), H. apply numberOfDigits_decimal. Qed.

Lemma decimal_nonempty (n : N) : decimal n <> [].
Proof.
  intros H. pose proof (numberOfDigits_decimal n) as E. rewrite H in E.
  cbn in E. subst n. discriminate H.
Qed.

Lemma decimal_head (n : N) : exists d ds, decimal n = d :: ds /\ is_digit d = true.
Proof.
  pose proof (decimal_digits n) as H. pose proof (decimal_nonempty n) as Hne.
  destruct (decimal n) as [| d ds]; [contradiction |].
  exists d, ds. cbn in H. apply andb_true_iff in H. tauto.
Qed.

(** ** Numbers *)

Lemma decimal_text (n : N) (text : jsstring) :
  (forall d ds, text = d :: ds -> is_digit d = false) -> decimal n <> text.
Proof.
  intros H E. destruct (decimal_head n) as (d & ds & E' & Hd).
  rewrite (H d ds) in Hd; [discriminate | congruence].
Qed.

Lemma bitpattern_host_contract : NumberContract bitpattern_host.
Proof.
  split.
  - intros [| [|] | [|] | [|] bits] _ Hnan Habs; try discriminate Habs; try congruence;
      try reflexivity.
    unfold bitpattern_host, Number_toString, Number_ofString. cbn [app].
    rewrite string_eqb_neq
      by (apply decimal_text; intros d ds [= <- _]; reflexivity).
    destruct (decimal_head (N.pos bits)) as (d & ds & E & Hd).
    rewrite E at 1. rewrite decimal_digits, numberOfDigits_decimal. reflexivity.
  - intros [| [|] | [|] | [|] bits] _ Hnan Habs; try discriminate Habs; try congruence;
      try (intros [=]; fail).
    unfold bitpattern_host, Number_toString. cbn [app].
    destruct (decimal_head (N.pos bits)) as (d & ds & -> & Hd).
    intros [= ->]. discriminate Hd.
  - intros [| [|] | [|] | [|] bits] _ Hnan Habs; try discriminate Habs; try congruence;
      try (intros [=]; fail).
    unfold bitpattern_host, Number_toString. cbn [app].
    apply decimal_text. intros d ds [= <- _]. reflexivity.
Qed.

Lemma is_double_abs (n : jsnumber) : is_double n -> is_double (abs n).
Proof. destruct n; cbn; auto. Qed.

Lemma abs_abs (n : jsnumber) : abs (abs n) = abs n.
Proof. destruct n; reflexivity. Qed.

Lemma slice_head_not_minus (t : jsstring) :
  hd_error t <> Some (unit_of (str "-")) -> string_eqb (slice t 0 1) (str "-") = false.
Proof.
  intros H. destruct t as [| c t]; [reflexivity |].
  rewrite slice_head. apply string_eqb_neq. intros [= ->]. apply H. reflexivity.
Qed.

(** Decoding the text of a number that is neither NaN nor negative. *)
Lemma deserializeNumber_unsigned (host : Host) (n : jsnumber) :
  NumberContract host -> is_double n -> n <> NaN -> abs n = n ->
  Deserializer.deserializeNumber host (Number_toString host n) = n.
Proof.
  intros C Hd Hnan Habs. unfold Deserializer.deserializeNumber.
  rewrite string_eqb_neq by now apply (not_NaN_text host C).
  rewrite slice_head_not_minus by now apply (unsigned_text host C).
  now apply (reads_back host C).
Qed.

(** Decoding a minus sign followed by such a text. *)
Lemma deserializeNumber_signed (host : Host) (n : jsnumber) :
  NumberContract host -> is_double n -> n <> NaN -> abs n = n ->
  Deserializer.deserializeNumber host (str "-" ++ Number_toString host n) = negate n.
Proof.
  intros C Hd Hnan Habs. unfold Deserializer.deserializeNumber.
  change (str "-" ++ Number_toString host n) with (45%N :: Number_toString host n).
  rewrite slice_head, slice_from_tail.
  change (string_eqb (45%N :: Number_toString host n) (str "NaN")) with false.
  change (string_eqb [45%N] (str "-")) with true. cbv iota.
  f_equal. now apply (reads_back host C).
Qed.

(** C9. Number round trip: on a host that meets the language's
    contract for printing and reading numbers, decoding the encoded
    payload of any number gives back the same number up to
    [Object.is]; NaN comes back as NaN, the infinities keep their
    sign, and [+0] and [-0] stay distinct. *)
Theorem number_roundtrip (host : Host) (n : jsnumber) :
  NumberContract host -> is_double n ->
  Deserializer.deserializeNumber host (Serializer.serializeNumber host n) = n.
Proof.
  intros C Hd. destruct n as [| [|] | [|] | [|] bits]; [reflexivity | ..].
  - change (Serializer.serializeNumber host (Infinity true))
      with (str "-" ++ Number_toString host (Infinity false)).
    rewrite deserializeNumber_signed;
      [reflexivity | assumption | exact Hd | discriminate | reflexivity].
  - change (Serializer.serializeNumber host (Infinity false))
      with (Number_toString host (Infinity false)).
    rewrite deserializeNumber_unsigned;
      [reflexivity | assumption | exact Hd | discriminate | reflexivity].
  - change (Serializer.serializeNumber host (Zero true))
      with (str "-" ++ Number_toString host (Zero false)).
    rewrite deserializeNumber_signed;
      [reflexivity | assumption | exact Hd | discriminate | reflexivity].
  - change (Serializer.serializeNumber host (Zero false))
      with (Number_toString host (Zero false)).
    rewrite deserializeNumber_unsigned;
      [reflexivity | assumption | exact Hd | discriminate | reflexivity].
  - change (Serializer.serializeNumber host (Finite true bits))
      with (str "-" ++ Number_toString host (Finite false bits)).
    rewrite deserializeNumber_signed;
      [reflexivity | assumption | exact Hd | discriminate | reflexivity].
  - change (Serializer.serializeNumber host (Finite false bits))
      with (Number_toString host (Finite false bits)).
    rewrite deserializeNumber_unsigned;
      [reflexivity | assumption | exact Hd | discriminate | reflexivity].
Qed.

(** The claim at [-0] on the bit-pattern host. *)
Lemma number_roundtrip_witness :
  Deserializer.deserializeNumber bitpattern_host
    (Serializer.serializeNumber bitpattern_host (Zero true)) = Zero true.
Proof.
  apply (number_roundtrip bitpattern_host (Zero true)).
  - exact bitpattern_host_contract.
  - exact I.
Defined.

(** ** Texts free of a character *)

Lemma free_of_cons (c x : N) (s : jsstring) : free_of c (x :: s) <-> x <> c /\ free_of c s.
Proof. unfold free_of. cbn. intuition. Qed.

Lemma free_of_app (c : N) (s t : jsstring) : free_of c (s ++ t) <-> free_of c s /\ free_of c t.
Proof. unfold free_of. rewrite in_app_iff. tauto. Qed.

Lemma free_of_digits (c : N) (s : jsstring) :
  forallb is_digit s = true -> is_digit c = false -> free_of c s.
Proof.
  intros Hs Hc Hin. rewrite forallb_forall in Hs. specialize (Hs c Hin). congruence.
Qed.

Lemma free_of_decimal (c : N) (n : N) : is_digit c = false -> free_of c (decimal n).
Proof. apply free_of_digits, decimal_digits. Qed.

Lemma startsWith_free (c : N) (pat s : jsstring) :
  free_of c s -> startsWith s (c :: pat) = false.
Proof.
  destruct s as [| x s]; [reflexivity |]. intros H. apply free_of_cons in H as [Hx _].
  cbn. replace (unit_eqb c x) with false; [reflexivity |].
  symmetry. apply N.eqb_neq. congruence.
Qed.

Lemma indexOf_from_free (c : N) (pat s : jsstring) (i : Z) :
  free_of c s -> indexOf_from (c :: pat) s i = -1.
Proof.
  revert i. induction s as [| x s IH]; intros i H.
  - reflexivity.
  - cbn [indexOf_from]. rewrite startsWith_free by assumption.
    apply free_of_cons in H as [_ H]. now apply IH.
Qed.

Lemma indexOf_free (c : N) (pat s : jsstring) :
  free_of c s -> indexOf s (c :: pat) = -1.
Proof. apply indexOf_from_free. Qed.

(** A pattern that only matches at a given unit finds nothing in a
    text free of it. *)
Lemma matchAll_go_free (c : N) (p : RegExp.pattern) (s : jsstring) (skip : nat) :
  (forall t, hd_error t <> Some c -> p t = None) ->
  free_of c s -> RegExp.matchAll_go p skip s = [].
Proof.
  intros Hp. revert skip. induction s as [| x s IH]; intros skip H; [reflexivity |].
  apply free_of_cons in H as [Hx Hs].
  cbn [RegExp.matchAll_go]. destruct skip as [| k]; [| now apply IH].
  rewrite Hp; [now apply IH |]. cbn. congruence.
Qed.

Lemma startsWith_head (c : N) (pat t : jsstring) :
  hd_error t <> Some c -> startsWith t (c :: pat) = false.
Proof.
  destruct t as [| x t]; [reflexivity |]. cbn. intros H.
  replace (unit_eqb c x) with false; [reflexivity |].
  symmetry. apply N.eqb_neq. congruence.
Qed.

Lemma declarations_free (s : jsstring) : free_of 64 s -> declarations s = [].
Proof.
  apply matchAll_go_free. intros t Ht. unfold RegExp.digits_between.
  change Tok.REFERENCE_DECLARARION_S with [64%N]. now rewrite startsWith_head.
Qed.

Lemma pointer_test_free (id s : jsstring) :
  free_of 35 s ->
  RegExp.matchAll (RegExp.literal_then_nondigit (Tok.REFERENCE_POINTER ++ id)) s = [].
Proof.
  apply matchAll_go_free. intros t Ht. unfold RegExp.literal_then_nondigit.
  change (Tok.REFERENCE_POINTER ++ id) with (35%N :: id). now rewrite startsWith_head.
Qed.

(** A text with one leading declaration and neither ['@'] nor ['#']
    after it loses the declaration. *)
Lemma clean_single_declaration (t : jsstring) :
  free_of 64 t -> free_of 35 t -> Serializer.clean (str "@0=" ++ t) = t.
Proof.
  intros Hat Hhash. unfold Serializer.clean.
  change (RegExp.matchAll ?p (str "@0=" ++ t)) with (str "@0=" :: declarations t).
  rewrite declarations_free by assumption. cbn [fold_left].
  unfold Serializer.clean_step.
  change (slice (str "@0=") _ _) with (str "0").
  rewrite pointer_test_free; [reflexivity |].
  change (str "@0=" ++ t) with (64%N :: 48%N :: 61%N :: t).
  rewrite !free_of_cons. repeat split; try discriminate. assumption.
Qed.

(** ** The entry tokenizer *)

Lemma outcome_bind_assoc {A B C} (m : outcome A) (f : A -> outcome B) (g : B -> outcome C) :
  outcome_bind (outcome_bind m f) g = outcome_bind m (fun a => outcome_bind (f a) g).
Proof. now destruct m. Qed.

Lemma lastIndexOf_from_end (c : N) (s : jsstring) (i last : Z) :
  lastIndexOf_from [c] (s ++ [c]) i last = i + Z.of_nat (length s).
Proof.
  revert i last. induction s as [| x s IH]; intros i last.
  - cbn. unfold unit_eqb. rewrite N.eqb_refl. cbn. lia.
  - cbn [app lastIndexOf_from]. rewrite IH. cbn [length]. lia.
Qed.

Lemma scanner_eta (sc : Deserializer.scanner) :
  sc = {| Deserializer.buffer_1 := Deserializer.buffer_1 sc;
          Deserializer.buffer_2 := Deserializer.buffer_2 sc;
          Deserializer.depth := Deserializer.depth sc;
          Deserializer.output := Deserializer.output sc |}.
Proof. now destruct sc. Qed.

(** Scanning a closed fragment appends it to the first buffer. *)
Lemma scan_closed (f rest : jsstring) (b1 : jsstring) (b2 : list jsstring) (d : Z)
      (out : list (list jsstring)) :
  closed_from d f = true ->
  Deserializer.scan {| Deserializer.buffer_1 := b1; Deserializer.buffer_2 := b2;
                       Deserializer.depth := d; Deserializer.output := out |} (f ++ rest)
  = Deserializer.scan {| Deserializer.buffer_1 := b1 ++ f; Deserializer.buffer_2 := b2;
                         Deserializer.depth := 0; Deserializer.output := out |} rest.
Proof.
  revert b1 d. induction f as [| c f IH]; intros b1 d Hc.
  - cbn in Hc. apply Z.eqb_eq in Hc. subst d. now rewrite app_nil_r.
  - cbn [app Deserializer.scan]. cbn [closed_from] in Hc.
    unfold Deserializer.scan_character.
    change (unit_of Tok.ENTRIED_VALUE_S) with 123%N in *.
    change (unit_of Tok.ENTRIED_VALUE_E) with 125%N in *.
    change (unit_of Tok.KEY_VALUE_SEPERATOR) with 58%N in *.
    change (unit_of Tok.ENTRY_SEPERATOR) with 44%N in *.
    cbn [Deserializer.buffer_1 Deserializer.buffer_2 Deserializer.depth Deserializer.output].
    replace (b1 ++ c :: f) with ((b1 ++ [c]) ++ f) by now rewrite <- app_assoc.
    destruct (unit_eqb c 123) eqn:E1.
    { cbn [orb outcome_bind Deserializer.push Deserializer.buffer_1 Deserializer.buffer_2
           Deserializer.depth Deserializer.output]. now apply IH. }
    destruct (unit_eqb c 125) eqn:E2.
    { cbn [orb outcome_bind Deserializer.push Deserializer.buffer_1 Deserializer.buffer_2
           Deserializer.depth Deserializer.output].
      replace (d + -1) with (d - 1) by lia. now apply IH. }
    cbn [orb].
    destruct (unit_eqb c 58) eqn:E3.
    { cbn [orb] in Hc. apply andb_true_iff in Hc as [Hd Hc].
      apply negb_true_iff in Hd. rewrite Hd.
      cbn [outcome_bind Deserializer.push Deserializer.buffer_1 Deserializer.buffer_2
           Deserializer.depth Deserializer.output]. now apply IH. }
    destruct (unit_eqb c 44) eqn:E4.
    { cbn [orb] in Hc. apply andb_true_iff in Hc as [Hd Hc].
      apply negb_true_iff in Hd. rewrite Hd.
      cbn [outcome_bind Deserializer.push Deserializer.buffer_1 Deserializer.buffer_2
           Deserializer.depth Deserializer.output]. now apply IH. }
    cbn [orb] in Hc.
    cbn [outcome_bind Deserializer.push Deserializer.buffer_1 Deserializer.buffer_2
         Deserializer.depth Deserializer.output]. now apply IH.
Qed.

(** Scanning a group of fragments joined by [:] leaves its last
    fragment in the first buffer and the others in the second. *)
Lemma scan_group (g : list jsstring) (rest : jsstring) (b2 : list jsstring)
      (out : list (list jsstring)) :
  group g ->
  Deserializer.scan {| Deserializer.buffer_1 := []; Deserializer.buffer_2 := b2;
                       Deserializer.depth := 0; Deserializer.output := out |}
                    (join Tok.KEY_VALUE_SEPERATOR g ++ rest)
  = Deserializer.scan {| Deserializer.buffer_1 := List.last g [];
                         Deserializer.buffer_2 := b2 ++ removelast g;
                         Deserializer.depth := 0; Deserializer.output := out |} rest.
Proof.
  intros [Hne Hall]. revert b2. induction Hall as [| f g [Hf Hclosed] Hall IH]; intros b2.
  - contradiction.
  - destruct g as [| f' g'].
    + cbn [join List.last removelast]. rewrite scan_closed by assumption.
      now rewrite app_nil_r.
    + change (join Tok.KEY_VALUE_SEPERATOR (f :: f' :: g'))
        with (f ++ Tok.KEY_VALUE_SEPERATOR ++ join Tok.KEY_VALUE_SEPERATOR (f' :: g')).
      rewrite <- !app_assoc. rewrite scan_closed by assumption.
      change (Tok.KEY_VALUE_SEPERATOR ++ ?x) with (58%N :: x).
      cbn [app Deserializer.scan]. unfold Deserializer.scan_character.
      change (unit_of Tok.ENTRIED_VALUE_S) with 123%N.
      change (unit_of Tok.ENTRIED_VALUE_E) with 125%N.
      change (unit_of Tok.KEY_VALUE_SEPERATOR) with 58%N.
      cbn [unit_eqb N.eqb Pos.eqb orb Deserializer.depth Z.eqb].
      unfold Deserializer.flush1.
      cbn [Deserializer.buffer_1 Deserializer.buffer_2 Deserializer.depth Deserializer.output].
      destruct f as [| c f]; [contradiction |].
      cbn [length Nat.ltb Nat.leb outcome_bind].
      rewrite IH by discriminate.
      cbn [List.last removelast]. now rewrite <- app_assoc.
Qed.

Lemma group_last (g : list jsstring) : group g -> List.last g [] <> [].
Proof.
  intros [Hne Hall]. induction Hall as [| f g [Hf _] Hall IH]; [contradiction |].
  destruct g; [exact Hf | apply IH; discriminate].
Qed.

(** At the end of a group the two flushes emit it when it has two
    fragments and throw otherwise. *)
Lemma flush_group (g : list jsstring) (out : list (list jsstring)) :
  group g ->
  Deserializer.flush2
    (Deserializer.flush1 {| Deserializer.buffer_1 := List.last g [];
                            Deserializer.buffer_2 := [] ++ removelast g;
                            Deserializer.depth := 0; Deserializer.output := out |})
  = if Nat.eqb (length g) 2
    then Ok {| Deserializer.buffer_1 := []; Deserializer.buffer_2 := [];
               Deserializer.depth := 0; Deserializer.output := out ++ [g] |}
    else Throw (DeserializerError "Attempted to add a non-key-value pair entry!").
Proof.
  intros Hg. pose proof (group_last g Hg) as Hlast. destruct Hg as [Hne _].
  unfold Deserializer.flush1. cbn [Deserializer.buffer_1].
  destruct (List.last g []) as [| c l] eqn:E; [contradiction |].
  cbn [length Nat.ltb Nat.leb Deserializer.buffer_2 Deserializer.depth Deserializer.output app].
  rewrite <- E, <- app_removelast_last by assumption.
  unfold Deserializer.flush2.
  cbn [Deserializer.buffer_1 Deserializer.buffer_2 Deserializer.depth Deserializer.output].
  destruct g as [| f1 [| f2 [| f3 g]]]; try contradiction; reflexivity.
Qed.

(** The scan of a whole interior followed by the final flushes. *)
Lemma scan_groups (groups : list (list jsstring)) (out : list (list jsstring)) :
  Forall group groups ->
  (let! sc := Deserializer.scan
                {| Deserializer.buffer_1 := []; Deserializer.buffer_2 := [];
                   Deserializer.depth := 0; Deserializer.output := out |}
                (join Tok.ENTRY_SEPERATOR (map (join Tok.KEY_VALUE_SEPERATOR) groups)) in
   Deserializer.flush2 (Deserializer.flush1 sc))
  = if forallb two_parts groups
    then Ok {| Deserializer.buffer_1 := []; Deserializer.buffer_2 := [];
               Deserializer.depth := 0; Deserializer.output := out ++ groups |}
    else Throw (DeserializerError "Attempted to add a non-key-value pair entry!").
Proof.
  intros Hall. revert out. induction Hall as [| g groups Hg Hall IH]; intros out.
  - cbn. now rewrite app_nil_r.
  - destruct groups as [| g' groups'].
    + cbn [map join forallb].
      rewrite <- (app_nil_r (join Tok.KEY_VALUE_SEPERATOR g)).
      rewrite scan_group by assumption. cbn [Deserializer.scan outcome_bind].
      rewrite flush_group by assumption. unfold two_parts.
      destruct (Nat.eqb (length g) 2); reflexivity.
    + change (join Tok.ENTRY_SEPERATOR (map (join Tok.KEY_VALUE_SEPERATOR) (g :: g' :: groups')))
        with (join Tok.KEY_VALUE_SEPERATOR g ++ Tok.ENTRY_SEPERATOR
              ++ join Tok.ENTRY_SEPERATOR (map (join Tok.KEY_VALUE_SEPERATOR) (g' :: groups'))).
      rewrite scan_group by assumption.
      change (Tok.ENTRY_SEPERATOR ++ ?x) with (44%N :: x).
      cbn [Deserializer.scan]. unfold Deserializer.scan_character at 1.
      change (unit_of Tok.ENTRIED_VALUE_S) with 123%N.
      change (unit_of Tok.ENTRIED_VALUE_E) with 125%N.
      change (unit_of Tok.KEY_VALUE_SEPERATOR) with 58%N.
      change (unit_of Tok.ENTRY_SEPERATOR) with 44%N.
      cbn [unit_eqb N.eqb Pos.eqb orb Deserializer.depth Z.eqb].
      rewrite flush_group by assumption.
      cbn [forallb]. fold (two_parts g). destruct (two_parts g).
      * cbn [outcome_bind andb]. rewrite IH. now rewrite <- app_assoc.
      * reflexivity.
Qed.

Lemma indexOf_from_found (c : N) (before rest : jsstring) (i : Z) :
  free_of c before -> indexOf_from [c] (before ++ c :: rest) i = i + Z.of_nat (length before).
Proof.
  revert i. induction before as [| x before IH]; intros i H.
  - cbn. unfold unit_eqb. rewrite N.eqb_refl. cbn. lia.
  - apply free_of_cons in H as [Hx H]. cbn [app indexOf_from].
    rewrite startsWith_head by (cbn; congruence).
    rewrite IH by assumption. cbn [length]. lia.
Qed.

Lemma lastIndexOf_from_free (c : N) (s : jsstring) (i last : Z) :
  free_of c s -> lastIndexOf_from [c] s i last = last.
Proof.
  revert i last. induction s as [| x s IH]; intros i last H; [reflexivity |].
  cbn [lastIndexOf_from]. rewrite startsWith_head by (apply free_of_cons in H; cbn; intuition congruence).
  apply free_of_cons in H as [_ H]. now apply IH.
Qed.

Lemma lastIndexOf_from_found (c : N) (s after : jsstring) (i last : Z) :
  free_of c after -> lastIndexOf_from [c] (s ++ c :: after) i last = i + Z.of_nat (length s).
Proof.
  intros H. revert i last. induction s as [| x s IH]; intros i last.
  - cbn [app lastIndexOf_from startsWith]. unfold unit_eqb. rewrite N.eqb_refl. cbn [andb].
    rewrite lastIndexOf_from_free by assumption. cbn [length]. lia.
  - cbn [app lastIndexOf_from]. rewrite IH. cbn [length]. lia.
Qed.

(** C7. The entry tokenizer: in a text whose first [{] and last [}]
    enclose groups of fragments (a fragment is non-empty, holds [:]
    and [,] only at a brace depth other than zero, [{] and [}]
    adjusting the depth, and ends at depth zero), the fragments of a
    group joined by [:] and the groups by [,], [extractEntries]
    returns the groups in order with every fragment verbatim when
    each group is a key part and a value part, and raises a decode
    error as soon as one group has another number of parts; the empty
    body gives no pair. *)
Theorem extractEntries_groups (before after : jsstring) (groups : list (list jsstring)) :
  free_of (unit_of Tok.ENTRIED_VALUE_S) before ->
  free_of (unit_of Tok.ENTRIED_VALUE_E) after ->
  Forall group groups ->
  Deserializer.extractEntries (before ++ entries_text groups ++ after)
  = if forallb two_parts groups
    then Ok groups
    else Throw (DeserializerError "Attempted to add a non-key-value pair entry!").
Proof.
  intros Hbefore Hafter Hall. unfold Deserializer.extractEntries, entries_text.
  set (body := join Tok.ENTRY_SEPERATOR (map (join Tok.KEY_VALUE_SEPERATOR) groups)).
  set (text := before ++ (Tok.ENTRIED_VALUE_S ++ body ++ Tok.ENTRIED_VALUE_E) ++ after).
  assert (Hflat : text = before ++ 123%N :: body ++ 125%N :: after).
  { subst text. change Tok.ENTRIED_VALUE_S with [123%N]. change Tok.ENTRIED_VALUE_E with [125%N].
    cbn [app]. rewrite <- app_assoc. reflexivity. }
  assert (Hfirst : indexOf text Tok.ENTRIED_VALUE_S = Z.of_nat (length before)).
  { rewrite Hflat. exact (indexOf_from_found 123 before (body ++ 125%N :: after) 0 Hbefore). }
  assert (Htext : text = (before ++ 123%N :: body) ++ 125%N :: after).
  { rewrite Hflat. rewrite <- !app_assoc. reflexivity. }
  assert (Hlast : lastIndexOf text Tok.ENTRIED_VALUE_E
                  = Z.of_nat (length before + S (length body))).
  { rewrite Htext. unfold lastIndexOf. change Tok.ENTRIED_VALUE_E with [125%N].
    rewrite lastIndexOf_from_found by exact Hafter.
    rewrite length_app. cbn [length]. lia. }
  assert (Hlen : length text = (length before + S (length body) + S (length after))%nat).
  { rewrite Htext, !length_app. cbn [length]. lia. }
  rewrite Hfirst, Hlast.
  replace (Z.of_nat (length before) + 1 =? INDEX_NOT_FOUND) with false
    by (symmetry; apply Z.eqb_neq; unfold INDEX_NOT_FOUND; lia).
  replace (Z.of_nat (length before + S (length body)) =? INDEX_NOT_FOUND) with false
    by (symmetry; apply Z.eqb_neq; unfold INDEX_NOT_FOUND; lia).
  cbn [orb].
  rewrite slice_inside by (rewrite ?Hlen; lia).
  replace (Z.to_nat (Z.of_nat (length before) + 1)) with (length (before ++ [123%N]))
    by (rewrite length_app; cbn [length]; lia).
  replace (Z.to_nat (Z.of_nat (length before + S (length body))
                     - (Z.of_nat (length before) + 1))) with (length body) by lia.
  replace text with ((before ++ [123%N]) ++ body ++ 125%N :: after)
    by (rewrite Hflat, <- !app_assoc; reflexivity).
  rewrite skipn_app, Nat.sub_diag, skipn_all. cbn [app].
  change (skipn 0 (body ++ 125%N :: after)) with (body ++ 125%N :: after).
  rewrite firstn_app, Nat.sub_diag, firstn_all. cbn [firstn]. rewrite app_nil_r.
  subst body. rewrite <- outcome_bind_assoc, (scan_groups groups []) by assumption.
  destruct (forallb two_parts groups) eqn:E; [| reflexivity].
  cbn [outcome_bind Deserializer.output app].
  replace (existsb _ groups) with false; [reflexivity |].
  symmetry. apply not_true_is_false. intros H. apply existsb_exists in H as (g & Hin & Hg).
  rewrite forallb_forall in E. specialize (E g Hin). unfold two_parts in E.
  rewrite E in Hg. discriminate.
Qed.

(** The claim on a block of two entries, the second with a nested
    block as its value. *)
Lemma extractEntries_groups_witness :
  let groups := [[str "[1|a]%28"; str "2|N"];
                 [str "[1|b]%28"; str "3|{[1|c]%28:0,[1|d]%28:10}"]] in
  Forall group groups /\
  Deserializer.extractEntries (str "{[1|a]%28:2|N,[1|b]%28:3|{[1|c]%28:0,[1|d]%28:10}}")
  = Ok groups.
Proof.
  intros groups.
  assert (H : Forall group groups).
  { repeat constructor; try discriminate. }
  split; [exact H |].
  exact (extractEntries_groups [] [] groups (fun F => F) (fun F => F) H).
Defined.

(** A group of three parts, and a group of one part, raise the error. *)
Example extractEntries_three_parts :
  Deserializer.extractEntries (str "{a:b:c}")
  = Throw (DeserializerError "Attempted to add a non-key-value pair entry!").
Proof. reflexivity. Qed.

Example extractEntries_one_part :
  Deserializer.extractEntries (str "{a:b,c}")
  = Throw (DeserializerError "Attempted to add a non-key-value pair entry!").
Proof. reflexivity. Qed.

(** ** Sets *)

Lemma entries_of_set (o : jsobject) :
  proto o = Some (Shorthand SetC) ->
  filter (fun p => enumerable p = true) (properties o) = [] ->
  Serializer.entries o = Ok [].
Proof.
  intros Hproto Hnone. unfold Serializer.entries, instanceOfObject, instanceOf.
  rewrite Hproto, Hnone. reflexivity.
Qed.

Lemma serialize_body_set (host : Host) (h : heap) (a : nat) (o : jsobject)
      (elements : list jsvalue) (rec : jsvalue -> M Serializer.state jsstring)
      (st : Serializer.state) :
  h !! a = Some o ->
  proto o = Some (Shorthand SetC) ->
  internal o = SetData elements ->
  filter (fun p => enumerable p = true) (properties o) = [] ->
  Serializer.serialize_body host h rec (VObject a) st = (Ok (str "6|{}"), ticked st).
Proof.
  intros Hh Hproto Hint Hnone.
  unfold Serializer.serialize_body, Serializer.prototypeConstructor, Serializer.serializeObject.
  rewrite Hh, Hproto. rewrite entries_of_set by assumption.
  unfold instanceOf, Serializer.is_callable. rewrite Hproto, Hint.
  reflexivity.
Qed.

(** C10. Set elements are dropped: for a Set with no own enumerable
    property, whatever its elements, [entries] is the empty list,
    [serialize] gives [6|{}], and decoding [6|{}] on a new
    deserializer gives a new empty Set. *)
Theorem set_elements_dropped (host : Host) (h : heap) (a : nat) (o : jsobject)
        (elements : list jsvalue) (st : Serializer.state) (config : configuration) :
  h !! a = Some o ->
  proto o = Some (Shorthand SetC) ->
  internal o = SetData elements ->
  filter (fun p => enumerable p = true) (properties o) = [] ->
  Metadata (Serializer.config st) = false ->
  Serializer.entries o = Ok []
  /\ fst (Serializer.serialize host h (VObject a) st) = Ok (str "6|{}")
  /\ fst (Deserializer.deserialize host (str "6|{}") [] (Deserializer.fresh config))
     = Ok (VObject 0)
  /\ Deserializer.memory
       (snd (Deserializer.deserialize host (str "6|{}") [] (Deserializer.fresh config)))
     = [Deserializer.empty_object (Shorthand SetC) (SetData [])].
Proof.
  intros Hh Hproto Hint Hnone Hmeta. split; [| split; [| split]].
  - now apply entries_of_set.
  - unfold Serializer.serialize, Serializer.serialize_with.
    cbn [Serializer.serialize_]. unfold Serializer.mark.
    unfold bind, get, Serializer.wipe, put.
    cbn [Serializer.new Serializer.config Serializer.reference_value_map Serializer.map_get].
    rewrite Hmeta. erewrite serialize_body_set by eassumption. reflexivity.
  - vm_compute. reflexivity.
  - vm_compute. reflexivity.
Qed.

(** The claim at [new Set([1n, "x"])]. *)
Lemma set_elements_dropped_witness :
  fst (Serializer.serialize bitpattern_host set_heap (VObject 0)
         (Serializer.new DEFAULT_SHARED_CONFIGURATION)) = Ok (str "6|{}")
  /\ Deserializer.memory
       (snd (Deserializer.deserialize bitpattern_host (str "6|{}") []
               (Deserializer.fresh DEFAULT_SHARED_CONFIGURATION)))
     = [Deserializer.empty_object (Shorthand SetC) (SetData [])].
Proof.
  pose proof (set_elements_dropped bitpattern_host set_heap 0
                {| proto := Some (Shorthand SetC);
                   internal := SetData [VBigInt 1; VString (str "x")];
                   properties := []; extensible := true |}
                [VBigInt 1; VString (str "x")]
                (Serializer.new DEFAULT_SHARED_CONFIGURATION) DEFAULT_SHARED_CONFIGURATION
                eq_refl eq_refl eq_refl eq_refl eq_refl) as (_ & Hs & _ & Hd).
  split; [exact Hs | exact Hd].
Defined.

(** ** A self-referential object *)

(** C2. For [x = {}; x.self = x], the output of [serialize] is
    [@0=3|{[1|self]%28:#0}]: it holds the one declaration [@0=] and
    the one pointer [#0]; decoding it gives an object [y] bound to
    reference 0 whose property [self] is [y] itself. *)
Theorem self_reference_roundtrip (host : Host) :
  let output := str "@0=3|{[1|self]%28:#0}" in
  let decoded := Deserializer.deserialize host output []
                   (Deserializer.fresh DEFAULT_SHARED_CONFIGURATION) in
  fst (Serializer.serialize host self_heap (VObject 0)
         (Serializer.new DEFAULT_SHARED_CONFIGURATION)) = Ok output
  /\ declarations output = [str "@0="]
  /\ pointers output = [str "#0"]
  /\ exists y : nat,
       fst decoded = Ok (VObject y)
       /\ own_property (Deserializer.memory (snd decoded)) y "self" = Some (VObject y)
       /\ Deserializer.references (Deserializer.this (snd decoded)) !! 0%N = Some (VObject y).
Proof.
  cbv zeta. split; [| split; [| split]].
  - vm_compute. reflexivity.
  - vm_compute. reflexivity.
  - vm_compute. reflexivity.
  - exists 0%nat. split; [| split]; vm_compute; reflexivity.
Qed.

(** ** Well-known symbols *)

Lemma symbol_text_free (c : N) (index : N) :
  is_digit c = false -> c <> 55%N -> c <> 124%N -> free_of c (str "7|" ++ decimal index).
Proof.
  intros Hd H7 Hbar. change (str "7|" ++ decimal index) with (55%N :: 124%N :: decimal index).
  rewrite !free_of_cons. repeat split; try congruence. now apply free_of_decimal.
Qed.

Lemma block_of_symbol (index : N) :
  SerializedBlockInfo.new (str "7|" ++ decimal index)
  = Ok {| SerializedBlockInfo.reference := None;
          SerializedBlockInfo.descriptor := None;
          SerializedBlockInfo.accessability := None;
          SerializedBlockInfo.type := str "7";
          SerializedBlockInfo.isKeyIndex_ := false;
          SerializedBlockInfo.serializedValue := Some (decimal index) |}.
Proof.
  set (text := str "7|" ++ decimal index).
  assert (Hkey : SerializedBlockInfo.removeKeyBrackets text = text).
  { unfold SerializedBlockInfo.removeKeyBrackets. change Tok.KEY_INDEX_S with [91%N].
    rewrite indexOf_free by (apply symbol_text_free; [reflexivity | discriminate..]).
    reflexivity. }
  assert (Hdecl : SerializedBlockInfo.removeReferenceDeclaration text = text).
  { unfold SerializedBlockInfo.removeReferenceDeclaration.
    change Tok.REFERENCE_DECLARARION_S with [64%N].
    rewrite (indexOf_free 64) by (apply symbol_text_free; [reflexivity | discriminate..]).
    reflexivity. }
  unfold SerializedBlockInfo.new, SerializedBlockInfo.extractReference,
    SerializedBlockInfo.extractDescriptorInfo, SerializedBlockInfo.extractType,
    SerializedBlockInfo.extractSerializedValue.
  rewrite Hkey, Hdecl.
  change Tok.REFERENCE_POINTER with [35%N]. change Tok.REFERENCE_DECLARARION_S with [64%N].
  rewrite (indexOf_free 35), (indexOf_free 64)
    by (apply symbol_text_free; [reflexivity | discriminate..]).
  change (indexOf text Tok.TYPE_SEPERATOR) with 1.
  change (SerializedBlockInfo.isKeyIndex text) with false.
  cbn [negb andb outcome_bind Z.eqb INDEX_START INDEX_NOT_FOUND].
  subst text. change (str "7|" ++ decimal index) with (55%N :: 124%N :: decimal index).
  rewrite slice_head.
  rewrite slice_from_inside by (cbn [length Tok.TYPE_SEPERATOR str list_ascii_of_string map]; lia).
  reflexivity.
Qed.

(** Without ['!'] and [']'] there is no dependency prelude. *)
Lemma setupDependencies_none (text : jsstring) (provided : list constructor)
      (m : Deserializer.machine) :
  free_of 33 text -> free_of 93 text ->
  Deserializer.setupDependencies text provided m = (Ok text, m).
Proof.
  intros H1 H2. unfold Deserializer.setupDependencies.
  change Tok.DEPENDENCIES_S with [33%N; 91%N]. change Tok.DEPENDENDIES_E with [93%N; 33%N].
  rewrite (indexOf_free 33), (indexOf_free 93) by assumption. reflexivity.
Qed.

(** C1 (the code departs from the claim). A well-known symbol is
    serialized as [7|<index>], and decoding that text throws: the
    decoder has no branch for the symbol type, so the round trip
    yields no value. *)
Theorem symbol_does_not_round_trip (host : Host) (h : heap) (index : N)
        (st : Serializer.state) (m : Deserializer.machine) :
  Metadata (Serializer.config st) = false ->
  fst (Serializer.serialize host h (VSymbol (WellKnown index)) st)
    = Ok (str "7|" ++ decimal index)
  /\ fst (Deserializer.deserialize host (str "7|" ++ decimal index) [] m)
     = Throw (DeserializerError "Unable to deserialize unknown type!").
Proof.
  intros Hmeta. split.
  - unfold Serializer.serialize, Serializer.serialize_with.
    cbn [Serializer.serialize_]. unfold Serializer.mark.
    unfold bind, get, Serializer.wipe, put.
    cbn [Serializer.new Serializer.config Serializer.reference_value_map Serializer.map_get].
    rewrite Hmeta.
    change (Serializer.serialize_body host h _ (VSymbol (WellKnown index)) ?s)
      with (@Ok jsstring (str "7|" ++ decimal index), ticked s).
    cbn -[Serializer.clean decimal str].
    change (Tok.REFERENCE_DECLARARION_S ++ decimal 0 ++ Tok.REFERENCE_DECLARATION_E
            ++ str "7|" ++ decimal index) with (str "@0=" ++ str "7|" ++ decimal index).
    rewrite clean_single_declaration
      by (apply symbol_text_free; [reflexivity | discriminate..]).
    reflexivity.
  - unfold Deserializer.deserialize, Deserializer.deserialize_with.
    unfold bind at 1.
    rewrite setupDependencies_none
      by (apply symbol_text_free; [reflexivity | discriminate..]).
    cbn [Deserializer.deserialize_]. unfold Deserializer.deserialize_body.
    unfold bind at 1. cbn [Deserializer.tick modify].
    unfold bind at 1. rewrite block_of_symbol. reflexivity.
Qed.

(** The statement at the first well-known symbol. *)
Lemma symbol_does_not_round_trip_witness :
  fst (Serializer.serialize bitpattern_host [] (VSymbol (WellKnown 0))
         (Serializer.new DEFAULT_SHARED_CONFIGURATION)) = Ok (str "7|0")
  /\ fst (Deserializer.deserialize bitpattern_host (str "7|0") []
            (Deserializer.fresh DEFAULT_SHARED_CONFIGURATION))
     = Throw (DeserializerError "Unable to deserialize unknown type!").
Proof.
  exact (symbol_does_not_round_trip bitpattern_host [] 0
           (Serializer.new DEFAULT_SHARED_CONFIGURATION)
           (Deserializer.fresh DEFAULT_SHARED_CONFIGURATION) eq_refl).
Defined.

(** ** State kept between calls *)

(** [serialize] starts by wiping the instance: what it returns does
    not depend on what earlier calls left behind. *)
Lemma serialize_ignores_earlier_calls (host : Host) (h : heap) (v : jsvalue)
      (st st' : Serializer.state) :
  Serializer.config st = Serializer.config st' ->
  Serializer.serialize host h v st = Serializer.serialize host h v st'.
Proof.
  intros E. unfold Serializer.serialize, Serializer.serialize_with, Serializer.wipe.
  unfold bind at 1 3. unfold get at 1 3. unfold bind at 1 3. unfold put at 1 2.
  now rewrite E.
Qed.

(** ** Scanning the text of tokens *)

Lemma span_digits_run (ds rest : jsstring) (c : N) :
  forallb is_digit ds = true -> is_digit c = false ->
  span_digits (ds ++ c :: rest) = (ds, c :: rest).
Proof.
  intros Hds Hc. induction ds as [| d ds IH]; cbn [app span_digits].
  - now rewrite Hc.
  - cbn [forallb] in Hds. apply andb_true_iff in Hds as [Hd Hds].
    now rewrite Hd, (IH Hds).
Qed.

(** A run of digits that is a prefix of another run and stops where
    a character that is not a digit follows is that run. *)
Lemma digits_prefix (ds1 ds2 rest : jsstring) (x : N) :
  forallb is_digit ds1 = true -> forallb is_digit ds2 = true -> is_digit x = false ->
  startsWith (ds2 ++ x :: rest) ds1 = true ->
  match skipn (length ds1) (ds2 ++ x :: rest) with
  | c :: _ => is_digit c = false
  | [] => False
  end ->
  ds1 = ds2.
Proof.
  intros H1 H2 Hx. revert ds2 H2. induction ds1 as [| a ds1 IH]; intros ds2 H2 Hs Hnext.
  - destruct ds2 as [| d ds2]; [reflexivity |].
    cbn in Hnext. cbn [forallb] in H2. apply andb_true_iff in H2 as [Hd _]. congruence.
  - cbn [forallb] in H1. apply andb_true_iff in H1 as [Ha H1].
    destruct ds2 as [| d ds2].
    + cbn in Hs. apply andb_true_iff in Hs as [E _]. apply N.eqb_eq in E. congruence.
    + cbn [app startsWith] in Hs. apply andb_true_iff in Hs as [E Hs].
      apply N.eqb_eq in E. subst d.
      cbn [forallb] in H2. apply andb_true_iff in H2 as [_ H2].
      f_equal. apply (IH H1 ds2 H2 Hs). exact Hnext.
Qed.

Lemma startsWith_app (s t : jsstring) : startsWith (s ++ t) s = true.
Proof. induction s as [| c s IH]; [reflexivity |]. cbn. now rewrite N.eqb_refl. Qed.

Lemma startsWith_app_inv (p q s : jsstring) :
  startsWith s (p ++ q) = true -> startsWith s p = true.
Proof.
  revert s. induction p as [| c p IH]; intros s; [reflexivity |].
  destruct s as [| x s]; cbn; [discriminate |].
  intros H. apply andb_true_iff in H as [E H]. rewrite E. now apply IH.
Qed.

Lemma startsWith_skip (p q s : jsstring) :
  startsWith s (p ++ q) = true -> startsWith (skipn (length p) s) q = true.
Proof.
  revert s. induction p as [| c p IH]; intros s; [trivial |].
  destruct s as [| x s]; cbn; [discriminate |].
  intros H. apply andb_true_iff in H as [_ H]. now apply IH.
Qed.

Lemma matchAll_go_skip (p : RegExp.pattern) (a rest : jsstring) :
  RegExp.matchAll_go p (length a) (a ++ rest) = RegExp.matchAll_go p 0 rest.
Proof.
  induction a as [| c a IH]; [reflexivity |]. cbn [length app RegExp.matchAll_go].
  destruct a as [| c' a]; [reflexivity |]. exact IH.
Qed.

Lemma matchAll_go_prefix_free (c : N) (p : RegExp.pattern) (a rest : jsstring) :
  (forall t, hd_error t <> Some c -> p t = None) ->
  free_of c a ->
  RegExp.matchAll_go p 0 (a ++ rest) = RegExp.matchAll_go p 0 rest.
Proof.
  intros Hp. induction a as [| x a IH]; intros H; [reflexivity |].
  apply free_of_cons in H as [Hx H]. cbn [app RegExp.matchAll_go].
  rewrite Hp by (cbn; congruence). now apply IH.
Qed.

Lemma replace_go_skip (p : RegExp.pattern) (f : RegExp.rmatch -> jsstring) (a rest : jsstring) :
  RegExp.replace_go p f (length a) (a ++ rest) = RegExp.replace_go p f 0 rest.
Proof. induction a as [| c a IH]; [reflexivity | exact IH]. Qed.

Lemma replace_go_prefix_free (c : N) (p : RegExp.pattern) (f : RegExp.rmatch -> jsstring)
      (a rest : jsstring) :
  (forall t, hd_error t <> Some c -> p t = None) ->
  free_of c a ->
  RegExp.replace_go p f 0 (a ++ rest) = a ++ RegExp.replace_go p f 0 rest.
Proof.
  intros Hp. induction a as [| x a IH]; intros H; [reflexivity |].
  apply free_of_cons in H as [Hx H]. cbn [app RegExp.replace_go].
  rewrite Hp by (cbn; congruence). now rewrite IH.
Qed.

Lemma replaceFirst_prefix_free (c : N) (p : RegExp.pattern) (f : RegExp.rmatch -> jsstring)
      (a rest : jsstring) :
  (forall t, hd_error t <> Some c -> p t = None) ->
  free_of c a ->
  RegExp.replaceFirst p f (a ++ rest) = a ++ RegExp.replaceFirst p f rest.
Proof.
  intros Hp. induction a as [| x a IH]; intros H; [reflexivity |].
  apply free_of_cons in H as [Hx H]. cbn [app RegExp.replaceFirst].
  rewrite Hp by (cbn; congruence). now rewrite IH.
Qed.

(** The patterns of the clean-up pass only match at their first unit. *)
Lemma digits_between_opens (c : N) (open : jsstring) (close : option N) (t : jsstring) :
  hd_error t <> Some c -> RegExp.digits_between (c :: open) close t = None.
Proof. intros H. unfold RegExp.digits_between. now rewrite startsWith_head. Qed.

Lemma literal_opens (c : N) (text t : jsstring) :
  hd_error t <> Some c -> RegExp.literal (c :: text) t = None.
Proof. intros H. unfold RegExp.literal. now rewrite startsWith_head. Qed.

Lemma literal_then_nondigit_opens (c : N) (text t : jsstring) :
  hd_error t <> Some c -> RegExp.literal_then_nondigit (c :: text) t = None.
Proof. intros H. unfold RegExp.literal_then_nondigit. now rewrite startsWith_head. Qed.

Lemma tokens_text_cons (t : token) (ts : list token) :
  tokens_text (t :: ts) = token_text t ++ tokens_text ts.
Proof. reflexivity. Qed.

Lemma declaration_text_units (id : nat) :
  declaration_text id = 64%N :: decimal (N.of_nat id) ++ [61%N].
Proof. reflexivity. Qed.

Lemma pointer_text_units (id : nat) : pointer_text id = 35%N :: decimal (N.of_nat id).
Proof. reflexivity. Qed.

Lemma declaration_text_inj (a b : nat) : declaration_text a = declaration_text b -> a = b.
Proof.
  rewrite !declaration_text_units. intros [= H]. apply app_inv_tail in H.
  apply decimal_inj in H. lia.
Qed.

Lemma pointer_text_without (c : N) (id : nat) :
  is_digit c = false -> c <> 35%N -> free_of c (pointer_text id).
Proof.
  intros Hd H. rewrite pointer_text_units, free_of_cons.
  split; [congruence | now apply free_of_decimal].
Qed.

Lemma declaration_text_without (c : N) (id : nat) :
  is_digit c = false -> c <> 64%N -> c <> 61%N -> free_of c (declaration_text id).
Proof.
  intros Hd H1 H2. rewrite declaration_text_units, free_of_cons, free_of_app, free_of_cons.
  repeat split; try congruence; [now apply free_of_decimal | intros []].
Qed.



(** *** The patterns of the clean-up pass at a token *)

Lemma declaration_pattern_at (id : nat) (rest : jsstring) :
  RegExp.digits_between [64%N] (Some 61%N)
    (64%N :: (decimal (N.of_nat id) ++ [61%N]) ++ rest)
  = Some {| RegExp.matched := declaration_text id;
            RegExp.groups := [decimal (N.of_nat id)] |}.
Proof.
  unfold RegExp.digits_between. cbn [startsWith length skipn].
  unfold unit_eqb at 1. rewrite N.eqb_refl. cbn [andb]. rewrite skipn_O.
  rewrite <- app_assoc. cbn [app].
  rewrite span_digits_run by (try apply decimal_digits; reflexivity).
  destruct (decimal_head (N.of_nat id)) as (d & ds & E & _). rewrite E at 1.
  unfold unit_eqb. rewrite N.eqb_refl. reflexivity.
Qed.

Lemma pointer_pattern_at (id : nat) (c : N) (rest : jsstring) :
  is_digit c = false ->
  RegExp.digits_between [35%N] None (35%N :: decimal (N.of_nat id) ++ c :: rest)
  = Some {| RegExp.matched := pointer_text id; RegExp.groups := [decimal (N.of_nat id)] |}.
Proof.
  intros Hc. unfold RegExp.digits_between. cbn [startsWith length skipn].
  unfold unit_eqb at 1. rewrite N.eqb_refl. cbn [andb]. rewrite skipn_O.
  rewrite span_digits_run by (try apply decimal_digits; assumption).
  destruct (decimal_head (N.of_nat id)) as (d & ds & E & _). rewrite E at 1.
  reflexivity.
Qed.

Lemma skipn_app_length {A} (a b : list A) : skipn (length a) (a ++ b) = b.
Proof. induction a as [| x a IH]; [reflexivity | exact IH]. Qed.

(** The pointer test [#<id>(\D)] at a pointer followed by a
    character that is not a digit. *)
Lemma pointer_test_same (id : nat) (c : N) (rest : jsstring) :
  is_digit c = false ->
  RegExp.literal_then_nondigit (pointer_text id) (pointer_text id ++ c :: rest)
  = Some {| RegExp.matched := pointer_text id ++ [c]; RegExp.groups := [[c]] |}.
Proof.
  intros Hc. unfold RegExp.literal_then_nondigit.
  rewrite startsWith_app, skipn_app_length, Hc. reflexivity.
Qed.

Lemma pointer_test_other (id id' : nat) (c : N) (rest : jsstring) :
  is_digit c = false -> id' <> id ->
  RegExp.literal_then_nondigit (pointer_text id) (pointer_text id' ++ c :: rest) = None.
Proof.
  intros Hc Hne. unfold RegExp.literal_then_nondigit.
  destruct (startsWith (pointer_text id' ++ c :: rest) (pointer_text id)) eqn:Es;
    [| reflexivity].
  destruct (skipn (length (pointer_text id)) (pointer_text id' ++ c :: rest))
    as [| x tail] eqn:Ek; [reflexivity |].
  destruct (is_digit x) eqn:Ex; [reflexivity |].
  exfalso. apply Hne. rewrite !pointer_text_units in *.
  cbn [app startsWith length skipn] in Es, Ek.
  apply andb_true_iff in Es as [_ Es].
  assert (E : decimal (N.of_nat id) = decimal (N.of_nat id')).
  { apply (digits_prefix _ _ rest c); try apply decimal_digits; try assumption.
    rewrite Ek. exact Ex. }
  apply decimal_inj in E. lia.
Qed.

(** The literal [@<id>=] at a declaration. *)
Lemma declaration_literal_same (id : nat) (rest : jsstring) :
  RegExp.literal (declaration_text id) (declaration_text id ++ rest)
  = Some {| RegExp.matched := declaration_text id; RegExp.groups := [] |}.
Proof. unfold RegExp.literal. now rewrite startsWith_app. Qed.

Lemma declaration_literal_other (id id' : nat) (rest : jsstring) :
  id' <> id ->
  RegExp.literal (declaration_text id) (declaration_text id' ++ rest) = None.
Proof.
  intros Hne. unfold RegExp.literal.
  destruct (startsWith (declaration_text id' ++ rest) (declaration_text id)) eqn:Es;
    [| reflexivity].
  exfalso. apply Hne. rewrite !declaration_text_units in Es.
  cbn [app startsWith] in Es. apply andb_true_iff in Es as [_ Es].
  rewrite <- app_assoc in Es. cbn [app] in Es.
  assert (E : decimal (N.of_nat id) = decimal (N.of_nat id')).
  { apply (digits_prefix _ _ rest 61); try apply decimal_digits; try reflexivity.
    - now apply startsWith_app_inv in Es.
    - apply startsWith_skip in Es.
      destruct (skipn _ _) as [| x tail]; [discriminate |].
      cbn [startsWith] in Es. apply andb_true_iff in Es as [Ex _].
      apply N.eqb_eq in Ex. now subst x. }
  apply decimal_inj in E. lia.
Qed.

(** *** The operations of the clean-up pass on the text of tokens *)

Lemma plain_not_declaration (c : N) (rest : jsstring) :
  plain_token (Plain c) -> hd_error (c :: rest) <> Some 64%N.
Proof. intros [H _] E. injection E as E. exact (H E). Qed.

Lemma plain_not_pointer (c : N) (rest : jsstring) :
  plain_token (Plain c) -> hd_error (c :: rest) <> Some 35%N.
Proof. intros [_ H] E. injection E as E. exact (H E). Qed.


(** The declarations found in the text of tokens. *)
Lemma declarations_of_tokens (ts : list token) :
  Forall plain_token ts ->
  declarations (tokens_text ts) = map declaration_text (declared ts).
Proof.
  unfold declarations, RegExp.matchAll.
  change Tok.REFERENCE_DECLARARION_S with [64%N].
  change (unit_of Tok.REFERENCE_DECLARATION_E) with 61%N.
  induction 1 as [| t ts Ht Hts IH]; [reflexivity |].
  rewrite tokens_text_cons. destruct t as [id | id | c].
  - cbn [token_text declared flat_map app map]. rewrite declaration_text_units at 1.
    cbn [app RegExp.matchAll_go]. rewrite declaration_pattern_at.
    cbn [RegExp.matched]. f_equal.
    rewrite declaration_text_units. cbn [length pred].
    rewrite matchAll_go_skip. exact IH.
  - cbn [token_text declared flat_map app map].
    rewrite (matchAll_go_prefix_free 64)
      by first [apply digits_between_opens | apply pointer_text_without; [reflexivity | discriminate]].
    exact IH.
  - cbn [token_text declared flat_map app map RegExp.matchAll_go].
    rewrite digits_between_opens by (first [apply plain_not_declaration | apply plain_not_pointer]; exact Ht). exact IH.
Qed.

(** The pointers found in the text of tokens. *)
Lemma pointers_of_tokens (ts : list token) :
  Forall plain_token ts -> pointers_end ts ->
  pointers (tokens_text ts) = map pointer_text (pointed ts).
Proof.
  unfold pointers, RegExp.matchAll. change Tok.REFERENCE_POINTER with [35%N].
  induction 1 as [| t ts Ht Hts IH]; [reflexivity |]. intros Hend.
  rewrite tokens_text_cons. destruct t as [id | id | c].
  - cbn [token_text pointed flat_map app map].
    rewrite (matchAll_go_prefix_free 35)
      by first [apply digits_between_opens
                 | apply declaration_text_without; [reflexivity | discriminate..]].
    apply IH. exact Hend.
  - cbn [pointers_end] in Hend. destruct Hend as [Hnext Hend].
    destruct ts as [| [| | c] ts]; try contradiction.
    cbn [token_text pointed flat_map app map]. rewrite pointer_text_units at 1.
    rewrite tokens_text_cons. cbn [token_text app RegExp.matchAll_go].
    rewrite pointer_pattern_at by assumption. cbn [RegExp.matched]. f_equal.
    rewrite pointer_text_units. cbn [length pred].
    change (c :: tokens_text ts) with (tokens_text (Plain c :: ts)).
    rewrite matchAll_go_skip. apply IH. exact Hend.
  - cbn [token_text pointed flat_map app map RegExp.matchAll_go].
    rewrite digits_between_opens by (first [apply plain_not_declaration | apply plain_not_pointer]; exact Ht). apply IH. exact Hend.
Qed.

(** The pointer test of the pass finds a match exactly when the text
    has a pointer to the id. *)
Lemma pointer_test_of_tokens (id : nat) (ts : list token) :
  Forall plain_token ts -> pointers_end ts ->
  match RegExp.matchAll (RegExp.literal_then_nondigit (pointer_text id)) (tokens_text ts) with
  | [] => false
  | _ :: _ => true
  end = referenced ts id.
Proof.
  unfold RegExp.matchAll, referenced.
  induction 1 as [| t ts Ht Hts IH]; [reflexivity |]. intros Hend.
  rewrite tokens_text_cons. destruct t as [i | i | c].
  - cbn [token_text pointed flat_map app]. rewrite (pointer_text_units id).
    rewrite (matchAll_go_prefix_free 35)
      by first [apply literal_then_nondigit_opens
                 | apply declaration_text_without; [reflexivity | discriminate..]].
    rewrite <- pointer_text_units. apply IH. exact Hend.
  - cbn [pointers_end] in Hend. destruct Hend as [Hnext Hend].
    destruct ts as [| [| | c] ts]; try contradiction.
    cbn [token_text pointed flat_map app existsb]. rewrite (pointer_text_units i) at 1.
    rewrite tokens_text_cons. cbn [token_text app RegExp.matchAll_go].
    change (35%N :: decimal (N.of_nat i) ++ c :: tokens_text ts)
      with (pointer_text i ++ c :: tokens_text ts).
    destruct (Nat.eqb_spec id i) as [<- | Hne].
    + rewrite pointer_test_same by assumption. reflexivity.
    + rewrite pointer_test_other by (try assumption; congruence).
      cbn [orb]. rewrite (pointer_text_units id).
      rewrite (matchAll_go_prefix_free 35)
        by first [apply literal_then_nondigit_opens | apply free_of_decimal; reflexivity].
      rewrite <- pointer_text_units.
      change (c :: tokens_text ts) with (tokens_text (Plain c :: ts)).
      apply IH. exact Hend.
  - cbn [token_text pointed flat_map app RegExp.matchAll_go]. rewrite (pointer_text_units id).
    rewrite literal_then_nondigit_opens by (first [apply plain_not_declaration | apply plain_not_pointer]; exact Ht).
    rewrite <- pointer_text_units. apply IH. exact Hend.
Qed.

Lemma replaceFirst_here (p : RegExp.pattern) (f : RegExp.rmatch -> jsstring)
      (s : jsstring) (m : RegExp.rmatch) :
  p s = Some m -> RegExp.replaceFirst p f s = f m ++ skipn (length (RegExp.matched m)) s.
Proof. intros E. destruct s; cbn [RegExp.replaceFirst]; now rewrite E. Qed.

Lemma replaceFirst_pass (p : RegExp.pattern) (f : RegExp.rmatch -> jsstring)
      (c : N) (s : jsstring) :
  p (c :: s) = None -> RegExp.replaceFirst p f (c :: s) = c :: RegExp.replaceFirst p f s.
Proof. intros E. cbn [RegExp.replaceFirst]. now rewrite E. Qed.

Lemma replace_go_here (p : RegExp.pattern) (f : RegExp.rmatch -> jsstring)
      (c : N) (a rest : jsstring) (m : RegExp.rmatch) :
  p (c :: a ++ rest) = Some m -> length (RegExp.matched m) = S (length a) ->
  RegExp.replace_go p f 0 (c :: a ++ rest) = f m ++ RegExp.replace_go p f 0 rest.
Proof.
  intros E El. cbn [RegExp.replace_go]. rewrite E, El. now rewrite replace_go_skip.
Qed.

Lemma replace_go_pass (p : RegExp.pattern) (f : RegExp.rmatch -> jsstring)
      (c : N) (s : jsstring) :
  p (c :: s) = None -> RegExp.replace_go p f 0 (c :: s) = c :: RegExp.replace_go p f 0 s.
Proof. intros E. cbn [RegExp.replace_go]. now rewrite E. Qed.

(** Replacing the first [@<id>=] replaces the first declaration of
    the id. *)
Lemma replaceFirst_of_tokens (id : nat) (by_ : list token) (ts : list token) :
  Forall plain_token ts ->
  RegExp.replaceFirst (RegExp.literal (declaration_text id)) (fun _ => tokens_text by_)
    (tokens_text ts)
  = tokens_text (replace_declaration id by_ ts).
Proof.
  induction 1 as [| t ts Ht Hts IH]; [reflexivity |].
  rewrite tokens_text_cons. destruct t as [i | i | c].
  - cbn [token_text replace_declaration]. destruct (Nat.eqb_spec i id) as [-> | Hne].
    + rewrite (replaceFirst_here _ _ _ _ (declaration_literal_same id _)).
      cbn [RegExp.matched]. rewrite skipn_app_length.
      unfold tokens_text. now rewrite flat_map_app.
    + rewrite tokens_text_cons. cbn [token_text]. rewrite <- IH.
      change (declaration_text i ++ tokens_text ts)
        with (64%N :: (decimal (N.of_nat i) ++ [61%N]) ++ tokens_text ts) at 1.
      rewrite replaceFirst_pass by (apply (declaration_literal_other id i); exact Hne).
      rewrite (declaration_text_units id) at 1.
      rewrite (replaceFirst_prefix_free 64)
        by first [apply literal_opens
                 | rewrite free_of_app, free_of_cons;
                   repeat split; [apply free_of_decimal; reflexivity | discriminate | intros []]].
      rewrite <- (declaration_text_units id). reflexivity.
  - cbn [token_text replace_declaration]. rewrite tokens_text_cons. cbn [token_text].
    rewrite (declaration_text_units id) at 1.
    rewrite (replaceFirst_prefix_free 64)
      by first [apply literal_opens | apply pointer_text_without; [reflexivity | discriminate]].
    rewrite <- (declaration_text_units id). now rewrite IH.
  - cbn [token_text replace_declaration app].
    rewrite replaceFirst_pass.
    + rewrite tokens_text_cons. cbn [token_text app]. f_equal. exact IH.
    + rewrite (declaration_text_units id). apply literal_opens, plain_not_declaration, Ht.
Qed.

(** Replacing every [#<id>(\D)] renames every pointer to the id. *)
Lemma replaceAll_of_tokens (id id' : nat) (ts : list token) :
  Forall plain_token ts -> pointers_end ts ->
  RegExp.replaceAll (RegExp.literal_then_nondigit (pointer_text id))
    (fun m => pointer_text id' ++ RegExp.group1 m) (tokens_text ts)
  = tokens_text (map (rename_pointer id id') ts).
Proof.
  unfold RegExp.replaceAll.
  induction 1 as [| t ts Ht Hts IH]; [reflexivity |]. intros Hend.
  rewrite tokens_text_cons. destruct t as [i | i | c].
  - cbn [token_text map rename_pointer]. rewrite tokens_text_cons. cbn [token_text].
    rewrite <- (IH Hend). rewrite (pointer_text_units id).
    apply (replace_go_prefix_free 35);
      first [apply literal_then_nondigit_opens
            | apply declaration_text_without; [reflexivity | discriminate..]].
  - cbn [pointers_end] in Hend. destruct Hend as [Hnext Hend].
    destruct ts as [| [| | c] ts]; try contradiction.
    specialize (IH Hend). pose proof (Forall_inv Hts) as Hc.
    rewrite !tokens_text_cons in IH. cbn [token_text app map rename_pointer] in IH.
    rewrite replace_go_pass in IH
      by (rewrite (pointer_text_units id); apply literal_then_nondigit_opens, plain_not_pointer, Hc).
    injection IH as IH.
    cbn [token_text map rename_pointer]. rewrite !tokens_text_cons. cbn [token_text app].
    destruct (Nat.eqb_spec i id) as [-> | Hne].
    + cbn [token_text]. rewrite <- IH.
      pose proof (pointer_test_same id c (tokens_text ts) Hnext) as E.
      rewrite (pointer_text_units id) in E at 2. cbn [app] in E.
      replace (decimal (N.of_nat id) ++ c :: tokens_text ts)
        with ((decimal (N.of_nat id) ++ [c]) ++ tokens_text ts) in E
        by (rewrite <- app_assoc; reflexivity).
      rewrite (pointer_text_units id) at 2. cbn [app].
      replace (decimal (N.of_nat id) ++ c :: tokens_text ts)
        with ((decimal (N.of_nat id) ++ [c]) ++ tokens_text ts)
        by (rewrite <- app_assoc; reflexivity).
      rewrite (replace_go_here _ _ _ _ _ _ E)
        by (cbn [RegExp.matched]; rewrite (pointer_text_units id); reflexivity).
      cbn [RegExp.group1 RegExp.groups nth]. rewrite <- app_assoc. reflexivity.
    + cbn [token_text]. rewrite <- IH.
      pose proof (pointer_test_other id i c (tokens_text ts) Hnext Hne) as E.
      rewrite (pointer_text_units i) in E. cbn [app] in E.
      rewrite (pointer_text_units i). cbn [app].
      rewrite replace_go_pass by exact E. f_equal.
      rewrite (pointer_text_units id) at 1.
      rewrite (replace_go_prefix_free 35)
        by first [apply literal_then_nondigit_opens | apply free_of_decimal; reflexivity].
      rewrite <- (pointer_text_units id). f_equal.
      apply replace_go_pass.
      rewrite (pointer_text_units id); apply literal_then_nondigit_opens, plain_not_pointer, Hc.
  - cbn [token_text map rename_pointer app].
    rewrite replace_go_pass.
    + rewrite tokens_text_cons. cbn [token_text app]. f_equal. apply IH, Hend.
    + rewrite (pointer_text_units id). apply literal_then_nondigit_opens, plain_not_pointer, Ht.
Qed.

(** *** One step of the pass on the text of tokens *)

Lemma slice_middle (c e : N) (ds : jsstring) : slice (c :: ds ++ [e]) 1 (-1) = ds.
Proof.
  unfold slice, clamp_index. cbn [length]. rewrite length_app. cbn [length].
  destruct (Z.ltb_spec 1 0); [lia |]. destruct (Z.ltb_spec (-1) 0); [| lia].
  rewrite Z.min_l by lia. rewrite Z.max_l by lia.
  change (Z.to_nat 1) with 1%nat. cbn [skipn].
  replace (Z.to_nat (Z.of_nat (S (length ds + 1)) + -1 - 1)) with (length ds) by lia.
  rewrite skipn_O, firstn_app, Nat.sub_diag, firstn_all. cbn [firstn]. apply app_nil_r.
Qed.

(** The id that the pass reads off a declaration. *)
Lemma declaration_id (id : nat) :
  slice (declaration_text id)
    (indexOf (declaration_text id) Tok.REFERENCE_DECLARARION_S
     + Z.of_nat (length Tok.REFERENCE_DECLARARION_S))
    (Z.of_nat (length Tok.REFERENCE_DECLARATION_E) * -1)
  = decimal (N.of_nat id).
Proof.
  rewrite declaration_text_units.
  change Tok.REFERENCE_DECLARARION_S with [64%N].
  change (Z.of_nat (length Tok.REFERENCE_DECLARATION_E) * -1) with (-1).
  change (indexOf (64%N :: decimal (N.of_nat id) ++ [61%N]) [64%N]) with 0.
  apply slice_middle.
Qed.

Lemma replace_declaration_plain (id : nat) (by_ ts : list token) :
  Forall plain_token by_ -> Forall plain_token ts ->
  Forall plain_token (replace_declaration id by_ ts).
Proof.
  intros Hby. induction 1 as [| t ts Ht Hts IH]; [constructor |].
  destruct t as [i | i | c]; cbn [replace_declaration].
  - destruct (Nat.eqb i id).
    + apply Forall_app. split; assumption.
    + constructor; assumption.
  - constructor; assumption.
  - constructor; assumption.
Qed.

(** The pointers stay delimited when a declaration is replaced by at
    most one declaration. *)
Lemma replace_declaration_end (id : nat) (by_ : list token) (ts : list token) :
  by_ = [] \/ (exists id', by_ = [Declaration id']) ->
  pointers_end ts -> pointers_end (replace_declaration id by_ ts).
Proof.
  intros Hby. induction ts as [| t ts IH]; [trivial |].
  destruct t as [i | i | c]; cbn [replace_declaration pointers_end].
  - intros H. destruct (Nat.eqb i id).
    + destruct Hby as [-> | [id' ->]]; exact H.
    + cbn [pointers_end]. auto.
  - intros [Hnext H]. split; [| auto].
    destruct ts as [| [j | j | c] ts]; try contradiction. exact Hnext.
  - auto.
Qed.

Lemma tokens_text_single (t : token) : tokens_text [t] = token_text t.
Proof. apply app_nil_r. Qed.

(** One step of the pass, on the text of tokens. *)
Lemma clean_step_of_tokens (ts : list token) (references id : nat) :
  Forall plain_token ts -> pointers_end ts ->
  Serializer.clean_step (tokens_text ts, N.of_nat references) (declaration_text id)
  = if referenced ts id
    then (tokens_text (map (rename_pointer id references)
                         (replace_declaration id [Declaration references] ts)),
          N.of_nat (S references))
    else (tokens_text (replace_declaration id [] ts), N.of_nat references).
Proof.
  intros Hplain Hend. unfold Serializer.clean_step.
  rewrite declaration_id.
  change (Tok.REFERENCE_POINTER ++ decimal (N.of_nat id)) with (pointer_text id).
  change (Tok.REFERENCE_DECLARARION_S ++ decimal (N.of_nat id) ++ Tok.REFERENCE_DECLARATION_E)
    with (declaration_text id).
  pose proof (pointer_test_of_tokens id ts Hplain Hend) as Htest.
  destruct (RegExp.matchAll (RegExp.literal_then_nondigit (pointer_text id)) (tokens_text ts));
    rewrite <- Htest.
  - change EMPTY with (tokens_text []). now rewrite replaceFirst_of_tokens.
  - change (Tok.REFERENCE_DECLARARION_S ++ decimal (N.of_nat references)
            ++ Tok.REFERENCE_DECLARATION_E)
      with (token_text (Declaration references)).
    rewrite <- tokens_text_single, replaceFirst_of_tokens by assumption.
    change (fun m => Tok.REFERENCE_POINTER ++ decimal (N.of_nat references) ++ RegExp.group1 m)
      with (fun m => pointer_text references ++ RegExp.group1 m).
    rewrite replaceAll_of_tokens.
    + f_equal. lia.
    + apply replace_declaration_plain; [repeat constructor | assumption].
    + apply replace_declaration_end; [right; eauto | assumption].
Qed.

(** *** The pass on tokens *)

Local Open Scope nat_scope.

Lemma rank_le (ts : list token) (id : nat) : rank ts id <= id.
Proof.
  unfold rank. etransitivity; [apply List.filter_length_le |]. now rewrite length_seq.
Qed.

Lemma rank_S (ts : list token) (id : nat) :
  rank ts (S id) = rank ts id + (if referenced ts id then 1 else 0).
Proof.
  unfold rank. rewrite seq_S, List.filter_app, length_app. cbn [List.filter plus].
  now destruct (referenced ts id).
Qed.

Lemma renumber_below_0 (ts : list token) : renumber_below ts 0 = ts.
Proof.
  unfold renumber_below. generalize ts at 1. intros ts'.
  induction ts as [| t ts IH]; [reflexivity |].
  cbn [flat_map]. rewrite IH. now destruct t.
Qed.

Lemma renumber_plain (ts l : list token) (done : nat) :
  Forall plain_token l -> Forall plain_token (flat_map (renumber_token ts done) l).
Proof.
  induction 1 as [| t l Ht Hl IH]; [constructor |].
  cbn [flat_map]. apply Forall_app. split; [| exact IH].
  destruct t as [i | i | c]; cbn [renumber_token].
  - destruct (i <? done); [destruct (referenced ts i) |]; repeat constructor.
  - destruct (i <? done); repeat constructor.
  - constructor; [exact Ht | constructor].
Qed.

Lemma renumber_end (ts l : list token) (done : nat) :
  pointers_end l -> pointers_end (flat_map (renumber_token ts done) l).
Proof.
  induction l as [| t l IH]; [trivial |].
  destruct t as [i | i | c]; cbn [flat_map pointers_end].
  - intros H. cbn [renumber_token].
    repeat match goal with |- context [if ?b then _ else _] => destruct b end;
      cbn [app pointers_end]; auto.
  - intros [Hnext H]. destruct l as [| [j | j | c] l]; try contradiction.
    specialize (IH H). cbn [flat_map renumber_token app] in IH |- *.
    destruct (i <? done); cbn [app pointers_end]; auto.
  - intros H. cbn [renumber_token app pointers_end]. auto.
Qed.

Lemma renumber_pointed (ts l : list token) (done : nat) :
  pointed (flat_map (renumber_token ts done) l)
  = map (fun i => if i <? done then rank ts i else i) (pointed l).
Proof.
  unfold pointed. induction l as [| t l IH]; [reflexivity |].
  cbn [flat_map]. rewrite flat_map_app, IH.
  destruct t as [i | i | c]; cbn [renumber_token flat_map app map];
    repeat match goal with |- context [if ?b then _ else _] => destruct b end;
    reflexivity.
Qed.

(** Renumbering below an id keeps the pointers to that id. *)
Lemma renumber_referenced (ts : list token) (id : nat) :
  referenced (renumber_below ts id) id = referenced ts id.
Proof.
  unfold referenced, renumber_below. rewrite renumber_pointed.
  induction (pointed ts) as [| i l IH]; [reflexivity |].
  cbn [map existsb]. rewrite IH. f_equal.
  destruct (Nat.ltb_spec i id) as [Hlt | Hge]; [| reflexivity].
  pose proof (rank_le ts i).
  destruct (Nat.eqb_spec id (rank ts i)), (Nat.eqb_spec id i); lia || reflexivity.
Qed.

Lemma flat_map_ext_in {A B} (f g : A -> list B) (l : list A) :
  (forall a, In a l -> f a = g a) -> flat_map f l = flat_map g l.
Proof.
  induction l as [| a l IH]; [reflexivity |]. intros H. cbn [flat_map].
  rewrite (H a) by now left. rewrite IH; [reflexivity |]. intros b Hb. apply H. now right.
Qed.

Lemma declared_cons (t : token) (l : list token) :
  declared (t :: l) = match t with Declaration i => i :: declared l | _ => declared l end.
Proof. now destruct t. Qed.

Lemma declared_app (a b : list token) : declared (a ++ b) = declared a ++ declared b.
Proof. apply flat_map_app. Qed.

Lemma declared_in (i : nat) (l : list token) : In (Declaration i) l -> In i (declared l).
Proof.
  induction l as [| t l IH]; [trivial |]. rewrite declared_cons.
  intros [-> | H]; [now left |]. destruct t; [right |..]; auto.
Qed.

Lemma pointed_cons (t : token) (l : list token) :
  pointed (t :: l) = match t with Pointer i => i :: pointed l | _ => pointed l end.
Proof. now destruct t. Qed.

Lemma pointed_in (i : nat) (l : list token) : In (Pointer i) l -> In i (pointed l).
Proof.
  induction l as [| t l IH]; [trivial |]. rewrite pointed_cons.
  intros [-> | H]; [now left |]. destruct t; [| right |]; auto.
Qed.

(** Replacing the declaration of an id in the text renumbered below
    that id replaces it token by token: no other declaration carries
    the id. *)
Lemma replace_declaration_renumbered (ts l : list token) (id : nat) (by_ : list token) :
  List.NoDup (declared l) ->
  replace_declaration id by_ (flat_map (renumber_token ts id) l)
  = flat_map (settle_token ts id by_) l.
Proof.
  induction l as [| t l IH]; [reflexivity |]. rewrite declared_cons.
  destruct t as [i | i | c]; cbn [flat_map settle_token renumber_token].
  - intros Hnd. apply List.NoDup_cons_iff in Hnd as [Hnotin Hnd].
    destruct (Nat.ltb_spec i id) as [Hlt | Hge].
    + replace (i =? id) with false by (symmetry; apply Nat.eqb_neq; lia).
      destruct (referenced ts i); cbn [app replace_declaration]; [| auto].
      pose proof (rank_le ts i).
      replace (rank ts i =? id) with false by (symmetry; apply Nat.eqb_neq; lia).
      f_equal. auto.
    + cbn [app replace_declaration]. destruct (Nat.eqb_spec i id) as [-> | Hne].
      * f_equal. apply flat_map_ext_in. intros [j | j | c] Hin; try reflexivity.
        cbn [settle_token]. destruct (Nat.eqb_spec j id) as [-> | _]; [| reflexivity].
        now apply declared_in in Hin.
      * f_equal. auto.
  - intros Hnd. destruct (i <? id); cbn [app replace_declaration]; f_equal; auto.
  - intros Hnd. cbn [app replace_declaration]. f_equal. auto.
Qed.

Lemma map_flat_map {A B C} (f : B -> C) (g : A -> list B) (l : list A) :
  map f (flat_map g l) = flat_map (fun a => map f (g a)) l.
Proof.
  induction l as [| a l IH]; [reflexivity |]. cbn [flat_map]. now rewrite map_app, IH.
Qed.

(** A referenced declaration and its pointers take the rank of the id. *)
Lemma settle_referenced (ts l : list token) (id : nat) :
  referenced ts id = true ->
  map (rename_pointer id (rank ts id))
    (flat_map (settle_token ts id [Declaration (rank ts id)]) l)
  = flat_map (renumber_token ts (S id)) l.
Proof.
  intros Href. rewrite map_flat_map. apply flat_map_ext_in. intros [i | i | c] _.
  - cbn [settle_token renumber_token]. destruct (Nat.eqb_spec i id) as [-> | Hne].
    + replace (id <? S id) with true by (symmetry; apply Nat.ltb_lt; lia).
      now rewrite Href.
    + destruct (Nat.ltb_spec i id), (Nat.ltb_spec i (S id)); try lia;
        [destruct (referenced ts i) |]; reflexivity.
  - cbn [settle_token renumber_token].
    destruct (Nat.ltb_spec i id), (Nat.ltb_spec i (S id)); try lia; cbn [map rename_pointer].
    + pose proof (rank_le ts i).
      now replace (rank ts i =? id) with false by (symmetry; apply Nat.eqb_neq; lia).
    + replace i with id by lia. now rewrite Nat.eqb_refl.
    + now replace (i =? id) with false by (symmetry; apply Nat.eqb_neq; lia).
  - reflexivity.
Qed.

(** An unreferenced declaration is dropped. *)
Lemma settle_unreferenced (ts : list token) (id : nat) :
  referenced ts id = false ->
  flat_map (settle_token ts id []) ts = flat_map (renumber_token ts (S id)) ts.
Proof.
  intros Href. apply flat_map_ext_in. intros [i | i | c] Hin.
  - cbn [settle_token renumber_token]. destruct (Nat.eqb_spec i id) as [-> | Hne].
    + replace (id <? S id) with true by (symmetry; apply Nat.ltb_lt; lia).
      now rewrite Href.
    + destruct (Nat.ltb_spec i id), (Nat.ltb_spec i (S id)); try lia; reflexivity.
  - cbn [settle_token renumber_token].
    destruct (Nat.ltb_spec i id), (Nat.ltb_spec i (S id)); try lia; try reflexivity.
    assert (i = id) as -> by lia. apply pointed_in in Hin.
    unfold referenced in Href. rewrite <- not_true_iff_false in Href.
    exfalso. apply Href, existsb_exists. exists id. split; [exact Hin | apply Nat.eqb_refl].
  - reflexivity.
Qed.

(** One step of the pass deals with one more declaration. *)
Lemma clean_step_renumbered (ts : list token) (id : nat) :
  Forall plain_token ts -> pointers_end ts -> List.NoDup (declared ts) ->
  Serializer.clean_step (tokens_text (renumber_below ts id), N.of_nat (rank ts id))
    (declaration_text id)
  = (tokens_text (renumber_below ts (S id)), N.of_nat (rank ts (S id))).
Proof.
  intros Hplain Hend Hnd.
  rewrite clean_step_of_tokens
    by (unfold renumber_below; auto using renumber_plain, renumber_end).
  rewrite renumber_referenced, rank_S. unfold renumber_below.
  rewrite !replace_declaration_renumbered by assumption.
  destruct (referenced ts id) eqn:Href.
  - rewrite settle_referenced by assumption. f_equal. f_equal. lia.
  - rewrite settle_unreferenced by assumption. f_equal. f_equal. lia.
Qed.

(** The pass over the declarations [from .. from + count - 1]. *)
Lemma clean_fold_renumbered (ts : list token) (count from : nat) :
  Forall plain_token ts -> pointers_end ts -> List.NoDup (declared ts) ->
  fold_left Serializer.clean_step (map declaration_text (seq from count))
    (tokens_text (renumber_below ts from), N.of_nat (rank ts from))
  = (tokens_text (renumber_below ts (from + count)), N.of_nat (rank ts (from + count))).
Proof.
  intros Hplain Hend Hnd. revert from.
  induction count as [| count IH]; intros from.
  - now rewrite Nat.add_0_r.
  - cbn [seq map fold_left]. rewrite clean_step_renumbered by assumption.
    rewrite IH. now rewrite Nat.add_succ_r.
Qed.

(** The declarations that the compacted text keeps: one for every
    referenced id, numbered by rank. *)
Lemma renumber_declared (ts l : list token) (done : nat) :
  Forall (fun i => i < done) (declared l) ->
  declared (flat_map (renumber_token ts done) l)
  = flat_map (fun i => if referenced ts i then [rank ts i] else []) (declared l).
Proof.
  induction l as [| t l IH]; [reflexivity |]. rewrite declared_cons.
  cbn [flat_map]. rewrite declared_app.
  destruct t as [i | i | c]; cbn [renumber_token].
  - intros H. apply Forall_cons in H as [Hi H]. rewrite IH by exact H.
    replace (i <? done) with true by (symmetry; apply Nat.ltb_lt; lia).
    cbn [flat_map]. now destruct (referenced ts i).
  - intros H. rewrite IH by exact H. now destruct (i <? done).
  - intros H. now rewrite IH by exact H.
Qed.

Lemma ranks_of_referenced (ts : list token) (n : nat) :
  flat_map (fun i => if referenced ts i then [rank ts i] else []) (seq 0 n)
  = seq 0 (rank ts n).
Proof.
  induction n as [| n IH]; [reflexivity |].
  rewrite seq_S, flat_map_app, IH, rank_S. cbn [flat_map plus].
  destruct (referenced ts n).
  - now rewrite Nat.add_1_r, seq_S.
  - now rewrite Nat.add_0_r, app_nil_r.
Qed.

Lemma rank_lt (ts : list token) (i n : nat) :
  i < n -> referenced ts i = true -> rank ts i < rank ts n.
Proof.
  intros Hlt Href. induction n as [| n IH]; [lia |].
  rewrite rank_S. destruct (Nat.eq_dec i n) as [-> | Hne].
  - rewrite Href. lia.
  - specialize (IH ltac:(lia)). lia.
Qed.

Lemma rank_inj (ts : list token) (i j : nat) :
  referenced ts i = true -> referenced ts j = true -> rank ts i = rank ts j -> i = j.
Proof.
  intros Hi Hj E. destruct (Nat.lt_trichotomy i j) as [H | [H | H]]; [| exact H |].
  - pose proof (rank_lt ts i j H Hi). lia.
  - pose proof (rank_lt ts j i H Hj). lia.
Qed.

Lemma rank_onto (ts : list token) (n k : nat) :
  k < rank ts n -> exists i, i < n /\ referenced ts i = true /\ rank ts i = k.
Proof.
  induction n as [| n IH]; [cbn; lia |]. rewrite rank_S. intros Hk.
  destruct (referenced ts n) eqn:Href.
  - destruct (Nat.eq_dec k (rank ts n)) as [-> | Hne].
    + exists n. repeat split; [lia | exact Href].
    + destruct IH as (i & Hi & Hr & E); [lia |]. exists i. repeat split; [lia | assumption..].
  - destruct IH as (i & Hi & Hr & E); [lia |]. exists i. repeat split; [lia | assumption..].
Qed.

Lemma well_formed_nodup (n : nat) (ts : list token) :
  well_formed n ts -> List.NoDup (declared ts).
Proof. intros [-> _ _ _]. apply List.seq_NoDup. Qed.

(** On the text of well-formed tokens the clean-up pass computes the
    renumbering: an unreferenced declaration is dropped and its
    payload stays, a referenced declaration and its pointers take
    the rank of the id among the referenced ones. *)
Lemma clean_tokens (n : nat) (ts : list token) :
  well_formed n ts -> Serializer.clean (tokens_text ts) = tokens_text (renumber ts).
Proof.
  intros Hwf. pose proof (well_formed_nodup n ts Hwf) as Hnd.
  destruct Hwf as [Hdecl Hpointed Hplain Hend].
  unfold Serializer.clean.
  change (RegExp.matchAll _ (tokens_text ts)) with (declarations (tokens_text ts)).
  rewrite declarations_of_tokens, Hdecl by assumption.
  pose proof (clean_fold_renumbered ts n 0 Hplain Hend Hnd) as Hfold.
  rewrite renumber_below_0 in Hfold. change (N.of_nat (rank ts 0)) with 0%N in Hfold.
  rewrite Hfold. unfold renumber. now rewrite Hdecl, length_seq.
Qed.

Local Close Scope nat_scope.

(** ** The clean-up pass and function names *)

(** C4 (the code departs from the claim). With function support on,
    the function named ["@0=#0x"] is serialized by the recursive pass
    as [@0=9|@0=#0x~function()&123;&125;]; [clean] turns it into
    [@1=9|@0=#1x~function()&123;&125;], whose declarations are [@1=]
    then [@0=], the latter without any pointer [#0]. *)
Theorem clean_misled_by_function_name (host : Host) :
  let st := Serializer.new functions_enabled in
  let raw := str "@0=9|@0=#0x~function()&123;&125;" in
  let cleaned := str "@1=9|@0=#1x~function()&123;&125;" in
  fst (Serializer.serialize_ host named_function_heap 2 (VObject 0) st) = Ok raw
  /\ Serializer.clean raw = cleaned
  /\ fst (Serializer.serialize host named_function_heap (VObject 0) st) = Ok cleaned
  /\ declarations cleaned = [str "@1="; str "@0="]
  /\ pointers cleaned = [str "#1"].
Proof. cbv zeta. repeat split; vm_compute; reflexivity. Qed.

(** ** Object accessibility *)


(** ** The decoder leaves every object extensible *)

Lemma keeps_ret {A} (a : A) : keeps_extensible (ret a).
Proof. intros m H. exact H. Qed.

Lemma keeps_lift {A} (o : outcome A) : keeps_extensible (lift o).
Proof. intros m H. exact H. Qed.

Lemma keeps_throw {A} (e : error) : keeps_extensible (@throw _ A e).
Proof. intros m H. exact H. Qed.

Lemma keeps_get : keeps_extensible (@get Deserializer.machine).
Proof. intros m H. exact H. Qed.

Lemma keeps_bind {A B} (c : M Deserializer.machine A) (k : A -> M Deserializer.machine B) :
  keeps_extensible c -> (forall a, keeps_extensible (k a)) -> keeps_extensible (bind c k).
Proof.
  intros Hc Hk m H. unfold bind. specialize (Hc m H).
  destruct (c m) as [[a | e | | w] m']; cbn [snd] in *; try assumption.
  now apply Hk.
Qed.

Lemma keeps_modify (f : Deserializer.machine -> Deserializer.machine) :
  (forall m, Deserializer.memory (f m) = Deserializer.memory m) ->
  keeps_extensible (modify f).
Proof. intros Hf m H. unfold all_extensible, modify. cbn [snd]. now rewrite Hf. Qed.

Lemma keeps_alloc (o : jsobject) :
  extensible o = true -> keeps_extensible (Deserializer.alloc o).
Proof.
  intros Ho m H. unfold Deserializer.alloc, all_extensible. cbn [snd Deserializer.memory].
  apply Forall_app. split; [exact H | now constructor].
Qed.

Lemma keeps_update (a : nat) (f : jsobject -> outcome jsobject) :
  (forall o o', f o = Ok o' -> extensible o' = extensible o) ->
  keeps_extensible (Deserializer.update a f).
Proof.
  intros Hf m H. unfold Deserializer.update.
  destruct (Deserializer.memory m !! a) as [o |] eqn:E; [| exact H].
  destruct (f o) as [o' | e | | w] eqn:Ef; try exact H.
  unfold all_extensible. cbn [snd Deserializer.memory].
  apply Forall_insert; [exact H |].
  rewrite (Hf o o' Ef). unfold all_extensible in H. rewrite Forall_lookup in H.
  exact (H a o E).
Qed.

Lemma assign_extensible (o o' : jsobject) (k : jsstring) (v : jsvalue) :
  assign o k v = Ok o' -> extensible o' = extensible o.
Proof.
  unfold assign. destruct (find_property k (properties o)) as [p |].
  - destruct (writable p); [intros [= <-]; reflexivity | discriminate].
  - destruct (extensible o); [intros [= <-]; reflexivity | discriminate].
Qed.

Lemma defineFlags_extensible (o o' : jsobject) (k : jsstring) (c e w : bool) :
  defineFlags o k c e w = Ok o' -> extensible o' = extensible o.
Proof.
  unfold defineFlags. destruct (find_property k (properties o)) as [p |]; [| discriminate].
  destruct (_ && _); [discriminate | intros [= <-]; reflexivity].
Qed.

Lemma keeps_assign_property (into k v : jsvalue) :
  keeps_extensible (Deserializer.assign_property into k v).
Proof.
  unfold Deserializer.assign_property.
  destruct into; try apply keeps_lift. destruct k; try apply keeps_lift.
  apply keeps_update. intros o o'.
  destruct (internal o); try apply assign_extensible.
  destruct (string_eqb _ _); [discriminate | apply assign_extensible].
Qed.

Lemma keeps_applyPropertyDescriptorFlags (object property : jsvalue) (flags : Z) :
  keeps_extensible (Deserializer.applyPropertyDescriptorFlags object property flags).
Proof.
  unfold Deserializer.applyPropertyDescriptorFlags.
  destruct object; try apply keeps_lift. destruct property; try apply keeps_lift.
  apply keeps_update. intros o o'. apply defineFlags_extensible.
Qed.

Lemma keeps_Map_set (into k v : jsvalue) : keeps_extensible (Deserializer.Map_set into k v).
Proof.
  unfold Deserializer.Map_set. destruct into; try apply keeps_lift.
  apply keeps_update. intros o o'.
  destruct (internal o); try discriminate. intros [= <-]. reflexivity.
Qed.

Lemma keeps_Set_add (into v : jsvalue) : keeps_extensible (Deserializer.Set_add into v).
Proof.
  unfold Deserializer.Set_add. destruct into; try apply keeps_lift.
  apply keeps_update. intros o o'.
  destruct (internal o); try discriminate. intros [= <-]. reflexivity.
Qed.

Lemma keeps_forEach {A} (f : A -> M Deserializer.machine unit) (l : list A) :
  (forall a, keeps_extensible (f a)) -> keeps_extensible (forEach f l).
Proof.
  intros Hf. induction l as [| a l IH]; cbn [forEach].
  - apply keeps_ret.
  - apply keeps_bind; [apply Hf | intros _; exact IH].
Qed.

Lemma keeps_tick : keeps_extensible Deserializer.tick.
Proof. apply keeps_modify. reflexivity. Qed.

Lemma keeps_setReference (id : N) (v : jsvalue) :
  keeps_extensible (Deserializer.setReference id v).
Proof. apply keeps_modify. reflexivity. Qed.

Lemma keeps_getReference (id : N) : keeps_extensible (Deserializer.getReference id).
Proof.
  unfold Deserializer.getReference. apply keeps_bind; [apply keeps_get |].
  intros m. destruct (_ !! _); [apply keeps_ret | apply keeps_throw].
Qed.

(** Closes the goals that follow the shape of the code. *)
Ltac keeps :=
  repeat
    match goal with
    | |- keeps_extensible (bind _ _) => apply keeps_bind; [| intro]
    | |- keeps_extensible (ret _) => apply keeps_ret
    | |- keeps_extensible (lift _) => apply keeps_lift
    | |- keeps_extensible (throw _) => apply keeps_throw
    | |- keeps_extensible get => apply keeps_get
    | |- keeps_extensible Deserializer.tick => apply keeps_tick
    | |- keeps_extensible (Deserializer.setReference _ _) => apply keeps_setReference
    | |- keeps_extensible (Deserializer.getReference _) => apply keeps_getReference
    | |- keeps_extensible (Deserializer.assign_property _ _ _) => apply keeps_assign_property
    | |- keeps_extensible (Deserializer.applyPropertyDescriptorFlags _ _ _) =>
        apply keeps_applyPropertyDescriptorFlags
    | |- keeps_extensible (Deserializer.Map_set _ _ _) => apply keeps_Map_set
    | |- keeps_extensible (Deserializer.Set_add _ _) => apply keeps_Set_add
    | |- keeps_extensible (Deserializer.alloc _) => apply keeps_alloc; reflexivity
    | |- keeps_extensible (if ?b then _ else _) => destruct b
    | |- keeps_extensible (match ?x with _ => _ end) => destruct x
    end.

Lemma keeps_emptyEntriesHolder (type : jsstring) :
  keeps_extensible (Deserializer.emptyEntriesHolder type).
Proof. unfold Deserializer.emptyEntriesHolder. keeps. Qed.

Section KeepsExtensible.

Context (host : Host) (rec : jsstring -> option jsvalue -> M Deserializer.machine jsvalue).
Hypothesis rec_keeps : forall s name, keeps_extensible (rec s name).

Lemma keeps_deserializeEntry (type : jsstring) (into : jsvalue) (entry : list jsstring) :
  keeps_extensible (Deserializer.deserializeEntry rec type into entry).
Proof. unfold Deserializer.deserializeEntry. cbv zeta. keeps; apply rec_keeps. Qed.

Lemma keeps_deserializeEntried (serialized type : jsstring) (into : jsvalue) :
  keeps_extensible (Deserializer.deserializeEntried rec serialized type into).
Proof.
  unfold Deserializer.deserializeEntried. keeps.
  apply keeps_forEach. intros entry. apply keeps_deserializeEntry.
Qed.

Lemma keeps_deserialize_body (serialized : jsstring) (name : option jsvalue) :
  keeps_extensible (Deserializer.deserialize_body host rec serialized name).
Proof.
  unfold Deserializer.deserialize_body, Deserializer.deserializeFunction,
    Deserializer.deserializeDate. cbv zeta.
  keeps; first [apply keeps_emptyEntriesHolder | apply keeps_deserializeEntried].
Qed.

End KeepsExtensible.

Lemma keeps_deserialize_ (host : Host) (fuel : nat) (s : jsstring) (name : option jsvalue) :
  keeps_extensible (Deserializer.deserialize_ host fuel s name).
Proof.
  revert s name. induction fuel as [| fuel IH]; intros s name; cbn [Deserializer.deserialize_].
  - apply keeps_lift.
  - now apply keeps_deserialize_body.
Qed.

Lemma keeps_requireAll (requirements rest : list jsstring) (index : Z)
      (provided : list constructor) :
  keeps_extensible (Deserializer.requireAll requirements rest index provided).
Proof.
  revert index. induction rest as [| d rest IH]; intros index; cbn [Deserializer.requireAll].
  - apply keeps_ret.
  - destruct (negb _); [apply keeps_throw |].
    destruct (List.find _ _); [| apply keeps_throw].
    apply keeps_bind; [apply keeps_modify; reflexivity | intros _; apply IH].
Qed.

Lemma keeps_setupDependencies (s : jsstring) (provided : list constructor) :
  keeps_extensible (Deserializer.setupDependencies s provided).
Proof.
  unfold Deserializer.setupDependencies. cbv zeta. keeps. apply keeps_requireAll.
Qed.



(** ** Pointers without a binding *)

Lemma indexOf_from_range (pat s : jsstring) (i : Z) :
  indexOf_from pat s i = -1 \/ i <= indexOf_from pat s i.
Proof.
  revert i. induction s as [| x s IH]; intros i; cbn [indexOf_from].
  - destruct (startsWith [] pat); [right; lia | left; reflexivity].
  - destruct (startsWith (x :: s) pat); [right; lia |].
    destruct (IH (i + 1)) as [H | H]; [left; exact H | right; lia].
Qed.

Lemma indexOf_zero (s : jsstring) (c : N) : indexOf s [c] = 0 -> exists t, s = c :: t.
Proof.
  unfold indexOf. destruct s as [| x s]; cbn [indexOf_from startsWith]; [discriminate |].
  destruct (unit_eqb c x) eqn:E; cbn [andb].
  - apply N.eqb_eq in E. subst x. eauto.
  - intros H. destruct (indexOf_from_range [c] s (0 + 1)) as [H' | H']; lia.
Qed.

Lemma indexOf_head_differs (c x : N) (t : jsstring) :
  x <> c -> indexOf (x :: t) [c] = -1 \/ 1 <= indexOf (x :: t) [c].
Proof.
  intros H. unfold indexOf. cbn [indexOf_from startsWith].
  replace (unit_eqb c x) with false by (symmetry; apply N.eqb_neq; congruence).
  cbn [andb]. apply indexOf_from_range.
Qed.

Lemma slice_keeps_head (c : N) (t : jsstring) (k : Z) :
  1 <= k -> exists r, slice (c :: t) 0 k = c :: r.
Proof.
  intros Hk. unfold slice, clamp_index. cbn [length].
  destruct (Z.ltb_spec 0 0); [lia |]. destruct (Z.ltb_spec k 0); [lia |].
  rewrite (Z.min_l 0) by lia.
  destruct (Z.to_nat (Z.min k (Z.of_nat (S (length t))) - 0)) as [| n] eqn:E; [lia |].
  cbn. eauto.
Qed.

(** The type of a pointer block starts with ['#']: it is no singleton. *)
Lemma pointer_not_singleton (block : jsstring) (info : SerializedBlockInfo.t) (id : N) :
  SerializedBlockInfo.new block = Ok info ->
  SerializedBlockInfo.reference info = Some (SerializedBlockInfo.get_, id) ->
  EnscribedType.isSingleton (SerializedBlockInfo.type info) = false.
Proof.
  unfold SerializedBlockInfo.new.
  destruct (SerializedBlockInfo.extractReference block) as [r | | |] eqn:Er; try discriminate.
  cbn [outcome_bind].
  destruct (SerializedBlockInfo.extractDescriptorInfo block) as [d | | |]; try discriminate.
  cbn [outcome_bind]. intros [= <-]. cbn [SerializedBlockInfo.reference SerializedBlockInfo.type].
  intros ->. unfold SerializedBlockInfo.extractReference in Er.
  unfold SerializedBlockInfo.extractType.
  set (s := SerializedBlockInfo.removeKeyBrackets block) in *.
  destruct (negb (indexOf s Tok.REFERENCE_POINTER =? INDEX_START)
            && negb (indexOf s Tok.REFERENCE_DECLARARION_S =? INDEX_START)); [discriminate |].
  destruct (SerializedBlockInfo.reference_digits true s); [| discriminate].
  destruct (indexOf s Tok.REFERENCE_POINTER =? 0) eqn:E0; [| discriminate].
  apply Z.eqb_eq in E0. apply (indexOf_zero s 35) in E0 as [t ->].
  assert (Hdecl : SerializedBlockInfo.removeReferenceDeclaration (35%N :: t) = 35%N :: t).
  { unfold SerializedBlockInfo.removeReferenceDeclaration.
    destruct (indexOf_head_differs 64 35 t) as [H | H]; [discriminate | |];
      change Tok.REFERENCE_DECLARARION_S with [64%N]; 
      destruct (Z.eqb_spec (indexOf (35%N :: t) [64%N]) INDEX_START) as [E | E];
      unfold INDEX_START in *; try lia; reflexivity. }
  rewrite Hdecl.
  assert (Hterm : 1 <= (if indexOf (35%N :: t) Tok.TYPE_SEPERATOR =? INDEX_NOT_FOUND
                        then Z.of_nat (length (35%N :: t))
                        else indexOf (35%N :: t) Tok.TYPE_SEPERATOR)).
  { change Tok.TYPE_SEPERATOR with [124%N]. unfold INDEX_NOT_FOUND.
    destruct (Z.eqb_spec (indexOf (35%N :: t) [124%N]) (-1)) as [E | E].
    - cbn [length]. lia.
    - destruct (indexOf_head_differs 124 35 t); [discriminate | lia | lia]. }
  destruct (slice_keeps_head 35 t _ Hterm) as [r ->]. reflexivity.
Qed.

(** [#deserialize] on a pointer without a binding throws. *)
Lemma deserialize_unbound_pointer (host : Host) (fuel : nat) (m : Deserializer.machine)
      (block : jsstring) (name : option jsvalue) :
  unbound_pointer m block ->
  fst (Deserializer.deserialize_ host (S fuel) block name m) = Throw reference_missing.
Proof.
  intros (info & id & Hinfo & Href & Hnone).
  pose proof (pointer_not_singleton block info id Hinfo Href) as Hsingle.
  cbn [Deserializer.deserialize_]. unfold Deserializer.deserialize_body.
  unfold bind at 1. cbn [Deserializer.tick modify].
  unfold bind at 1. unfold lift at 1. rewrite Hinfo. rewrite Hsingle, Href.
  cbn [negb andb]. unfold bind at 1. cbn [ret].
  unfold Deserializer.getReference, bind, get.
  cbn [Deserializer.this Deserializer.references]. rewrite Hnone. reflexivity.
Qed.

(** When the decoding of the entries throws, so does the call. *)
Lemma entered_throws (host : Host)
      (rec : jsstring -> option jsvalue -> M Deserializer.machine jsvalue)
      (m m1 : Deserializer.machine) (block inner type : jsstring) (holder : jsvalue)
      (name : option jsvalue) (e : error) :
  entered m block = Some (m1, inner, type, holder) ->
  fst (Deserializer.deserializeEntried rec inner type holder m1) = Throw e ->
  fst (Deserializer.deserialize_body host rec block name m) = Throw e.
Proof.
  unfold entered. intros H Hthrow.
  destruct (SerializedBlockInfo.new block) as [info | | |] eqn:Einfo; try discriminate.
  cbv zeta in H.
  destruct (EnscribedType.isSingleton (SerializedBlockInfo.type info)) eqn:Esingle;
    [discriminate |].
  unfold Deserializer.deserialize_body.
  unfold bind at 1. cbn [Deserializer.tick modify].
  unfold bind at 1. unfold lift at 1. rewrite Einfo, Esingle.
  destruct (SerializedBlockInfo.reference info) as [[[|] id] |] eqn:Eref; [discriminate | |].
  - destruct (EnscribedType.isEntried _ || EnscribedType.isCustom _) eqn:Eentried;
      [| discriminate].
    cbn [negb andb]. unfold bind at 1.
    unfold holder_for in H. cbn [Deserializer.tick modify snd] in H.
    destruct (if EnscribedType.isCustom (SerializedBlockInfo.type info) then _ else _)
      as [[holder' | | |] m0] eqn:Eholder; try discriminate.
    destruct (SerializedBlockInfo.serializedValue info) as [inner' |] eqn:Einner;
      [| discriminate].
    injection H as <- <- <- <-.
    unfold bind at 1. cbn [Deserializer.setReference modify].
    unfold bind at 1. rewrite orb_comm, Eentried.
    cbn [Deserializer.setReference modify snd] in Hthrow.
    destruct (Deserializer.deserializeEntried _ _ _ _ _) as [[v | e' | |] m3];
      cbn [fst] in Hthrow; try discriminate. exact Hthrow.
  - destruct (EnscribedType.isEntried _ || EnscribedType.isCustom _) eqn:Eentried;
      [| discriminate].
    cbn [negb andb]. unfold bind at 1.
    unfold holder_for in H. cbn [Deserializer.tick modify snd] in H.
    destruct (if EnscribedType.isCustom (SerializedBlockInfo.type info) then _ else _)
      as [[holder' | | |] m0] eqn:Eholder; try discriminate.
    destruct (SerializedBlockInfo.serializedValue info) as [inner' |] eqn:Einner;
      [| discriminate].
    injection H as <- <- <- <-.
    unfold bind at 1. cbn [ret].
    unfold bind at 1. rewrite orb_comm, Eentried.
    destruct (Deserializer.deserializeEntried _ _ _ _ _) as [[v | e' | |] m3];
      cbn [fst] in Hthrow; try discriminate. exact Hthrow.
Qed.

Lemma forEach_app {S A} (f : A -> M S unit) (l1 l2 : list A) (s : S) :
  forEach f (l1 ++ l2) s
  = match forEach f l1 s with
    | (Ok _, s') => forEach f l2 s'
    | other => other
    end.
Proof.
  revert s. induction l1 as [| a l1 IH]; intros s; cbn [app forEach].
  - reflexivity.
  - unfold bind at 1 2. destruct (f a s) as [[[] | e | | w] s']; try reflexivity. apply IH.
Qed.

Section Propagation.

Context (rec : jsstring -> option jsvalue -> M Deserializer.machine jsvalue).
Context (m1 m2 : Deserializer.machine) (inner type : jsstring) (holder : jsvalue).
Context (before after : list (list jsstring)) (entry : list jsstring).
Context (info : SerializedBlockInfo.t) (flags : Z).

Hypothesis entries_found : Deserializer.extractEntries inner = Ok (before ++ entry :: after).
Hypothesis before_done :
  forEach (Deserializer.deserializeEntry rec type holder) before m1 = (Ok tt, m2).
Hypothesis key_info : SerializedBlockInfo.new (nth 0 entry []) = Ok info.
Hypothesis key_flags : SerializedBlockInfo.descriptor info = Some flags.

(** A throw while decoding the key of an entry. *)
Lemma key_throw_propagates (e : error) :
  fst (rec (nth 0 entry []) None m2) = Throw e ->
  fst (Deserializer.deserializeEntried rec inner type holder m1) = Throw e.
Proof.
  intros Hthrow. unfold Deserializer.deserializeEntried.
  unfold bind at 1. unfold lift at 1. rewrite entries_found.
  unfold bind at 1. rewrite forEach_app, before_done. cbn [forEach].
  unfold bind at 1. unfold Deserializer.deserializeEntry at 1. cbv zeta.
  unfold bind at 1. unfold lift at 1. rewrite key_info, key_flags.
  unfold bind at 1.
  destruct (rec (nth 0 entry []) None m2) as [[k | e' | |] m3];
    cbn [fst] in Hthrow; try discriminate. exact Hthrow.
Qed.

(** A throw while decoding the value of an entry. *)
Lemma value_throw_propagates (k : jsvalue) (m3 : Deserializer.machine) (e : error) :
  rec (nth 0 entry []) None m2 = (Ok k, m3) ->
  fst (rec (nth 1 entry []) (Some k) m3) = Throw e ->
  fst (Deserializer.deserializeEntried rec inner type holder m1) = Throw e.
Proof.
  intros Hkey Hthrow. unfold Deserializer.deserializeEntried.
  unfold bind at 1. unfold lift at 1. rewrite entries_found.
  unfold bind at 1. rewrite forEach_app, before_done. cbn [forEach].
  unfold bind at 1. unfold Deserializer.deserializeEntry at 1. cbv zeta.
  unfold bind at 1. unfold lift at 1. rewrite key_info, key_flags.
  unfold bind at 1. rewrite Hkey. unfold bind at 1.
  destruct (rec (nth 1 entry []) (Some k) m3) as [[v | e' | |] m4];
    cbn [fst] in Hthrow; try discriminate. exact Hthrow.
Qed.

End Propagation.

(** A pointer without a binding that a call gets to makes the call
    throw, the budget of the embedding allowing. *)
Lemma decodes_unbound_pointer (host : Host) (fuel fuel' : nat)
      (m m' : Deserializer.machine) (block block' : jsstring) :
  Decodes host fuel m block fuel' m' block' ->
  (0 < fuel')%nat ->
  unbound_pointer m' block' ->
  forall name, fst (Deserializer.deserialize_ host fuel block name m) = Throw reference_missing.
Proof.
  intros Hd Hfuel Hptr.
  induction Hd as [fuel m block
                  | fuel m m1 m2 block inner type holder before after entry info flags
                         fuel' m' block' Hentered Hentries Hbefore Hinfo Hflags Hd IH
                  | fuel m m1 m2 m3 block inner type holder k before after entry info flags
                         fuel' m' block' Hentered Hentries Hbefore Hinfo Hflags Hkey Hd IH];
    intros name.
  - destruct fuel as [| fuel]; [lia |]. now apply deserialize_unbound_pointer.
  - cbn [Deserializer.deserialize_].
    eapply entered_throws; [exact Hentered |].
    eapply key_throw_propagates; eauto.
  - cbn [Deserializer.deserialize_].
    eapply entered_throws; [exact Hentered |].
    eapply value_throw_propagates; eauto.
Qed.

(** ** Nested blocks are shorter *)

Lemma slice_length (s : jsstring) (a b : Z) : (length (slice s a b) <= length s)%nat.
Proof.
  unfold slice. rewrite length_firstn, length_skipn. lia.
Qed.

Lemma slice_length_to (s : jsstring) (a b : Z) :
  0 <= b -> (length (slice s a b) <= Z.to_nat b)%nat.
Proof.
  intros Hb. unfold slice, clamp_index. rewrite length_firstn.
  destruct (Z.ltb_spec a 0); destruct (Z.ltb_spec b 0); lia.
Qed.

Lemma slice_from_length (s : jsstring) (a : Z) : (length (slice_from s a) <= length s)%nat.
Proof. apply slice_length. Qed.

Lemma lastIndexOf_from_range (c : N) (pat s : jsstring) (i last : Z) :
  lastIndexOf_from (c :: pat) s i last = last
  \/ i <= lastIndexOf_from (c :: pat) s i last < i + Z.of_nat (length s).
Proof.
  revert i last. induction s as [| x s IH]; intros i last.
  - left. reflexivity.
  - cbn [lastIndexOf_from length].
    destruct (IH (i + 1) (if startsWith (x :: s) (c :: pat) then i else last)) as [E | E].
    + rewrite E. destruct (startsWith (x :: s) (c :: pat)); [right; lia | left; reflexivity].
    + right. lia.
Qed.

Lemma scan_character_within (n : nat) (sc sc' : Deserializer.scanner) (c : N) :
  fragments_within n sc -> Deserializer.scan_character sc c = Ok sc' ->
  fragments_within (S n) sc'.
Proof.
  intros (H1 & H2 & H3).
  assert (H2' : Forall (fun f => (length f <= S n)%nat) (Deserializer.buffer_2 sc)).
  { eapply Forall_impl; [exact H2 | cbv beta; intros; lia]. }
  assert (H3' : Forall (Forall (fun f => (length f <= S n)%nat)) (Deserializer.output sc)).
  { eapply Forall_impl; [exact H3 |]. cbv beta. intros l Hl.
    eapply Forall_impl; [exact Hl | cbv beta; intros; lia]. }
  assert (Hpush : fragments_within (S n) (Deserializer.push c sc)).
  { unfold fragments_within, Deserializer.push.
    cbn [Deserializer.buffer_1 Deserializer.buffer_2 Deserializer.output].
    rewrite length_app. cbn [length]. repeat split; [lia | assumption | assumption]. }
  assert (Hflush1 : fragments_within (S n) (Deserializer.flush1 sc)).
  { unfold fragments_within, Deserializer.flush1.
    destruct (0 <? length (Deserializer.buffer_1 sc))%nat;
      cbn [Deserializer.buffer_1 Deserializer.buffer_2 Deserializer.output length].
    - repeat split; [lia | | assumption].
      apply Forall_app. split; [assumption |]. constructor; [lia | constructor].
    - repeat split; [lia | assumption | assumption]. }
  assert (Hflush2 : forall sc0 sc1, fragments_within (S n) sc0 ->
                                    Deserializer.flush2 sc0 = Ok sc1 ->
                                    fragments_within (S n) sc1).
  { intros sc0 sc1 (G1 & G2 & G3). unfold Deserializer.flush2.
    destruct (Nat.eqb (length (Deserializer.buffer_2 sc0)) 0);
      [intros [= <-]; repeat split; assumption |].
    destruct (negb _); [discriminate |]. intros [= <-].
    unfold fragments_within.
    cbn [Deserializer.buffer_1 Deserializer.buffer_2 Deserializer.output].
    repeat split; [assumption | constructor |].
    apply Forall_app. split; [assumption |]. constructor; [assumption | constructor]. }
  unfold Deserializer.scan_character.
  destruct (_ || _).
  { intros [= <-]. unfold fragments_within, Deserializer.push.
    cbn [Deserializer.buffer_1 Deserializer.buffer_2 Deserializer.output].
    rewrite length_app. cbn [length]. repeat split; [lia | assumption | assumption]. }
  destruct (unit_eqb c (unit_of Tok.KEY_VALUE_SEPERATOR)).
  { destruct (Deserializer.depth sc =? 0); intros [= <-]; assumption. }
  destruct (unit_eqb c (unit_of Tok.ENTRY_SEPERATOR)).
  { destruct (Deserializer.depth sc =? 0); [| intros [= <-]; assumption].
    apply Hflush2. assumption. }
  intros [= <-]. assumption.
Qed.

Lemma fragments_within_le (n n' : nat) (sc : Deserializer.scanner) :
  (n <= n')%nat -> fragments_within n sc -> fragments_within n' sc.
Proof.
  intros Hle (H1 & H2 & H3). repeat split; [lia | |].
  - eapply Forall_impl; [exact H2 | cbv beta; intros; lia].
  - eapply Forall_impl; [exact H3 |]. cbv beta. intros l Hl.
    eapply Forall_impl; [exact Hl | cbv beta; intros; lia].
Qed.

Lemma scan_within (interior : jsstring) (n : nat) (sc sc' : Deserializer.scanner) :
  fragments_within n sc -> Deserializer.scan sc interior = Ok sc' ->
  fragments_within (n + length interior) sc'.
Proof.
  revert n sc. induction interior as [| c interior IH]; intros n sc H; cbn [Deserializer.scan].
  - intros [= <-]. cbn [length]. now rewrite Nat.add_0_r.
  - destruct (Deserializer.scan_character sc c) as [sc1 | | |] eqn:E; try discriminate.
    cbn [outcome_bind length]. intros Hscan.
    replace (n + S (length interior))%nat with (S n + length interior)%nat by lia.
    eapply IH; [| exact Hscan]. eapply scan_character_within; eauto.
Qed.

(** The fragments of an entries block are shorter than the block. *)
Lemma extractEntries_shorter (inner : jsstring) (es : list (list jsstring))
      (entry : list jsstring) (i : nat) :
  Deserializer.extractEntries inner = Ok es -> In entry es ->
  (length (nth i entry []) < length inner)%nat.
Proof.
  unfold Deserializer.extractEntries.
  set (str_ := indexOf inner Tok.ENTRIED_VALUE_S + 1).
  set (end_ := lastIndexOf inner Tok.ENTRIED_VALUE_E).
  destruct ((str_ =? INDEX_NOT_FOUND) || (end_ =? INDEX_NOT_FOUND)) eqn:Eidx; [discriminate |].
  apply orb_false_iff in Eidx as [_ Eend]. apply Z.eqb_neq in Eend.
  assert (Hend : 0 <= end_ < Z.of_nat (length inner)).
  { subst end_. unfold lastIndexOf in *. change Tok.ENTRIED_VALUE_E with [125%N] in *.
    unfold INDEX_NOT_FOUND in Eend.
    destruct (lastIndexOf_from_range 125 [] inner 0 (-1)) as [E | E]; lia. }
  set (interior := slice inner str_ end_).
  assert (Hlen : (length interior < length inner)%nat).
  { pose proof (slice_length_to inner str_ end_ (proj1 Hend)). subst interior. lia. }
  destruct (Deserializer.scan _ interior) as [sc | | |] eqn:Escan; try discriminate.
  cbn [outcome_bind].
  destruct (Deserializer.flush2 (Deserializer.flush1 sc)) as [sc' | | |] eqn:Eflush;
    try discriminate.
  cbn [outcome_bind]. destruct (existsb _ _); [discriminate |]. intros [= <-] Hin.
  assert (Hsc : fragments_within (0 + length interior) sc).
  { eapply scan_within; [| exact Escan]. repeat split; [cbn; lia | constructor | constructor]. }
  assert (Hsc' : fragments_within (length interior) sc').
  { cbn [Nat.add] in Hsc. destruct Hsc as (H1 & H2 & H3).
    unfold Deserializer.flush1 in Eflush.
    destruct (0 <? length (Deserializer.buffer_1 sc))%nat; unfold Deserializer.flush2 in Eflush;
      cbn [Deserializer.buffer_1 Deserializer.buffer_2 Deserializer.output Deserializer.depth]
        in Eflush.
    - destruct (Nat.eqb _ 0); [injection Eflush as <- |].
      + repeat split; cbn; [lia | | assumption].
        apply Forall_app. split; [assumption | constructor; [lia | constructor]].
      + destruct (negb _); [discriminate |]. injection Eflush as <-.
        repeat split; cbn; [lia | constructor |].
        apply Forall_app. split; [assumption |]. constructor; [| constructor].
        apply Forall_app. split; [assumption | constructor; [lia | constructor]].
    - destruct (Nat.eqb _ 0); [injection Eflush as <-; repeat split; assumption |].
      destruct (negb _); [discriminate |]. injection Eflush as <-.
      repeat split; cbn; [assumption | constructor |].
      apply Forall_app. split; [assumption |]. constructor; [assumption | constructor]. }
  destruct Hsc' as (_ & _ & Hout).
  rewrite List.Forall_forall in Hout. specialize (Hout entry Hin).
  destruct (nth_in_or_default i entry []) as [Hnth | ->]; [| cbn; lia].
  rewrite List.Forall_forall in Hout. specialize (Hout _ Hnth). lia.
Qed.

Lemma removeKeyBrackets_length (s : jsstring) :
  (length (SerializedBlockInfo.removeKeyBrackets s) <= length s)%nat.
Proof.
  unfold SerializedBlockInfo.removeKeyBrackets.
  destruct (negb _); [lia | apply slice_length].
Qed.

Lemma removeReferenceDeclaration_length (s : jsstring) :
  (length (SerializedBlockInfo.removeReferenceDeclaration s) <= length s)%nat.
Proof.
  unfold SerializedBlockInfo.removeReferenceDeclaration.
  destruct (negb _); [lia |]. destruct (_ =? _); [lia | apply slice_from_length].
Qed.

Lemma serializedValue_length (block inner : jsstring) (info : SerializedBlockInfo.t) :
  SerializedBlockInfo.new block = Ok info ->
  SerializedBlockInfo.serializedValue info = Some inner ->
  (length inner <= length block)%nat.
Proof.
  unfold SerializedBlockInfo.new.
  destruct (SerializedBlockInfo.extractReference block); try discriminate.
  cbn [outcome_bind].
  destruct (SerializedBlockInfo.extractDescriptorInfo block); try discriminate.
  cbn [outcome_bind]. intros [= <-]. cbn [SerializedBlockInfo.serializedValue].
  unfold SerializedBlockInfo.extractSerializedValue.
  destruct (_ =? _); [discriminate |]. intros [= <-].
  etransitivity; [apply slice_from_length |].
  etransitivity; [apply removeReferenceDeclaration_length |].
  apply removeKeyBrackets_length.
Qed.

Lemma entered_length (m m1 : Deserializer.machine) (block inner type : jsstring)
      (holder : jsvalue) :
  entered m block = Some (m1, inner, type, holder) -> (length inner <= length block)%nat.
Proof.
  unfold entered.
  destruct (SerializedBlockInfo.new block) as [info | | |] eqn:Einfo; try discriminate.
  cbv zeta. destruct (EnscribedType.isSingleton _); [discriminate |].
  intros H. apply (serializedValue_length block inner info Einfo).
  destruct (SerializedBlockInfo.reference info) as [[[|] id] |]; [discriminate | |];
    (destruct (_ || _); [| discriminate]);
    (destruct (holder_for _ _) as [[holder' | | |] m0]; try discriminate);
    (destruct (SerializedBlockInfo.serializedValue info); [| discriminate]);
    now injection H as _ <- _ _.
Qed.

(** With a budget above the length of the block, every call the
    decoding gets to has a budget above the length of its block. *)
Lemma decodes_budget (host : Host) (fuel fuel' : nat) (m m' : Deserializer.machine)
      (block block' : jsstring) :
  Decodes host fuel m block fuel' m' block' ->
  (length block < fuel)%nat -> (length block' < fuel')%nat.
Proof.
  intros Hd.
  induction Hd as [fuel m block
                  | fuel m m1 m2 block inner type holder before after entry info flags
                         fuel' m' block' Hentered Hentries Hbefore Hinfo Hflags Hd IH
                  | fuel m m1 m2 m3 block inner type holder k before after entry info flags
                         fuel' m' block' Hentered Hentries Hbefore Hinfo Hflags Hkey Hd IH];
    intros Hfuel; [exact Hfuel | |]; apply IH;
    pose proof (entered_length _ _ _ _ _ _ Hentered);
    [pose proof (extractEntries_shorter inner _ entry 0 Hentries)
    | pose proof (extractEntries_shorter inner _ entry 1 Hentries)];
    rewrite in_app_iff in *; cbn [In] in *; intuition lia.
Qed.

Lemma setupDependencies_length (serialized s0 : jsstring) (provided : list constructor)
      (m m0 : Deserializer.machine) :
  Deserializer.setupDependencies serialized provided m = (Ok s0, m0) ->
  (length s0 <= length serialized)%nat.
Proof.
  unfold Deserializer.setupDependencies.
  destruct (_ && _); [intros [= <- _]; lia |].
  destruct (_ =? _); [discriminate |]. destruct (_ =? _); [discriminate |].
  unfold bind. destruct (Deserializer.requireAll _ _ _ _ _) as [[[] | | |] m1]; try discriminate.
  intros [= <- _]. apply slice_from_length.
Qed.

(** Rejection on the reference table: when [deserialize], once the
    dependency prelude is read, gets in depth-first order to a block
    that is a pointer [#<id>] whose id has no binding in the
    reference table at that point, the call throws the decode error
    of [getReference] and returns no value.  (Ids are read exactly
    here, as the code reads them up to 2^53.) *)
Lemma unbound_pointer_rejected (host : Host) (serialized s0 block' : jsstring)
        (provided : list constructor) (m m0 m' : Deserializer.machine) (fuel' : nat) :
  Deserializer.setupDependencies serialized provided m = (Ok s0, m0) ->
  Decodes host (S (length serialized)) m0 s0 fuel' m' block' ->
  unbound_pointer m' block' ->
  fst (Deserializer.deserialize host serialized provided m) = Throw reference_missing.
Proof.
  intros Hdeps Hd Hptr.
  unfold Deserializer.deserialize, Deserializer.deserialize_with, bind. rewrite Hdeps.
  apply (decodes_unbound_pointer host _ fuel' m0 m' s0 block' Hd); [| exact Hptr].
  pose proof (setupDependencies_length _ _ _ _ _ Hdeps).
  pose proof (decodes_budget host _ _ _ _ _ _ Hd). lia.
Qed.

(** The rejection at a pointer in the value of an entry, on a new
    deserializer. *)
Lemma unbound_pointer_rejected_witness :
  fst (Deserializer.deserialize bitpattern_host (str "3|{[1|a]%28:#7}") []
         (Deserializer.fresh DEFAULT_SHARED_CONFIGURATION))
  = Throw reference_missing.
Proof.
  eapply (unbound_pointer_rejected bitpattern_host (str "3|{[1|a]%28:#7}")
            (str "3|{[1|a]%28:#7}") (str "#7") []
            (Deserializer.fresh DEFAULT_SHARED_CONFIGURATION)
            (Deserializer.fresh DEFAULT_SHARED_CONFIGURATION)).
  - reflexivity.
  - eapply (decodes_value bitpattern_host _ _ _ _ _ _ _ _ _ _ [] []
              [str "[1|a]%28"; str "#7"]).
    + reflexivity.
    + reflexivity.
    + reflexivity.
    + reflexivity.
    + reflexivity.
    + reflexivity.
    + apply decodes_here.
  - eexists. exists 7%N. split; [reflexivity |]. split; reflexivity.
Defined.

Lemma reference_digits_pointer (id : N) :
  SerializedBlockInfo.reference_digits true (str "#" ++ decimal id) = Some (decimal id).
Proof.
  change (str "#" ++ decimal id) with (35%N :: decimal id).
  cbn [SerializedBlockInfo.reference_digits span_digits is_digit].
  assert (Hspan : forall s, forallb is_digit s = true -> span_digits s = (s, [])).
  { induction s as [| c s IH]; [reflexivity |]. cbn [forallb span_digits].
    intros H. apply andb_true_iff in H as [Hc Hs]. rewrite Hc, (IH Hs). reflexivity. }
  rewrite (Hspan _ (decimal_digits id)).
  destruct (decimal_head id) as (d & ds & E & _). rewrite E. reflexivity.
Qed.

Lemma pointer_text_free (c : N) (id : N) :
  is_digit c = false -> c <> 35%N -> free_of c (str "#" ++ decimal id).
Proof.
  intros Hd H. change (str "#" ++ decimal id) with (35%N :: decimal id).
  rewrite free_of_cons. split; [congruence | now apply free_of_decimal].
Qed.

(** A bare pointer is a pointer block for its id. *)
Lemma block_of_pointer (id : N) :
  exists info,
    SerializedBlockInfo.new (str "#" ++ decimal id) = Ok info
    /\ SerializedBlockInfo.reference info = Some (SerializedBlockInfo.get_, id).
Proof.
  set (text := str "#" ++ decimal id).
  assert (Hkey : SerializedBlockInfo.removeKeyBrackets text = text).
  { unfold SerializedBlockInfo.removeKeyBrackets. change Tok.KEY_INDEX_S with [91%N].
    rewrite indexOf_free by (apply pointer_text_free; [reflexivity | discriminate]).
    reflexivity. }
  unfold SerializedBlockInfo.new, SerializedBlockInfo.extractReference.
  rewrite Hkey. change (indexOf text Tok.REFERENCE_POINTER) with 0.
  cbn [Z.eqb INDEX_START negb andb]. subst text.
  rewrite reference_digits_pointer, numberOfDigits_decimal.
  change (SerializedBlockInfo.extractDescriptorInfo (str "#" ++ decimal id))
    with (@Ok (option Z) None).
  cbn [outcome_bind]. eexists. split; reflexivity.
Qed.

(** A bare pointer given to a new deserializer is rejected, whatever
    its id. *)
Lemma bare_pointer_rejected (host : Host) (id : N) (config : configuration)
      (provided : list constructor) :
  fst (Deserializer.deserialize host (str "#" ++ decimal id) provided
         (Deserializer.fresh config))
  = Throw reference_missing.
Proof.
  destruct (block_of_pointer id) as (info & Hinfo & Href).
  unfold Deserializer.deserialize, Deserializer.deserialize_with, bind.
  rewrite setupDependencies_none
    by (apply pointer_text_free; [reflexivity | discriminate]).
  apply deserialize_unbound_pointer. exists info, id. repeat split; assumption.
Qed.

(** ** Bindings kept between calls *)

(** C6 (the code departs from the claim). A deserializer never
    clears its reference table: a bare pointer [#<id>] given to
    [deserialize] resolves through whatever binding of [id] the
    instance holds when the call starts, such as one left by an
    earlier call. *)
Theorem pointer_resolves_through_kept_binding (host : Host) (id : N) (v : jsvalue)
        (provided : list constructor) (m : Deserializer.machine) :
  Deserializer.references (Deserializer.this m) !! id = Some v ->
  fst (Deserializer.deserialize host (str "#" ++ decimal id) provided m) = Ok v.
Proof.
  intros Hbound. destruct (block_of_pointer id) as (info & Hinfo & Href).
  pose proof (pointer_not_singleton _ info id Hinfo Href) as Hsingle.
  unfold Deserializer.deserialize, Deserializer.deserialize_with, bind.
  rewrite setupDependencies_none
    by (apply pointer_text_free; [reflexivity | discriminate]).
  cbn [Deserializer.deserialize_ length]. unfold Deserializer.deserialize_body.
  unfold bind at 1. cbn [Deserializer.tick modify].
  unfold bind at 1. unfold lift at 1. rewrite Hinfo. rewrite Hsingle, Href.
  cbn [negb andb]. unfold bind at 1. cbn [ret].
  unfold Deserializer.getReference, bind, get.
  cbn [Deserializer.this Deserializer.references]. rewrite Hbound. reflexivity.
Qed.

(** The statement after [deserialize("@0=1|a")] on a new
    deserializer: the second call, on the bare pointer [#0], returns
    ["a"]. *)
Lemma pointer_resolves_through_kept_binding_witness :
  let first := Deserializer.deserialize bitpattern_host (str "@0=1|a") []
                 (Deserializer.fresh DEFAULT_SHARED_CONFIGURATION) in
  fst first = Ok (VString (str "a"))
  /\ fst (Deserializer.deserialize bitpattern_host (str "#0") [] (snd first))
     = Ok (VString (str "a")).
Proof.
  intros first. split; [reflexivity |].
  apply (pointer_resolves_through_kept_binding bitpattern_host 0 (VString (str "a")) []
           (snd first)).
  reflexivity.
Defined.

(** On a new deserializer the same pointer is rejected. *)
Example new_deserializer_rejects_pointer :
  fst (Deserializer.deserialize bitpattern_host (str "#0") []
         (Deserializer.fresh DEFAULT_SHARED_CONFIGURATION))
  = Throw reference_missing.
Proof. exact (bare_pointer_rejected bitpattern_host 0 DEFAULT_SHARED_CONFIGURATION []). Qed.

(** C8 (the code departs from the claim). The text
    [3|{[1|k]%28:#0}] holds the pointer [#0] and no declaration.  A
    new deserializer throws the decode error of [getReference] on
    it; the deserializer that has decoded [@0=1|a] before returns,
    on the same text, an object whose property [k] holds ["a"]: its
    reference table still holds the binding of the earlier call. *)
Theorem undeclared_pointer_resolved_after_earlier_call (host : Host) :
  let text := str "3|{[1|k]%28:#0}" in
  let first := Deserializer.deserialize host (str "@0=1|a") []
                 (Deserializer.fresh DEFAULT_SHARED_CONFIGURATION) in
  let second := Deserializer.deserialize host text [] (snd first) in
  pointers text = [str "#0"]
  /\ declarations text = []
  /\ fst (Deserializer.deserialize host text []
            (Deserializer.fresh DEFAULT_SHARED_CONFIGURATION)) = Throw reference_missing
  /\ fst first = Ok (VString (str "a"))
  /\ fst second = Ok (VObject 0)
  /\ Deserializer.memory (snd second)
     = [{| proto := Some (Shorthand ObjectC); internal := Ordinary;
           properties := [plain_property "k" (VString (str "a"))];
           extensible := true |}].
Proof. cbv zeta. repeat split; vm_compute; reflexivity. Qed.
(* ------------------------------------------------------------------ *)
(** * Further properties of the code *)

(** ** The text of the recursive pass as tokens *)

Local Open Scope nat_scope.

Lemma tokens_text_app (a b : list token) :
  tokens_text (a ++ b) = tokens_text a ++ tokens_text b.
Proof. apply flat_map_app. Qed.

Lemma tokens_text_plain (s : jsstring) : tokens_text (map Plain s) = s.
Proof. induction s as [| c s IH]; [reflexivity |]. cbn. now f_equal. Qed.

Lemma declared_plain (s : jsstring) : declared (map Plain s) = [].
Proof. now induction s. Qed.

Lemma pointed_plain (s : jsstring) : pointed (map Plain s) = [].
Proof. now induction s. Qed.

Lemma pointed_app (a b : list token) : pointed (a ++ b) = pointed a ++ pointed b.
Proof. apply flat_map_app. Qed.

Lemma plain_tokens (s : jsstring) : plain_text s -> Forall plain_token (map Plain s).
Proof.
  intros [Hat Hhash]. induction s as [| c s IH]; [constructor |].
  apply free_of_cons in Hat as [Hc1 Hat]. apply free_of_cons in Hhash as [Hc2 Hhash].
  constructor; [split; assumption | auto].
Qed.

Lemma plain_text_nil : plain_text [].
Proof. split; intros []. Qed.

Lemma plain_text_cons (c : N) (s : jsstring) :
  c <> 64%N -> c <> 35%N -> plain_text s -> plain_text (c :: s).
Proof. intros Hat Hhash [H1 H2]. split; apply free_of_cons; split; assumption. Qed.

Lemma plain_text_app (s t : jsstring) : plain_text s -> plain_text t -> plain_text (s ++ t).
Proof. unfold plain_text. rewrite !free_of_app. tauto. Qed.

Lemma plain_text_decimal (n : N) : plain_text (decimal n).
Proof. split; apply free_of_decimal; reflexivity. Qed.

Lemma plain_text_escape (s : jsstring) : plain_text (Serializer.escape s).
Proof.
  induction s as [| c s IH]; [apply plain_text_nil |].
  rewrite escape_cons. apply plain_text_app; [| exact IH].
  destruct (reserved_dec c) as [Hin | Hout].
  - apply plain_text_cons; [discriminate.. |].
    apply plain_text_app; [apply plain_text_decimal |].
    apply plain_text_cons; [discriminate.. | apply plain_text_nil].
  - apply plain_text_cons; [| | apply plain_text_nil]; intros ->; apply Hout; cbv; tauto.
Qed.

Lemma pointers_end_plain (s : jsstring) (rest : list token) :
  pointers_end rest -> pointers_end (map Plain s ++ rest).
Proof. intros H. induction s as [| c s IH]; [exact H | exact IH]. Qed.

Lemma pointers_end_app (a b : list token) :
  pointers_end a -> pointers_end b -> pointers_end (a ++ b).
Proof.
  intros Ha Hb. induction a as [| t a IH]; [exact Hb |].
  destruct t as [i | i | c]; cbn [app pointers_end] in Ha |- *; auto.
  destruct Ha as [Hnext Ha]. destruct a as [| [j | j | c] a]; try contradiction.
  split; [exact Hnext | auto].
Qed.

Lemma open_ended_nil : open_ended [].
Proof. intros c rest _ H. exact H. Qed.

Lemma open_ended_pointer (id : nat) : open_ended [Pointer id].
Proof. intros c rest Hc H. cbn [app pointers_end]. auto. Qed.

Lemma open_ended_closed (ts : list token) : pointers_end ts -> open_ended ts.
Proof. intros H c rest _ Hrest. now apply pointers_end_app. Qed.

Lemma open_ended_text (s : jsstring) (ts : list token) :
  open_ended ts -> open_ended (map Plain s ++ ts).
Proof.
  intros H c rest Hc Hrest. rewrite <- app_assoc. apply pointers_end_plain. now apply H.
Qed.

Lemma open_ended_declaration (id : nat) (ts : list token) :
  open_ended ts -> open_ended (Declaration id :: ts).
Proof. intros H c rest Hc Hrest. cbn [app pointers_end]. now apply H. Qed.

Lemma open_ended_app (a b : list token) (c : N) :
  is_digit c = false -> open_ended a -> open_ended (Plain c :: b) ->
  open_ended (a ++ Plain c :: b).
Proof.
  intros Hc Ha Hb c' rest Hc' Hrest. rewrite <- app_assoc. cbn [app].
  apply Ha; [exact Hc |]. exact (Hb c' rest Hc' Hrest).
Qed.

(** *** Stretches of text *)

Lemma emits_nil (n : nat) : emits n n [].
Proof.
  split; [lia | constructor | now rewrite Nat.sub_diag | constructor | apply open_ended_nil].
Qed.

(** Text without ['@'] and ['#'] in front of a stretch. *)
Lemma emits_text (s : jsstring) (from to : nat) (ts : list token) :
  plain_text s -> emits from to ts -> emits from to (map Plain s ++ ts).
Proof.
  intros Hs [Hle Hplain Hdecl Hpointed Hopen]. split.
  - exact Hle.
  - apply Forall_app. split; [now apply plain_tokens | exact Hplain].
  - now rewrite declared_app, declared_plain.
  - now rewrite pointed_app, pointed_plain.
  - now apply open_ended_text.
Qed.

(** Two stretches, the second of which starts with a character that
    is not a digit. *)
Lemma emits_app (n1 n2 n3 : nat) (a b : list token) (c : N) :
  is_digit c = false -> emits n1 n2 a -> emits n2 n3 (Plain c :: b) ->
  emits n1 n3 (a ++ Plain c :: b).
Proof.
  intros Hc [Hle1 Hplain1 Hdecl1 Hpointed1 Hopen1] [Hle2 Hplain2 Hdecl2 Hpointed2 Hopen2]. split.
  - lia.
  - apply Forall_app. split; assumption.
  - rewrite declared_app, Hdecl1, Hdecl2.
    replace (n3 - n1) with ((n2 - n1) + (n3 - n2)) by lia.
    rewrite seq_app. do 2 f_equal. lia.
  - rewrite pointed_app. apply Forall_app. split; [| exact Hpointed2].
    eapply List.Forall_impl; [| exact Hpointed1]. cbn. intros i Hi. lia.
  - now apply open_ended_app.
Qed.

Lemma emits_text_only (s : jsstring) (n : nat) : plain_text s -> emits n n (map Plain s).
Proof. intros Hs. rewrite <- (app_nil_r (map Plain s)). apply emits_text, emits_nil. exact Hs. Qed.

(** *** The calls of the recursive pass *)

Lemma bind_returns {S A B} (m : M S A) (k : A -> M S B) (s s' : S) (b : B) :
  bind m k s = (Ok b, s') -> exists a s1, m s = (Ok a, s1) /\ k a s1 = (Ok b, s').
Proof.
  unfold bind. destruct (m s) as [[a | e | | w] s1]; intros H; try discriminate. eauto.
Qed.

Lemma lift_returns {S A} (o : outcome A) (s s' : S) (a : A) :
  lift o s = (Ok a, s') -> o = Ok a /\ s' = s.
Proof. unfold lift. intros [= -> ->]. auto. Qed.

Lemma plain_text_shorthand (n : native) : plain_text (Serializer.shorthand_of n).
Proof.
  destruct n; repeat (apply plain_text_cons; [discriminate.. |]); apply plain_text_nil.
Qed.

Lemma shorthandConstructor_writes (c : constructor) (st st' : Serializer.state) (tag : jsstring) :
  steady st -> Serializer.shorthandConstructor c st = (Ok tag, st') ->
  steady st' /\ ids st' = ids st /\ plain_text tag.
Proof.
  intros [Hfun Htable]. destruct c as [n | c]; cbn [Serializer.shorthandConstructor].
  - intros [= <- <-].
    split; [split; assumption | split; [reflexivity | apply plain_text_shorthand]].
  - unfold bind, get, put, ret.
    destruct (Serializer.index_of _ _ _) as [custom |]; intros [= <- <-];
      (split; [split; assumption | split; [reflexivity |]]);
      (apply plain_text_cons; [discriminate.. | apply plain_text_decimal]).
Qed.

Lemma tick_steady (st st' : Serializer.state) (u : unit) :
  steady st -> Serializer.tick st = (Ok u, st') -> steady st' /\ ids st' = ids st.
Proof.
  intros [Hfun Htable]. unfold Serializer.tick, modify. intros [= _ <-].
  split; [split; [exact Hfun | exact Htable] | reflexivity].
Qed.

Lemma map_get_in (value : jsvalue) (table : list (jsvalue * N)) (id : N) :
  Serializer.map_get value table = Some id -> exists k, In (k, id) table.
Proof.
  induction table as [| [k i] table IH]; [discriminate |]. cbn [Serializer.map_get].
  destruct (sameValueZero k value).
  - intros [= ->]. exists k. now left.
  - intros H. destruct (IH H) as [k' Hk']. exists k'. now right.
Qed.

Lemma plain_text_number (host : Host) (number : jsnumber) :
  plain_numbers host -> plain_text (Serializer.serializeNumber host number).
Proof.
  intros Hhost. unfold Serializer.serializeNumber.
  assert (Hsign : forall b : bool, plain_text (if b then EMPTY else str "-")).
  { intros []; [apply plain_text_nil |].
    apply plain_text_cons; [discriminate.. | apply plain_text_nil]. }
  destruct number; try (apply plain_text_app; [apply Hsign | apply Hhost]).
  repeat (apply plain_text_cons; [discriminate.. |]). apply plain_text_nil.
Qed.

Lemma plain_text_bigint (bigint : Z) : plain_text (Serializer.serializeBigint bigint).
Proof.
  unfold Serializer.serializeBigint. destruct (bigint <? 0)%Z; [| apply plain_text_decimal].
  apply plain_text_cons; [discriminate.. | apply plain_text_decimal].
Qed.

Lemma plain_text_boolean (boolean : bool) : plain_text (Serializer.serializeBoolean boolean).
Proof.
  destruct boolean; (apply plain_text_cons; [discriminate.. | apply plain_text_nil]).
Qed.

Section Pass.

Context (host : Host) (h : heap).
Hypothesis host_plain : plain_numbers host.

Section Calls.

Context (serialize_ : jsvalue -> M Serializer.state jsstring).
Hypothesis serialize_marks :
  forall value st text st',
    steady st -> serialize_ value st = (Ok text, st') -> marks st text st'.

Lemma serializeObjectKeyIndex_writes (obj : jsobject) (key : jsvalue)
      (st st' : Serializer.state) (sk : jsstring) :
  steady st -> Serializer.serializeObjectKeyIndex serialize_ obj key st = (Ok sk, st') ->
  steady st' /\
  exists ts, sk = tokens_text (Plain 91 :: ts) /\ emits (ids st) (ids st') (Plain 91 :: ts).
Proof.
  intros Hst. unfold Serializer.serializeObjectKeyIndex. intros H.
  apply bind_returns in H as (text & st1 & Hkey & H).
  apply bind_returns in H as (flags & st2 & Hflags & H).
  apply lift_returns in Hflags as [_ ->]. injection H as <- <-.
  destruct (serialize_marks key st text st1 Hst Hkey) as (Hst1 & ts & -> & Hemits & _).
  split; [exact Hst1 |].
  exists (ts ++ Plain 93 :: map Plain (Tok.PROPERTY_ACCESSABILITY
                                        ++ decimal (Z.to_N (Bitflag.int flags)))).
  split.
  - change (Tok.KEY_INDEX_S ++ tokens_text ts ++ Tok.KEY_INDEX_E)
      with (91%N :: tokens_text ts ++ [93%N]).
    rewrite tokens_text_cons, tokens_text_app, tokens_text_cons, tokens_text_plain.
    cbn [token_text app]. now rewrite <- app_assoc.
  - apply (emits_text [91%N]);
      [apply plain_text_cons; [discriminate.. | apply plain_text_nil] |].
    apply (emits_app _ (ids st1)); [reflexivity | exact Hemits |].
    apply (emits_text_only (93%N :: Tok.PROPERTY_ACCESSABILITY
                              ++ decimal (Z.to_N (Bitflag.int flags)))).
    repeat (apply plain_text_cons; [discriminate.. |]). apply plain_text_decimal.
Qed.

Lemma reduce_entries_writes (object : jsobject) (es : list (jsvalue * jsvalue)) :
  forall (index : Z) (ts : list token) (from : nat) (st st' : Serializer.state)
         (serialized : jsstring),
    steady st -> emits from (ids st) ts ->
    Serializer.reduce_entries serialize_ object es index (tokens_text ts) st
    = (Ok serialized, st') ->
    steady st' /\ exists ts', serialized = tokens_text ts' /\ emits from (ids st') ts'.
Proof.
  induction es as [| [key val] es IH]; intros index ts from st st' serialized Hst Hts;
    cbn [Serializer.reduce_entries].
  - intros [= <- <-]. eauto.
  - intros H. apply bind_returns in H as (sk & st1 & Hkey & H).
    apply bind_returns in H as (sv & st2 & Hval & H).
    destruct (serializeObjectKeyIndex_writes object key st st1 sk Hst Hkey)
      as (Hst1 & tk & -> & Hk).
    destruct (serialize_marks val st1 sv st2 Hst1 Hval) as (Hst2 & tv & -> & Hv & _).
    assert (Hentry : emits (ids st) (ids st2)
                       (Plain 91 :: tk ++ Plain 58 :: tv)).
    { apply (emits_app _ (ids st1) _ (Plain 91 :: tk)); [reflexivity | exact Hk |].
      apply (emits_text [58%N]); [| exact Hv].
      apply plain_text_cons; [discriminate.. | apply plain_text_nil]. }
    set (seperator := if negb (index =? INDEX_START)%Z then Tok.ENTRY_SEPERATOR else EMPTY) in H.
    assert (Hnew : exists c rest,
               is_digit c = false /\
               emits (ids st) (ids st2) (Plain c :: rest) /\
               seperator ++ tokens_text (Plain 91 :: tk) ++ Tok.KEY_VALUE_SEPERATOR
                 ++ tokens_text tv
               = tokens_text (Plain c :: rest)).
    { assert (Htext : tokens_text (Plain 91 :: tk) ++ Tok.KEY_VALUE_SEPERATOR ++ tokens_text tv
                      = tokens_text (Plain 91 :: tk ++ Plain 58 :: tv)).
      { rewrite !tokens_text_cons, tokens_text_app, tokens_text_cons.
        cbn [token_text app]. reflexivity. }
      subst seperator. destruct (negb _).
      - exists 44%N, (Plain 91 :: tk ++ Plain 58 :: tv). split; [reflexivity |]. split.
        + apply (emits_text [44%N]); [| exact Hentry].
          apply plain_text_cons; [discriminate.. | apply plain_text_nil].
        + rewrite Htext. reflexivity.
      - exists 91%N, (tk ++ Plain 58 :: tv). split; [reflexivity |]. split.
        + exact Hentry.
        + exact Htext. }
    destruct Hnew as (c & rest & Hc & Hrest & Htext).
    rewrite Htext, <- tokens_text_app in H.
    apply (IH _ _ from _ _ _ Hst2) in H; [exact H |].
    now apply (emits_app _ (ids st)).
Qed.

Lemma serializeObject_writes (object : jsobject) (st st' : Serializer.state)
      (serialized : jsstring) :
  steady st -> Serializer.serializeObject serialize_ object st = (Ok serialized, st') ->
  steady st' /\
  exists ts, serialized = tokens_text ts /\ emits (ids st) (ids st') ts /\ pointers_end ts.
Proof.
  intros Hst. unfold Serializer.serializeObject. intros H.
  apply bind_returns in H as (es & st1 & Hes & H). apply lift_returns in Hes as [_ ->].
  apply bind_returns in H as (inner & st2 & Hinner & H). injection H as <- <-.
  change EMPTY with (tokens_text []) in Hinner.
  apply (reduce_entries_writes _ _ _ _ (ids st)) in Hinner as (Hst2 & ts & -> & Hts);
    [| exact Hst | apply emits_nil].
  split; [exact Hst2 |]. exists (Plain 123 :: ts ++ [Plain 125]). split; [| split].
  - rewrite tokens_text_cons, tokens_text_app. reflexivity.
  - apply (emits_text [123%N]);
      [apply plain_text_cons; [discriminate.. | apply plain_text_nil] |].
    apply (emits_app _ (ids st2)); [reflexivity | exact Hts |].
    apply (emits_text_only [125%N]).
    apply plain_text_cons; [discriminate.. | apply plain_text_nil].
  - cbn [pointers_end]. apply (emits_open _ _ _ Hts); [reflexivity | exact I].
Qed.

(** The text behind a declaration: the type, and then a payload
    without ['@'] and ['#'] or the entries of an object. *)
Lemma serialize_body_writes (value : jsvalue) (st st' : Serializer.state) (body : jsstring) :
  steady st -> Serializer.serialize_body host h serialize_ value st = (Ok body, st') ->
  steady st' /\
  exists ts, body = tokens_text ts /\ emits (ids st) (ids st') ts /\ pointers_end ts.
Proof.
  intros Hst. unfold Serializer.serialize_body. intros H.
  apply bind_returns in H as (u & st1 & Htick & H).
  apply (tick_steady _ _ _ Hst) in Htick as [Hst1 <-].
  assert (Htext : forall s, plain_text s ->
            exists ts, s = tokens_text ts /\ emits (ids st1) (ids st1) ts /\ pointers_end ts).
  { intros s Hs. exists (map Plain s). split; [now rewrite tokens_text_plain |]. split.
    - now apply emits_text_only.
    - rewrite <- (app_nil_r (map Plain s)). now apply pointers_end_plain. }
  assert (Hshort : forall s, plain_text (s ++ Tok.TYPE_SEPERATOR) <-> plain_text s).
  { intros s. split.
    - unfold plain_text. rewrite !free_of_app. tauto.
    - intros Hs. apply plain_text_app; [exact Hs |].
      apply plain_text_cons; [discriminate.. | apply plain_text_nil]. }
  destruct value as [| | b | n | s | i | s | a].
  - injection H as <- <-. split; [exact Hst1 |]. apply Htext.
    repeat (apply plain_text_cons; [discriminate.. |]). apply plain_text_nil.
  - injection H as <- <-. split; [exact Hst1 |]. apply Htext.
    repeat (apply plain_text_cons; [discriminate.. |]). apply plain_text_nil.
  - apply bind_returns in H as (ctor & st2 & Hctor & H). apply lift_returns in Hctor as [_ ->].
    apply bind_returns in H as (tag & st2 & Htag & H).
    apply (shorthandConstructor_writes _ _ _ _ Hst1) in Htag as (Hst2 & Hids & Htag).
    injection H as <- <-. split; [exact Hst2 |]. rewrite Hids. apply Htext.
    apply plain_text_app; [now apply Hshort | apply plain_text_boolean].
  - apply bind_returns in H as (ctor & st2 & Hctor & H). apply lift_returns in Hctor as [_ ->].
    apply bind_returns in H as (tag & st2 & Htag & H).
    apply (shorthandConstructor_writes _ _ _ _ Hst1) in Htag as (Hst2 & Hids & Htag).
    injection H as <- <-. split; [exact Hst2 |]. rewrite Hids. apply Htext.
    apply plain_text_app; [now apply Hshort | now apply plain_text_number].
  - apply bind_returns in H as (ctor & st2 & Hctor & H). apply lift_returns in Hctor as [_ ->].
    apply bind_returns in H as (tag & st2 & Htag & H).
    apply (shorthandConstructor_writes _ _ _ _ Hst1) in Htag as (Hst2 & Hids & Htag).
    injection H as <- <-. split; [exact Hst2 |]. rewrite Hids. apply Htext.
    apply plain_text_app; [now apply Hshort | apply plain_text_escape].
  - apply bind_returns in H as (ctor & st2 & Hctor & H). apply lift_returns in Hctor as [_ ->].
    apply bind_returns in H as (tag & st2 & Htag & H).
    apply (shorthandConstructor_writes _ _ _ _ Hst1) in Htag as (Hst2 & Hids & Htag).
    injection H as <- <-. split; [exact Hst2 |]. rewrite Hids. apply Htext.
    apply plain_text_app; [now apply Hshort | apply plain_text_bigint].
  - apply bind_returns in H as (ctor & st2 & Hctor & H). apply lift_returns in Hctor as [_ ->].
    apply bind_returns in H as (tag & st2 & Htag & H).
    apply (shorthandConstructor_writes _ _ _ _ Hst1) in Htag as (Hst2 & Hids & Htag).
    apply bind_returns in H as (t & st3 & Hsym & H). apply lift_returns in Hsym as [Hsym ->].
    injection H as <- <-. split; [exact Hst2 |]. rewrite Hids. apply Htext.
    apply plain_text_app; [now apply Hshort |].
    destruct s; [| discriminate]. injection Hsym as <-. apply plain_text_decimal.
  - apply bind_returns in H as (ctor & st2 & Hctor & H). apply lift_returns in Hctor as [_ ->].
    apply bind_returns in H as (tag & st2 & Htag & H).
    apply (shorthandConstructor_writes _ _ _ _ Hst1) in Htag as (Hst2 & Hids & Htag).
    destruct (h !! a) as [o |]; [| apply lift_returns in H as [[=] _]].
    destruct (instanceOf o DateC).
    + apply bind_returns in H as (t & st3 & Hdate & H). apply lift_returns in Hdate as [Hdate ->].
      injection H as <- <-. split; [exact Hst2 |]. rewrite Hids. apply Htext.
      apply plain_text_app; [now apply Hshort |].
      unfold Serializer.serializeDate in Hdate. destruct (_ || _); [discriminate |].
      destruct (internal o); try discriminate. injection Hdate as <-. apply plain_text_escape.
    + destruct (Serializer.is_callable o).
      * apply bind_returns in H as (t & st3 & Hfun & H).
        unfold Serializer.serializeFunction, bind, get in Hfun.
        rewrite (steady_functions _ Hst2) in Hfun. discriminate.
      * apply bind_returns in H as (t & st3 & Hobj & H). injection H as <- <-.
        apply (serializeObject_writes _ _ _ _ Hst2) in Hobj as (Hst3 & ts & -> & Hts & Hend).
        split; [exact Hst3 |]. exists (map Plain (tag ++ Tok.TYPE_SEPERATOR) ++ ts).
        split; [now rewrite tokens_text_app, tokens_text_plain |]. split.
        -- rewrite <- Hids. apply emits_text; [now apply Hshort | exact Hts].
        -- now apply pointers_end_plain.
Qed.

End Calls.

(** [mark]: a pointer to an id of the table, or a declaration of the
    id at the counter in front of what the callback returns. *)
Lemma mark_marks (value : jsvalue) (serialize : M Serializer.state jsstring)
      (st st' : Serializer.state) (text : jsstring) :
  (forall st1 st2 body,
      steady st1 -> serialize st1 = (Ok body, st2) ->
      steady st2 /\
      exists ts, body = tokens_text ts /\ emits (ids st1) (ids st2) ts /\ pointers_end ts) ->
  steady st -> Serializer.mark value serialize st = (Ok text, st') -> marks st text st'.
Proof.
  intros Hbody Hst. unfold Serializer.mark, bind, get, put, ret.
  destruct (Serializer.map_get value (Serializer.reference_value_map st)) as [id |] eqn:Eid.
  - intros [= <- <-]. destruct Hst as [Hfun Htable]. split; [split; assumption |].
    apply map_get_in in Eid as [k Hin].
    rewrite List.Forall_forall in Htable. specialize (Htable _ Hin). cbn [snd] in Htable.
    exists [Pointer (N.to_nat id)]. split; [| split].
    + rewrite tokens_text_single. cbn [token_text]. unfold pointer_text. now rewrite N2Nat.id.
    + split; [reflexivity | repeat constructor | now rewrite Nat.sub_diag | |
              apply open_ended_pointer].
      repeat constructor. unfold ids. cbn. lia.
    + left. eauto.
  - set (st1 := {| Serializer.config := Serializer.config st;
                   Serializer.ticks := Serializer.ticks st;
                   Serializer.reference_ids := (Serializer.reference_ids st + 1)%N;
                   Serializer.reference_value_map :=
                     if negb (is_zero value)
                     then Serializer.reference_value_map st ++ [(value, Serializer.reference_ids st)]
                     else Serializer.reference_value_map st;
                   Serializer.reference_usage := Serializer.reference_usage st;
                   Serializer.custom_constructors := Serializer.custom_constructors st |}).
    assert (Hst1 : steady st1).
    { destruct Hst as [Hfun Htable]. split; [exact Hfun |]. cbn.
      assert (Hold : Forall (fun entry => (snd entry < Serializer.reference_ids st + 1)%N)
                       (Serializer.reference_value_map st)).
      { eapply List.Forall_impl; [| exact Htable]. cbn. intros entry Hentry. lia. }
      destruct (negb (is_zero value)); [| exact Hold].
      apply Forall_app. split; [exact Hold |]. repeat constructor. cbn. lia. }
    destruct (serialize st1) as [[body | e | | w] st2] eqn:Ebody; try discriminate.
    intros [= <- <-].
    destruct (Hbody st1 st2 body Hst1 Ebody) as (Hst2 & ts & -> & [Hle Hplain Hdecl Hpointed Hopen] & Hend).
    assert (Hids : ids st1 = S (ids st)) by (unfold ids; cbn; lia).
    rewrite Hids in *.
    split; [exact Hst2 |]. exists (Declaration (ids st) :: ts). split; [| split].
    + rewrite tokens_text_cons. cbn [token_text]. unfold declaration_text, ids.
      rewrite N2Nat.id, <- !app_assoc. reflexivity.
    + split.
      * lia.
      * constructor; [exact I | exact Hplain].
      * rewrite declared_cons, Hdecl.
        replace (ids st2 - ids st) with (S (ids st2 - S (ids st))) by lia. reflexivity.
      * rewrite pointed_cons. exact Hpointed.
      * now apply open_ended_declaration.
    + right. exact Hend.
Qed.

(** Every call of [#serialize] that returns. *)
Lemma serialize__marks (fuel : nat) (value : jsvalue) (st st' : Serializer.state)
      (text : jsstring) :
  steady st -> Serializer.serialize_ host h fuel value st = (Ok text, st') ->
  marks st text st'.
Proof.
  revert value st st' text. induction fuel as [| fuel IH]; intros value st st' text Hst;
    cbn [Serializer.serialize_].
  - discriminate.
  - apply mark_marks; [| exact Hst]. intros st1 st2 body Hst1.
    apply (serialize_body_writes (Serializer.serialize_ host h fuel)); [| exact Hst1].
    intros v s t s'. apply IH.
Qed.

End Pass.

Local Close Scope nat_scope.

(** ** The clean-up pass *)

Local Open Scope nat_scope.

Lemma rank_all (ts : list token) (k i : nat) :
  (forall j, j < k -> referenced ts j = true) -> i <= k -> rank ts i = i.
Proof.
  intros Hall. induction i as [| i IH]; [reflexivity |]. intros Hi.
  rewrite rank_S, IH, Hall by lia. lia.
Qed.

(** A text whose declarations all have a pointer is its own
    renumbering. *)
Lemma renumber_compact (k : nat) (ts : list token) :
  well_formed k ts -> (forall j, j < k -> referenced ts j = true) -> renumber ts = ts.
Proof.
  intros [Hdecl Hpointed _ _] Hall. unfold renumber, renumber_below.
  rewrite Hdecl, length_seq.
  transitivity (flat_map (fun t => [t]) ts).
  - apply flat_map_ext_in. intros [i | i | c] Hin; cbn [renumber_token].
    + apply declared_in in Hin. rewrite Hdecl in Hin. apply in_seq in Hin.
      replace (i <? k) with true by (symmetry; apply Nat.ltb_lt; lia).
      rewrite Hall by lia. now rewrite (rank_all ts k) by (assumption || lia).
    + apply pointed_in in Hin. rewrite List.Forall_forall in Hpointed.
      specialize (Hpointed _ Hin). cbn in Hpointed.
      replace (i <? k) with true by (symmetry; apply Nat.ltb_lt; lia).
      now rewrite (rank_all ts k) by (assumption || lia).
    + reflexivity.
  - clear. induction ts as [| t ts IH]; [reflexivity |]. cbn [flat_map app]. now f_equal.
Qed.

Lemma referenced_in (ts : list token) (id : nat) :
  referenced ts id = true <-> In id (pointed ts).
Proof.
  unfold referenced. rewrite existsb_exists. split.
  - intros (j & Hj & E). apply Nat.eqb_eq in E. now subst.
  - intros H. exists id. split; [exact H | apply Nat.eqb_refl].
Qed.

Lemma renumber_pointed_ranks (n : nat) (ts : list token) :
  well_formed n ts -> pointed (renumber ts) = map (rank ts) (pointed ts).
Proof.
  intros [Hdecl Hpointed _ _]. unfold renumber, renumber_below.
  rewrite Hdecl, length_seq, renumber_pointed.
  apply map_ext_in. intros i Hi. rewrite List.Forall_forall in Hpointed.
  specialize (Hpointed _ Hi). cbn in Hpointed.
  now replace (i <? n) with true by (symmetry; apply Nat.ltb_lt; lia).
Qed.

Lemma renumber_declared_ranks (n : nat) (ts : list token) :
  well_formed n ts -> declared (renumber ts) = seq 0 (rank ts n).
Proof.
  intros [Hdecl _ _ _]. unfold renumber, renumber_below. rewrite Hdecl, length_seq.
  rewrite renumber_declared, Hdecl, ranks_of_referenced; [reflexivity |].
  rewrite Hdecl. apply List.Forall_forall. intros i Hi. apply in_seq in Hi. lia.
Qed.

(** The renumbered text is well formed, and each of its declarations
    has a pointer. *)
Lemma renumber_well_formed (n : nat) (ts : list token) :
  well_formed n ts ->
  well_formed (rank ts n) (renumber ts)
  /\ forall k, k < rank ts n -> referenced (renumber ts) k = true.
Proof.
  intros Hwf. pose proof (renumber_pointed_ranks n ts Hwf) as Hp.
  pose proof (renumber_declared_ranks n ts Hwf) as Hd.
  destruct Hwf as [Hdecl Hpointed Hplain Hend]. split; [split |].
  - exact Hd.
  - rewrite Hp. apply List.Forall_forall. intros k Hk. apply in_map_iff in Hk as (i & <- & Hi).
    rewrite List.Forall_forall in Hpointed. specialize (Hpointed _ Hi). cbn in Hpointed.
    apply rank_lt; [exact Hpointed | now apply referenced_in].
  - now apply renumber_plain.
  - now apply renumber_end.
  - intros k Hk. destruct (rank_onto ts n k Hk) as (i & Hi & Href & <-).
    apply referenced_in. rewrite Hp. apply in_map. now apply referenced_in.
Qed.

(** X1. [clean] on a text made of declarations [@0=], [@1=], ... in
    this order, pointers to declared ids that are each followed by a
    character that is no digit, and characters other than ['@'] and
    ['#']: a declaration without a pointer is removed and what it
    declared stays in place, a declaration with pointers and these
    pointers take as new id the number of pointed-to declarations
    before it; the result is a text of the same kind. *)
Theorem clean_renumbers (n : nat) (ts : list token) :
  well_formed n ts ->
  Serializer.clean (tokens_text ts) = tokens_text (renumber ts)
  /\ well_formed (rank ts n) (renumber ts).
Proof.
  intros Hwf. split.
  - exact (clean_tokens n ts Hwf).
  - exact (proj1 (renumber_well_formed n ts Hwf)).
Qed.

(** The text [@0=2|{[1|a]@1=2|{[1|b]#1}}]: the declaration of the
    outer object goes, the inner one becomes [@0=] and its pointer
    [#0]. *)
Lemma nested_tokens_well_formed : well_formed 2 nested_tokens.
Proof.
  split.
  - reflexivity.
  - repeat constructor.
  - repeat (constructor; [cbn; try split; try exact I; discriminate |]). constructor.
  - cbn. intuition.
Defined.

Lemma clean_renumbers_witness :
  Serializer.clean (str "@0=2|{[1|a]@1=2|{[1|b]#1}}") = str "2|{[1|a]@0=2|{[1|b]#0}}".
Proof. exact (proj1 (clean_renumbers 2 nested_tokens nested_tokens_well_formed)). Defined.

(** X2. Reference compactness of [clean] on such a text: the
    declarations of the result are [@0=], ..., [@k-1=] in this order,
    and each of them has a pointer [#<id>] in the result. *)
Theorem clean_compacts (n : nat) (ts : list token) :
  well_formed n ts ->
  declarations (Serializer.clean (tokens_text ts))
  = map declaration_text (seq 0 (rank ts n))
  /\ Forall (fun id => In (pointer_text id) (pointers (Serializer.clean (tokens_text ts))))
       (seq 0 (rank ts n)).
Proof.
  intros Hwf. rewrite (clean_tokens n ts Hwf).
  destruct (renumber_well_formed n ts Hwf) as [[Hdecl Hpointed Hplain Hend] Hall]. split.
  - rewrite declarations_of_tokens by exact Hplain. now rewrite Hdecl.
  - rewrite pointers_of_tokens by assumption.
    apply List.Forall_forall. intros k Hk. apply in_seq in Hk.
    apply in_map, referenced_in, Hall. lia.
Qed.

Lemma clean_compacts_witness :
  declarations (Serializer.clean (str "@0=2|{[1|a]@1=2|{[1|b]#1}}")) = [str "@0="]
  /\ Forall (fun id => In (pointer_text id)
                         (pointers (Serializer.clean (str "@0=2|{[1|a]@1=2|{[1|b]#1}}"))))
       [0].
Proof. exact (clean_compacts 2 nested_tokens nested_tokens_well_formed). Defined.

(** X3. [clean] is idempotent on such a text: cleaning the cleaned
    text changes nothing. *)
Theorem clean_idempotent (n : nat) (ts : list token) :
  well_formed n ts ->
  Serializer.clean (Serializer.clean (tokens_text ts)) = Serializer.clean (tokens_text ts).
Proof.
  intros Hwf. rewrite (clean_tokens n ts Hwf).
  destruct (renumber_well_formed n ts Hwf) as [Hwf' Hall].
  rewrite (clean_tokens _ _ Hwf'). f_equal. exact (renumber_compact _ _ Hwf' Hall).
Qed.

Lemma clean_idempotent_witness :
  Serializer.clean (Serializer.clean (str "@0=2|{[1|a]@1=2|{[1|b]#1}}"))
  = Serializer.clean (str "@0=2|{[1|a]@1=2|{[1|b]#1}}").
Proof. exact (clean_idempotent 2 nested_tokens nested_tokens_well_formed). Defined.

(** The text of the recursive pass of an encoder that refuses
    functions is well formed. *)
Lemma recursive_pass_tokens (host : Host) (h : heap) (fuel : nat) (value : jsvalue)
      (config : configuration) (raw : jsstring) (st' : Serializer.state) :
  plain_numbers host -> Functions config = false ->
  Serializer.serialize_ host h fuel value (Serializer.new config) = (Ok raw, st') ->
  exists ts, raw = tokens_text ts /\ well_formed (ids st') ts.
Proof.
  intros Hhost Hfun Hraw.
  assert (Hnew : steady (Serializer.new config)) by (split; [exact Hfun | constructor]).
  destruct (serialize__marks host h Hhost fuel value _ _ _ Hnew Hraw)
    as (_ & ts & -> & [Hle Hplain Hdecl Hpointed Hopen] & Hend).
  exists ts. split; [reflexivity |].
  change (ids (Serializer.new config)) with 0 in Hdecl. rewrite Nat.sub_0_r in Hdecl.
  split; try assumption.
  destruct Hend as [[id ->] | Hend]; [| exact Hend].
  cbn in Hdecl. destruct (ids st'); [| discriminate].
  apply Forall_inv in Hpointed. lia.
Qed.

(** X4. Reference compactness of the encoder without function
    support (the default): when the host writes numbers without
    ['@'] and ['#'], whatever the recursive pass [#serialize] returns
    on a new encoder is turned by [clean] into a text whose
    declarations are [@0=], ..., [@k-1=] in this order, each with a
    pointer [#<id>] in the text. *)
Theorem clean_compacts_recursive_pass (host : Host) (h : heap) (fuel : nat) (value : jsvalue)
        (config : configuration) (raw : jsstring) (st' : Serializer.state) :
  plain_numbers host -> Functions config = false ->
  Serializer.serialize_ host h fuel value (Serializer.new config) = (Ok raw, st') ->
  exists k,
    declarations (Serializer.clean raw) = map declaration_text (seq 0 k)
    /\ Forall (fun id => In (pointer_text id) (pointers (Serializer.clean raw))) (seq 0 k).
Proof.
  intros Hhost Hfun Hraw.
  destruct (recursive_pass_tokens host h fuel value config raw st' Hhost Hfun Hraw)
    as (ts & -> & Hwf).
  exists (rank ts (ids st')). rewrite (clean_tokens _ ts Hwf).
  destruct (renumber_well_formed _ ts Hwf) as [[Hdecl Hpointed Hplain Hend] Hall]. split.
  - rewrite declarations_of_tokens by exact Hplain. now rewrite Hdecl.
  - rewrite pointers_of_tokens by assumption.
    apply List.Forall_forall. intros k Hk. apply in_seq in Hk.
    apply in_map, referenced_in, Hall. lia.
Qed.

Local Close Scope nat_scope.

Lemma bitpattern_host_plain : plain_numbers bitpattern_host.
Proof.
  assert (Hsign : forall b : bool, plain_text (if b then str "-" else [])).
  { intros []; [| apply plain_text_nil].
    apply plain_text_cons; [discriminate.. | apply plain_text_nil]. }
  intros [| s | s | s bits]; cbn [Number_toString bitpattern_host].
  - repeat (apply plain_text_cons; [discriminate.. |]). apply plain_text_nil.
  - apply plain_text_app; [apply Hsign |].
    repeat (apply plain_text_cons; [discriminate.. |]). apply plain_text_nil.
  - apply plain_text_app; [apply Hsign |].
    repeat (apply plain_text_cons; [discriminate.. |]). apply plain_text_nil.
  - apply plain_text_app; [apply Hsign | apply plain_text_decimal].
Qed.


(** The statement at [x = {}; x.self = x] on the bit-pattern host:
    the recursive pass returns [@0=3|{[@1=1|self]%28:#0}]. *)
Lemma clean_compacts_recursive_pass_witness :
  exists k,
    declarations (Serializer.clean (str "@0=3|{[@1=1|self]%28:#0}"))
    = map declaration_text (seq 0 k)
    /\ Forall (fun id => In (pointer_text id)
                           (pointers (Serializer.clean (str "@0=3|{[@1=1|self]%28:#0}"))))
         (seq 0 k).
Proof.
  apply (clean_compacts_recursive_pass bitpattern_host self_heap 3 (VObject 0)
           DEFAULT_SHARED_CONFIGURATION (str "@0=3|{[@1=1|self]%28:#0}")
           (snd (Serializer.serialize_ bitpattern_host self_heap 3 (VObject 0)
                   (Serializer.new DEFAULT_SHARED_CONFIGURATION)))).
  - exact bitpattern_host_plain.
  - reflexivity.
  - vm_compute. reflexivity.
Defined.

(** ** Bitflag *)

Lemma toInt32_int32 (n : Z) : int32 (Bitflag.toInt32 n).
Proof.
  unfold int32, Bitflag.toInt32.
  pose proof (Z.mod_pos_bound (n + 2 ^ 31) (2 ^ 32) ltac:(lia)). lia.
Qed.

Lemma toInt32_id (n : Z) : int32 n -> Bitflag.toInt32 n = n.
Proof.
  unfold int32, Bitflag.toInt32. intros H. rewrite Z.mod_small by lia. lia.
Qed.

Lemma toInt32_mod (n : Z) : Bitflag.toInt32 n mod 2 ^ 32 = n mod 2 ^ 32.
Proof.
  unfold Bitflag.toInt32. rewrite Zminus_mod_idemp_l. f_equal. lia.
Qed.

(** The low 32 bits of [~~n] are those of [n]. *)
Lemma toInt32_testbit (n i : Z) :
  0 <= i < 32 -> Z.testbit (Bitflag.toInt32 n) i = Z.testbit n i.
Proof.
  intros Hi. rewrite <- (Z.mod_pow2_bits_low (Bitflag.toInt32 n) 32 i) by lia.
  rewrite toInt32_mod. apply Z.mod_pow2_bits_low. lia.
Qed.

Lemma toInt32_unique (n m : Z) :
  int32 m -> n mod 2 ^ 32 = m mod 2 ^ 32 -> Bitflag.toInt32 n = m.
Proof.
  intros Hm E. rewrite <- (toInt32_id m Hm). unfold Bitflag.toInt32.
  rewrite <- (Zplus_mod_idemp_l n), E, Zplus_mod_idemp_l. reflexivity.
Qed.

Lemma to32bit_facts (n m : Z) : Bitflag.to32bit n = Ok m -> m = n /\ int32 n.
Proof.
  unfold Bitflag.to32bit. destruct (_ || _); [discriminate |].
  destruct (Z.eqb_spec (Bitflag.toInt32 n) n) as [E | Hne]; [| discriminate].
  cbn [negb]. intros [= <-]. split; [exact E |]. rewrite <- E. apply toInt32_int32.
Qed.

Lemma to32bit_int32 (n : Z) : int32 n -> Bitflag.to32bit n = Ok n.
Proof.
  intros Hr. unfold Bitflag.to32bit, Bitflag.MAX_32INT, Bitflag.MIN_32INT.
  unfold int32 in Hr.
  destruct (Z.gtb_spec n (1 * 2 ^ 31)) as [Hgt | _]; [lia |].
  destruct (Z.ltb_spec n (-1 * 2 ^ 31)) as [Hlt | _]; [lia |]. cbn [orb].
  now rewrite toInt32_id, Z.eqb_refl.
Qed.

(** X5. [Bitflag.to32bit] returns its argument unchanged exactly on
    the integers from [-2^31] to [2^31 - 1] and throws on every other
    integer, [2^31] included although the first guard lets it pass. *)
Theorem to32bit_range (n : Z) :
  (Bitflag.to32bit n = Ok n <-> int32 n)
  /\ (forall m, Bitflag.to32bit n = Ok m -> m = n)
  /\ (~ int32 n -> exists e, Bitflag.to32bit n = Throw e).
Proof.
  unfold Bitflag.to32bit, Bitflag.MAX_32INT, Bitflag.MIN_32INT, int32.
  destruct (Z.gtb_spec n (1 * 2 ^ 31)) as [Hgt | Hle]; cbn [orb].
  - split; [split; [discriminate | lia] | split; [discriminate | eauto]].
  - destruct (Z.ltb_spec n (-1 * 2 ^ 31)) as [Hlt | Hge].
    + split; [split; [discriminate | lia] | split; [discriminate | eauto]].
    + destruct (Z.eqb_spec (Bitflag.toInt32 n) n) as [E | Hne]; cbn [negb].
      * rewrite E. pose proof (toInt32_int32 n) as Hr. rewrite E in Hr. unfold int32 in Hr.
        split; [split; [intros _; exact Hr | reflexivity] |].
        split; [now intros m [= <-] | tauto].
      * split; [split; [discriminate |] | split; [discriminate | eauto]].
        intros Hr. exfalso. apply Hne. now apply toInt32_id.
Qed.

Lemma ones_positive (p : positive) : (1 <= Bitflag.ones p)%nat.
Proof. induction p; cbn [Bitflag.ones]; lia. Qed.

Lemma ones_single (p : positive) :
  Bitflag.ones p = 1%nat -> exists k, 0 <= k /\ Z.pos p = 2 ^ k.
Proof.
  induction p as [p IH | p IH |]; cbn [Bitflag.ones].
  - pose proof (ones_positive p). lia.
  - intros H. destruct (IH H) as (k & Hk & E). exists (k + 1). split; [lia |].
    rewrite Z.pow_add_r by lia. lia.
  - intros _. exists 0. split; [lia | reflexivity].
Qed.

Lemma mapM_to32bit (values flags : list Z) :
  Bitflag.mapM Bitflag.to32bit values = Ok flags ->
  flags = values /\ Forall int32 values.
Proof.
  revert flags. induction values as [| v values IH]; intros flags; cbn [Bitflag.mapM].
  - intros [= <-]. split; [reflexivity | constructor].
  - destruct (Bitflag.to32bit v) as [m | e | | w] eqn:Ev; try discriminate.
    cbn [outcome_bind].
    destruct (Bitflag.mapM Bitflag.to32bit values) as [ms | e | | w]; try discriminate.
    cbn [outcome_bind]. intros [= <-]. destruct (IH ms eq_refl) as [-> Hall].
    destruct (to32bit_facts v m Ev) as [-> Hv]. split; [reflexivity | now constructor].
Qed.

Lemma check_flags_single (flags : list Z) (b : bool) :
  Bitflag.check_flags flags = Ok b ->
  b = true /\ Forall (fun flag => exists k, 0 <= k /\ flag = 2 ^ k) flags.
Proof.
  induction flags as [| flag flags IH]; cbn [Bitflag.check_flags].
  - intros [= <-]. split; [reflexivity | constructor].
  - destruct (Z.ltb_spec flag 0); [discriminate |].
    destruct (Z.eqb_spec flag 0); [discriminate |].
    destruct (Nat.eqb_spec (Bitflag.ones (Z.to_pos flag)) 1) as [E | _]; [| discriminate].
    cbn [negb]. intros Hrest. destruct (IH Hrest) as [-> Hall]. split; [reflexivity |].
    constructor; [| exact Hall].
    destruct (ones_single _ E) as (k & Hk & Ek). exists k. split; [exact Hk |].
    rewrite <- Ek. rewrite Z2Pos.id by lia. reflexivity.
Qed.



Lemma merge_from_testbit (flags : list Z) (a i : Z) :
  Z.testbit (fold_left (fun v f => Z.lor v f) flags a) i
  = Z.testbit a i || existsb (fun f => Z.testbit f i) flags.
Proof.
  revert a. induction flags as [| f flags IH]; intros a; cbn [fold_left existsb].
  - now rewrite orb_false_r.
  - rewrite IH, Z.lor_spec. now rewrite orb_assoc.
Qed.

Lemma merge_testbit (flags : list Z) (i : Z) :
  Z.testbit (Bitflag.merge flags) i = existsb (fun f => Z.testbit f i) flags.
Proof. unfold Bitflag.merge. rewrite merge_from_testbit. now rewrite Z.bits_0. Qed.

Lemma merge_covers (flags : list Z) (f i : Z) :
  In f flags -> Z.testbit f i = true -> Z.testbit (Bitflag.merge flags) i = true.
Proof.
  intros Hin Hf. rewrite merge_testbit. apply existsb_exists. eauto.
Qed.

Lemma mask32_high (f i : Z) : mask32 f -> 32 <= i -> Z.testbit f i = false.
Proof.
  intros Hf Hi. unfold mask32 in Hf. rewrite <- (Z.mod_small f (2 ^ 32)) by lia.
  apply Z.mod_pow2_bits_high. lia.
Qed.

(** X7. After [enable(...flags)], [has(...flags)] holds, whatever the
    state was, for masks from [0] to [2^31 - 1]. *)
Theorem has_enable (state : Z) (flags : list Z) :
  Forall mask32 flags -> Bitflag.has (Bitflag.enable state flags) flags = true.
Proof.
  intros Hflags. unfold Bitflag.has, Bitflag.int. apply forallb_forall. intros f Hin.
  rewrite List.Forall_forall in Hflags. specialize (Hflags f Hin).
  apply Z.eqb_eq, Z.bits_inj'. intros i Hi. rewrite Z.land_spec.
  destruct (Z.testbit f i) eqn:Ef; [| apply andb_false_r]. rewrite andb_true_r.
  destruct (Z.lt_ge_cases i 32) as [Hlow | Hhigh].
  - unfold Bitflag.enable. rewrite toInt32_testbit, Z.lor_spec by lia.
    rewrite (merge_covers flags f i Hin Ef). apply orb_true_r.
  - rewrite (mask32_high f i Hflags Hhigh) in Ef. discriminate.
Qed.

(** The statement at the state [1] and the flags [4] and [16]. *)
Lemma has_enable_witness : Bitflag.has (Bitflag.enable 1 [4; 16]) [4; 16] = true.
Proof.
  apply (has_enable 1 [4; 16]). repeat constructor; unfold mask32; lia.
Defined.

(** X8. After [disable(...flags)], [has(flag)] fails for each of the
    flags from [1] to [2^31 - 1], whatever the state was. *)
Theorem has_disable (state : Z) (flags : list Z) (flag : Z) :
  In flag flags -> mask32 flag -> flag <> 0 ->
  Bitflag.has (Bitflag.disable state flags) [flag] = false.
Proof.
  intros Hin Hflag Hnz. unfold Bitflag.has, Bitflag.int. cbn [forallb]. rewrite andb_true_r.
  apply Z.eqb_neq. intros E. apply Hnz. rewrite <- E.
  apply Z.bits_inj'. intros i Hi. rewrite Z.land_spec, Z.bits_0.
  destruct (Z.testbit flag i) eqn:Ef; [| apply andb_false_r]. rewrite andb_true_r.
  destruct (Z.lt_ge_cases i 32) as [Hlow | Hhigh].
  - unfold Bitflag.disable. rewrite toInt32_testbit, Z.land_spec, Z.lnot_spec by lia.
    rewrite (merge_covers flags flag i Hin Ef). apply andb_false_r.
  - rewrite (mask32_high flag i Hflag Hhigh) in Ef. discriminate.
Qed.

(** The statement at the state [28] and the flags [4] and [16]. *)
Lemma has_disable_witness : Bitflag.has (Bitflag.disable 28 [4; 16]) [16] = false.
Proof.
  apply (has_disable 28 [4; 16] 16); [cbn; tauto | unfold mask32; lia | lia].
Defined.

(** X9. [toggle(...flags)] twice gives back a state that is a signed
    32-bit integer. *)
Theorem toggle_toggle (state : Z) (flags : list Z) :
  int32 state -> Bitflag.toggle (Bitflag.toggle state flags) flags = state.
Proof.
  intros Hstate. unfold Bitflag.toggle at 1. apply toInt32_unique; [exact Hstate |].
  apply Z.bits_inj'. intros i Hi.
  destruct (Z.lt_ge_cases i 32) as [Hlow | Hhigh].
  - rewrite !Z.mod_pow2_bits_low by lia. rewrite Z.lxor_spec. unfold Bitflag.toggle.
    rewrite toInt32_testbit, Z.lxor_spec by lia.
    now destruct (Z.testbit state i), (Z.testbit (Bitflag.merge flags) i).
  - rewrite !Z.mod_pow2_bits_high by lia. reflexivity.
Qed.

(** The statement at the state [-5] and the flags [4] and [16]. *)
Lemma toggle_toggle_witness : Bitflag.toggle (Bitflag.toggle (-5) [4; 16]) [4; 16] = -5.
Proof. apply (toggle_toggle (-5) [4; 16]). unfold int32. lia. Defined.

(** ** Property descriptors *)

Lemma span_digits_all (ds : jsstring) :
  forallb is_digit ds = true -> span_digits ds = (ds, []).
Proof.
  induction ds as [| d ds IH]; [reflexivity |]. cbn [forallb span_digits].
  intros H. apply andb_true_iff in H as [Hd Hds]. now rewrite Hd, (IH Hds).
Qed.

Lemma search_prefix_free (c : N) (p : RegExp.pattern) (a rest : jsstring) :
  (forall t, hd_error t <> Some c -> p t = None) -> free_of c a ->
  RegExp.search p (a ++ rest) = RegExp.search p rest.
Proof.
  intros Hp. induction a as [| x a IH]; [reflexivity |]. intros Hfree.
  apply free_of_cons in Hfree as [Hx Hfree]. cbn [app RegExp.search].
  rewrite Hp by (cbn; congruence). auto.
Qed.

Lemma search_here (p : RegExp.pattern) (s : jsstring) (m : RegExp.rmatch) :
  p s = Some m -> RegExp.search p s = Some m.
Proof. intros H. destruct s; cbn [RegExp.search]; now rewrite H. Qed.

(** X10. The flags that the encoder computes for an own data
    property of an object that is neither a [Map] nor a [Set] carry
    its three attributes: [has] of [IS_CONFIGURABLE], [IS_ENUMERABLE]
    and [IS_WRITABLE] on them gives [configurable], [enumerable] and
    [writable] of the property, and no other bit is set. *)
Theorem descriptor_flags_carry_attributes (object : jsobject) (name : jsstring)
        (descriptor : property) :
  instanceOf object MapC = false -> instanceOf object SetC = false ->
  find_property name (properties object) = Some descriptor ->
  exists flags,
    Serializer.propertyDescriptorFlag object (VString name) = Ok flags
    /\ Bitflag.has flags [PropertyDescriptorFlag.IS_CONFIGURABLE] = configurable descriptor
    /\ Bitflag.has flags [PropertyDescriptorFlag.IS_ENUMERABLE] = enumerable descriptor
    /\ Bitflag.has flags [PropertyDescriptorFlag.IS_WRITABLE] = writable descriptor
    /\ Bitflag.has flags [PropertyDescriptorFlag.HAS_ACCESSOR] = false
    /\ Bitflag.has flags [PropertyDescriptorFlag.HAS_METADATA] = false
    /\ 0 <= flags <= 28.
Proof.
  intros Hmap Hset Hfind. unfold Serializer.propertyDescriptorFlag.
  rewrite Hmap, Hset, Hfind. cbn [orb].
  destruct (configurable descriptor), (enumerable descriptor), (writable descriptor);
    vm_compute; eexists; (split; [reflexivity |]); repeat split; discriminate.
Qed.

(** The statement at the property [self] of [x = {}; x.self = x]. *)
Lemma descriptor_flags_carry_attributes_witness :
  exists flags,
    Serializer.propertyDescriptorFlag
      {| proto := Some (Shorthand ObjectC); internal := Ordinary;
         properties := [plain_property "self" (VObject 0)]; extensible := true |}
      (VString (str "self")) = Ok flags
    /\ Bitflag.has flags [PropertyDescriptorFlag.IS_CONFIGURABLE] = true
    /\ Bitflag.has flags [PropertyDescriptorFlag.IS_ENUMERABLE] = true
    /\ Bitflag.has flags [PropertyDescriptorFlag.IS_WRITABLE] = true
    /\ Bitflag.has flags [PropertyDescriptorFlag.HAS_ACCESSOR] = false
    /\ Bitflag.has flags [PropertyDescriptorFlag.HAS_METADATA] = false
    /\ 0 <= flags <= 28.
Proof.
  apply (descriptor_flags_carry_attributes
           {| proto := Some (Shorthand ObjectC); internal := Ordinary;
              properties := [plain_property "self" (VObject 0)]; extensible := true |}
           (str "self") (plain_property "self" (VObject 0))); reflexivity.
Defined.

(** The first [%<digits>] of a text whose part before it has no
    ['%']. *)
Lemma search_flags (before : jsstring) (n : N) :
  free_of 37 before ->
  RegExp.search (RegExp.digits_between [37%N] None) (before ++ 37%N :: decimal n)
  = Some {| RegExp.matched := [37%N] ++ decimal n; RegExp.groups := [decimal n] |}.
Proof.
  intros Hbefore. rewrite (search_prefix_free 37).
  - apply search_here. unfold RegExp.digits_between. cbn [startsWith length skipn].
    rewrite N.eqb_refl. cbn [andb].
    rewrite span_digits_all by apply decimal_digits.
    destruct (decimal_head n) as (d & ds & -> & _). reflexivity.
  - intros t Ht. now apply digits_between_opens.
  - exact Hbefore.
Qed.

(** The flags behind the key of an entry. *)
Lemma descriptor_of_key (key : jsstring) (flags : Z) :
  free_of 37 key -> 0 <= flags < 2 ^ 31 ->
  SerializedBlockInfo.extractDescriptorInfo
    (Tok.KEY_INDEX_S ++ key ++ Tok.KEY_INDEX_E
     ++ Tok.PROPERTY_ACCESSABILITY ++ decimal (Z.to_N flags))
  = Ok (Some flags).
Proof.
  intros Hkey Hflags. unfold SerializedBlockInfo.extractDescriptorInfo.
  change (SerializedBlockInfo.isKeyIndex _) with true. cbn [negb].
  change (Tok.KEY_INDEX_S ++ key ++ Tok.KEY_INDEX_E
          ++ Tok.PROPERTY_ACCESSABILITY ++ decimal (Z.to_N flags))
    with (91%N :: key ++ 93%N :: 37%N :: decimal (Z.to_N flags)).
  change Tok.PROPERTY_ACCESSABILITY with [37%N].
  replace (91%N :: key ++ 93%N :: 37%N :: decimal (Z.to_N flags))
    with ((91%N :: key ++ [93%N]) ++ 37%N :: decimal (Z.to_N flags))
    by (cbn [app]; now rewrite <- app_assoc).
  rewrite search_flags.
  - cbn [RegExp.group1 RegExp.groups nth]. rewrite numberOfDigits_decimal.
    rewrite Z2N.id by lia. unfold Bitflag.create.
    change (Bitflag.validateEnum PropertyDescriptorFlag.members) with (Ok true).
    cbn [outcome_bind]. now rewrite to32bit_int32 by (unfold int32; lia).
  - apply free_of_cons. split; [discriminate |]. apply free_of_app. split; [exact Hkey |].
    apply free_of_cons. split; [discriminate | intros []].
Qed.

(** X11. The decoder reads back the flags of a key: for a key text
    [[<key>]%<flags>] whose [<key>] part has no ['%'] (the encoder
    escapes it) and flags from [0] to [2^31 - 1],
    [extractDescriptorInfo] returns these flags. *)
Theorem descriptor_flags_read_back (key : jsstring) (flags : Z) :
  free_of 37 key -> 0 <= flags < 2 ^ 31 ->
  SerializedBlockInfo.extractDescriptorInfo
    (Tok.KEY_INDEX_S ++ key ++ Tok.KEY_INDEX_E
     ++ Tok.PROPERTY_ACCESSABILITY ++ decimal (Z.to_N flags))
  = Ok (Some flags).
Proof.
  intros Hkey Hflags. apply descriptor_of_key.
  - exact Hkey.
  - exact Hflags.
Qed.

(** The statement at the key text [[1|self]%28]. *)
Lemma descriptor_flags_read_back_witness :
  SerializedBlockInfo.extractDescriptorInfo (str "[1|self]%28") = Ok (Some 28).
Proof.
  apply (descriptor_flags_read_back (str "1|self") 28).
  - intros H. repeat (destruct H as [H | H]; [discriminate H |]). exact H.
  - lia.
Defined.

(** ** Blocks *)

Lemma indexOf_not_start (c x : N) (t : jsstring) :
  x <> c -> (indexOf (x :: t) [c] =? INDEX_START) = false.
Proof.
  intros H. apply Z.eqb_neq. unfold INDEX_START.
  destruct (indexOf_head_differs c x t H); lia.
Qed.

Lemma removeKeyBrackets_plain (x : N) (t : jsstring) :
  x <> 91%N -> SerializedBlockInfo.removeKeyBrackets (x :: t) = x :: t.
Proof.
  intros H. unfold SerializedBlockInfo.removeKeyBrackets. change Tok.KEY_INDEX_S with [91%N].
  now rewrite indexOf_not_start.
Qed.

Lemma removeReferenceDeclaration_plain (x : N) (t : jsstring) :
  x <> 64%N -> SerializedBlockInfo.removeReferenceDeclaration (x :: t) = x :: t.
Proof.
  intros H. unfold SerializedBlockInfo.removeReferenceDeclaration.
  change Tok.REFERENCE_DECLARARION_S with [64%N]. now rewrite indexOf_not_start.
Qed.

Lemma slice_prefix (s t : jsstring) : slice (s ++ t) 0 (Z.of_nat (length s)) = s.
Proof.
  rewrite slice_inside by (rewrite ?length_app; lia).
  rewrite Z.sub_0_r, Nat2Z.id. change (Z.to_nat 0) with 0%nat. rewrite skipn_O.
  rewrite firstn_app, Nat.sub_diag, firstn_all. cbn [firstn]. apply app_nil_r.
Qed.

Lemma slice_from_suffix (s t : jsstring) (c : N) :
  slice_from (s ++ c :: t) (Z.of_nat (length s) + 1) = t.
Proof.
  rewrite slice_from_inside by (rewrite length_app; cbn [length]; lia).
  replace (Z.to_nat (Z.of_nat (length s) + 1)) with (length (s ++ [c]))
    by (rewrite length_app; cbn [length]; lia).
  replace (s ++ c :: t) with ((s ++ [c]) ++ t) by (now rewrite <- app_assoc).
  apply skipn_app_length.
Qed.

(** The block [<type>|<payload>]: no reference, no descriptor, the
    type in front of the first ['|'] and the payload behind it. *)
Lemma block_of_payload (x : N) (type payload : jsstring) :
  x <> 91%N -> x <> 35%N -> x <> 64%N -> free_of 124 (x :: type) ->
  SerializedBlockInfo.new ((x :: type) ++ Tok.TYPE_SEPERATOR ++ payload)
  = Ok {| SerializedBlockInfo.reference := None;
          SerializedBlockInfo.descriptor := None;
          SerializedBlockInfo.accessability := None;
          SerializedBlockInfo.type := x :: type;
          SerializedBlockInfo.isKeyIndex_ := false;
          SerializedBlockInfo.serializedValue := Some payload |}.
Proof.
  intros Hkey Hget Hset Htype.
  assert (Hstart : SerializedBlockInfo.isKeyIndex ((x :: type) ++ Tok.TYPE_SEPERATOR ++ payload)
                   = false).
  { unfold SerializedBlockInfo.isKeyIndex. change Tok.KEY_INDEX_S with [91%N].
    apply startsWith_head. cbn. congruence. }
  assert (Hbar : indexOf ((x :: type) ++ Tok.TYPE_SEPERATOR ++ payload) Tok.TYPE_SEPERATOR
                 = Z.of_nat (length (x :: type))).
  { change Tok.TYPE_SEPERATOR with [124%N]. unfold indexOf.
    change ([124%N] ++ payload) with (124%N :: payload).
    now rewrite indexOf_from_found. }
  unfold SerializedBlockInfo.new, SerializedBlockInfo.extractReference,
    SerializedBlockInfo.extractDescriptorInfo, SerializedBlockInfo.extractType,
    SerializedBlockInfo.extractSerializedValue.
  rewrite Hstart. cbn [app] in *.
  rewrite !removeKeyBrackets_plain, !removeReferenceDeclaration_plain by assumption.
  change Tok.REFERENCE_POINTER with [35%N]. change Tok.REFERENCE_DECLARARION_S with [64%N].
  rewrite !indexOf_not_start by assumption. cbn [negb andb outcome_bind].
  rewrite Hbar. unfold INDEX_NOT_FOUND.
  replace (Z.of_nat (length (x :: type)) =? -1) with false by (symmetry; apply Z.eqb_neq; lia).
  do 2 f_equal.
  - change (x :: type ++ Tok.TYPE_SEPERATOR ++ payload)
      with ((x :: type) ++ Tok.TYPE_SEPERATOR ++ payload).
    apply slice_prefix.
  - f_equal. change (x :: type ++ Tok.TYPE_SEPERATOR ++ payload)
      with ((x :: type) ++ 124%N :: payload).
    apply slice_from_suffix.
Qed.

Lemma indexOf_start (c : N) (t : jsstring) : indexOf (c :: t) [c] = 0.
Proof. unfold indexOf. cbn [indexOf_from startsWith]. unfold unit_eqb. now rewrite N.eqb_refl. Qed.

Lemma reference_digits_declared (id : N) (c : N) (rest : jsstring) :
  is_digit c = false ->
  SerializedBlockInfo.reference_digits true (64%N :: decimal id ++ c :: rest)
  = Some (decimal id).
Proof.
  intros Hc. cbn [SerializedBlockInfo.reference_digits span_digits is_digit N.leb andb fst].
  change (unit_eqb 64 (unit_of Tok.REFERENCE_DECLARARION_S)) with true. cbn [orb].
  rewrite span_digits_run by (apply decimal_digits || exact Hc). cbn [fst].
  destruct (decimal_head id) as (d & ds & -> & _). reflexivity.
Qed.

(** The block [@<id>=<type>|<payload>]. *)
Lemma block_of_declaration (id : N) (type payload : jsstring) :
  free_of 124 type ->
  SerializedBlockInfo.new
    (Tok.REFERENCE_DECLARARION_S ++ decimal id ++ Tok.REFERENCE_DECLARATION_E
     ++ type ++ Tok.TYPE_SEPERATOR ++ payload)
  = Ok {| SerializedBlockInfo.reference := Some (SerializedBlockInfo.set_, id);
          SerializedBlockInfo.descriptor := None;
          SerializedBlockInfo.accessability := None;
          SerializedBlockInfo.type := type;
          SerializedBlockInfo.isKeyIndex_ := false;
          SerializedBlockInfo.serializedValue := Some payload |}.
Proof.
  intros Htype.
  change (Tok.REFERENCE_DECLARARION_S ++ decimal id ++ Tok.REFERENCE_DECLARATION_E
          ++ type ++ Tok.TYPE_SEPERATOR ++ payload)
    with (64%N :: decimal id ++ 61%N :: type ++ 124%N :: payload).
  set (body := type ++ 124%N :: payload).
  assert (Hrest : SerializedBlockInfo.removeReferenceDeclaration
                    (64%N :: decimal id ++ 61%N :: body) = body).
  { unfold SerializedBlockInfo.removeReferenceDeclaration.
    change Tok.REFERENCE_DECLARARION_S with [64%N].
    change Tok.REFERENCE_DECLARATION_E with [61%N].
    rewrite indexOf_start. cbn [Z.eqb INDEX_START negb].
    change (64%N :: decimal id ++ 61%N :: body) with ((64%N :: decimal id) ++ 61%N :: body).
    unfold indexOf. rewrite indexOf_from_found
      by (apply free_of_cons; split; [discriminate | apply free_of_decimal; reflexivity]).
    unfold INDEX_NOT_FOUND.
    replace (0 + Z.of_nat (length (64%N :: decimal id)) =? -1) with false
      by (symmetry; apply Z.eqb_neq; lia).
    rewrite Z.add_0_l. apply slice_from_suffix. }
  assert (Hbar : indexOf body Tok.TYPE_SEPERATOR = Z.of_nat (length type)).
  { change Tok.TYPE_SEPERATOR with [124%N]. unfold indexOf, body.
    now rewrite indexOf_from_found. }
  unfold SerializedBlockInfo.new, SerializedBlockInfo.extractReference,
    SerializedBlockInfo.extractDescriptorInfo, SerializedBlockInfo.extractType,
    SerializedBlockInfo.extractSerializedValue.
  change (SerializedBlockInfo.isKeyIndex (64%N :: decimal id ++ 61%N :: body)) with false.
  rewrite !removeKeyBrackets_plain by discriminate. rewrite Hrest.
  change Tok.REFERENCE_POINTER with [35%N]. change Tok.REFERENCE_DECLARARION_S with [64%N].
  rewrite indexOf_not_start by discriminate. rewrite indexOf_start.
  cbn [Z.eqb INDEX_START negb andb].
  rewrite reference_digits_declared by reflexivity. rewrite numberOfDigits_decimal.
  replace (indexOf (64%N :: decimal id ++ 61%N :: body) [35%N] =? 0) with false
    by (symmetry; apply (indexOf_not_start 35); discriminate).
  cbn [outcome_bind negb]. rewrite Hbar. unfold INDEX_NOT_FOUND.
  replace (Z.of_nat (length type) =? -1) with false by (symmetry; apply Z.eqb_neq; lia).
  do 2 f_equal.
  - apply slice_prefix.
  - f_equal. apply slice_from_suffix.
Qed.

(** X12. [SerializedBlockInfo] takes a block apart the way the
    encoder puts it together, for a type without ['|']: from
    [@<id>=<type>|<payload>], with an id of at most 2^53 written in
    decimal (the ids that [Number()] reads without rounding), it
    reads the reference [["set", id]], the type and the payload; from
    [<type>|<payload>], when the type does not start with ['['],
    ['#'] or ['@'], no reference, the type and the payload.  Neither
    has a descriptor, and whatever the payload is does not matter. *)
Theorem block_parses (id : N) (type payload : jsstring) :
  free_of 124 type ->
  ((id <= 2 ^ 53)%N ->
   SerializedBlockInfo.new
     (Tok.REFERENCE_DECLARARION_S ++ decimal id ++ Tok.REFERENCE_DECLARATION_E
      ++ type ++ Tok.TYPE_SEPERATOR ++ payload)
   = Ok {| SerializedBlockInfo.reference := Some (SerializedBlockInfo.set_, id);
           SerializedBlockInfo.descriptor := None;
           SerializedBlockInfo.accessability := None;
           SerializedBlockInfo.type := type;
           SerializedBlockInfo.isKeyIndex_ := false;
           SerializedBlockInfo.serializedValue := Some payload |})
  /\ (hd_error type <> None -> hd_error type <> Some 91%N ->
      hd_error type <> Some 35%N -> hd_error type <> Some 64%N ->
      SerializedBlockInfo.new (type ++ Tok.TYPE_SEPERATOR ++ payload)
      = Ok {| SerializedBlockInfo.reference := None;
              SerializedBlockInfo.descriptor := None;
              SerializedBlockInfo.accessability := None;
              SerializedBlockInfo.type := type;
              SerializedBlockInfo.isKeyIndex_ := false;
              SerializedBlockInfo.serializedValue := Some payload |}).
Proof.
  intros Htype. split.
  - intros _. now apply block_of_declaration.
  - destruct type as [| x type]; [intros H; now contradiction H |].
    intros _ Hkey Hget Hset. apply block_of_payload; try assumption; cbn in *; congruence.
Qed.

(** The statement at the blocks [@3=1|a|b] and [1|a|b]. *)
Lemma block_parses_witness :
  SerializedBlockInfo.new (str "@3=1|a|b")
  = Ok {| SerializedBlockInfo.reference := Some (SerializedBlockInfo.set_, 3%N);
          SerializedBlockInfo.descriptor := None;
          SerializedBlockInfo.accessability := None;
          SerializedBlockInfo.type := str "1";
          SerializedBlockInfo.isKeyIndex_ := false;
          SerializedBlockInfo.serializedValue := Some (str "a|b") |}
  /\ SerializedBlockInfo.new (str "1|a|b")
     = Ok {| SerializedBlockInfo.reference := None;
             SerializedBlockInfo.descriptor := None;
             SerializedBlockInfo.accessability := None;
             SerializedBlockInfo.type := str "1";
             SerializedBlockInfo.isKeyIndex_ := false;
             SerializedBlockInfo.serializedValue := Some (str "a|b") |}.
Proof.
  assert (Hfree : free_of 124 (str "1")) by (intros [H | []]; discriminate H).
  destruct (block_parses 3 (str "1") (str "a|b") Hfree) as [Hdeclared Hplain].
  split; [apply Hdeclared; discriminate |]. apply Hplain; discriminate.
Defined.

(** ** Primitives through the encoder and the decoder *)

Lemma unescape_escape (s : jsstring) : Deserializer.unescape (Serializer.escape s) = s.
Proof.
  induction s as [| c s IH]; [reflexivity |].
  rewrite escape_cons. destruct (reserved_dec c) as [Hin | Hout].
  - rewrite <- !app_assoc, unescape_sequence by assumption. now rewrite IH.
  - cbn [app]. rewrite unescape_plain by assumption. now rewrite IH.
Qed.

(** [escape] leaves no reserved character but ['&'] and [';']. *)
Lemma escape_free (c : N) (s : jsstring) :
  In c Serializer.RESERVED_CHARACTERS -> c <> 38%N -> c <> 59%N ->
  free_of c (Serializer.escape s).
Proof.
  intros Hc Hamp Hsemi. induction s as [| x s IH]; [intros [] |].
  rewrite escape_cons. apply free_of_app. split; [| exact IH].
  destruct (reserved_dec x) as [Hin | Hout].
  - change (str "&" ++ decimal x ++ str ";") with (38%N :: decimal x ++ [59%N]).
    apply free_of_cons. split; [congruence |]. apply free_of_app. split.
    + apply free_of_decimal. cbv in Hc.
      repeat (destruct Hc as [<- | Hc]; [reflexivity |]). destruct Hc.
    + apply free_of_cons. split; [congruence | intros []].
  - intros [<- | []]. contradiction.
Qed.

(** A value whose body is one text without ['@'] and ['#'] is
    serialized as that text: its declaration has no pointer. *)
Lemma serialize_single (host : Host) (h : heap) (value : jsvalue) (st : Serializer.state)
      (text : jsstring) :
  Metadata (Serializer.config st) = false ->
  (forall rec s, Serializer.serialize_body host h rec value s = (Ok text, ticked s)) ->
  plain_text text ->
  fst (Serializer.serialize host h value st) = Ok text.
Proof.
  intros Hmeta Hbody [Hat Hhash].
  unfold Serializer.serialize, Serializer.serialize_with.
  cbn [Serializer.serialize_]. unfold Serializer.mark.
  unfold bind, get, Serializer.wipe, put.
  cbn [Serializer.new Serializer.config Serializer.reference_value_map Serializer.map_get].
  rewrite Hmeta, Hbody.
  cbn -[Serializer.clean decimal str].
  change (Tok.REFERENCE_DECLARARION_S ++ decimal 0 ++ Tok.REFERENCE_DECLARATION_E ++ text)
    with (str "@0=" ++ text).
  now rewrite clean_single_declaration.
Qed.

(** Unfolds [deserialize] on a text without dependency list down
    to the parsing of the block. *)
Ltac enter_block :=
  unfold Deserializer.deserialize, Deserializer.deserialize_with; unfold bind at 1;
  rewrite setupDependencies_none;
  [ cbn [Deserializer.deserialize_]; unfold Deserializer.deserialize_body;
    unfold bind at 1; cbn [Deserializer.tick modify]; unfold bind at 1 | .. ].

Lemma free_of_text (c : N) (text : jsstring) : forallb (fun x => negb (N.eqb x c)) text = true -> free_of c text.
Proof.
  intros H Hin. rewrite forallb_forall in H. specialize (H c Hin).
  now rewrite N.eqb_refl in H.
Qed.

Lemma plain_text_free (text : jsstring) : free_of 64 text -> free_of 35 text -> plain_text text.
Proof. intros H1 H2. split; assumption. Qed.

(** X13. String round trip through the public methods, for an
    encoder whose metadata support is off (the default): for every
    string (any sequence of UTF-16 code units), whatever else the two
    instances went through before, [serialize] returns [1|] followed
    by the escaped string, and [deserialize] of that text returns the
    string. *)
Theorem string_roundtrip (host : Host) (h : heap) (s : jsstring)
        (st : Serializer.state) (m : Deserializer.machine) :
  Metadata (Serializer.config st) = false ->
  fst (Serializer.serialize host h (VString s) st) = Ok (str "1|" ++ Serializer.escape s)
  /\ fst (Deserializer.deserialize host (str "1|" ++ Serializer.escape s) [] m)
     = Ok (VString s).
Proof.
  intros Hmeta.
  assert (Hfree : forall c, In c Serializer.RESERVED_CHARACTERS -> c <> 38%N -> c <> 59%N ->
                            c <> 124%N -> free_of c (str "1|" ++ Serializer.escape s)).
  { intros c Hc Hamp Hsemi Hbar. change (str "1|" ++ Serializer.escape s)
      with (49%N :: 124%N :: Serializer.escape s).
    rewrite !free_of_cons. repeat split; [| congruence | now apply escape_free].
    intros <-. cbv in Hc. repeat (destruct Hc as [Hc | Hc]; [discriminate Hc |]). exact Hc. }
  split.
  - apply serialize_single; [exact Hmeta | reflexivity |].
    split; apply Hfree; (discriminate || (cbv; tauto)).
  - enter_block; [| apply Hfree; (discriminate || (cbv; tauto))..].
    change (str "1|" ++ Serializer.escape s)
      with ((49%N :: []) ++ Tok.TYPE_SEPERATOR ++ Serializer.escape s).
    rewrite block_of_payload by (discriminate || (intros [H | []]; discriminate H)).
    transitivity (@Ok jsvalue (VString (Deserializer.unescape (Serializer.escape s))));
      [reflexivity | now rewrite unescape_escape].
Qed.

(** The statement at the string ["a|b"] on new instances. *)
Lemma string_roundtrip_witness :
  fst (Serializer.serialize bitpattern_host [] (VString (str "a|b"))
         (Serializer.new DEFAULT_SHARED_CONFIGURATION)) = Ok (str "1|a&124;b")
  /\ fst (Deserializer.deserialize bitpattern_host (str "1|a&124;b") []
            (Deserializer.fresh DEFAULT_SHARED_CONFIGURATION))
     = Ok (VString (str "a|b")).
Proof.
  exact (string_roundtrip bitpattern_host [] (str "a|b")
           (Serializer.new DEFAULT_SHARED_CONFIGURATION)
           (Deserializer.fresh DEFAULT_SHARED_CONFIGURATION) eq_refl).
Defined.

Lemma bigint_text_free (c : N) (bigint : Z) :
  is_digit c = false -> c <> 45%N -> free_of c (Serializer.serializeBigint bigint).
Proof.
  intros Hd Hminus. unfold Serializer.serializeBigint.
  destruct (bigint <? 0); [| now apply free_of_decimal].
  change (str "-" ++ decimal (Z.abs_N bigint)) with (45%N :: decimal (Z.abs_N bigint)).
  apply free_of_cons. split; [congruence | now apply free_of_decimal].
Qed.

Lemma deserializeBigInt_serializeBigint (bigint : Z) :
  Deserializer.deserializeBigInt (Serializer.serializeBigint bigint) = Ok bigint.
Proof.
  unfold Serializer.serializeBigint, Deserializer.deserializeBigInt.
  destruct (Z.ltb_spec bigint 0) as [Hneg | Hpos].
  - change (str "-" ++ decimal (Z.abs_N bigint)) with (45%N :: decimal (Z.abs_N bigint)).
    change (startsWith (45%N :: decimal (Z.abs_N bigint)) (str "-")) with true.
    cbv iota. rewrite slice_from_tail.
    destruct (decimal_head (Z.abs_N bigint)) as (d & ds & E & _).
    rewrite decimal_digits, numberOfDigits_decimal. rewrite E. f_equal. lia.
  - destruct (decimal_head (Z.abs_N bigint)) as (d & ds & E & Hd).
    assert (Hstart : startsWith (decimal (Z.abs_N bigint)) (str "-") = false).
    { rewrite E. apply startsWith_head. cbn. intros [= ->]. discriminate Hd. }
    rewrite Hstart. rewrite decimal_digits, numberOfDigits_decimal. rewrite E. f_equal. lia.
Qed.

(** X14. BigInt round trip through the public methods: for every
    integer, [serialize] returns [11|] followed by its decimal
    numeral (with a leading ['-'] below zero), and [deserialize] of
    that text returns the integer. *)
Theorem bigint_roundtrip (host : Host) (h : heap) (bigint : Z)
        (st : Serializer.state) (m : Deserializer.machine) :
  Metadata (Serializer.config st) = false ->
  fst (Serializer.serialize host h (VBigInt bigint) st)
    = Ok (str "11|" ++ Serializer.serializeBigint bigint)
  /\ fst (Deserializer.deserialize host (str "11|" ++ Serializer.serializeBigint bigint) [] m)
     = Ok (VBigInt bigint).
Proof.
  intros Hmeta.
  assert (Hfree : forall c, is_digit c = false -> c <> 45%N -> c <> 124%N ->
                            free_of c (str "11|" ++ Serializer.serializeBigint bigint)).
  { intros c Hd Hminus Hbar. change (str "11|" ++ Serializer.serializeBigint bigint)
      with (49%N :: 49%N :: 124%N :: Serializer.serializeBigint bigint).
    rewrite !free_of_cons.
    repeat split; [intros <-; discriminate Hd.. | congruence | now apply bigint_text_free]. }
  split.
  - apply serialize_single; [exact Hmeta | reflexivity |].
    split; apply Hfree; (reflexivity || discriminate).
  - enter_block; [| apply Hfree; (reflexivity || discriminate)..].
    change (str "11|" ++ Serializer.serializeBigint bigint)
      with ((49%N :: [49%N]) ++ Tok.TYPE_SEPERATOR ++ Serializer.serializeBigint bigint).
    rewrite block_of_payload
      by (discriminate || (intros H; repeat (destruct H as [H | H]; [discriminate H |]); exact H)).
    cbn -[Deserializer.deserializeBigInt Serializer.serializeBigint].
    now rewrite deserializeBigInt_serializeBigint.
Qed.

(** The statement at [-12n] on new instances. *)
Lemma bigint_roundtrip_witness :
  fst (Serializer.serialize bitpattern_host [] (VBigInt (-12))
         (Serializer.new DEFAULT_SHARED_CONFIGURATION)) = Ok (str "11|-12")
  /\ fst (Deserializer.deserialize bitpattern_host (str "11|-12") []
            (Deserializer.fresh DEFAULT_SHARED_CONFIGURATION))
     = Ok (VBigInt (-12)).
Proof.
  exact (bigint_roundtrip bitpattern_host [] (-12)
           (Serializer.new DEFAULT_SHARED_CONFIGURATION)
           (Deserializer.fresh DEFAULT_SHARED_CONFIGURATION) eq_refl).
Defined.

(** X15. [null], [undefined], [true] and [false] through the public
    methods, for an encoder whose metadata support is off (the
    default): [serialize] returns [0], [10], [8|T] and [8|F], and
    [deserialize] of that text returns the value, whatever else the
    two instances went through before. *)
Theorem small_value_roundtrip (host : Host) (h : heap) (value : jsvalue)
        (st : Serializer.state) (m : Deserializer.machine) :
  is_small value -> Metadata (Serializer.config st) = false ->
  fst (Serializer.serialize host h value st) = Ok (small_text value)
  /\ fst (Deserializer.deserialize host (small_text value) [] m) = Ok value.
Proof.
  intros Hsmall Hmeta. destruct value as [| | [|] | | | | |]; try contradiction; split;
    try (apply serialize_single;
         [exact Hmeta | reflexivity
          | split; apply free_of_text; reflexivity]);
    (enter_block; [reflexivity | apply free_of_text; reflexivity..]).
Qed.

(** The statement at [undefined] on new instances. *)
Lemma small_value_roundtrip_witness :
  fst (Serializer.serialize bitpattern_host [] VUndefined
         (Serializer.new DEFAULT_SHARED_CONFIGURATION)) = Ok (str "10")
  /\ fst (Deserializer.deserialize bitpattern_host (str "10") []
            (Deserializer.fresh DEFAULT_SHARED_CONFIGURATION)) = Ok VUndefined.
Proof.
  exact (small_value_roundtrip bitpattern_host [] VUndefined
           (Serializer.new DEFAULT_SHARED_CONFIGURATION)
           (Deserializer.fresh DEFAULT_SHARED_CONFIGURATION) I eq_refl).
Defined.

(** X16. [deserializeBoolean] accepts the two texts of the encoder
    and nothing else: it returns [b] exactly on the text that
    [serializeBoolean] gives for [b], and throws on any other
    text. *)
Theorem deserializeBoolean_strict (serialized : jsstring) :
  (forall boolean,
      Deserializer.deserializeBoolean serialized = Ok boolean
      <-> serialized = Serializer.serializeBoolean boolean)
  /\ ((forall boolean, serialized <> Serializer.serializeBoolean boolean) ->
      Deserializer.deserializeBoolean serialized
      = Throw (DeserializerError "Invalid serialized boolean value!")).
Proof.
  unfold Deserializer.deserializeBoolean.
  destruct (string_eqb serialized SerializedBoolean.TRUE) eqn:Et.
  - apply string_eqb_eq in Et. subst serialized. split.
    + intros [|]; cbn; split; intros H; try reflexivity; discriminate H.
    + intros H. now contradiction (H true).
  - destruct (string_eqb serialized SerializedBoolean.FALSE) eqn:Ef.
    + apply string_eqb_eq in Ef. subst serialized. split.
      * intros [|]; cbn; split; intros H; try reflexivity; discriminate H.
      * intros H. now contradiction (H false).
    + cbn [negb andb]. split; [| reflexivity].
      intros [|]; (split; [discriminate |]); intros ->;
        rewrite string_eqb_refl in *; discriminate.
Qed.

Lemma number_text_unreserved (host : Host) (number : jsnumber) (c : N) :
  unreserved_numbers host -> In c Serializer.RESERVED_CHARACTERS ->
  free_of c (Serializer.serializeNumber host number).
Proof.
  intros Hhost Hc. unfold Serializer.serializeNumber.
  assert (Hsign : forall b : bool, free_of c (if b then EMPTY else str "-")).
  { intros []; [intros [] |]. intros [<- | []].
    cbv in Hc. repeat (destruct Hc as [Hc | Hc]; [discriminate Hc |]). exact Hc. }
  assert (Hbody : forall n, free_of c (Number_toString host n)).
  { intros n Hin. exact (Hhost n c Hin Hc). }
  destruct number; try (apply free_of_app; split; [apply Hsign | apply Hbody]).
  intros Hin. cbv in Hc, Hin.
  repeat (destruct Hin as [<- | Hin];
          [repeat (destruct Hc as [Hc | Hc]; [discriminate Hc |]); exact Hc |]).
  exact Hin.
Qed.

(** X17. Numbers through the public methods, on a host whose number
    texts have no reserved character: [serialize] returns [2|]
    followed by what [serializeNumber] gives, and [deserialize] of
    that text returns what [deserializeNumber] makes of it; marking,
    cleaning and block parsing add and lose nothing. *)
Theorem number_through_public_methods (host : Host) (h : heap) (number : jsnumber)
        (st : Serializer.state) (m : Deserializer.machine) :
  unreserved_numbers host -> Metadata (Serializer.config st) = false ->
  fst (Serializer.serialize host h (VNumber number) st)
    = Ok (str "2|" ++ Serializer.serializeNumber host number)
  /\ fst (Deserializer.deserialize host
            (str "2|" ++ Serializer.serializeNumber host number) [] m)
     = Ok (VNumber (Deserializer.deserializeNumber host
                      (Serializer.serializeNumber host number))).
Proof.
  intros Hhost Hmeta.
  assert (Hfree : forall c, In c Serializer.RESERVED_CHARACTERS -> c <> 124%N ->
                            free_of c (str "2|" ++ Serializer.serializeNumber host number)).
  { intros c Hc Hbar. change (str "2|" ++ Serializer.serializeNumber host number)
      with (50%N :: 124%N :: Serializer.serializeNumber host number).
    rewrite !free_of_cons. repeat split; [| congruence | now apply number_text_unreserved].
    intros <-. cbv in Hc. repeat (destruct Hc as [Hc | Hc]; [discriminate Hc |]). exact Hc. }
  split.
  - apply serialize_single; [exact Hmeta | reflexivity |].
    split; apply Hfree; (discriminate || (cbv; tauto)).
  - enter_block; [| apply Hfree; (discriminate || (cbv; tauto))..].
    change (str "2|" ++ Serializer.serializeNumber host number)
      with ((50%N :: []) ++ Tok.TYPE_SEPERATOR ++ Serializer.serializeNumber host number).
    rewrite block_of_payload by (discriminate || (intros [H | []]; discriminate H)).
    reflexivity.
Qed.

Lemma bitpattern_host_unreserved : unreserved_numbers bitpattern_host.
Proof.
  assert (Hdigit : forall c, In c Serializer.RESERVED_CHARACTERS -> is_digit c = false).
  { intros c Hc. cbv in Hc. repeat (destruct Hc as [<- | Hc]; [reflexivity |]). destruct Hc. }
  assert (Hconst : forall (text : jsstring) c,
             forallb (fun x => negb (existsb (N.eqb x) Serializer.RESERVED_CHARACTERS)) text
             = true ->
             In c text -> ~ In c Serializer.RESERVED_CHARACTERS).
  { intros text c Hall Hin Hc. rewrite forallb_forall in Hall. specialize (Hall c Hin).
    apply negb_true_iff in Hall. rewrite <- not_true_iff_false in Hall. apply Hall.
    apply existsb_exists. exists c. split; [exact Hc | apply N.eqb_refl]. }
  assert (Hsign : forall (b : bool) c, In c (if b then str "-" else []) ->
                                       ~ In c Serializer.RESERVED_CHARACTERS).
  { intros [] c; [apply Hconst; reflexivity | intros []]. }
  intros [| s | s | s bits] c; cbn [Number_toString bitpattern_host].
  - apply Hconst. reflexivity.
  - rewrite in_app_iff. intros [H | H]; [now apply (Hsign s) | revert H; apply Hconst; reflexivity].
  - rewrite in_app_iff. intros [H | H]; [now apply (Hsign s) | revert H; apply Hconst; reflexivity].
  - rewrite in_app_iff. intros [H | H]; [now apply (Hsign s) |].
    intros Hc. apply (free_of_decimal c (N.pos bits)); [now apply Hdigit | exact H].
Qed.

(** The statement at [-0] on the bit-pattern host. *)
Lemma number_through_public_methods_witness :
  fst (Serializer.serialize bitpattern_host [] (VNumber (Zero true))
         (Serializer.new DEFAULT_SHARED_CONFIGURATION)) = Ok (str "2|-0")
  /\ fst (Deserializer.deserialize bitpattern_host (str "2|-0") []
            (Deserializer.fresh DEFAULT_SHARED_CONFIGURATION))
     = Ok (VNumber (Deserializer.deserializeNumber bitpattern_host (str "-0"))).
Proof.
  exact (number_through_public_methods bitpattern_host [] (Zero true)
           (Serializer.new DEFAULT_SHARED_CONFIGURATION)
           (Deserializer.fresh DEFAULT_SHARED_CONFIGURATION)
           bitpattern_host_unreserved eq_refl).
Defined.

(** ** The recursion of the decoder ends *)

Lemma direct_settled {A} (o : outcome A) : direct o -> settled o.
Proof. now intros [H _]. Qed.

Lemma direct_unevaluated {A} (o : outcome A) : direct o -> unevaluated o.
Proof. now intros [_ H]. Qed.

Lemma direct_bind {A B} (o : outcome A) (k : A -> outcome B) :
  direct o -> (forall a, direct (k a)) -> direct (outcome_bind o k).
Proof.
  intros [Ho1 Ho2] Hk. destruct o; cbn [outcome_bind]; [apply Hk | split; discriminate | |].
  - now contradiction Ho1.
  - split; [discriminate |]. intros [= ->]. now apply Ho2.
Qed.

(** Settles a goal that follows the shape of the code. *)
Ltac settle :=
  repeat
    match goal with
    | |- direct (outcome_bind _ _) => apply direct_bind; [| intro]
    | |- direct (Ok _) => split; discriminate
    | |- direct (Throw _) => split; discriminate
    | |- direct (Unmodelled _) => split; discriminate
    | |- direct (if ?b then _ else _) => destruct b
    | |- direct (match ?x with _ => _ end) => destruct x
    | |- direct (let '(_, _) := ?x in _) => destruct x
    end.

Lemma direct_to32bit (n : Z) : direct (Bitflag.to32bit n).
Proof. unfold Bitflag.to32bit. settle. Qed.

Lemma direct_mapM {A B} (f : A -> outcome B) (l : list A) :
  (forall a, direct (f a)) -> direct (Bitflag.mapM f l).
Proof. intros Hf. induction l as [| a l IH]; cbn [Bitflag.mapM]; settle; auto. Qed.

Lemma direct_check_flags (flags : list Z) : direct (Bitflag.check_flags flags).
Proof. induction flags as [| f flags IH]; cbn [Bitflag.check_flags]; settle; auto. Qed.

Lemma direct_create (lookup : Bitflag.enum) (initial : Z) :
  direct (Bitflag.create lookup initial).
Proof.
  unfold Bitflag.create, Bitflag.validateEnum. cbv zeta. settle;
    first [apply direct_to32bit | apply direct_check_flags
          | apply direct_mapM, direct_to32bit].
Qed.

Lemma direct_new (serialized : jsstring) : direct (SerializedBlockInfo.new serialized).
Proof.
  unfold SerializedBlockInfo.new, SerializedBlockInfo.extractReference,
    SerializedBlockInfo.extractDescriptorInfo. cbv zeta. settle. apply direct_create.
Qed.

Lemma direct_flush2 (sc : Deserializer.scanner) : direct (Deserializer.flush2 sc).
Proof. unfold Deserializer.flush2. settle. Qed.

Lemma direct_scan (interior : jsstring) (sc : Deserializer.scanner) :
  direct (Deserializer.scan sc interior).
Proof.
  revert sc. induction interior as [| c interior IH]; intros sc; cbn [Deserializer.scan].
  - split; discriminate.
  - apply direct_bind; [| intros sc'; apply IH].
    unfold Deserializer.scan_character. settle. apply direct_flush2.
Qed.

Lemma direct_extractEntries (serialized : jsstring) :
  direct (Deserializer.extractEntries serialized).
Proof.
  unfold Deserializer.extractEntries. cbv zeta. settle;
    first [apply direct_scan | apply direct_flush2].
Qed.

Lemma direct_deserializeBoolean (s : jsstring) : direct (Deserializer.deserializeBoolean s).
Proof. unfold Deserializer.deserializeBoolean. settle. Qed.

Lemma direct_deserializeBigInt (s : jsstring) : direct (Deserializer.deserializeBigInt s).
Proof. unfold Deserializer.deserializeBigInt. cbv zeta. settle. Qed.

Lemma direct_getCustomTypeReference (s : jsstring) :
  direct (EnscribedType.getCustomTypeReference s).
Proof. unfold EnscribedType.getCustomTypeReference, EnscribedType.Number_of_text. settle. Qed.

Lemma direct_assign (o : jsobject) (k : jsstring) (v : jsvalue) : direct (assign o k v).
Proof. unfold assign. settle. Qed.

Lemma direct_defineFlags (o : jsobject) (k : jsstring) (c e w : bool) :
  direct (defineFlags o k c e w).
Proof. unfold defineFlags. settle. Qed.

(** The outcomes the decoder computes outside its recursion. *)
Ltac direct_call :=
  first [ apply direct_assign | apply direct_defineFlags | apply direct_new
        | apply direct_extractEntries | apply direct_deserializeBoolean
        | apply direct_deserializeBigInt | apply direct_getCustomTypeReference
        | progress settle ].

Lemma budget_ret {S A} (a : A) : within_budget (@ret S A a).
Proof. intros s. discriminate. Qed.

Lemma budget_lift {S A} (o : outcome A) : settled o -> within_budget (@lift S A o).
Proof. intros Ho s. exact Ho. Qed.

Lemma budget_throw {S A} (e : error) : within_budget (@throw S A e).
Proof. intros s. discriminate. Qed.

Lemma budget_get {S} : within_budget (@get S).
Proof. intros s. discriminate. Qed.

Lemma budget_modify {S} (f : S -> S) : within_budget (modify f).
Proof. intros s. discriminate. Qed.

Lemma budget_put {S} (s : S) : within_budget (put s).
Proof. intros s'. discriminate. Qed.

Lemma budget_bind {S A B} (c : M S A) (k : A -> M S B) :
  within_budget c -> (forall a, within_budget (k a)) -> within_budget (bind c k).
Proof.
  intros Hc Hk s. unfold bind. specialize (Hc s).
  destruct (c s) as [[a | e | | w] s']; cbn [fst] in *; try discriminate.
  - apply Hk.
  - now contradiction Hc.
Qed.

Lemma budget_forEach_in {S A} (f : A -> M S unit) (l : list A) :
  (forall a, In a l -> within_budget (f a)) -> within_budget (forEach f l).
Proof.
  induction l as [| a l IH]; intros Hf; cbn [forEach].
  - apply budget_ret.
  - apply budget_bind; [apply Hf; now left | intros _; apply IH].
    intros b Hb. apply Hf. now right.
Qed.

Lemma budget_alloc (o : jsobject) : within_budget (Deserializer.alloc o).
Proof. intros m. discriminate. Qed.

Lemma budget_update (a : nat) (f : jsobject -> outcome jsobject) :
  (forall o, settled (f o)) -> within_budget (Deserializer.update a f).
Proof.
  intros Hf m. unfold Deserializer.update.
  destruct (Deserializer.memory m !! a) as [o |]; [| discriminate].
  specialize (Hf o). destruct (f o); cbn [fst]; try discriminate. now contradiction Hf.
Qed.

(** Closes the goals that follow the shape of the decoder. *)
Ltac budget :=
  repeat
    match goal with
    | |- within_budget (bind _ _) => apply budget_bind; [| intro]
    | |- within_budget (ret _) => apply budget_ret
    | |- within_budget (throw _) => apply budget_throw
    | |- within_budget get => apply budget_get
    | |- within_budget (modify _) => apply budget_modify
    | |- within_budget (put _) => apply budget_put
    | |- within_budget (Deserializer.alloc _) => apply budget_alloc
    | |- within_budget (Deserializer.update _ _) => apply budget_update; intro
    | |- within_budget (lift _) => apply budget_lift
    | |- within_budget (if ?b then _ else _) => destruct b
    | |- within_budget (match ?x with _ => _ end) => destruct x eqn:?
    | |- settled _ =>
        first [unfold settled; discriminate | apply direct_settled; repeat direct_call]
    end.

Section DecoderBudget.

Context (host : Host) (bound : nat)
        (rec : jsstring -> option jsvalue -> M Deserializer.machine jsvalue).
Hypothesis rec_budget :
  forall s name, (length s < bound)%nat -> within_budget (rec s name).

Lemma budget_deserializeEntry (type : jsstring) (into : jsvalue) (entry : list jsstring) :
  (length (nth 0 entry []) < bound)%nat -> (length (nth 1 entry []) < bound)%nat ->
  within_budget (Deserializer.deserializeEntry rec type into entry).
Proof.
  intros Hkey Hval. unfold Deserializer.deserializeEntry, Deserializer.assign_property,
    Deserializer.applyPropertyDescriptorFlags, Deserializer.Map_set, Deserializer.Set_add.
  cbv zeta. budget; now apply rec_budget.
Qed.

Lemma budget_deserializeEntried (serialized type : jsstring) (into : jsvalue) :
  (length serialized <= bound)%nat ->
  within_budget (Deserializer.deserializeEntried rec serialized type into).
Proof.
  intros Hlen. unfold Deserializer.deserializeEntried.
  intros m. unfold bind, lift.
  destruct (Deserializer.extractEntries serialized) as [es | e | | w] eqn:Ees;
    cbn [fst]; try discriminate.
  - assert (Hes : within_budget
                    (forEach (Deserializer.deserializeEntry rec type into) es)).
    { apply budget_forEach_in. intros entry Hin. apply budget_deserializeEntry.
      - pose proof (extractEntries_shorter serialized es entry 0 Ees Hin). lia.
      - pose proof (extractEntries_shorter serialized es entry 1 Ees Hin). lia. }
    specialize (Hes m).
    destruct (forEach _ es m) as [[[] | e | | w] m']; cbn [fst] in *; try discriminate.
    now contradiction Hes.
  - now contradiction (direct_settled _ (direct_extractEntries serialized)).
Qed.

Lemma budget_bind_lift {S A B} (o : outcome A) (k : A -> M S B) :
  settled o -> (forall a, o = Ok a -> within_budget (k a)) -> within_budget (bind (lift o) k).
Proof.
  intros Ho Hk s. unfold bind, lift. destruct o; cbn [fst]; try discriminate.
  - now apply Hk.
  - now contradiction Ho.
Qed.

Lemma budget_deserialize_body (serialized : jsstring) (name : option jsvalue) :
  (length serialized <= bound)%nat ->
  within_budget (Deserializer.deserialize_body host rec serialized name).
Proof.
  intros Hlen. unfold Deserializer.deserialize_body.
  apply budget_bind; [apply budget_modify | intros _].
  apply budget_bind_lift; [apply direct_settled, direct_new | intros info Einfo].
  unfold Deserializer.emptyEntriesHolder, Deserializer.getReference,
    Deserializer.setReference, Deserializer.deserializeFunction,
    Deserializer.deserializeDate.
  cbv zeta. budget;
    (apply budget_deserializeEntried;
     match goal with
     | H : SerializedBlockInfo.serializedValue _ = Some _ |- _ =>
         pose proof (serializedValue_length _ _ _ Einfo H); lia
     end).
Qed.

End DecoderBudget.

Lemma budget_deserialize_ (host : Host) (fuel : nat) (serialized : jsstring)
      (name : option jsvalue) :
  (length serialized < fuel)%nat ->
  within_budget (Deserializer.deserialize_ host fuel serialized name).
Proof.
  revert serialized name. induction fuel as [| fuel IH]; intros serialized name Hlen; [lia |].
  cbn [Deserializer.deserialize_].
  apply (budget_deserialize_body host (length serialized)); [| lia].
  intros s name' Hs. apply IH. lia.
Qed.

Lemma budget_requireAll (requirements rest : list jsstring) (index : Z)
      (provided : list constructor) :
  within_budget (Deserializer.requireAll requirements rest index provided).
Proof.
  revert index. induction rest as [| d rest IH]; intros index; cbn [Deserializer.requireAll].
  - apply budget_ret.
  - unfold Deserializer.setDependency. budget. apply IH.
Qed.

(** The key and the value of an entry are strictly shorter than the
    block they are cut from. *)
Lemma nested_blocks_shorter (block inner part : jsstring) (info : SerializedBlockInfo.t)
      (entries : list (list jsstring)) (entry : list jsstring) :
  SerializedBlockInfo.new block = Ok info ->
  SerializedBlockInfo.serializedValue info = Some inner ->
  Deserializer.extractEntries inner = Ok entries ->
  In entry entries -> In part entry ->
  (length part < length block)%nat.
Proof.
  intros Hinfo Hinner Hentries Hentry Hpart.
  pose proof (serializedValue_length block inner info Hinfo Hinner) as Hlen.
  destruct (In_nth entry part [] Hpart) as (i & _ & <-).
  pose proof (extractEntries_shorter inner entries entry i Hentries Hentry). lia.
Qed.

(** A recursion budget of one more than the length of the text is
    never exhausted. *)
Lemma deserialize_settled (host : Host) (serialized : jsstring)
      (provided : list constructor) (m : Deserializer.machine) :
  settled (fst (Deserializer.deserialize host serialized provided m)).
Proof.
  unfold Deserializer.deserialize, Deserializer.deserialize_with, bind.
  destruct (Deserializer.setupDependencies serialized provided m) as [[s0 | e | | w] m0] eqn:E;
    cbn [fst]; try discriminate.
  - apply budget_deserialize_.
    pose proof (setupDependencies_length _ _ _ _ _ E). lia.
  - assert (H : within_budget (Deserializer.setupDependencies serialized provided)).
    { unfold Deserializer.setupDependencies. cbv zeta. budget. apply budget_requireAll. }
    specialize (H m). rewrite E in H. now contradiction H.
Qed.

(** ** A decoder without function support evaluates nothing *)

Lemma quiet_ret {A} (a : A) : never_evaluates (ret a).
Proof. intros m H. split; [discriminate | exact H]. Qed.

Lemma quiet_lift {A} (o : outcome A) : unevaluated o -> never_evaluates (lift o).
Proof. intros Ho m H. split; [exact Ho | exact H]. Qed.

Lemma quiet_throw {A} (e : error) : never_evaluates (@throw _ A e).
Proof. intros m H. split; [discriminate | exact H]. Qed.

Lemma quiet_get : never_evaluates (@get Deserializer.machine).
Proof. intros m H. split; [discriminate | exact H]. Qed.

Lemma quiet_modify (f : Deserializer.machine -> Deserializer.machine) :
  (forall m, Deserializer.config (Deserializer.this (f m))
             = Deserializer.config (Deserializer.this m)) ->
  never_evaluates (modify f).
Proof.
  intros Hf m H. split; [discriminate |]. unfold functions_off, modify. cbn [snd].
  now rewrite Hf.
Qed.

Lemma quiet_bind {A B} (c : M Deserializer.machine A) (k : A -> M Deserializer.machine B) :
  never_evaluates c -> (forall a, never_evaluates (k a)) -> never_evaluates (bind c k).
Proof.
  intros Hc Hk m H. unfold bind. destruct (Hc m H) as [Ho Hoff].
  destruct (c m) as [[a | e | | w] m']; cbn [fst snd] in *.
  - now apply Hk.
  - split; [discriminate | exact Hoff].
  - split; [discriminate | exact Hoff].
  - split; [| exact Hoff]. intros [= ->]. now apply Ho.
Qed.

Lemma quiet_forEach {A} (f : A -> M Deserializer.machine unit) (l : list A) :
  (forall a, never_evaluates (f a)) -> never_evaluates (forEach f l).
Proof.
  intros Hf. induction l as [| a l IH]; cbn [forEach].
  - apply quiet_ret.
  - apply quiet_bind; [apply Hf | intros _; exact IH].
Qed.

Lemma quiet_alloc (o : jsobject) : never_evaluates (Deserializer.alloc o).
Proof. intros m H. split; [discriminate | exact H]. Qed.

Lemma quiet_update (a : nat) (f : jsobject -> outcome jsobject) :
  (forall o, unevaluated (f o)) -> never_evaluates (Deserializer.update a f).
Proof.
  intros Hf m H. unfold Deserializer.update.
  destruct (Deserializer.memory m !! a) as [o |]; [| split; [discriminate | exact H]].
  specialize (Hf o). destruct (f o); cbn [fst snd]; split; try discriminate; try exact H.
  intros [= ->]. now apply Hf.
Qed.

Lemma quiet_deserializeFunction (s : jsstring) (name : option jsvalue) :
  never_evaluates (Deserializer.deserializeFunction s name).
Proof.
  intros m H. unfold Deserializer.deserializeFunction, bind, get.
  unfold functions_off in H. rewrite H. split; [discriminate | exact H].
Qed.

(** Closes the goals that follow the shape of the decoder. *)
Ltac quiet :=
  repeat
    match goal with
    | |- never_evaluates (bind _ _) => apply quiet_bind; [| intro]
    | |- never_evaluates (ret _) => apply quiet_ret
    | |- never_evaluates (throw _) => apply quiet_throw
    | |- never_evaluates get => apply quiet_get
    | |- never_evaluates (modify _) => apply quiet_modify; reflexivity
    | |- never_evaluates (Deserializer.alloc _) => apply quiet_alloc
    | |- never_evaluates (Deserializer.update _ _) => apply quiet_update; intro
    | |- never_evaluates (Deserializer.deserializeFunction _ _) =>
        apply quiet_deserializeFunction
    | |- never_evaluates (lift _) => apply quiet_lift
    | |- never_evaluates (if ?b then _ else _) => destruct b
    | |- never_evaluates (match ?x with _ => _ end) => destruct x
    | |- unevaluated _ =>
        first [unfold unevaluated; discriminate | apply direct_unevaluated; repeat direct_call]
    end.

Section Quiet.

Context (host : Host) (rec : jsstring -> option jsvalue -> M Deserializer.machine jsvalue).
Hypothesis rec_quiet : forall s name, never_evaluates (rec s name).

Lemma quiet_deserialize_body (serialized : jsstring) (name : option jsvalue) :
  never_evaluates (Deserializer.deserialize_body host rec serialized name).
Proof.
  unfold Deserializer.deserialize_body, Deserializer.deserializeEntried,
    Deserializer.emptyEntriesHolder, Deserializer.getReference, Deserializer.setReference,
    Deserializer.deserializeDate, Deserializer.tick.
  cbv zeta. quiet;
    (apply quiet_forEach; intros entry;
     unfold Deserializer.deserializeEntry, Deserializer.assign_property,
       Deserializer.applyPropertyDescriptorFlags, Deserializer.Map_set, Deserializer.Set_add;
     cbv zeta; quiet; apply rec_quiet).
Qed.

End Quiet.

Lemma quiet_deserialize_ (host : Host) (fuel : nat) (s : jsstring) (name : option jsvalue) :
  never_evaluates (Deserializer.deserialize_ host fuel s name).
Proof.
  revert s name. induction fuel as [| fuel IH]; intros s name; cbn [Deserializer.deserialize_].
  - apply quiet_lift. discriminate.
  - now apply quiet_deserialize_body.
Qed.

Lemma quiet_requireAll (requirements rest : list jsstring) (index : Z)
      (provided : list constructor) :
  never_evaluates (Deserializer.requireAll requirements rest index provided).
Proof.
  revert index. induction rest as [| d rest IH]; intros index; cbn [Deserializer.requireAll].
  - apply quiet_ret.
  - unfold Deserializer.setDependency. quiet. apply IH.
Qed.

Lemma quiet_deserialize (host : Host) (serialized : jsstring)
      (provided : list constructor) :
  never_evaluates (Deserializer.deserialize host serialized provided).
Proof.
  unfold Deserializer.deserialize, Deserializer.deserialize_with.
  apply quiet_bind; [| intros s; apply quiet_deserialize_].
  unfold Deserializer.setupDependencies. cbv zeta. quiet. apply quiet_requireAll.
Qed.

(** X18. The recursion of [deserialize] ends on a decoder whose
    function support is off (the default), whatever the text and the
    provided constructors: the key and the value blocks that
    [#deserialize] hands to its recursive calls are strictly shorter
    than the block they are cut from (whatever the configuration), so
    that the call never exhausts a recursion depth of one more than
    the length of the text, and it never reaches the [eval] of
    [deserializeFunction]: it returns, throws, or stops at a host
    operation that this development leaves open, such as [BigInt()]
    of a malformed numeral. *)
Theorem deserialize_terminates (host : Host) (serialized : jsstring)
        (provided : list constructor) (m : Deserializer.machine) :
  functions_off m ->
  direct (fst (Deserializer.deserialize host serialized provided m))
  /\ (forall (block inner part : jsstring) (info : SerializedBlockInfo.t)
             (entries : list (list jsstring)) (entry : list jsstring),
        SerializedBlockInfo.new block = Ok info ->
        SerializedBlockInfo.serializedValue info = Some inner ->
        Deserializer.extractEntries inner = Ok entries ->
        In entry entries -> In part entry ->
        (length part < length block)%nat).
Proof.
  intros Hoff. split; [split |].
  - apply deserialize_settled.
  - now apply quiet_deserialize.
  - intros block inner part info entries entry. apply nested_blocks_shorter.
Qed.

(** The statement at the text of an object that holds an array, on a
    new decoder, and at the value block of its entry. *)
Lemma deserialize_terminates_witness :
  direct (fst (Deserializer.deserialize bitpattern_host (str "3|{[1|a]%28:4|{}}") []
                 (Deserializer.fresh DEFAULT_SHARED_CONFIGURATION)))
  /\ (length (str "4|{}") < length (str "3|{[1|a]%28:4|{}}"))%nat.
Proof.
  destruct (deserialize_terminates bitpattern_host (str "3|{[1|a]%28:4|{}}") []
              (Deserializer.fresh DEFAULT_SHARED_CONFIGURATION) eq_refl) as [Hends Hshorter].
  split; [exact Hends |].
  eapply (Hshorter (str "3|{[1|a]%28:4|{}}") (str "{[1|a]%28:4|{}}") (str "4|{}")).
  - reflexivity.
  - reflexivity.
  - reflexivity.
  - left. reflexivity.
  - right. left. reflexivity.
Defined.

(** X19. A decoder whose function support is off (the default)
    evaluates no source text: whatever the text and the provided
    constructors, no [deserialize] call reaches the [eval] of
    [deserializeFunction], and function support is still off after
    the call, whether it returned or threw. *)
Theorem functions_never_evaluated (host : Host) (serialized : jsstring)
        (provided : list constructor) (m : Deserializer.machine) :
  functions_off m ->
  unevaluated (fst (Deserializer.deserialize host serialized provided m))
  /\ functions_off (snd (Deserializer.deserialize host serialized provided m)).
Proof.
  revert m. change (never_evaluates (Deserializer.deserialize host serialized provided)).
  unfold Deserializer.deserialize, Deserializer.deserialize_with.
  apply quiet_bind; [| intros s; apply quiet_deserialize_].
  unfold Deserializer.setupDependencies. cbv zeta. quiet. apply quiet_requireAll.
Qed.

(** The statement at the text of a function on a new decoder: the
    call throws. *)
Lemma functions_never_evaluated_witness :
  unevaluated (fst (Deserializer.deserialize bitpattern_host (str "9|f~function()&123;&125;")
                      [] (Deserializer.fresh DEFAULT_SHARED_CONFIGURATION)))
  /\ functions_off (snd (Deserializer.deserialize bitpattern_host
                           (str "9|f~function()&123;&125;") []
                           (Deserializer.fresh DEFAULT_SHARED_CONFIGURATION))).
Proof.
  apply (functions_never_evaluated bitpattern_host (str "9|f~function()&123;&125;") []
           (Deserializer.fresh DEFAULT_SHARED_CONFIGURATION)).
  reflexivity.
Defined.

(** ** The recursion of the encoder ends *)

Local Open Scope nat_scope.

Lemma filter_length_le {A} (p q : A -> bool) (l : list A) :
  (forall x, In x l -> q x = true -> p x = true) ->
  length (List.filter q l) <= length (List.filter p l).
Proof.
  induction l as [| x l IH]; intros H; [reflexivity |]. cbn [List.filter].
  assert (IH' : length (List.filter q l) <= length (List.filter p l)).
  { apply IH. intros y Hy. apply H. now right. }
  destruct (q x) eqn:Eq.
  - rewrite (H x (or_introl eq_refl) Eq). cbn [length]. lia.
  - destruct (p x); cbn [length]; lia.
Qed.

Lemma filter_length_lt {A} (p q : A -> bool) (l : list A) (x : A) :
  (forall y, In y l -> q y = true -> p y = true) ->
  In x l -> p x = true -> q x = false ->
  length (List.filter q l) < length (List.filter p l).
Proof.
  induction l as [| y l IH]; intros H Hin Hp Hq; [destruct Hin |]. cbn [List.filter].
  assert (Hle : length (List.filter q l) <= length (List.filter p l)).
  { apply filter_length_le. intros z Hz. apply H. now right. }
  destruct Hin as [-> | Hin].
  - rewrite Hp, Hq. cbn [length]. lia.
  - assert (IH' : length (List.filter q l) < length (List.filter p l)).
    { apply IH; try assumption. intros z Hz. apply H. now right. }
    destruct (q y) eqn:Eq.
    + rewrite (H y (or_introl eq_refl) Eq). cbn [length]. lia.
    + destruct (p y); cbn [length]; lia.
Qed.

Lemma map_get_app (value : jsvalue) (table extra : list (jsvalue * N)) (id : N) :
  Serializer.map_get value table = Some id ->
  Serializer.map_get value (table ++ extra) = Some id.
Proof.
  induction table as [| [k i] table IH]; [discriminate |]. cbn [app Serializer.map_get].
  destruct (sameValueZero k value); [trivial | exact IH].
Qed.

Lemma marked_app (table extra : list (jsvalue * N)) (a : nat) :
  marked table a = true -> marked (table ++ extra) a = true.
Proof.
  unfold marked. destruct (Serializer.map_get (VObject a) table) as [id |] eqn:E;
    [| discriminate].
  now rewrite (map_get_app _ _ extra _ E).
Qed.

Lemma marked_new (table : list (jsvalue * N)) (a : nat) (id : N) :
  marked (table ++ [(VObject a, id)]) a = true.
Proof.
  unfold marked. induction table as [| [k i] table IH]; cbn [app Serializer.map_get].
  - unfold sameValueZero. now rewrite bool_decide_eq_true_2.
  - destruct (sameValueZero k (VObject a)); [reflexivity | exact IH].
Qed.

Lemma unmarked_same (h : heap) (st st' : Serializer.state) :
  Serializer.reference_value_map st' = Serializer.reference_value_map st ->
  unmarked h st' = unmarked h st.
Proof. intros E. unfold unmarked. now rewrite E. Qed.

Lemma unmarked_app (h : heap) (st st' : Serializer.state) (extra : list (jsvalue * N)) :
  Serializer.reference_value_map st' = Serializer.reference_value_map st ++ extra ->
  unmarked h st' <= unmarked h st.
Proof.
  intros E. unfold unmarked. rewrite E. apply filter_length_le. intros a _ Ha.
  apply negb_true_iff in Ha. apply negb_true_iff.
  destruct (marked (Serializer.reference_value_map st) a) eqn:Em; [| reflexivity].
  now rewrite marked_app in Ha.
Qed.

Lemma unmarked_new (h : heap) (st st' : Serializer.state) (a : nat) (id : N) :
  a < length h ->
  marked (Serializer.reference_value_map st) a = false ->
  Serializer.reference_value_map st'
  = Serializer.reference_value_map st ++ [(VObject a, id)] ->
  unmarked h st' < unmarked h st.
Proof.
  intros Ha Hfresh E. unfold unmarked. rewrite E. apply (filter_length_lt _ _ _ a).
  - intros b _ Hb. apply negb_true_iff in Hb. apply negb_true_iff.
    destruct (marked (Serializer.reference_value_map st) b) eqn:Em; [| reflexivity].
    now rewrite marked_app in Hb.
  - apply in_seq. lia.
  - now rewrite Hfresh.
  - now rewrite marked_new.
Qed.

Lemma unmarked_length (h : heap) (st : Serializer.state) : unmarked h st <= length h.
Proof.
  unfold unmarked. etransitivity; [apply List.filter_length_le |]. now rewrite length_seq.
Qed.

Section Safe.

Context (host : Host) (h : heap) (k : nat).

Lemma safe_ret {A} (a : A) : safe h k (ret a).
Proof. intros st H. split; [discriminate | exact H]. Qed.

Lemma safe_lift {A} (o : outcome A) : settled o -> safe h k (lift o).
Proof. intros Ho st H. split; [exact Ho | exact H]. Qed.

Lemma safe_bind {A B} (c : M Serializer.state A) (f : A -> M Serializer.state B) :
  safe h k c -> (forall a, safe h k (f a)) -> safe h k (bind c f).
Proof.
  intros Hc Hf st H. unfold bind. destruct (Hc st H) as [Ho Hst].
  destruct (c st) as [[a | e | | w] st']; cbn [fst snd] in *.
  - now apply Hf.
  - split; [discriminate | exact Hst].
  - now contradiction Ho.
  - split; [discriminate | exact Hst].
Qed.

Lemma safe_tick : safe h k Serializer.tick.
Proof. intros st H. split; [discriminate | exact H]. Qed.

Lemma safe_shorthandConstructor (c : constructor) : safe h k (Serializer.shorthandConstructor c).
Proof.
  intros st H. destruct c as [n | c]; cbn [Serializer.shorthandConstructor].
  - split; [discriminate | exact H].
  - unfold bind, get, put, ret. destruct (Serializer.index_of _ _ _);
      (split; [discriminate | exact H]).
Qed.

Lemma safe_serializeFunction (o : jsobject) : safe h k (Serializer.serializeFunction o).
Proof.
  intros st H. unfold Serializer.serializeFunction, bind, get, throw, lift, ret.
  destruct (negb _); [split; [discriminate | exact H] |].
  destruct (internal o); try (split; [discriminate | exact H]).
  destruct (negb _); (split; [discriminate | exact H]).
Qed.

Lemma direct_propertyDescriptorFlag (o : jsobject) (key : jsvalue) :
  direct (Serializer.propertyDescriptorFlag o key).
Proof.
  unfold Serializer.propertyDescriptorFlag. settle; apply direct_create.
Qed.

Lemma direct_entries (o : jsobject) : direct (Serializer.entries o).
Proof. unfold Serializer.entries. settle. Qed.

Lemma direct_serializeDate (o : jsobject) : direct (Serializer.serializeDate o).
Proof. unfold Serializer.serializeDate. settle. Qed.

Lemma direct_serializeSymbol (s : jssymbol) : direct (Serializer.serializeSymbol s).
Proof. unfold Serializer.serializeSymbol. settle. Qed.

Lemma direct_prototypeConstructor (value : jsvalue) :
  direct (Serializer.prototypeConstructor h value).
Proof. unfold Serializer.prototypeConstructor. settle. Qed.

Section Calls.

Context (rec : jsvalue -> M Serializer.state jsstring).
Hypothesis rec_safe : forall value, safe h k (rec value).

Lemma safe_serializeObjectKeyIndex (o : jsobject) (key : jsvalue) :
  safe h k (Serializer.serializeObjectKeyIndex rec o key).
Proof.
  unfold Serializer.serializeObjectKeyIndex. cbv zeta.
  apply safe_bind; [apply rec_safe | intros sk].
  apply safe_bind; [apply safe_lift, direct_settled, direct_propertyDescriptorFlag | intros f].
  apply safe_ret.
Qed.

Lemma safe_reduce_entries (o : jsobject) (es : list (jsvalue * jsvalue)) (index : Z)
      (output : jsstring) :
  safe h k (Serializer.reduce_entries rec o es index output).
Proof.
  revert index output. induction es as [| [key val] es IH]; intros index output;
    cbn [Serializer.reduce_entries].
  - apply safe_ret.
  - apply safe_bind; [apply safe_serializeObjectKeyIndex | intros sk].
    apply safe_bind; [apply rec_safe | intros sv]. apply IH.
Qed.

Lemma safe_serializeObject (o : jsobject) : safe h k (Serializer.serializeObject rec o).
Proof.
  unfold Serializer.serializeObject.
  apply safe_bind; [apply safe_lift, direct_settled, direct_entries | intros es].
  apply safe_bind; [apply safe_reduce_entries | intros s]. apply safe_ret.
Qed.

End Calls.

(** The callback of [mark]: the recursion is entered for an object
    of the heap only. *)
Lemma safe_serialize_body (rec : jsvalue -> M Serializer.state jsstring) (value : jsvalue) :
  (forall a o, value = VObject a -> h !! a = Some o -> forall v, safe h k (rec v)) ->
  safe h k (Serializer.serialize_body host h rec value).
Proof.
  intros Hrec. unfold Serializer.serialize_body.
  apply safe_bind; [apply safe_tick | intros _].
  destruct value as [| | b | n | s | i | s | a]; try apply safe_ret;
    (apply safe_bind; [apply safe_lift, direct_settled, direct_prototypeConstructor | intros c]);
    (apply safe_bind; [apply safe_shorthandConstructor | intros tag]); try apply safe_ret.
  - apply safe_bind; [apply safe_lift, direct_settled, direct_serializeSymbol | intros t].
    apply safe_ret.
  - destruct (h !! a) as [o |] eqn:Eo; [| apply safe_lift; discriminate].
    destruct (instanceOf o DateC).
    + apply safe_bind; [apply safe_lift, direct_settled, direct_serializeDate | intros t].
      apply safe_ret.
    + destruct (Serializer.is_callable o).
      * apply safe_bind; [apply safe_serializeFunction | intros t]. apply safe_ret.
      * apply safe_bind; [| intros t; apply safe_ret].
        apply safe_serializeObject. exact (Hrec a o eq_refl Eo).
Qed.

End Safe.

Lemma safe_le {A} (h : heap) (k k' : nat) (c : M Serializer.state A) (st : Serializer.state) :
  safe h k c -> unmarked h st <= k -> k <= k' ->
  settled (fst (c st)) /\ unmarked h (snd (c st)) <= k'.
Proof. intros Hc Hst Hk. destruct (Hc st Hst) as [Ho Hn]. split; [exact Ho | lia]. Qed.

(** With more fuel than unmarked objects [#serialize] stays within
    the budget. *)
Lemma safe_serialize_ (host : Host) (h : heap) (fuel : nat) :
  forall k value, k < fuel -> safe h k (Serializer.serialize_ host h fuel value).
Proof.
  induction fuel as [| fuel IH]; intros k value Hk; [lia |].
  cbn [Serializer.serialize_]. intros st Hst.
  unfold Serializer.mark, bind, get, put, ret.
  destruct (Serializer.map_get value (Serializer.reference_value_map st)) as [id |] eqn:Eid.
  - split; [discriminate | exact Hst].
  - set (st1 := {| Serializer.config := Serializer.config st;
                   Serializer.ticks := Serializer.ticks st;
                   Serializer.reference_ids := (Serializer.reference_ids st + 1)%N;
                   Serializer.reference_value_map :=
                     if negb (is_zero value)
                     then Serializer.reference_value_map st ++ [(value, Serializer.reference_ids st)]
                     else Serializer.reference_value_map st;
                   Serializer.reference_usage := Serializer.reference_usage st;
                   Serializer.custom_constructors := Serializer.custom_constructors st |}).
    assert (Hbody : settled (fst (Serializer.serialize_body host h
                                    (Serializer.serialize_ host h fuel) value st1))
                    /\ unmarked h (snd (Serializer.serialize_body host h
                                          (Serializer.serialize_ host h fuel) value st1)) <= k).
    { assert (Hle : (unmarked h st1 <= unmarked h st)%nat).
      { assert (Hext : exists extra, Serializer.reference_value_map st1
                                     = Serializer.reference_value_map st ++ extra).
        { cbn. destruct (negb (is_zero value));
            [eexists; reflexivity | exists []; now rewrite app_nil_r]. }
        destruct Hext as [extra Hext]. exact (unmarked_app h st st1 extra Hext). }
      destruct (match value with VObject a => h !! a | _ => None end) as [o |] eqn:Elive.
      - destruct value as [| | b | n | s | i | s | a]; try discriminate.
        assert (Hless : (unmarked h st1 < unmarked h st)%nat).
        { apply (unmarked_new h st st1 a (Serializer.reference_ids st)).
          - now apply lookup_lt_Some in Elive.
          - unfold marked. now rewrite Eid.
          - reflexivity. }
        apply (safe_le h (k - 1) k); [| lia | lia].
        apply safe_serialize_body. intros _ _ _ _ v. apply IH. lia.
      - apply (safe_le h k k); [| lia | lia].
        apply safe_serialize_body. intros a o -> Ho. congruence. }
    destruct (Serializer.serialize_body host h (Serializer.serialize_ host h fuel) value st1)
      as [[body | e | | w] st2]; cbn [fst snd] in *; destruct Hbody as [Ho Hn];
      (split; [discriminate || exact Ho | exact Hn]).
Qed.

Local Close Scope nat_scope.

(** X20. The recursion of [serialize] ends on every heap, cyclic or
    not: an object is marked before its entries are visited, so the
    recursion never goes deeper than the number of objects plus one,
    and a call returns or throws (or leaves what the embedding
    covers) without exhausting that budget. *)
Theorem serialize_terminates (host : Host) (h : heap) (value : jsvalue)
        (st : Serializer.state) :
  settled (fst (Serializer.serialize host h value st)).
Proof.
  unfold Serializer.serialize, Serializer.serialize_with, Serializer.wipe.
  unfold bind at 1, get at 1. unfold bind at 1, put. unfold bind at 1, get at 1.
  cbn [Serializer.new Serializer.config].
  destruct (Metadata (Serializer.config st)); [discriminate |].
  unfold bind at 1.
  destruct (safe_serialize_ host h (S (length h)) (length h) value (Nat.lt_succ_diag_r _)
              (Serializer.new (Serializer.config st)) (unmarked_length h _)) as [Ho _].
  destruct (Serializer.serialize_ host h (S (length h)) value _) as [[text | e | | w] st'];
    cbn [fst] in *; try discriminate. now contradiction Ho.
Qed.

(** ** The table of ids *)

Lemma records_ret {A} (a : A) : records (ret a).
Proof. intros st. exists []. split; [now rewrite app_nil_r | constructor]. Qed.

Lemma records_lift {A} (o : outcome A) : records (lift o).
Proof. intros st. exists []. split; [now rewrite app_nil_r | constructor]. Qed.

Lemma records_same {A} (c : M Serializer.state A) :
  (forall st, Serializer.reference_value_map (snd (c st)) = Serializer.reference_value_map st) ->
  records c.
Proof. intros H st. exists []. split; [now rewrite app_nil_r | constructor]. Qed.

Lemma records_bind {A B} (c : M Serializer.state A) (f : A -> M Serializer.state B) :
  records c -> (forall a, records (f a)) -> records (bind c f).
Proof.
  intros Hc Hf st. unfold bind. destruct (Hc st) as (e1 & E1 & Z1).
  destruct (c st) as [[a | e | | w] st']; cbn [snd] in *; try (exists e1; now split).
  destruct (Hf a st') as (e2 & E2 & Z2). exists (e1 ++ e2). split.
  - now rewrite E2, E1, app_assoc.
  - apply Forall_app. now split.
Qed.

Lemma records_tick : records Serializer.tick.
Proof. apply records_same. reflexivity. Qed.

Lemma records_shorthandConstructor (c : constructor) :
  records (Serializer.shorthandConstructor c).
Proof.
  apply records_same. intros st. destruct c as [n | c]; [reflexivity |].
  cbn [Serializer.shorthandConstructor]. unfold bind, get, put, ret.
  now destruct (Serializer.index_of _ _ _).
Qed.

Lemma records_serializeFunction (o : jsobject) : records (Serializer.serializeFunction o).
Proof.
  apply records_same. intros st. unfold Serializer.serializeFunction, bind, get, throw, lift, ret.
  destruct (negb _); [reflexivity |]. destruct (internal o); try reflexivity.
  now destruct (negb _).
Qed.

Section Records.

Context (host : Host) (h : heap) (rec : jsvalue -> M Serializer.state jsstring).
Hypothesis rec_records : forall value, records (rec value).

Lemma records_reduce_entries (o : jsobject) (es : list (jsvalue * jsvalue)) (index : Z)
      (output : jsstring) :
  records (Serializer.reduce_entries rec o es index output).
Proof.
  revert index output. induction es as [| [key val] es IH]; intros index output;
    cbn [Serializer.reduce_entries].
  - apply records_ret.
  - unfold Serializer.serializeObjectKeyIndex. cbv zeta.
    repeat first [apply rec_records | apply records_lift | apply records_ret | apply IH
                 | apply records_bind; [| intro]].
Qed.

Lemma records_serialize_body (value : jsvalue) :
  records (Serializer.serialize_body host h rec value).
Proof.
  unfold Serializer.serialize_body, Serializer.serializeObject.
  apply records_bind; [apply records_tick | intros _].
  destruct value;
    repeat first [apply records_shorthandConstructor | apply records_serializeFunction
                 | apply records_reduce_entries
                 | apply records_lift | apply records_ret | apply records_bind; [| intro]
                 | match goal with
                   | |- records (match ?x with _ => _ end) => destruct x
                   | |- records (if ?b then _ else _) => destruct b
                   end].
Qed.

End Records.

Lemma records_mark (value : jsvalue) (serialize : M Serializer.state jsstring) :
  records serialize -> records (Serializer.mark value serialize).
Proof.
  intros Hs st. unfold Serializer.mark, bind, get, put, ret.
  destruct (Serializer.map_get value (Serializer.reference_value_map st)).
  - exists []. split; [now rewrite app_nil_r | constructor].
  - match goal with |- context [serialize ?s] => destruct (Hs s) as (e & E & Z);
      destruct (serialize s) as [[body | err | | w] st2] end;
      cbn [snd Serializer.reference_value_map] in *;
      (destruct (negb (is_zero value)) eqn:Ez;
       [ exists ((value, Serializer.reference_ids st) :: e); split;
         [ now rewrite E, <- app_assoc
         | constructor; [now apply negb_true_iff in Ez | exact Z] ]
       | exists e; now split ]).
Qed.

Lemma records_serialize_ (host : Host) (h : heap) (fuel : nat) (value : jsvalue) :
  records (Serializer.serialize_ host h fuel value).
Proof.
  revert value. induction fuel as [| fuel IH]; intros value; cbn [Serializer.serialize_].
  - apply records_lift.
  - apply records_mark. now apply records_serialize_body.
Qed.

Lemma sameValueZero_refl (value : jsvalue) : sameValueZero value value = true.
Proof.
  unfold sameValueZero. destruct value as [| | | [| | |] | | | |];
    try reflexivity; now apply bool_decide_eq_true_2.
Qed.

Lemma map_get_new (value : jsvalue) (table : list (jsvalue * N)) (id : N) :
  exists id', Serializer.map_get value (table ++ [(value, id)]) = Some id'.
Proof.
  induction table as [| [k i] table IH]; cbn [app Serializer.map_get].
  - rewrite sameValueZero_refl. eauto.
  - destruct (sameValueZero k value); eauto.
Qed.

Lemma map_get_zero (sign : bool) (table : list (jsvalue * N)) :
  Forall (fun entry => is_zero (fst entry) = false) table ->
  Serializer.map_get (VNumber (Zero sign)) table = None.
Proof.
  induction 1 as [| [k i] table Hk _ IH]; [reflexivity |]. cbn [Serializer.map_get].
  cbn [fst] in Hk. replace (sameValueZero k (VNumber (Zero sign))) with false; [exact IH |].
  symmetry. unfold sameValueZero.
  destruct k as [| | | [| | |] | | | |]; try discriminate Hk;
    apply bool_decide_eq_false_2; discriminate.
Qed.

(** The first visit of a value other than [0] leaves it in the
    table. *)
Lemma mark_records_value (host : Host) (h : heap) (fuel : nat) (value : jsvalue)
      (st st' : Serializer.state) (text : jsstring) :
  Serializer.serialize_ host h fuel value st = (Ok text, st') -> is_zero value = false ->
  exists id, Serializer.map_get value (Serializer.reference_value_map st') = Some id.
Proof.
  destruct fuel as [| fuel]; [discriminate |]. cbn [Serializer.serialize_].
  unfold Serializer.mark, bind, get, put, ret. intros H Hz.
  destruct (Serializer.map_get value (Serializer.reference_value_map st)) as [id |] eqn:Eid.
  - injection H as _ <-. eauto.
  - rewrite Hz in H. cbn [negb] in H.
    match type of H with context [Serializer.serialize_body ?a ?b ?c ?d ?s] =>
      destruct (records_serialize_body a b c (records_serialize_ a b fuel) d s) as (e & E & _);
      destruct (Serializer.serialize_body a b c d s) as [[body | err | | w] st2] end;
      try discriminate.
    injection H as _ <-. cbn [snd Serializer.reference_value_map] in E.
    destruct (map_get_new value (Serializer.reference_value_map st)
                (Serializer.reference_ids st)) as [id Hid].
    exists id. rewrite E. now apply map_get_app.
Qed.

(** X21. Sharing: once [#serialize] has returned for a value other
    than [0], every later [#serialize] of that value in the same pass
    (here after one more call, for any other value) returns the
    pointer [#<id>] of one and the same id and changes nothing but
    the use counter. *)
Theorem second_visit_is_pointer (host : Host) (h : heap) (fuel fuel' fuel'' : nat)
        (value other : jsvalue) (st st1 st2 : Serializer.state) (text text' : jsstring) :
  is_zero value = false ->
  Serializer.serialize_ host h fuel value st = (Ok text, st1) ->
  Serializer.serialize_ host h fuel' other st1 = (Ok text', st2) ->
  exists id,
    Serializer.serialize_ host h (S fuel'') value st1
    = (Ok (Tok.REFERENCE_POINTER ++ decimal id), used st1)
    /\ Serializer.serialize_ host h (S fuel'') value st2
       = (Ok (Tok.REFERENCE_POINTER ++ decimal id), used st2).
Proof.
  intros Hz Hfirst Hother.
  destruct (mark_records_value host h fuel value st st1 text Hfirst Hz) as [id Hid].
  exists id. split.
  - cbn [Serializer.serialize_]. unfold Serializer.mark, bind, get, put, ret.
    now rewrite Hid.
  - destruct (records_serialize_ host h fuel' other st1) as (e & E & _).
    rewrite Hother in E. cbn [snd] in E.
    assert (Hid2 : Serializer.map_get value (Serializer.reference_value_map st2) = Some id)
      by (rewrite E; now apply map_get_app).
    cbn [Serializer.serialize_]. unfold Serializer.mark, bind, get, put, ret.
    now rewrite Hid2.
Qed.

(** X22. [0] and [-0] never become pointers: in a pass that started
    on a new encoder, whatever was serialized before, [#serialize] of
    a zero declares a fresh id in front of its payload, so that the
    sign is written out each time. *)
Theorem zero_is_never_a_pointer (host : Host) (h : heap) (fuel fuel' : nat)
        (value : jsvalue) (config : configuration) (st' : Serializer.state)
        (text : jsstring) (sign : bool) :
  Serializer.serialize_ host h fuel value (Serializer.new config) = (Ok text, st') ->
  fst (Serializer.serialize_ host h (S fuel') (VNumber (Zero sign)) st')
  = Ok (Tok.REFERENCE_DECLARARION_S ++ decimal (Serializer.reference_ids st')
        ++ Tok.REFERENCE_DECLARATION_E ++ ShorthandType.NUMBER ++ Tok.TYPE_SEPERATOR
        ++ Serializer.serializeNumber host (Zero sign)).
Proof.
  intros Hfirst.
  destruct (records_serialize_ host h fuel value (Serializer.new config)) as (e & E & Z).
  rewrite Hfirst in E. cbn [snd Serializer.new Serializer.reference_value_map app] in E.
  assert (Hnone : Serializer.map_get (VNumber (Zero sign)) (Serializer.reference_value_map st')
                  = None) by (rewrite E; now apply map_get_zero).
  cbn [Serializer.serialize_]. unfold Serializer.mark, bind, get, put, ret.
  rewrite Hnone. reflexivity.
Qed.

(** The statement at the strings ["a"] and then ["b"] on a new
    encoder: ["a"] is [#0] afterwards. *)
Lemma second_visit_is_pointer_witness :
  exists id,
    Serializer.serialize_ bitpattern_host [] 1 (VString (str "a")) after_a
    = (Ok (Tok.REFERENCE_POINTER ++ decimal id), used after_a)
    /\ Serializer.serialize_ bitpattern_host [] 1 (VString (str "a")) after_a_b
       = (Ok (Tok.REFERENCE_POINTER ++ decimal id), used after_a_b).
Proof.
  apply (second_visit_is_pointer bitpattern_host [] 1 1 0 (VString (str "a"))
           (VString (str "b")) (Serializer.new DEFAULT_SHARED_CONFIGURATION)
           after_a after_a_b (str "@0=1|a") (str "@1=1|b")).
  - reflexivity.
  - vm_compute. reflexivity.
  - vm_compute. reflexivity.
Defined.

(** The statement at [-0] after the string ["a"] on a new encoder. *)
Lemma zero_is_never_a_pointer_witness :
  fst (Serializer.serialize_ bitpattern_host [] 1 (VNumber (Zero true)) after_a)
  = Ok (str "@1=2|-0").
Proof.
  apply (zero_is_never_a_pointer bitpattern_host [] 1 0 (VString (str "a"))
           DEFAULT_SHARED_CONFIGURATION after_a (str "@0=1|a") true).
  vm_compute. reflexivity.
Defined.

(** ** The dependency list *)

Lemma indexOf_from_found2 (c d : N) (before rest : jsstring) (i : Z) :
  free_of c before ->
  indexOf_from [c; d] (before ++ c :: d :: rest) i = i + Z.of_nat (length before).
Proof.
  revert i. induction before as [| x before IH]; intros i H.
  - cbn [app indexOf_from startsWith length]. unfold unit_eqb. rewrite !N.eqb_refl.
    cbn [andb]. lia.
  - apply free_of_cons in H as [Hx H]. cbn [app indexOf_from].
    rewrite startsWith_head by (cbn; congruence).
    rewrite IH by assumption. cbn [length]. lia.
Qed.

Lemma slice_between (a b c : jsstring) :
  slice (a ++ b ++ c) (Z.of_nat (length a)) (Z.of_nat (length a) + Z.of_nat (length b)) = b.
Proof.
  rewrite slice_inside by (rewrite ?length_app; lia).
  rewrite Nat2Z.id, skipn_app_length.
  replace (Z.to_nat (Z.of_nat (length a) + Z.of_nat (length b) - Z.of_nat (length a)))
    with (length b) by lia.
  rewrite firstn_app, Nat.sub_diag, firstn_all. cbn [firstn]. apply app_nil_r.
Qed.

Lemma split_go_run (sep : N) (p rest cur : jsstring) :
  free_of sep p -> split_go sep (p ++ rest) cur = split_go sep rest (rev p ++ cur).
Proof.
  revert cur. induction p as [| x p IH]; intros cur H; [reflexivity |].
  apply free_of_cons in H as [Hx H]. cbn [app split_go].
  replace (unit_eqb x sep) with false by (symmetry; apply N.eqb_neq; exact Hx).
  rewrite IH by assumption. cbn [rev]. now rewrite <- app_assoc.
Qed.

(** [split] undoes [join] on parts without the separator. *)
Lemma split_join (sep : N) (parts : list jsstring) :
  parts <> [] -> Forall (free_of sep) parts -> split (join [sep] parts) sep = parts.
Proof.
  intros Hne Hparts. unfold split. induction Hparts as [| p parts Hp Hparts IH]; [congruence |].
  destruct parts as [| q parts].
  - pose proof (split_go_run sep p [] [] Hp) as E. rewrite !app_nil_r in E.
    cbn [join]. rewrite E. cbn [split_go]. now rewrite rev_involutive.
  - change (join [sep] (p :: q :: parts)) with (p ++ sep :: join [sep] (q :: parts)).
    rewrite split_go_run by assumption. cbn [split_go]. unfold unit_eqb.
    rewrite N.eqb_refl, app_nil_r, rev_involutive. f_equal. apply IH. discriminate.
Qed.

Lemma join_free (c sep : N) (parts : list jsstring) :
  sep <> c -> Forall (free_of c) parts -> free_of c (join [sep] parts).
Proof.
  intros Hsep. induction 1 as [| p parts Hp Hparts IH]; [intros [] |].
  destruct parts as [| q parts]; [exact Hp |].
  change (join [sep] (p :: q :: parts)) with (p ++ sep :: join [sep] (q :: parts)).
  apply free_of_app. split; [exact Hp |]. apply free_of_cons. split; [exact Hsep | exact IH].
Qed.

Lemma unescape_other (c : N) (t : jsstring) :
  c <> 38%N -> Deserializer.unescape (c :: t) = c :: Deserializer.unescape t.
Proof.
  intros Hc. unfold Deserializer.unescape, RegExp.replaceAll. cbn [RegExp.replace_go].
  change Tok.ESCAPE_S with [38%N]. now rewrite digits_between_opens by (cbn; congruence).
Qed.

(** Without ['&'] there is nothing to unescape. *)
Lemma unescape_free (s : jsstring) : free_of 38 s -> Deserializer.unescape s = s.
Proof.
  induction s as [| c s IH]; [reflexivity |]. intros H.
  apply free_of_cons in H as [Hc H]. rewrite unescape_other by exact Hc. now rewrite IH.
Qed.

Lemma list_lastIndexOf_absent (x : jsstring) (l : list jsstring) (i last : Z) :
  ~ In x l -> Deserializer.list_lastIndexOf x l i last = last.
Proof.
  revert i last. induction l as [| y l IH]; intros i last H; [reflexivity |].
  cbn [Deserializer.list_lastIndexOf].
  rewrite string_eqb_neq by (intros ->; apply H; now left).
  apply IH. intros Hin. apply H. now right.
Qed.

Lemma list_lastIndexOf_found (x : jsstring) (before after : list jsstring) (i last : Z) :
  ~ In x after ->
  Deserializer.list_lastIndexOf x (before ++ x :: after) i last = i + Z.of_nat (length before).
Proof.
  intros H. revert i last. induction before as [| y before IH]; intros i last.
  - cbn [app Deserializer.list_lastIndexOf length]. rewrite string_eqb_refl.
    rewrite list_lastIndexOf_absent by assumption. lia.
  - cbn [app Deserializer.list_lastIndexOf length]. rewrite IH. lia.
Qed.

Lemma requireAll_binds (provided : list constructor) (names : list jsstring) :
  NoDup names ->
  forall (rest done : list jsstring) (m : Deserializer.machine),
    names = done ++ rest ->
    Forall (fun name => provided_for provided name <> None) rest ->
    exists m',
      Deserializer.requireAll names rest (Z.of_nat (length done)) provided m = (Ok tt, m')
      /\ same_but_dependencies m m'
      /\ (forall (i : nat) (name : jsstring),
             rest !! i = Some name ->
             Deserializer.dependencies (Deserializer.this m') !! N.of_nat (length done + i)
             = provided_for provided name)
      /\ (forall k : N,
             (k < N.of_nat (length done))%N \/ (N.of_nat (length names) <= k)%N ->
             Deserializer.dependencies (Deserializer.this m') !! k
             = Deserializer.dependencies (Deserializer.this m) !! k).
Proof.
  intros Hnd rest. induction rest as [| d rest IH]; intros done m Hnames Hall.
  - exists m. cbn [Deserializer.requireAll]. unfold same_but_dependencies.
    repeat split; try reflexivity. intros i name H. discriminate H.
  - apply Forall_cons in Hall as [Hd Hall].
    assert (Hlast : Deserializer.list_lastIndexOf d names 0 (-1) = Z.of_nat (length done)).
    { rewrite Hnames, list_lastIndexOf_found; [lia |].
      rewrite Hnames in Hnd. apply NoDup_app in Hnd as (_ & _ & Hnd).
      apply NoDup_cons in Hnd as [Hnd _]. now rewrite <- list_elem_of_In. }
    cbn [Deserializer.requireAll]. rewrite Hlast, Z.eqb_refl. cbn [negb].
    fold (provided_for provided d).
    destruct (provided_for provided d) as [ctor |] eqn:Ector; [| congruence].
    unfold bind at 1. unfold Deserializer.setDependency, modify.
    set (m1 := {| Deserializer.this := _; Deserializer.memory := _ |}).
    destruct (IH (done ++ [d]) m1) as (m' & Hrun & Hsame & Hbound & Hkept).
    { now rewrite <- app_assoc. }
    { exact Hall. }
    rewrite length_app in Hrun, Hbound, Hkept. cbn [length] in Hrun, Hbound, Hkept.
    replace (Z.of_nat (length done) + 1) with (Z.of_nat (length done + 1)) by lia.
    exists m'. split; [exact Hrun |]. split; [| split].
    + destruct Hsame as (H1 & H2 & H3 & H4). unfold same_but_dependencies.
      rewrite H1, H2, H3, H4. repeat split.
    + intros [| i] name H.
      * cbn in H. injection H as <-. rewrite Hkept by lia.
        subst m1. cbn [Deserializer.this Deserializer.dependencies].
        rewrite Nat.add_0_r.
        replace (Z.to_N (Z.of_nat (length done))) with (N.of_nat (length done)) by lia.
        rewrite Ector. apply lookup_insert_eq.
      * cbn in H. replace (length done + S i)%nat with (length done + 1 + i)%nat by lia.
        now apply Hbound.
    + intros k Hk. rewrite Hkept.
      * subst m1. cbn [Deserializer.this Deserializer.dependencies].
        apply lookup_insert_ne.
        assert (length done < length names)%nat
          by (rewrite Hnames, length_app; cbn [length]; lia).
        lia.
      * lia.
Qed.

Lemma slice_from_after (a b : jsstring) (n : Z) :
  n = Z.of_nat (length a) -> slice_from (a ++ b) n = b.
Proof.
  intros ->. rewrite slice_from_inside by (rewrite length_app; lia).
  now rewrite Nat2Z.id, skipn_app_length.
Qed.

(** Parsing the dependency list: what is left of [setupDependencies]
    is the binding of the listed names. *)
Lemma setupDependencies_requires (names : list jsstring) (provided : list constructor)
      (body : jsstring) (m : Deserializer.machine) :
  names <> [] ->
  Forall listable names ->
  Deserializer.setupDependencies (dependency_header names ++ body) provided m
  = match Deserializer.requireAll names names 0 provided m with
    | (Ok _, m') => (Ok body, m')
    | (Throw e, m') => (Throw e, m')
    | (OutOfFuel, m') => (OutOfFuel, m')
    | (Unmodelled w, m') => (Unmodelled w, m')
    end.
Proof.
  intros Hne Hlist.
  set (joined := join (str ",") names).
  assert (Hclose : free_of 93 joined).
  { apply (join_free 93 44); [discriminate |].
    eapply Forall_impl; [exact Hlist |]. intros name H. apply H. }
  assert (Hamp : Forall (free_of 38) names).
  { eapply Forall_impl; [exact Hlist |]. intros name H. apply H. }
  assert (Hcomma : Forall (free_of 44) names).
  { eapply Forall_impl; [exact Hlist |]. intros name H. apply H. }
  assert (Hs : indexOf (dependency_header names ++ body) Tok.DEPENDENCIES_S = 0) by reflexivity.
  assert (He : indexOf (dependency_header names ++ body) Tok.DEPENDENDIES_E
               = 2 + Z.of_nat (length joined)).
  { unfold dependency_header, indexOf. fold joined.
    change Tok.DEPENDENCIES_S with [33%N; 91%N]. change Tok.DEPENDENDIES_E with [93%N; 33%N].
    change (([33%N; 91%N] ++ joined ++ [93%N; 33%N]) ++ body)
      with (33%N :: 91%N :: (joined ++ [93%N; 33%N]) ++ body).
    rewrite <- app_assoc. cbn [app].
    cbn [indexOf_from]. rewrite !startsWith_head by (cbn; congruence).
    rewrite indexOf_from_found2 by exact Hclose. lia. }
  assert (Hreq : map Deserializer.unescape
                   (split (slice (dependency_header names ++ body)
                                 (0 + Z.of_nat (length Tok.DEPENDENCIES_S))
                                 (2 + Z.of_nat (length joined)))
                          (unit_of (str ","))) = names).
  { unfold dependency_header. fold joined. rewrite <- !app_assoc.
    change (0 + Z.of_nat (length Tok.DEPENDENCIES_S)) with (Z.of_nat (length Tok.DEPENDENCIES_S)).
    change 2 with (Z.of_nat (length Tok.DEPENDENCIES_S)).
    rewrite slice_between. subst joined.
    change (str ",") with [44%N]. change (unit_of [44%N]) with 44%N.
    rewrite split_join by assumption.
    clear -Hamp. induction Hamp as [| name names H _ IH]; [reflexivity |].
    cbn [map]. now rewrite unescape_free, IH. }
  unfold Deserializer.setupDependencies. cbv zeta. rewrite Hs, He.
  change (0 =? INDEX_NOT_FOUND) with false. cbn [andb].
  replace (2 + Z.of_nat (length joined) =? INDEX_NOT_FOUND) with false
    by (symmetry; apply Z.eqb_neq; unfold INDEX_NOT_FOUND; lia).
  rewrite Hreq. unfold bind.
  destruct (Deserializer.requireAll names names 0 provided m) as [[[] | e | | w] m']; try reflexivity.
  unfold ret. do 2 f_equal.
  apply slice_from_after. unfold dependency_header. fold joined.
  rewrite !length_app. change (length Tok.DEPENDENCIES_S) with 2%nat.
  change (length Tok.DEPENDENDIES_E) with 2%nat. lia.
Qed.

(** X23. A text that starts with a dependency list of distinct class
    names, each free of [','], [']'] and ['&'] and each provided, is
    read back: [setupDependencies] returns the text after the list,
    binds every name, at its position in the list, to the first
    provided constructor of that name, and changes nothing else of the
    instance. *)
Theorem dependency_list_read_back (names : list jsstring) (provided : list constructor)
        (body : jsstring) (m : Deserializer.machine) :
  names <> [] ->
  Forall listable names ->
  NoDup names ->
  Forall (fun name => provided_for provided name <> None) names ->
  exists m',
    Deserializer.setupDependencies (dependency_header names ++ body) provided m = (Ok body, m')
    /\ same_but_dependencies m m'
    /\ (forall (i : nat) (name : jsstring),
           names !! i = Some name ->
           Deserializer.dependencies (Deserializer.this m') !! N.of_nat i
           = provided_for provided name).
Proof.
  intros Hne Hlist Hnd Hall.
  destruct (requireAll_binds provided names Hnd names [] m eq_refl Hall)
    as (m' & Hrun & Hsame & Hbound & _).
  change (Z.of_nat (length [])) with 0 in Hrun.
  exists m'. split; [| split; [exact Hsame | exact Hbound]].
  rewrite setupDependencies_requires by assumption. now rewrite Hrun.
Qed.

(** The statement at the list [![A,B]!] before the text [0|1], with
    the two classes provided in the other order. *)
Lemma dependency_list_read_back_witness :
  exists m',
    Deserializer.setupDependencies (str "![A,B]!0|1") [Class class_B; Class class_A]
      (Deserializer.fresh DEFAULT_SHARED_CONFIGURATION) = (Ok (str "0|1"), m')
    /\ same_but_dependencies (Deserializer.fresh DEFAULT_SHARED_CONFIGURATION) m'
    /\ (forall (i : nat) (name : jsstring),
           [str "A"; str "B"] !! i = Some name ->
           Deserializer.dependencies (Deserializer.this m') !! N.of_nat i
           = provided_for [Class class_B; Class class_A] name).
Proof.
  apply (dependency_list_read_back [str "A"; str "B"] [Class class_B; Class class_A]
           (str "0|1") (Deserializer.fresh DEFAULT_SHARED_CONFIGURATION)).
  - discriminate.
  - repeat constructor; apply free_of_text; reflexivity.
  - apply NoDup_cons. split; [| apply NoDup_singleton].
    rewrite list_elem_of_In. intros [H | []]. discriminate H.
  - repeat constructor; discriminate.
Defined.

(** ** Class tags *)

Lemma index_of_found (c : constructor) (l : list constructor) (start i : N) :
  Serializer.index_of c l start = Some i ->
  (start <= i)%N /\ l !! N.to_nat (i - start) = Some c.
Proof.
  revert start. induction l as [| c' l IH]; intros start; cbn [Serializer.index_of]; [discriminate |].
  destruct (bool_decide_reflect (c' = c)) as [-> | Hne].
  - intros [= <-]. rewrite N.sub_diag. split; [lia | reflexivity].
  - intros H. apply IH in H as [Hle H]. split; [lia |].
    replace (N.to_nat (i - start)) with (S (N.to_nat (i - (start + 1)))) by lia. exact H.
Qed.

Lemma custom_tag_reference (i : N) :
  EnscribedType.getCustomTypeReference (Tok.TYPE_CUSTOM_CLASS_SPECIFIER ++ decimal i) = Ok i.
Proof.
  unfold EnscribedType.getCustomTypeReference, EnscribedType.isCustom, EnscribedType.Number_of_text.
  change (Tok.TYPE_CUSTOM_CLASS_SPECIFIER ++ decimal i) with (36%N :: decimal i).
  rewrite slice_from_tail, decimal_digits, numberOfDigits_decimal. reflexivity.
Qed.

(** X24. The tag of a class instance names the class: for a class
    [c], [shorthandConstructor] returns ['$'] followed by a number
    [i], the decoder's [getCustomTypeReference] reads [i] back from
    that tag, the list of custom constructors holds [c] at position
    [i] afterwards, and every position that was taken before keeps its
    constructor. *)
Theorem class_tag_read_back (c : class) (st : Serializer.state) :
  exists (i : N) (st' : Serializer.state),
    Serializer.shorthandConstructor (Class c) st
    = (Ok (Tok.TYPE_CUSTOM_CLASS_SPECIFIER ++ decimal i), st')
    /\ EnscribedType.isCustom (Tok.TYPE_CUSTOM_CLASS_SPECIFIER ++ decimal i) = true
    /\ EnscribedType.getCustomTypeReference (Tok.TYPE_CUSTOM_CLASS_SPECIFIER ++ decimal i) = Ok i
    /\ Serializer.custom_constructors st' !! N.to_nat i = Some (Class c)
    /\ (forall (j : nat) (ctor : constructor),
           Serializer.custom_constructors st !! j = Some ctor ->
           Serializer.custom_constructors st' !! j = Some ctor).
Proof.
  unfold Serializer.shorthandConstructor, bind, get.
  destruct (Serializer.index_of (Class c) (Serializer.custom_constructors st) 0) as [i |] eqn:E.
  - exists i, st. split; [reflexivity |]. split; [reflexivity |].
    split; [apply custom_tag_reference |]. split; [| auto].
    apply index_of_found in E as [_ E]. now rewrite N.sub_0_r in E.
  - eexists _, _. split; [reflexivity |]. split; [reflexivity |].
    split; [apply custom_tag_reference |]. cbn [Serializer.custom_constructors]. split.
    + rewrite Nat2N.id. apply list_lookup_middle. reflexivity.
    + intros j ctor H. now apply lookup_app_l_Some.
Qed.

(** ** Instances of classes *)

Lemma serialize_body_empty_instance (host : Host) (h : heap) (a : nat) (c : class)
      (rec : jsvalue -> M Serializer.state jsstring) (s : Serializer.state) :
  h !! a = Some (Deserializer.empty_object (Class c) Ordinary) ->
  class_extends c = ObjectC ->
  Serializer.custom_constructors s = [] ->
  Serializer.serialize_body host h rec (VObject a) s
  = (Ok (str "$0|{}"),
     {| Serializer.config := Serializer.config s;
        Serializer.ticks := (Serializer.ticks s + 1)%N;
        Serializer.reference_ids := Serializer.reference_ids s;
        Serializer.reference_value_map := Serializer.reference_value_map s;
        Serializer.reference_usage := Serializer.reference_usage s;
        Serializer.custom_constructors := [Class c] |}).
Proof.
  intros Hobj Hext Hcc.
  unfold Serializer.serialize_body. unfold bind at 1. unfold Serializer.tick, modify.
  unfold bind at 1. cbn [Serializer.prototypeConstructor]. rewrite Hobj.
  cbn [proto Deserializer.empty_object lift].
  unfold bind at 1. cbn [Serializer.shorthandConstructor]. unfold bind at 1, get.
  cbn [Serializer.custom_constructors]. rewrite Hcc. cbn [Serializer.index_of].
  unfold bind at 1, put. unfold ret at 1.
  unfold instanceOf, Serializer.is_callable, Serializer.serializeObject, Serializer.entries,
    instanceOfObject, instanceOf, Deserializer.empty_object.
  cbn [proto internal properties]. rewrite Hext. reflexivity.
Qed.

(** X25. An instance without own properties of a class that extends
    nothing, whose name has no [','], [']'] and ['&'], round trips
    through the public methods, whatever the two instances went
    through before: [serialize] returns the dependency list of the
    class name followed by [$0|{}], and [deserialize] of that text
    allocates one new object, empty and extensible, whose constructor
    is the first provided constructor of that name. *)
Theorem empty_instance_roundtrip (host : Host) (h : heap) (a : nat) (c : class)
        (st : Serializer.state) (provided : list constructor) (ctor : constructor)
        (m : Deserializer.machine) :
  Metadata (Serializer.config st) = false ->
  h !! a = Some (Deserializer.empty_object (Class c) Ordinary) ->
  class_extends c = ObjectC ->
  listable (class_name c) ->
  provided_for provided (class_name c) = Some ctor ->
  fst (Serializer.serialize host h (VObject a) st)
  = Ok (dependency_header [class_name c] ++ str "$0|{}")
  /\ exists m',
       Deserializer.deserialize host (dependency_header [class_name c] ++ str "$0|{}") provided m
       = (Ok (VObject (length (Deserializer.memory m))), m')
       /\ Deserializer.memory m'
          = Deserializer.memory m ++ [Deserializer.empty_object ctor Ordinary].
Proof.
  intros Hmeta Hobj Hext Hname Hprov. split.
  - unfold Serializer.serialize, Serializer.serialize_with.
    cbn [Serializer.serialize_]. unfold Serializer.mark.
    unfold bind, get, Serializer.wipe, put.
    cbn [Serializer.new Serializer.config Serializer.reference_value_map Serializer.map_get].
    rewrite Hmeta.
    rewrite (serialize_body_empty_instance host h a c) by (assumption || reflexivity).
    cbn -[Serializer.clean decimal str].
    change (Tok.REFERENCE_DECLARARION_S ++ decimal 0 ++ Tok.REFERENCE_DECLARATION_E ++ str "$0|{}")
      with (str "@0=" ++ str "$0|{}").
    rewrite clean_single_declaration by (apply free_of_text; reflexivity). reflexivity.
  - destruct (requireAll_binds provided [class_name c] (NoDup_singleton _) [class_name c] [] m
                eq_refl) as (m1 & Hrun & Hsame & Hbound & _).
    { constructor; [congruence | constructor]. }
    change (Z.of_nat (length [])) with 0 in Hrun.
    specialize (Hbound 0%nat (class_name c) eq_refl). rewrite Hprov in Hbound.
    change (N.of_nat (length [] + 0)) with 0%N in Hbound.
    unfold Deserializer.deserialize, Deserializer.deserialize_with. unfold bind at 1.
    rewrite setupDependencies_requires by (try discriminate; repeat constructor; apply Hname).
    rewrite Hrun.
    cbn [Deserializer.deserialize_]. unfold Deserializer.deserialize_body.
    unfold bind at 1. cbn [Deserializer.tick modify]. unfold bind at 1.
    set (info := SerializedBlockInfo.new (str "$0|{}")). vm_compute in info. subst info.
    cbn [lift SerializedBlockInfo.type SerializedBlockInfo.reference
           SerializedBlockInfo.serializedValue].
    change (EnscribedType.isSingleton [36%N; 48%N]) with false.
    change (EnscribedType.isCustom [36%N; 48%N]) with true.
    change (EnscribedType.isEntried [36%N; 48%N]) with false.
    change (EnscribedType.getCustomTypeReference [36%N; 48%N]) with (@Ok N 0%N).
    cbn [negb andb orb lift].
    unfold bind at 1. unfold bind at 1. unfold bind at 1. unfold get at 1.
    cbn [lift Deserializer.this Deserializer.dependencies]. rewrite Hbound.
    unfold Deserializer.alloc at 1. cbn [Deserializer.memory].
    unfold Deserializer.deserializeEntried.
    change (Deserializer.extractEntries [123%N; 125%N]) with (@Ok (list (list jsstring)) []).
    destruct Hsame as (Hmem & _). rewrite Hmem.
    eexists. split; reflexivity.
Qed.

(** The statement at [new A()] for [class A {}] on new instances. *)
Lemma empty_instance_roundtrip_witness :
  fst (Serializer.serialize bitpattern_host [Deserializer.empty_object (Class class_A) Ordinary]
         (VObject 0) (Serializer.new DEFAULT_SHARED_CONFIGURATION))
  = Ok (str "![A]!$0|{}")
  /\ exists m',
       Deserializer.deserialize bitpattern_host (str "![A]!$0|{}") [Class class_A]
         (Deserializer.fresh DEFAULT_SHARED_CONFIGURATION)
       = (Ok (VObject 0), m')
       /\ Deserializer.memory m' = [Deserializer.empty_object (Class class_A) Ordinary].
Proof.
  apply (empty_instance_roundtrip bitpattern_host
           [Deserializer.empty_object (Class class_A) Ordinary] 0 class_A
           (Serializer.new DEFAULT_SHARED_CONFIGURATION) [Class class_A] (Class class_A)
           (Deserializer.fresh DEFAULT_SHARED_CONFIGURATION)).
  - reflexivity.
  - reflexivity.
  - reflexivity.
  - repeat split; apply free_of_text; reflexivity.
  - reflexivity.
Defined.

(** ** Dates *)

(** X27. A [Date] goes through its [toString] text: for a date
    object whose [toString] prints [text], [serialize] returns [12|]
    followed by the escaped [text], and [deserialize] of that returns
    a newly allocated date, the one the host builds from [text]
    ([new Date(text)]), whatever the instances went through before. *)
Theorem date_roundtrip (host : Host) (h : heap) (a : nat) (o : jsobject) (text : jsstring)
        (st : Serializer.state) (m : Deserializer.machine) :
  Metadata (Serializer.config st) = false ->
  h !! a = Some o ->
  proto o = Some (Shorthand DateC) ->
  internal o = DateValue text ->
  fst (Serializer.serialize host h (VObject a) st) = Ok (str "12|" ++ Serializer.escape text)
  /\ Deserializer.deserialize host (str "12|" ++ Serializer.escape text) [] m
     = (Ok (VObject (length (Deserializer.memory m))),
        {| Deserializer.this :=
             {| Deserializer.dependencies := Deserializer.dependencies (Deserializer.this m);
                Deserializer.references := Deserializer.references (Deserializer.this m);
                Deserializer.ticks := (Deserializer.ticks (Deserializer.this m) + 1)%N;
                Deserializer.config := Deserializer.config (Deserializer.this m) |};
           Deserializer.memory :=
             Deserializer.memory m
             ++ [Deserializer.empty_object (Shorthand DateC)
                   (DateValue (Date_reparse host text))] |}).
Proof.
  intros Hmeta Hobj Hproto Hdate.
  assert (Hfree : forall c, In c Serializer.RESERVED_CHARACTERS -> c <> 38%N -> c <> 59%N ->
                            c <> 124%N -> free_of c (str "12|" ++ Serializer.escape text)).
  { intros c Hc Hamp Hsemi Hbar. change (str "12|" ++ Serializer.escape text)
      with (49%N :: 50%N :: 124%N :: Serializer.escape text).
    rewrite !free_of_cons. repeat split; [| | congruence | now apply escape_free];
      intros <-; cbv in Hc; repeat (destruct Hc as [Hc | Hc]; [discriminate Hc |]); exact Hc. }
  split.
  - apply serialize_single; [exact Hmeta | | split; apply Hfree; (discriminate || (cbv; tauto))].
    intros rec s. unfold Serializer.serialize_body. unfold bind at 1.
    unfold Serializer.tick, modify. unfold bind at 1.
    cbn [Serializer.prototypeConstructor]. rewrite Hobj, Hproto. cbn [lift].
    unfold bind at 1. cbn [Serializer.shorthandConstructor ret].
    unfold instanceOf, Serializer.serializeDate, Serializer.is_callable.
    rewrite Hproto, Hdate. reflexivity.
  - enter_block; [| apply Hfree; (discriminate || (cbv; tauto))..].
    change (str "12|" ++ Serializer.escape text)
      with ((49%N :: [50%N]) ++ Tok.TYPE_SEPERATOR ++ Serializer.escape text).
    rewrite block_of_payload
      by (discriminate || (intros H; repeat (destruct H as [H | H]; [discriminate H |]); exact H)).
    replace (Date_reparse host text)
      with (Date_reparse host (Deserializer.unescape (Serializer.escape text)))
      by now rewrite unescape_escape.
    reflexivity.
Qed.

(** The statement at a date that prints as [Thu Jan 01 1970], on new
    instances. *)
Lemma date_roundtrip_witness :
  fst (Serializer.serialize bitpattern_host epoch_heap (VObject 0)
         (Serializer.new DEFAULT_SHARED_CONFIGURATION))
  = Ok (str "12|" ++ Serializer.escape (str "Thu Jan 01 1970"))
  /\ Deserializer.deserialize bitpattern_host
       (str "12|" ++ Serializer.escape (str "Thu Jan 01 1970")) []
       (Deserializer.fresh DEFAULT_SHARED_CONFIGURATION)
     = (Ok (VObject 0),
        {| Deserializer.this :=
             {| Deserializer.dependencies := ∅; Deserializer.references := ∅;
                Deserializer.ticks := 1;
                Deserializer.config := DEFAULT_SHARED_CONFIGURATION |};
           Deserializer.memory :=
             [Deserializer.empty_object (Shorthand DateC)
                (DateValue (Date_reparse bitpattern_host (str "Thu Jan 01 1970")))] |}).
Proof.
  exact (date_roundtrip bitpattern_host epoch_heap 0
           (Deserializer.empty_object (Shorthand DateC) (DateValue (str "Thu Jan 01 1970")))
           (str "Thu Jan 01 1970") (Serializer.new DEFAULT_SHARED_CONFIGURATION)
           (Deserializer.fresh DEFAULT_SHARED_CONFIGURATION) eq_refl eq_refl eq_refl eq_refl).
Defined.


(** ** Plain objects of strings *)

Lemma map_get_snoc_none (v k : jsvalue) (table : list (jsvalue * N)) (id : N) :
  Serializer.map_get v table = None -> sameValueZero k v = false ->
  Serializer.map_get v (table ++ [(k, id)]) = None.
Proof.
  intros Hnone Hk. induction table as [| [k' i] table IH]; cbn [app Serializer.map_get] in *.
  - now rewrite Hk.
  - destruct (sameValueZero k' v); [discriminate | auto].
Qed.

Lemma sameValueZero_string (s : jsstring) (v : jsvalue) :
  VString s <> v -> sameValueZero (VString s) v = false.
Proof. intros H. unfold sameValueZero. now apply bool_decide_eq_false_2. Qed.

(** A string the encoder has not met is written as a declaration. *)
Lemma serialize_new_string (host : Host) (h : heap) (fuel : nat) (s : jsstring)
      (st : Serializer.state) :
  Serializer.map_get (VString s) (Serializer.reference_value_map st) = None ->
  Serializer.serialize_ host h (S fuel) (VString s) st
  = (Ok (tokens_text (string_tokens (ids st) s)), record_value st (VString s)).
Proof.
  intros Hnone. cbn [Serializer.serialize_]. unfold Serializer.mark.
  unfold bind at 1. unfold get at 1. rewrite Hnone.
  unfold string_tokens. rewrite tokens_text_cons, tokens_text_plain.
  unfold ids, token_text, declaration_text. rewrite N2Nat.id, <- !app_assoc.
  reflexivity.
Qed.

Lemma flags_of_property (o : jsobject) (p : property) :
  instanceOf o MapC = false -> instanceOf o SetC = false ->
  find_property (key p) (properties o) = Some p ->
  Serializer.propertyDescriptorFlag o (VString (key p)) = Ok (flags_of p).
Proof.
  intros Hmap Hset Hfind. unfold Serializer.propertyDescriptorFlag, flags_of.
  rewrite Hmap, Hset, Hfind. cbn [orb].
  destruct (configurable p), (enumerable p), (writable p); reflexivity.
Qed.

Lemma ids_record_value (st : Serializer.state) (v : jsvalue) :
  ids (record_value st v) = S (ids st).
Proof. unfold ids, record_value. cbn [Serializer.reference_ids]. lia. Qed.

Lemma unseen_record_value (st : Serializer.state) (s : jsstring) (vs : list jsvalue) :
  unseen st vs -> ~ In (VString s) vs -> unseen (record_value st (VString s)) vs.
Proof.
  unfold unseen. rewrite !Forall_forall. intros H Hs v Hv.
  cbn [record_value Serializer.reference_value_map].
  apply map_get_snoc_none; [now apply H |].
  apply sameValueZero_string. intros <-. apply Hs. now apply list_elem_of_In.
Qed.

Section FlatObject.

Context (host : Host) (h : heap) (fuel : nat) (o : jsobject).

Lemma serialize_key (p : property) (st : Serializer.state) :
  Serializer.propertyDescriptorFlag o (VString (key p)) = Ok (flags_of p) ->
  Serializer.map_get (VString (key p)) (Serializer.reference_value_map st) = None ->
  Serializer.serializeObjectKeyIndex (Serializer.serialize_ host h (S fuel)) o
    (VString (key p)) st
  = (Ok (tokens_text (key_tokens (ids st) p)), record_value st (VString (key p))).
Proof.
  intros Hflags Hnone. unfold Serializer.serializeObjectKeyIndex.
  unfold bind at 1. rewrite serialize_new_string by exact Hnone.
  rewrite Hflags. unfold key_tokens.
  rewrite !tokens_text_app, !tokens_text_plain.
  unfold bind, lift, ret, Bitflag.int. now rewrite <- !app_assoc.
Qed.

Lemma serialize_entries (ps : list property) :
  forall (index : Z) (output : jsstring) (st : Serializer.state),
    0 <= index ->
    Forall (own_string o) ps ->
    NoDup (written ps) ->
    unseen st (written ps) ->
    Serializer.reduce_entries (Serializer.serialize_ host h (S fuel)) o
      (map Serializer.entry_of ps) index output st
    = (Ok (output ++ tokens_text (entries_tokens (index =? 0) (ids st) ps)),
       recorded st (written ps)).
Proof.
  induction ps as [| p ps IH]; intros index output st Hindex Hown Hnd Hun.
  - cbn. now rewrite app_nil_r.
  - apply Forall_cons in Hown as [[Hstr Hfind] Hown].
    destruct (val p) as [| | | | v | | |] eqn:Ev; try discriminate Hstr.
    cbn [written flat_map app] in Hnd, Hun. rewrite Ev in Hnd, Hun.
    fold (written ps) in Hnd, Hun.
    apply NoDup_cons in Hnd as [Hk Hnd]. apply NoDup_cons in Hnd as [Hv Hnd].
    apply Forall_cons in Hun as [Hunk Hun]. apply Forall_cons in Hun as [Hunv Hun].
    rewrite list_elem_of_In in Hk, Hv.
    cbn [map Serializer.reduce_entries]. unfold Serializer.entry_of at 1.
    unfold bind at 1. rewrite serialize_key by assumption.
    unfold bind at 1. rewrite Ev. rewrite serialize_new_string.
    2:{ cbn [record_value Serializer.reference_value_map]. apply map_get_snoc_none; [exact Hunv |].
        apply sameValueZero_string. intros E. apply Hk. rewrite E. now left. }
    rewrite IH; [| lia | assumption | assumption |].
    2:{ apply unseen_record_value; [apply unseen_record_value |]; try assumption.
        intros Hin. apply Hk. now right. }
    replace (index + 1 =? 0) with false by (symmetry; apply Z.eqb_neq; lia).
    rewrite !ids_record_value.
    cbn [written flat_map recorded fold_left app]. rewrite Ev. f_equal.
    cbn [entries_tokens]. unfold entry_tokens. rewrite Ev. cbn [text_of].
    rewrite !tokens_text_app, !tokens_text_plain, <- !app_assoc.
    unfold INDEX_START. destruct (index =? 0); reflexivity.
Qed.

End FlatObject.

Lemma written_strings (ps : list property) :
  Forall (fun p => is_string (val p) = true) ps -> Forall (fun v => is_string v = true) (written ps).
Proof.
  induction 1 as [| p ps Hp _ IH]; [constructor |].
  cbn [written flat_map app]. constructor; [reflexivity |]. constructor; assumption.
Qed.

Lemma written_keys (p : property) (ps : list property) :
  In p ps -> In (VString (key p)) (written ps).
Proof.
  induction ps as [| q ps IH]; [intros [] |]. cbn [written flat_map app].
  intros [-> | H]; [now left | right; right; auto].
Qed.

(** When nothing is written twice, a key finds its own property. *)
Lemma find_property_own (ps : list property) (p : property) :
  NoDup (written ps) -> In p ps -> find_property (key p) ps = Some p.
Proof.
  induction ps as [| q ps IH]; [intros _ [] |].
  cbn [written flat_map app find_property]. fold (written ps). intros Hnd Hin.
  apply NoDup_cons in Hnd as [Hk Hnd]. apply NoDup_cons in Hnd as [_ Hnd].
  destruct Hin as [-> | Hin]; [now rewrite string_eqb_refl |].
  rewrite string_eqb_neq; [now apply IH |].
  intros E. apply Hk. rewrite list_elem_of_In. right. rewrite E. now apply written_keys.
Qed.

Lemma custom_constructors_recorded (vs : list jsvalue) (st : Serializer.state) :
  Serializer.custom_constructors (recorded st vs) = Serializer.custom_constructors st.
Proof.
  revert st. induction vs as [| v vs IH]; intros st; [reflexivity |].
  cbn [recorded fold_left]. fold (recorded (record_value st v) vs). now rewrite IH.
Qed.

Lemma ids_recorded (vs : list jsvalue) (st : Serializer.state) :
  ids (recorded st vs) = (ids st + length vs)%nat.
Proof.
  revert st. induction vs as [| v vs IH]; intros st; [cbn; lia |].
  cbn [recorded fold_left length]. fold (recorded (record_value st v) vs).
  rewrite IH, ids_record_value. lia.
Qed.

Lemma serialize_body_flat_object (host : Host) (h : heap) (fuel : nat) (a : nat)
      (ps : list property) (s : Serializer.state) :
  h !! a = Some (flat_object ps) ->
  Forall (fun p => is_string (val p) = true) ps ->
  NoDup (written ps) ->
  unseen s (written ps) ->
  Serializer.serialize_body host h (Serializer.serialize_ host h (S fuel)) (VObject a) s
  = (Ok (ShorthandType.OBJECT ++ Tok.TYPE_SEPERATOR ++ Tok.ENTRIED_VALUE_S
         ++ tokens_text (entries_tokens true (ids s) ps) ++ Tok.ENTRIED_VALUE_E),
     recorded (ticked s) (written ps)).
Proof.
  intros Hobj Hstr Hnd Hun.
  assert (Hown : Forall (own_string (flat_object ps)) ps).
  { apply Forall_forall. intros p Hin. split.
    - rewrite Forall_forall in Hstr. now apply Hstr.
    - apply flags_of_property; [reflexivity.. |].
      apply find_property_own; [exact Hnd | now apply list_elem_of_In]. }
  pose proof (serialize_entries host h fuel (flat_object ps) ps 0 EMPTY
                (ticked s) (Z.le_refl 0) Hown Hnd Hun) as Hentries.
  unfold Serializer.serialize_body. unfold bind at 1. unfold Serializer.tick, modify.
  unfold bind at 1. cbn [Serializer.prototypeConstructor]. rewrite Hobj.
  cbn [proto flat_object lift].
  unfold bind at 1. cbn [Serializer.shorthandConstructor ret].
  unfold instanceOf, Serializer.is_callable, Serializer.serializeObject, Serializer.entries,
    instanceOfObject, instanceOf.
  cbn [proto internal properties flat_object].
  change (bool_decide (ObjectC = DateC)) with false.
  change (bool_decide (ObjectC = ArrayC)) with false.
  change (bool_decide (ObjectC = MapC)) with false.
  change (bool_decide (ObjectC = SetC)) with false.
  cbn [negb lift]. unfold bind, lift.
  change {| Serializer.config := Serializer.config s;
            Serializer.ticks := (Serializer.ticks s + 1)%N;
            Serializer.reference_ids := Serializer.reference_ids s;
            Serializer.reference_value_map := Serializer.reference_value_map s;
            Serializer.reference_usage := Serializer.reference_usage s;
            Serializer.custom_constructors := Serializer.custom_constructors s |}
    with (ticked s).
  change {| proto := Some (Shorthand ObjectC); internal := Ordinary; properties := ps;
            extensible := true |} with (flat_object ps).
  rewrite Hentries. unfold ret. now rewrite <- !app_assoc.
Qed.

Lemma entries_of_string_map (entries : list (jsstring * jsstring)) :
  map string_pair entries = map Serializer.entry_of (map map_entry entries).
Proof. rewrite map_map. apply map_ext. now intros [k v]. Qed.

Lemma flags_of_map_entry (entries : list (jsstring * jsstring)) (entry : jsstring * jsstring) :
  Serializer.propertyDescriptorFlag (string_map entries) (VString (key (map_entry entry)))
  = Ok (flags_of (map_entry entry)).
Proof. reflexivity. Qed.

Lemma serialize_body_string_map (host : Host) (h : heap) (fuel : nat) (a : nat)
      (entries : list (jsstring * jsstring)) (s : Serializer.state) :
  h !! a = Some (string_map entries) ->
  NoDup (written (map map_entry entries)) ->
  unseen s (written (map map_entry entries)) ->
  Serializer.serialize_body host h (Serializer.serialize_ host h (S fuel)) (VObject a) s
  = (Ok (ShorthandType.MAP ++ Tok.TYPE_SEPERATOR ++ Tok.ENTRIED_VALUE_S
         ++ tokens_text (entries_tokens true (ids s) (map map_entry entries))
         ++ Tok.ENTRIED_VALUE_E),
     recorded (ticked s) (written (map map_entry entries))).
Proof.
  intros Hobj Hnd Hun.
  assert (Hown : Forall (own_string (string_map entries)) (map map_entry entries)).
  { apply Forall_forall. intros p Hin. apply list_elem_of_In, in_map_iff in Hin.
    destruct Hin as (entry & <- & _). split; [reflexivity | apply flags_of_map_entry]. }
  pose proof (serialize_entries host h fuel (string_map entries) (map map_entry entries)
                0 EMPTY (ticked s) (Z.le_refl 0) Hown Hnd Hun) as Hentries.
  unfold Serializer.serialize_body. unfold bind at 1. unfold Serializer.tick, modify.
  unfold bind at 1. cbn [Serializer.prototypeConstructor]. rewrite Hobj.
  cbn [proto string_map lift].
  unfold bind at 1. cbn [Serializer.shorthandConstructor ret].
  unfold instanceOf, Serializer.is_callable, Serializer.serializeObject, Serializer.entries,
    instanceOfObject, instanceOf.
  cbn [proto internal properties string_map].
  change (bool_decide (MapC = DateC)) with false.
  change (bool_decide (MapC = ArrayC)) with false.
  change (bool_decide (MapC = MapC)) with true.
  cbn [negb lift]. unfold bind, lift.
  change {| Serializer.config := Serializer.config s;
            Serializer.ticks := (Serializer.ticks s + 1)%N;
            Serializer.reference_ids := Serializer.reference_ids s;
            Serializer.reference_value_map := Serializer.reference_value_map s;
            Serializer.reference_usage := Serializer.reference_usage s;
            Serializer.custom_constructors := Serializer.custom_constructors s |}
    with (ticked s).
  change {| proto := Some (Shorthand MapC); internal := MapData (map string_pair entries);
            properties := []; extensible := true |} with (string_map entries).
  rewrite entries_of_string_map, Hentries. unfold ret. now rewrite <- !app_assoc.
Qed.

(** The first value of a pass is declared with the id [0]. *)
Lemma serialize_first_object (host : Host) (h : heap) (fuel : nat) (a : nat)
      (config : configuration) (tag : jsstring) (ps : list property) (st' : Serializer.state) :
  Serializer.serialize_body host h (Serializer.serialize_ host h (S fuel)) (VObject a)
    (inside config a)
  = (Ok (tag ++ Tok.TYPE_SEPERATOR ++ Tok.ENTRIED_VALUE_S
         ++ tokens_text (entries_tokens true 1 ps) ++ Tok.ENTRIED_VALUE_E), st') ->
  Serializer.serialize_ host h (S (S fuel)) (VObject a) (Serializer.new config)
  = (Ok (tokens_text (object_tokens tag ps)), st').
Proof.
  intros Hbody.
  change (Serializer.serialize_ host h (S (S fuel)) (VObject a))
    with (Serializer.mark (VObject a)
            (Serializer.serialize_body host h (Serializer.serialize_ host h (S fuel))
               (VObject a))).
  unfold Serializer.mark. unfold bind at 1. unfold get at 1.
  cbn [Serializer.new Serializer.reference_value_map Serializer.map_get].
  unfold bind at 1. unfold put at 1. unfold bind at 1.
  change {| Serializer.config := Serializer.config (Serializer.new config);
            Serializer.ticks := _; Serializer.reference_ids := _;
            Serializer.reference_value_map := _; Serializer.reference_usage := _;
            Serializer.custom_constructors := _ |} with (inside config a).
  rewrite Hbody. unfold ret, object_tokens.
  rewrite tokens_text_cons, !tokens_text_app, !tokens_text_plain, <- !app_assoc.
  reflexivity.
Qed.

Lemma unseen_inside (config : configuration) (a : nat) (vs : list jsvalue) :
  Forall (fun v => is_string v = true) vs -> unseen (inside config a) vs.
Proof.
  intros Hstr. unfold unseen. eapply Forall_impl; [exact Hstr |].
  intros [| | | | s | | |] Hs; try discriminate Hs. reflexivity.
Qed.

(** The recursive pass on a plain object of strings, none written
    twice. *)
Lemma serialize_flat_object (host : Host) (h : heap) (fuel : nat) (a : nat)
      (ps : list property) (config : configuration) :
  h !! a = Some (flat_object ps) ->
  Forall (fun p => is_string (val p) = true) ps ->
  NoDup (written ps) ->
  Serializer.serialize_ host h (S (S fuel)) (VObject a) (Serializer.new config)
  = (Ok (tokens_text (object_tokens ShorthandType.OBJECT ps)),
     recorded (ticked (inside config a)) (written ps)).
Proof.
  intros Hobj Hstr Hnd. apply serialize_first_object.
  apply (serialize_body_flat_object host h fuel a ps); try assumption.
  now apply unseen_inside, written_strings.
Qed.

(** The recursive pass on a [Map] from strings to strings, none
    written twice. *)
Lemma serialize_string_map (host : Host) (h : heap) (fuel : nat) (a : nat)
      (entries : list (jsstring * jsstring)) (config : configuration) :
  h !! a = Some (string_map entries) ->
  NoDup (written (map map_entry entries)) ->
  Serializer.serialize_ host h (S (S fuel)) (VObject a) (Serializer.new config)
  = (Ok (tokens_text (object_tokens ShorthandType.MAP (map map_entry entries))),
     recorded (ticked (inside config a)) (written (map map_entry entries))).
Proof.
  intros Hobj Hnd. apply serialize_first_object.
  apply (serialize_body_string_map host h fuel a entries); try assumption.
  apply unseen_inside, written_strings. apply Forall_forall. intros p Hin.
  apply list_elem_of_In, in_map_iff in Hin. now destruct Hin as (entry & <- & _).
Qed.

Lemma undeclared_app (a b : list token) : undeclared (a ++ b) = undeclared a ++ undeclared b.
Proof. apply List.filter_app. Qed.

Lemma undeclared_plain (s : jsstring) : undeclared (map Plain s) = map Plain s.
Proof. induction s as [| c s IH]; [reflexivity |]. cbn. now f_equal. Qed.

Lemma no_pointers_end (ts : list token) : pointed ts = [] -> pointers_end ts.
Proof.
  induction ts as [| [i | i | c] ts IH]; cbn [pointers_end]; trivial.
  rewrite pointed_cons. discriminate.
Qed.

(** Without pointers every declaration goes. *)
Lemma renumber_no_pointers (n : nat) (ts : list token) :
  declared ts = seq 0 n -> pointed ts = [] -> renumber ts = undeclared ts.
Proof.
  intros Hdecl Hpointed. unfold renumber, renumber_below. rewrite Hdecl, length_seq.
  assert (Hsub : forall t, In t ts -> In t ts) by trivial. revert Hsub.
  generalize ts at 1 4 5. intros l. induction l as [| t l IH]; intros Hsub; [reflexivity |].
  cbn [flat_map undeclared List.filter]. fold (undeclared l).
  rewrite IH by (intros t' Ht'; apply Hsub; now right).
  assert (Hin : In t ts) by (apply Hsub; now left).
  destruct t as [i | i | c]; cbn [renumber_token app].
  - apply declared_in in Hin. rewrite Hdecl in Hin. apply in_seq in Hin.
    replace (i <? n)%nat with true by (symmetry; apply Nat.ltb_lt; lia).
    unfold referenced. now rewrite Hpointed.
  - apply pointed_in in Hin. rewrite Hpointed in Hin. destruct Hin.
  - reflexivity.
Qed.

Lemma plain_text_string (s : jsstring) : plain_text (string_text s).
Proof.
  unfold string_text. apply plain_text_app; [split; apply free_of_text; reflexivity |].
  apply plain_text_app; [split; apply free_of_text; reflexivity | apply plain_text_escape].
Qed.

Lemma entry_tokens_facts (id : nat) (p : property) :
  declared (entry_tokens id p) = [id; S id]
  /\ pointed (entry_tokens id p) = []
  /\ Forall plain_token (entry_tokens id p)
  /\ tokens_text (undeclared (entry_tokens id p))
     = key_text p ++ Tok.KEY_VALUE_SEPERATOR ++ string_text (text_of (val p)).
Proof.
  unfold entry_tokens, key_tokens, string_tokens. repeat split.
  - rewrite !declared_app, !declared_cons, !declared_plain. reflexivity.
  - rewrite !pointed_app, !pointed_cons, !pointed_plain. reflexivity.
  - repeat first [ apply plain_tokens
                   | apply Forall_app; split
                   | apply Forall_cons_2; [exact I |] ];
      try apply plain_text_string; try (split; apply free_of_text; reflexivity).
    apply (plain_text_app (str "]%")); [split; apply free_of_text; reflexivity |].
    apply plain_text_decimal.
  - rewrite !undeclared_app, !undeclared_plain. cbn [undeclared List.filter].
    fold (undeclared (map Plain (string_text (key p)))).
    fold (undeclared (map Plain (string_text (text_of (val p))))).
    rewrite !undeclared_plain, !tokens_text_app, !tokens_text_plain.
    unfold key_text. now rewrite <- !app_assoc.
Qed.

Lemma entries_tokens_facts (ps : list property) :
  forall (first : bool) (id : nat),
    declared (entries_tokens first id ps) = seq id (2 * length ps)
    /\ pointed (entries_tokens first id ps) = []
    /\ Forall plain_token (entries_tokens first id ps)
    /\ tokens_text (undeclared (entries_tokens first id ps))
       = match ps with
         | [] => []
         | _ :: _ => (if first then EMPTY else Tok.ENTRY_SEPERATOR)
                     ++ join Tok.ENTRY_SEPERATOR
                          (map (join Tok.KEY_VALUE_SEPERATOR) (map entry_parts ps))
         end.
Proof.
  induction ps as [| p ps IH]; intros first id.
  - repeat split. constructor.
  - destruct (IH false (S (S id))) as (Hdecl & Hpointed & Hplain & Htext).
    destruct (entry_tokens_facts id p) as (Hdecl1 & Hpointed1 & Hplain1 & Htext1).
    cbn [entries_tokens]. repeat split.
    + rewrite !declared_app, declared_plain, Hdecl, Hdecl1.
      replace (2 * length (p :: ps))%nat with (S (S (2 * length ps))) by (cbn [length]; lia).
      reflexivity.
    + now rewrite !pointed_app, pointed_plain, Hpointed, Hpointed1.
    + apply Forall_app. split; [| apply Forall_app; split; assumption].
      apply plain_tokens. destruct first; split; apply free_of_text; reflexivity.
    + rewrite !undeclared_app, undeclared_plain, !tokens_text_app, tokens_text_plain.
      rewrite Htext, Htext1. f_equal.
      destruct ps as [| q ps]; [now rewrite app_nil_r |].
      change (join Tok.ENTRY_SEPERATOR
                (map (join Tok.KEY_VALUE_SEPERATOR) (map entry_parts (p :: q :: ps))))
        with (join Tok.KEY_VALUE_SEPERATOR (entry_parts p) ++ Tok.ENTRY_SEPERATOR
              ++ join Tok.ENTRY_SEPERATOR
                   (map (join Tok.KEY_VALUE_SEPERATOR) (map entry_parts (q :: ps)))).
      reflexivity.
Qed.

(** [clean] on the text of the recursive pass on such a value
    leaves the text without its declarations. *)
Lemma clean_entried (tag : jsstring) (ps : list property) :
  plain_text tag ->
  Serializer.clean (tokens_text (object_tokens tag ps)) = entried_text tag ps.
Proof.
  intros Htag.
  destruct (entries_tokens_facts ps true 1) as (Hdecl & Hpointed & Hplain & Htext).
  assert (Hd : declared (object_tokens tag ps) = seq 0 (S (2 * length ps))).
  { unfold object_tokens. rewrite declared_cons, !declared_app, !declared_plain, Hdecl.
    cbn [app]. now rewrite app_nil_r. }
  assert (Hp : pointed (object_tokens tag ps) = []).
  { unfold object_tokens. rewrite pointed_cons, !pointed_app, !pointed_plain, Hpointed.
    reflexivity. }
  rewrite (clean_tokens (S (2 * length ps))).
  - rewrite (renumber_no_pointers (S (2 * length ps))) by assumption.
    unfold object_tokens. cbn [undeclared List.filter].
    fold (undeclared (map Plain (tag ++ Tok.TYPE_SEPERATOR ++ Tok.ENTRIED_VALUE_S)
                      ++ entries_tokens true 1 ps ++ map Plain Tok.ENTRIED_VALUE_E)).
    rewrite !undeclared_app, !undeclared_plain, !tokens_text_app, !tokens_text_plain, Htext.
    unfold entried_text, entries_text. rewrite <- !app_assoc.
    destruct ps; reflexivity.
  - split.
    + exact Hd.
    + rewrite Hp. constructor.
    + unfold object_tokens. apply Forall_cons_2; [exact I |].
      apply Forall_app. split.
      { apply plain_tokens, plain_text_app; [exact Htag |].
        split; apply free_of_text; reflexivity. }
      apply Forall_app. split; [exact Hplain |].
      apply plain_tokens; split; apply free_of_text; reflexivity.
    + now apply no_pointers_end.
Qed.

(** *** Reading the text back *)

Lemma indexOf_from_free_second (c d : N) (s : jsstring) (i : Z) :
  free_of d s -> indexOf_from [c; d] s i = -1.
Proof.
  revert i. induction s as [| x s IH]; intros i H; [reflexivity |].
  apply free_of_cons in H as [Hx H]. cbn [indexOf_from].
  change (startsWith (x :: s) [c; d]) with (unit_eqb c x && startsWith s [d]).
  rewrite (startsWith_free d [] s H), andb_false_r. now apply IH.
Qed.

(** A text without ['!'] has no dependency list. *)
Lemma setupDependencies_plain (text : jsstring) (provided : list constructor)
      (m : Deserializer.machine) :
  free_of 33 text -> Deserializer.setupDependencies text provided m = (Ok text, m).
Proof.
  intros H. unfold Deserializer.setupDependencies.
  change Tok.DEPENDENCIES_S with [33%N; 91%N]. change Tok.DEPENDENDIES_E with [93%N; 33%N].
  rewrite (indexOf_free 33) by assumption.
  unfold indexOf. rewrite indexOf_from_free_second by assumption. reflexivity.
Qed.

Lemma structural_not_digit (c : N) : structural c -> is_digit c = false.
Proof.
  intros [Hc _]. cbv in Hc.
  repeat (destruct Hc as [<- | Hc]; [reflexivity |]). destruct Hc.
Qed.

Lemma string_text_free (c : N) (s : jsstring) :
  structural c -> c <> 124%N -> free_of c (string_text s).
Proof.
  intros Hc Hbar. pose proof (structural_not_digit c Hc) as Hd. destruct Hc as (Hc & Hamp & Hsemi).
  unfold string_text. change (ShorthandType.STRING ++ Tok.TYPE_SEPERATOR ++ Serializer.escape s)
    with (49%N :: 124%N :: Serializer.escape s).
  rewrite !free_of_cons. repeat split; [| congruence | now apply escape_free].
  intros <-. discriminate Hd.
Qed.

Lemma key_text_free (c : N) (p : property) :
  structural c -> c <> 124%N -> c <> 91%N -> c <> 93%N -> c <> 37%N -> free_of c (key_text p).
Proof.
  intros Hc Hbar Hopen Hclose Hpercent. unfold key_text.
  change (Tok.KEY_INDEX_S ++ string_text (key p) ++ Tok.KEY_INDEX_E
          ++ Tok.PROPERTY_ACCESSABILITY ++ decimal (Z.to_N (flags_of p)))
    with (91%N :: string_text (key p) ++ 93%N :: 37%N :: decimal (Z.to_N (flags_of p))).
  rewrite free_of_cons, free_of_app, !free_of_cons.
  repeat split; try congruence; [now apply string_text_free |].
  apply free_of_decimal. now apply structural_not_digit.
Qed.

Lemma closed_free (f : jsstring) (d : Z) :
  free_of 123 f -> free_of 125 f -> free_of 58 f -> free_of 44 f ->
  closed_from d f = (d =? 0).
Proof.
  induction f as [| c f IH]; [reflexivity |]. rewrite !free_of_cons.
  intros [H1 F1] [H2 F2] [H3 F3] [H4 F4]. cbn [closed_from].
  change (unit_of Tok.ENTRIED_VALUE_S) with 123%N.
  change (unit_of Tok.ENTRIED_VALUE_E) with 125%N.
  change (unit_of Tok.KEY_VALUE_SEPERATOR) with 58%N.
  change (unit_of Tok.ENTRY_SEPERATOR) with 44%N.
  unfold unit_eqb.
  rewrite (proj2 (N.eqb_neq c 123) H1), (proj2 (N.eqb_neq c 125) H2),
    (proj2 (N.eqb_neq c 58) H3), (proj2 (N.eqb_neq c 44) H4).
  cbn [orb]. now apply IH.
Qed.

Ltac structural_unit := repeat split; (discriminate || (cbv; tauto)).

Lemma entry_parts_group (p : property) : group (entry_parts p).
Proof.
  split; [discriminate |]. unfold entry_parts. repeat constructor.
  - discriminate.
  - apply (closed_free _ 0); apply key_text_free; first [discriminate | structural_unit].
  - discriminate.
  - apply (closed_free _ 0); apply string_text_free; first [discriminate | structural_unit].
Qed.

(** The entries of the text of such an object. *)
Lemma extractEntries_flat (ps : list property) :
  Deserializer.extractEntries (entries_text (map entry_parts ps)) = Ok (map entry_parts ps).
Proof.
  set (groups := map entry_parts ps).
  assert (Hall : Forall group groups).
  { subst groups. apply Forall_forall. intros g Hg. apply list_elem_of_In, in_map_iff in Hg.
    destruct Hg as (p & <- & _). apply entry_parts_group. }
  assert (Htwo : forallb two_parts groups = true).
  { subst groups. apply forallb_forall. intros g Hg. apply in_map_iff in Hg.
    now destruct Hg as (p & <- & _). }
  unfold Deserializer.extractEntries, entries_text.
  set (body := join Tok.ENTRY_SEPERATOR (map (join Tok.KEY_VALUE_SEPERATOR) groups)).
  change (Tok.ENTRIED_VALUE_S ++ body ++ Tok.ENTRIED_VALUE_E) with (123%N :: body ++ [125%N]).
  change Tok.ENTRIED_VALUE_S with [123%N]. change Tok.ENTRIED_VALUE_E with [125%N].
  rewrite indexOf_start.
  assert (Hlast : lastIndexOf (123%N :: body ++ [125%N]) [125%N] = Z.of_nat (S (length body))).
  { unfold lastIndexOf.
    change (123%N :: body ++ [125%N]) with ((123%N :: body) ++ 125%N :: []).
    rewrite lastIndexOf_from_found by (intros []). cbn [length]. lia. }
  rewrite Hlast. change (0 + 1 =? INDEX_NOT_FOUND) with false.
  replace (Z.of_nat (S (length body)) =? INDEX_NOT_FOUND) with false
    by (symmetry; apply Z.eqb_neq; unfold INDEX_NOT_FOUND; lia).
  cbn [orb].
  replace (slice (123%N :: body ++ [125%N]) (0 + 1) (Z.of_nat (S (length body)))) with body.
  2:{ change (123%N :: body ++ [125%N]) with ([123%N] ++ body ++ [125%N]).
      symmetry. replace (Z.of_nat (S (length body)))
        with (Z.of_nat (length [123%N]) + Z.of_nat (length body)) by (cbn [length]; lia).
      apply slice_between. }
  subst body. rewrite <- outcome_bind_assoc, (scan_groups groups []) by assumption.
  rewrite Htwo. cbn [outcome_bind Deserializer.output app].
  replace (existsb _ groups) with false; [reflexivity |].
  symmetry. apply not_true_is_false. intros H. apply existsb_exists in H as (g & Hin & Hg).
  rewrite forallb_forall in Htwo. specialize (Htwo g Hin). unfold two_parts in Htwo.
  rewrite Htwo in Hg. discriminate.
Qed.

Lemma removeKeyBrackets_key (inner tail : jsstring) :
  free_of 93 tail ->
  SerializedBlockInfo.removeKeyBrackets (Tok.KEY_INDEX_S ++ inner ++ Tok.KEY_INDEX_E ++ tail)
  = inner.
Proof.
  intros Htail. unfold SerializedBlockInfo.removeKeyBrackets.
  change Tok.KEY_INDEX_S with [91%N]. change Tok.KEY_INDEX_E with [93%N].
  change ([91%N] ++ inner ++ [93%N] ++ tail) with (91%N :: inner ++ 93%N :: tail).
  rewrite indexOf_start. change (negb (0 =? INDEX_START)) with false. cbv iota.
  unfold lastIndexOf.
  change (lastIndexOf_from [93%N] (91%N :: inner ++ 93%N :: tail))
    with (lastIndexOf_from [93%N] ((91%N :: inner) ++ 93%N :: tail)).
  rewrite lastIndexOf_from_found by exact Htail.
  change (91%N :: inner ++ 93%N :: tail) with ([91%N] ++ inner ++ 93%N :: tail).
  replace (0 + Z.of_nat (length (91%N :: inner)))
    with (Z.of_nat (length [91%N]) + Z.of_nat (length inner)) by (cbn [length]; lia).
  apply slice_between.
Qed.

Lemma flags_of_range (p : property) : 0 <= flags_of p < 2 ^ 31.
Proof.
  unfold flags_of. destruct (configurable p), (enumerable p), (writable p); vm_compute;
    split; congruence.
Qed.

(** The key part of an entry, taken apart. *)
Lemma block_of_key (p : property) :
  SerializedBlockInfo.new (key_text p)
  = Ok {| SerializedBlockInfo.reference := None;
          SerializedBlockInfo.descriptor := Some (flags_of p);
          SerializedBlockInfo.accessability := None;
          SerializedBlockInfo.type := ShorthandType.STRING;
          SerializedBlockInfo.isKeyIndex_ := true;
          SerializedBlockInfo.serializedValue := Some (Serializer.escape (key p)) |}.
Proof.
  assert (Hinner : SerializedBlockInfo.removeKeyBrackets (key_text p) = string_text (key p)).
  { unfold key_text. apply removeKeyBrackets_key.
    change (Tok.PROPERTY_ACCESSABILITY ++ decimal (Z.to_N (flags_of p)))
      with (37%N :: decimal (Z.to_N (flags_of p))).
    apply free_of_cons. split; [discriminate | now apply free_of_decimal]. }
  assert (Hbar : indexOf (string_text (key p)) Tok.TYPE_SEPERATOR = 1).
  { reflexivity. }
  unfold SerializedBlockInfo.new, SerializedBlockInfo.extractReference,
    SerializedBlockInfo.extractType, SerializedBlockInfo.extractSerializedValue.
  rewrite Hinner.
  unfold key_text at 1. rewrite descriptor_of_key;
    [| apply string_text_free; structural_unit | apply flags_of_range].
  change (string_text (key p)) with (49%N :: 124%N :: Serializer.escape (key p)).
  rewrite removeReferenceDeclaration_plain by discriminate.
  change Tok.REFERENCE_POINTER with [35%N]. change Tok.REFERENCE_DECLARARION_S with [64%N].
  rewrite !indexOf_not_start by discriminate. cbn [negb andb outcome_bind].
  change (indexOf (49%N :: 124%N :: Serializer.escape (key p)) Tok.TYPE_SEPERATOR) with 1.
  change (1 =? INDEX_NOT_FOUND) with false. cbv iota.
  change (SerializedBlockInfo.isKeyIndex (key_text p)) with true.
  rewrite slice_head.
  change (49%N :: 124%N :: Serializer.escape (key p))
    with ([49%N] ++ 124%N :: Serializer.escape (key p)).
  change (1 + Z.of_nat (length Tok.TYPE_SEPERATOR)) with (Z.of_nat (length [49%N]) + 1).
  now rewrite slice_from_suffix.
Qed.

(** A block that holds a string and no reference decodes to the
    string. *)
Lemma deserialize_string_block (host : Host) (fuel : nat) (text s : jsstring)
      (name : option jsvalue) (d : option Z) (b : bool) (m : Deserializer.machine) :
  SerializedBlockInfo.new text
  = Ok {| SerializedBlockInfo.reference := None;
          SerializedBlockInfo.descriptor := d;
          SerializedBlockInfo.accessability := None;
          SerializedBlockInfo.type := ShorthandType.STRING;
          SerializedBlockInfo.isKeyIndex_ := b;
          SerializedBlockInfo.serializedValue := Some (Serializer.escape s) |} ->
  Deserializer.deserialize_ host (S fuel) text name m
  = (Ok (VString s), snd (Deserializer.tick m)).
Proof.
  intros Hnew. cbn [Deserializer.deserialize_]. unfold Deserializer.deserialize_body.
  unfold bind at 1. cbn [Deserializer.tick modify]. unfold bind at 1.
  rewrite Hnew. cbn [lift].
  transitivity (@Ok jsvalue (VString (Deserializer.unescape (Serializer.escape s))),
                snd (Deserializer.tick m)); [reflexivity | now rewrite unescape_escape].
Qed.

Lemma block_of_string (s : jsstring) :
  SerializedBlockInfo.new (string_text s)
  = Ok {| SerializedBlockInfo.reference := None;
          SerializedBlockInfo.descriptor := None;
          SerializedBlockInfo.accessability := None;
          SerializedBlockInfo.type := ShorthandType.STRING;
          SerializedBlockInfo.isKeyIndex_ := false;
          SerializedBlockInfo.serializedValue := Some (Serializer.escape s) |}.
Proof.
  apply (block_of_payload 49 [] (Serializer.escape s)); try discriminate.
  intros [H | []]. discriminate H.
Qed.

Lemma find_property_absent (k : jsstring) (ps : list property) :
  ~ In k (map key ps) -> find_property k ps = None.
Proof.
  induction ps as [| q ps IH]; [reflexivity |]. cbn [map find_property]. intros H.
  rewrite string_eqb_neq by (intros E; apply H; now left). apply IH. intros Hin. apply H. now right.
Qed.

Lemma find_property_last (k : jsstring) (ps : list property) (q : property) :
  ~ In k (map key ps) -> key q = k -> find_property k (ps ++ [q]) = Some q.
Proof.
  intros H Hq. induction ps as [| q' ps IH]; cbn [app map find_property] in *.
  - now rewrite Hq, string_eqb_refl.
  - rewrite string_eqb_neq by (intros E; apply H; now left). apply IH. intros Hin. apply H. now right.
Qed.

Lemma update_property_last (k : jsstring) (f : property -> property) (ps : list property)
      (q : property) :
  ~ In k (map key ps) -> key q = k -> update_property k f (ps ++ [q]) = ps ++ [f q].
Proof.
  intros H Hq. induction ps as [| q' ps IH]; cbn [app map update_property] in *.
  - now rewrite Hq, string_eqb_refl.
  - rewrite string_eqb_neq by (intros E; apply H; now left). f_equal. apply IH.
    intros Hin. apply H. now right.
Qed.

Lemma has_flags_of (p : property) :
  Bitflag.has (flags_of p) [PropertyDescriptorFlag.IS_CONFIGURABLE] = configurable p
  /\ Bitflag.has (flags_of p) [PropertyDescriptorFlag.IS_ENUMERABLE] = enumerable p
  /\ Bitflag.has (flags_of p) [PropertyDescriptorFlag.IS_WRITABLE] = writable p.
Proof.
  unfold flags_of. destruct (configurable p), (enumerable p), (writable p);
    repeat split; reflexivity.
Qed.

Lemma lookup_last_object (mem0 : heap) (o : jsobject) : (mem0 ++ [o]) !! length mem0 = Some o.
Proof. now apply list_lookup_middle. Qed.

Lemma insert_last_object (mem0 : heap) (o o' : jsobject) :
  <[length mem0 := o']> (mem0 ++ [o]) = mem0 ++ [o'].
Proof. rewrite insert_app_r_alt by lia. now rewrite Nat.sub_diag. Qed.

(** One entry of such an object adds its property to the object
    that is being filled. *)
Lemma deserialize_entry (host : Host) (fuel : nat) (mem0 : heap) (done : list property)
      (p : property) (m : Deserializer.machine) :
  Deserializer.memory m = mem0 ++ [flat_object done] ->
  is_string (val p) = true ->
  ~ In (key p) (map key done) ->
  exists m',
    Deserializer.deserializeEntry (Deserializer.deserialize_ host (S fuel)) ShorthandType.OBJECT
      (VObject (length mem0)) (entry_parts p) m = (Ok tt, m')
    /\ Deserializer.memory m' = mem0 ++ [flat_object (done ++ [p])].
Proof.
  intros Hmem Hstr Hnew.
  destruct p as [k [| | | | v | | |] c e w]; try discriminate Hstr.
  set (p := {| key := k; val := VString v; configurable := c; enumerable := e; writable := w |}).
  cbn [key] in Hnew.
  unfold Deserializer.deserializeEntry, entry_parts. cbn [nth].
  unfold bind at 1. rewrite block_of_key. cbn [lift SerializedBlockInfo.descriptor].
  unfold bind at 1. rewrite (deserialize_string_block _ _ _ k _ _ _ _ (block_of_key p)).
  unfold bind at 1.
  rewrite (deserialize_string_block _ _ _ v _ _ _ _ (block_of_string v)).
  change (EnscribedType.isCustom ShorthandType.OBJECT) with false.
  change (string_eqb ShorthandType.OBJECT ShorthandType.MAP) with false.
  change (string_eqb ShorthandType.OBJECT ShorthandType.SET) with false.
  change (string_eqb ShorthandType.OBJECT ShorthandType.ARRAY
          || string_eqb ShorthandType.OBJECT ShorthandType.OBJECT) with true.
  cbv iota.
  set (m2 := snd (Deserializer.tick (snd (Deserializer.tick m)))).
  assert (Hmem2 : Deserializer.memory m2 = mem0 ++ [flat_object done]) by exact Hmem.
  unfold bind at 1, ret at 1. unfold bind at 1, ret at 1. unfold bind at 1, ret at 1.
  unfold bind at 1. unfold Deserializer.assign_property, Deserializer.update at 1.
  rewrite Hmem2, lookup_last_object. cbn [internal flat_object].
  unfold assign. cbn [properties extensible proto internal flat_object].
  rewrite find_property_absent by exact Hnew. rewrite insert_last_object.
  unfold Deserializer.applyPropertyDescriptorFlags, Deserializer.update.
  cbn [Deserializer.memory]. rewrite lookup_last_object.
  unfold defineFlags. cbn [properties extensible proto internal].
  rewrite (find_property_last k done) by (assumption || reflexivity).
  cbn [configurable negb andb].
  rewrite (update_property_last k) by (assumption || reflexivity).
  rewrite insert_last_object.
  destruct (has_flags_of p) as (Hc & He & Hw). rewrite Hc, He, Hw.
  eexists. split; reflexivity.
Qed.

Lemma written_nodup_keys (ps : list property) : NoDup (written ps) -> NoDup (map key ps).
Proof.
  induction ps as [| p ps IH]; [constructor |].
  cbn [written flat_map app map]. fold (written ps). intros Hnd.
  apply NoDup_cons in Hnd as [Hk Hnd]. apply NoDup_cons in Hnd as [_ Hnd].
  apply NoDup_cons. split; [| auto].
  intros Hin. apply Hk. apply list_elem_of_In. right.
  apply list_elem_of_In, in_map_iff in Hin. destruct Hin as (q & Eq & Hq).
  rewrite <- Eq. now apply written_keys.
Qed.

(** The entries of such an object fill the object in order. *)
Lemma deserialize_entries (host : Host) (fuel : nat) (mem0 : heap) (ps : list property) :
  forall (done : list property) (m : Deserializer.machine),
    Deserializer.memory m = mem0 ++ [flat_object done] ->
    Forall (fun p => is_string (val p) = true) ps ->
    NoDup (map key (done ++ ps)) ->
    exists m',
      forEach (Deserializer.deserializeEntry (Deserializer.deserialize_ host (S fuel))
                 ShorthandType.OBJECT (VObject (length mem0)))
        (map entry_parts ps) m = (Ok tt, m')
      /\ Deserializer.memory m' = mem0 ++ [flat_object (done ++ ps)].
Proof.
  induction ps as [| p ps IH]; intros done m Hmem Hstr Hnd.
  - exists m. rewrite app_nil_r. split; [reflexivity | exact Hmem].
  - apply Forall_cons in Hstr as [Hp Hstr].
    assert (Hnew : ~ In (key p) (map key done)).
    { rewrite map_app in Hnd. apply NoDup_app in Hnd as (_ & Hnd & _).
      intros Hin. apply (Hnd (key p)); [now apply list_elem_of_In | left]. }
    destruct (deserialize_entry host fuel mem0 done p m Hmem Hp Hnew) as (m1 & Hrun & Hmem1).
    destruct (IH (done ++ [p]) m1 Hmem1 Hstr) as (m' & Hrest & Hmem').
    { now rewrite <- app_assoc. }
    exists m'. cbn [map forEach]. unfold bind. rewrite Hrun. split; [exact Hrest |].
    now rewrite Hmem', <- app_assoc.
Qed.

Lemma entried_text_free (tag : jsstring) (ps : list property) :
  free_of 33 tag -> free_of 33 (entried_text tag ps).
Proof.
  intros Htag. unfold entried_text, entries_text.
  apply free_of_app. split; [exact Htag |].
  change (Tok.TYPE_SEPERATOR ++ Tok.ENTRIED_VALUE_S ++ ?body ++ Tok.ENTRIED_VALUE_E)
    with (124%N :: 123%N :: body ++ [125%N]).
  rewrite !free_of_cons, free_of_app, free_of_cons.
  repeat split; try discriminate; [| intros []].
  apply (join_free 33 44); [discriminate |].
  apply Forall_forall. intros g Hg. apply list_elem_of_In in Hg.
  rewrite map_map in Hg. apply in_map_iff in Hg. destruct Hg as (p & <- & _).
  apply (join_free 33 58); [discriminate |]. unfold entry_parts. repeat constructor.
  - apply key_text_free; first [discriminate | structural_unit].
  - apply string_text_free; first [discriminate | structural_unit].
Qed.

(** What [serialize] returns once the recursive pass on the first
    value has written such a text. *)
Lemma serialize_entried (host : Host) (h : heap) (a : nat) (o : jsobject)
      (st : Serializer.state) (tag : jsstring) (ps : list property) (vs : list jsvalue) :
  Metadata (Serializer.config st) = false ->
  h !! a = Some o ->
  plain_text tag ->
  (forall fuel,
      Serializer.serialize_ host h (S (S fuel)) (VObject a)
        (Serializer.new (Serializer.config st))
      = (Ok (tokens_text (object_tokens tag ps)),
         recorded (ticked (inside (Serializer.config st) a)) vs)) ->
  fst (Serializer.serialize host h (VObject a) st) = Ok (entried_text tag ps).
Proof.
  intros Hmeta Hobj Htag Hpass.
  unfold Serializer.serialize, Serializer.serialize_with.
  apply lookup_lt_Some in Hobj as Hlen.
  destruct (length h) as [| fuel]; [lia |].
  unfold bind at 1. unfold get at 1. unfold bind at 1. unfold Serializer.wipe, put at 1.
  unfold bind at 1. unfold get at 1. cbn [Serializer.new Serializer.config].
  rewrite Hmeta.
  change {| Serializer.config := Serializer.config st; Serializer.ticks := 0;
            Serializer.reference_ids := 0; Serializer.reference_value_map := [];
            Serializer.reference_usage := 0; Serializer.custom_constructors := [] |}
    with (Serializer.new (Serializer.config st)).
  unfold bind at 1. rewrite Hpass.
  unfold bind at 1. unfold get at 1. rewrite custom_constructors_recorded.
  cbn [ticked inside Serializer.custom_constructors ret fst app EMPTY].
  now rewrite clean_entried.
Qed.

(** What [deserialize] returns on such a text once the entries fill
    the holder of its type. *)
Lemma deserialize_entried (host : Host) (x : N) (tag : jsstring) (ps : list property)
      (holder final : jsobject) (m : Deserializer.machine) :
  x <> 91%N -> x <> 35%N -> x <> 64%N -> free_of 124 (x :: tag) -> free_of 33 (x :: tag) ->
  EnscribedType.isSingleton (x :: tag) = false ->
  EnscribedType.isCustom (x :: tag) = false ->
  EnscribedType.isEntried (x :: tag) = true ->
  Deserializer.emptyEntriesHolder (x :: tag) = Deserializer.alloc holder ->
  (forall (fuel : nat) (m1 : Deserializer.machine),
      Deserializer.memory m1 = Deserializer.memory m ++ [holder] ->
      exists m',
        forEach (Deserializer.deserializeEntry (Deserializer.deserialize_ host (S fuel))
                   (x :: tag) (VObject (length (Deserializer.memory m))))
          (map entry_parts ps) m1 = (Ok tt, m')
        /\ Deserializer.memory m' = Deserializer.memory m ++ [final]) ->
  exists m',
    Deserializer.deserialize host (entried_text (x :: tag) ps) [] m
    = (Ok (VObject (length (Deserializer.memory m))), m')
    /\ Deserializer.memory m' = Deserializer.memory m ++ [final].
Proof.
  intros Hkey Hget Hset Hbar Hbang Hsingleton Hcustom Hentried Hholder Hloop.
  unfold Deserializer.deserialize, Deserializer.deserialize_with. unfold bind at 1.
  rewrite setupDependencies_plain by (apply entried_text_free; exact Hbang).
  assert (Hlen : exists fuel, length (entried_text (x :: tag) ps) = S fuel).
  { unfold entried_text, entries_text. rewrite !length_app. cbn [length]. eauto. }
  destruct Hlen as [fuel ->].
  change (Deserializer.deserialize_ host (S (S fuel)) (entried_text (x :: tag) ps) None)
    with (Deserializer.deserialize_body host (Deserializer.deserialize_ host (S fuel))
            (entried_text (x :: tag) ps) None).
  unfold Deserializer.deserialize_body.
  unfold bind at 1. cbn [Deserializer.tick modify]. unfold bind at 1.
  unfold entried_text at 1.
  rewrite (block_of_payload x tag (entries_text (map entry_parts ps))) by assumption.
  cbn [lift SerializedBlockInfo.type SerializedBlockInfo.reference
         SerializedBlockInfo.serializedValue].
  rewrite Hsingleton, Hcustom, Hentried, Hholder.
  cbn [negb andb orb].
  unfold bind at 1. unfold Deserializer.alloc at 1. cbn [Deserializer.memory Deserializer.this].
  match goal with
  | |- context [{| Deserializer.this := ?t;
                   Deserializer.memory := Deserializer.memory m ++ [holder] |}] =>
      set (m1 := {| Deserializer.this := t;
                    Deserializer.memory := Deserializer.memory m ++ [holder] |})
  end.
  destruct (Hloop fuel m1 eq_refl) as (m' & Hrun & Hmem').
  unfold bind at 1, ret at 1. unfold bind at 1. unfold Deserializer.deserializeEntried.
  unfold bind at 1. rewrite extractEntries_flat. cbn [lift]. unfold bind at 1.
  rewrite Hrun. exists m'. split; [reflexivity | exact Hmem'].
Qed.



(** ** Maps of strings *)

Lemma map_set_new (k v : jsvalue) (es : list (jsvalue * jsvalue)) :
  Forall (fun e => sameValueZero (fst e) k = false) es -> map_set k v es = es ++ [(k, v)].
Proof.
  induction 1 as [| [k' v'] es Hk _ IH]; [reflexivity |].
  cbn [map_set app]. cbn [fst] in Hk. now rewrite Hk, IH.
Qed.

(** One entry of such a text adds its pair to the [Map] that is
    being filled. *)
Lemma deserialize_map_entry (host : Host) (fuel : nat) (mem0 : heap)
      (done : list (jsstring * jsstring)) (entry : jsstring * jsstring)
      (m : Deserializer.machine) :
  Deserializer.memory m = mem0 ++ [string_map done] ->
  ~ In (fst entry) (map fst done) ->
  exists m',
    Deserializer.deserializeEntry (Deserializer.deserialize_ host (S fuel)) ShorthandType.MAP
      (VObject (length mem0)) (entry_parts (map_entry entry)) m = (Ok tt, m')
    /\ Deserializer.memory m' = mem0 ++ [string_map (done ++ [entry])].
Proof.
  intros Hmem Hnew. destruct entry as [k v]. cbn [fst] in Hnew.
  unfold Deserializer.deserializeEntry, entry_parts. cbn [nth].
  unfold bind at 1. rewrite block_of_key. cbn [lift SerializedBlockInfo.descriptor].
  unfold bind at 1.
  rewrite (deserialize_string_block _ _ _ k _ _ _ _ (block_of_key (map_entry (k, v)))).
  unfold bind at 1.
  rewrite (deserialize_string_block _ _ _ v _ _ _ _ (block_of_string v)).
  change (EnscribedType.isCustom ShorthandType.MAP) with false.
  change (string_eqb ShorthandType.MAP ShorthandType.MAP) with true.
  change (string_eqb ShorthandType.MAP ShorthandType.SET) with false.
  change (string_eqb ShorthandType.MAP ShorthandType.ARRAY
          || string_eqb ShorthandType.MAP ShorthandType.OBJECT) with false.
  cbv iota.
  set (m2 := snd (Deserializer.tick (snd (Deserializer.tick m)))).
  assert (Hmem2 : Deserializer.memory m2 = mem0 ++ [string_map done]) by exact Hmem.
  unfold bind at 1, ret at 1. unfold bind at 1.
  unfold Deserializer.Map_set, Deserializer.update at 1.
  rewrite Hmem2, lookup_last_object. cbn [internal string_map normalize_key].
  rewrite map_set_new.
  - rewrite insert_last_object. unfold bind, ret. eexists. split; [reflexivity |].
    cbn [Deserializer.memory proto properties extensible]. unfold string_map.
    now rewrite map_app.
  - apply Forall_forall. intros e He. apply list_elem_of_In, in_map_iff in He.
    destruct He as ([k' v'] & <- & Hin).
    cbn [fst string_pair]. apply sameValueZero_string.
    intros [= ->]. apply Hnew. apply in_map_iff. now exists (k, v').
Qed.

Lemma deserialize_map_entries (host : Host) (fuel : nat) (mem0 : heap)
      (entries : list (jsstring * jsstring)) :
  forall (done : list (jsstring * jsstring)) (m : Deserializer.machine),
    Deserializer.memory m = mem0 ++ [string_map done] ->
    NoDup (map fst (done ++ entries)) ->
    exists m',
      forEach (Deserializer.deserializeEntry (Deserializer.deserialize_ host (S fuel))
                 ShorthandType.MAP (VObject (length mem0)))
        (map entry_parts (map map_entry entries)) m = (Ok tt, m')
      /\ Deserializer.memory m' = mem0 ++ [string_map (done ++ entries)].
Proof.
  induction entries as [| entry entries IH]; intros done m Hmem Hnd.
  - exists m. rewrite app_nil_r. split; [reflexivity | exact Hmem].
  - assert (Hnew : ~ In (fst entry) (map fst done)).
    { rewrite map_app in Hnd. apply NoDup_app in Hnd as (_ & Hnd & _).
      intros Hin. apply (Hnd (fst entry)); [now apply list_elem_of_In | left]. }
    destruct (deserialize_map_entry host fuel mem0 done entry m Hmem Hnew)
      as (m1 & Hrun & Hmem1).
    destruct (IH (done ++ [entry]) m1 Hmem1) as (m' & Hrest & Hmem').
    { now rewrite <- app_assoc. }
    exists m'. cbn [map forEach]. unfold bind. rewrite Hrun. split; [exact Hrest |].
    now rewrite Hmem', <- app_assoc.
Qed.

Lemma written_map_keys (entries : list (jsstring * jsstring)) :
  NoDup (written (map map_entry entries)) -> NoDup (map fst entries).
Proof.
  intros H. apply written_nodup_keys in H. now rewrite map_map in H.
Qed.

(** X30. A [Map] from strings to strings without own properties, no
    string occurring twice among its keys and values, round trips
    through the public methods whatever the two instances went
    through before: [serialize] returns [5|{...}] with one entry
    [[1|<key>]%0:1|<value>] for each pair, in order, and
    [deserialize] of that text allocates one new [Map] with the same
    pairs in the same order. *)
Theorem string_map_roundtrip (host : Host) (h : heap) (a : nat)
        (entries : list (jsstring * jsstring)) (st : Serializer.state)
        (m : Deserializer.machine) :
  Metadata (Serializer.config st) = false ->
  h !! a = Some (string_map entries) ->
  NoDup (written (map map_entry entries)) ->
  fst (Serializer.serialize host h (VObject a) st) = Ok (map_text entries)
  /\ exists m',
       Deserializer.deserialize host (map_text entries) [] m
       = (Ok (VObject (length (Deserializer.memory m))), m')
       /\ Deserializer.memory m' = Deserializer.memory m ++ [string_map entries].
Proof.
  intros Hmeta Hobj Hnd. split.
  - apply (serialize_entried host h a (string_map entries) st ShorthandType.MAP
             (map map_entry entries) (written (map map_entry entries))); try assumption.
    + split; apply free_of_text; reflexivity.
    + intros fuel. now apply serialize_string_map.
  - apply (deserialize_entried host 53 [] (map map_entry entries) (string_map [])
             (string_map entries) m); try discriminate; try reflexivity.
    + intros [H | []]. discriminate H.
    + intros [H | []]. discriminate H.
    + intros fuel m1 Hmem.
      apply (deserialize_map_entries host fuel (Deserializer.memory m) entries [] m1 Hmem).
      now apply written_map_keys.
Qed.

(** The statement at [new Map([["a", "x"], ["b", "y"]])] on new
    instances. *)
Lemma string_map_roundtrip_witness :
  fst (Serializer.serialize bitpattern_host [string_map two_entries] (VObject 0)
         (Serializer.new DEFAULT_SHARED_CONFIGURATION))
  = Ok (str "5|{[1|a]%0:1|x,[1|b]%0:1|y}")
  /\ exists m',
       Deserializer.deserialize bitpattern_host (str "5|{[1|a]%0:1|x,[1|b]%0:1|y}") []
         (Deserializer.fresh DEFAULT_SHARED_CONFIGURATION)
       = (Ok (VObject 0), m')
       /\ Deserializer.memory m' = [string_map two_entries].
Proof.
  apply (string_map_roundtrip bitpattern_host [string_map two_entries] 0 two_entries
           (Serializer.new DEFAULT_SHARED_CONFIGURATION)
           (Deserializer.fresh DEFAULT_SHARED_CONFIGURATION)).
  - reflexivity.
  - reflexivity.
  - apply (bool_decide_unpack (NoDup (written (map map_entry two_entries)))).
    vm_compute. reflexivity.
Defined.

(** ** Dependency lists that cannot be satisfied *)

Lemma list_lastIndexOf_bounds (x : jsstring) (l : list jsstring) :
  forall i last : Z,
    (Deserializer.list_lastIndexOf x l i last = last
     \/ i <= Deserializer.list_lastIndexOf x l i last)
    /\ (In x l -> i <= Deserializer.list_lastIndexOf x l i last).
Proof.
  induction l as [| y l IH]; intros i last; cbn [Deserializer.list_lastIndexOf].
  - split; [now left | intros []].
  - destruct (IH (i + 1) (if string_eqb y x then i else last)) as [Hor Hin].
    destruct (string_eqb y x) eqn:E.
    + split; [right | intros _]; destruct Hor as [-> | H]; lia.
    + split; [destruct Hor as [-> | H]; [now left | right; lia] |].
      intros [-> | H]; [now rewrite string_eqb_refl in E |]. specialize (Hin H). lia.
Qed.

Lemma requireAll_missing (provided : list constructor) (names : list jsstring) (missing : jsstring)
      (after : list jsstring) :
  NoDup names ->
  provided_for provided missing = None ->
  forall (before done : list jsstring) (m : Deserializer.machine),
    names = done ++ before ++ missing :: after ->
    Forall (fun name => provided_for provided name <> None) before ->
    exists m',
      Deserializer.requireAll names (before ++ missing :: after) (Z.of_nat (length done))
        provided m
      = (Throw (DeserializerError "Constructor dependency class not provided!"), m')
      /\ same_but_dependencies m m'
      /\ (forall (i : nat) (name : jsstring),
             before !! i = Some name ->
             Deserializer.dependencies (Deserializer.this m') !! N.of_nat (length done + i)
             = provided_for provided name)
      /\ (forall k : N,
             (k < N.of_nat (length done))%N ->
             Deserializer.dependencies (Deserializer.this m') !! k
             = Deserializer.dependencies (Deserializer.this m) !! k).
Proof.
  intros Hnd Hmissing before.
  induction before as [| d before IH]; intros done m Hnames Hall.
  - assert (Hlast : Deserializer.list_lastIndexOf missing names 0 (-1)
                    = Z.of_nat (length done)).
    { rewrite Hnames. cbn [app]. rewrite list_lastIndexOf_found; [lia |].
      rewrite Hnames in Hnd. apply NoDup_app in Hnd as (_ & _ & Hnd).
      apply NoDup_cons in Hnd as [Hnd _]. now rewrite <- list_elem_of_In. }
    exists m. cbn [app Deserializer.requireAll]. rewrite Hlast, Z.eqb_refl. cbn [negb].
    fold (provided_for provided missing). rewrite Hmissing.
    split; [reflexivity |]. split; [repeat split |].
    split; [intros i name H; discriminate H | reflexivity].
  - apply Forall_cons in Hall as [Hd Hall].
    assert (Hlast : Deserializer.list_lastIndexOf d names 0 (-1) = Z.of_nat (length done)).
    { rewrite Hnames. cbn [app]. rewrite list_lastIndexOf_found; [lia |].
      rewrite Hnames in Hnd. apply NoDup_app in Hnd as (_ & _ & Hnd).
      apply NoDup_cons in Hnd as [Hnd _]. now rewrite <- list_elem_of_In. }
    cbn [app Deserializer.requireAll]. rewrite Hlast, Z.eqb_refl. cbn [negb].
    fold (provided_for provided d).
    destruct (provided_for provided d) as [ctor |] eqn:Ector; [| congruence].
    unfold bind at 1. unfold Deserializer.setDependency, modify.
    match goal with
    | |- context [Deserializer.requireAll _ _ _ _ ?s] => set (m1 := s)
    end.
    destruct (IH (done ++ [d]) m1) as (m' & Hrun & Hsame & Hbound & Hkept).
    { now rewrite <- app_assoc. }
    { exact Hall. }
    rewrite length_app in Hrun, Hbound, Hkept. cbn [length] in Hrun, Hbound, Hkept.
    replace (Z.of_nat (length done) + 1) with (Z.of_nat (length done + 1)) by lia.
    exists m'. split; [exact Hrun |]. split; [| split].
    + destruct Hsame as (H1 & H2 & H3 & H4). unfold same_but_dependencies.
      rewrite H1, H2, H3, H4. repeat split.
    + intros [| i] name H.
      * cbn in H. injection H as <-. rewrite Nat.add_0_r, Ector, Hkept by lia.
        subst m1. cbn [Deserializer.this Deserializer.dependencies].
        replace (Z.to_N (Z.of_nat (length done))) with (N.of_nat (length done)) by lia.
        apply lookup_insert_eq.
      * cbn in H. replace (length done + S i)%nat with (length done + 1 + i)%nat by lia.
        now apply Hbound.
    + intros k Hk. rewrite Hkept by lia.
      subst m1. cbn [Deserializer.this Deserializer.dependencies].
      apply lookup_insert_ne. lia.
Qed.

(** X29. A dependency list that cannot be satisfied is rejected by
    [deserialize], the names having no [','], [']'] and ['&']: when
    the first name occurs again in the list, with the error that the
    dependency is listed multiple times, the decoder unchanged; when
    the names are distinct and one of them has no provided
    constructor while those before it have, with the error that the
    class is not provided, and then the names before it stay bound
    in the decoder. *)
Theorem unsatisfied_dependencies_rejected (host : Host) (provided : list constructor)
        (body : jsstring) (m : Deserializer.machine) :
  (forall (name : jsstring) (rest : list jsstring),
      In name rest -> Forall listable (name :: rest) ->
      Deserializer.deserialize host (dependency_header (name :: rest) ++ body) provided m
      = (Throw (DeserializerError "Injected constructor dependency is listed multiple times!"),
         m))
  /\ (forall (before : list jsstring) (missing : jsstring) (after : list jsstring),
         Forall listable (before ++ missing :: after) ->
         NoDup (before ++ missing :: after) ->
         Forall (fun name => provided_for provided name <> None) before ->
         provided_for provided missing = None ->
         exists m',
           Deserializer.deserialize host
             (dependency_header (before ++ missing :: after) ++ body) provided m
           = (Throw (DeserializerError "Constructor dependency class not provided!"), m')
           /\ same_but_dependencies m m'
           /\ (forall (i : nat) (name : jsstring),
                  before !! i = Some name ->
                  Deserializer.dependencies (Deserializer.this m') !! N.of_nat i
                  = provided_for provided name)).
Proof.
  split.
  - intros name rest Hin Hlist.
    unfold Deserializer.deserialize, Deserializer.deserialize_with. unfold bind at 1.
    rewrite setupDependencies_requires by (discriminate || assumption).
    cbn [Deserializer.requireAll Deserializer.list_lastIndexOf]. rewrite string_eqb_refl.
    destruct (list_lastIndexOf_bounds name rest (0 + 1) 0) as [_ Hge]. specialize (Hge Hin).
    replace (Deserializer.list_lastIndexOf name rest (0 + 1) 0 =? 0) with false
      by (symmetry; apply Z.eqb_neq; lia).
    reflexivity.
  - intros before missing after Hlist Hnd Hall Hmissing.
    destruct (requireAll_missing provided (before ++ missing :: after) missing after Hnd
                Hmissing before [] m eq_refl Hall) as (m' & Hrun & Hsame & Hbound & _).
    change (Z.of_nat (length [])) with 0 in Hrun.
    exists m'. split; [| split; [exact Hsame | exact Hbound]].
    unfold Deserializer.deserialize, Deserializer.deserialize_with. unfold bind at 1.
    rewrite setupDependencies_requires by (assumption || (destruct before; discriminate)).
    now rewrite Hrun.
Qed.

(** The statement at the lists [![A,A]!] and [![A,B]!] before the
    text [0], with the class [A] alone provided. *)
Lemma unsatisfied_dependencies_rejected_witness :
  Deserializer.deserialize bitpattern_host (str "![A,A]!0") [Class class_A]
    (Deserializer.fresh DEFAULT_SHARED_CONFIGURATION)
  = (Throw (DeserializerError "Injected constructor dependency is listed multiple times!"),
     Deserializer.fresh DEFAULT_SHARED_CONFIGURATION)
  /\ exists m',
       Deserializer.deserialize bitpattern_host (str "![A,B]!0") [Class class_A]
         (Deserializer.fresh DEFAULT_SHARED_CONFIGURATION)
       = (Throw (DeserializerError "Constructor dependency class not provided!"), m')
       /\ same_but_dependencies (Deserializer.fresh DEFAULT_SHARED_CONFIGURATION) m'
       /\ (forall (i : nat) (name : jsstring),
              [str "A"] !! i = Some name ->
              Deserializer.dependencies (Deserializer.this m') !! N.of_nat i
              = provided_for [Class class_A] name).
Proof.
  destruct (unsatisfied_dependencies_rejected bitpattern_host [Class class_A] (str "0")
              (Deserializer.fresh DEFAULT_SHARED_CONFIGURATION)) as [Hrepeated Hmissing].
  split.
  - apply (Hrepeated (str "A") [str "A"]).
    + now left.
    + repeat constructor; apply free_of_text; reflexivity.
  - apply (Hmissing [str "A"] (str "B") []).
    + repeat constructor; apply free_of_text; reflexivity.
    + apply NoDup_cons. split; [| apply NoDup_singleton].
      rewrite list_elem_of_In. intros [H | []]. discriminate H.
    + repeat constructor. discriminate.
    + reflexivity.
Defined.
